(** * MapCache: locking, multi-tier cache, riak backend and Apache module

    A shallow embedding of the parts of MapCache that its specification
    makes checkable statements about:

    - the lockers of the locking support file (disk, memcache, fallback)
      and [mapcache_lock_or_wait_for_resource];
    - the multi-tier cache backend ([_mapcache_cache_multitier_tile_get]
      and its siblings);
    - the riak backend of [lib/cache_riak2.c] with blank-tile detection;
    - the server configuration merge and the proxy branch of the request
      handler of [apache/mod_mapcache.c].

    C [int]s are [Z], C [double]s are the binary64 numbers of module
    [Double], C strings are [string]s (the characters before the
    terminating NUL), byte buffers are [list byte].  Calls into libraries
    that are not part of the program (APR, apr_memcache, riack, the image
    codecs, the connection pool) are fields of environment classes over an
    abstract world [W]; every stateful function passes the request context
    and the world explicitly. *)

From Stdlib Require Import ZArith QArith Qround Qpower Lqa String Ascii Strings.Byte List Bool Lia.
From stdpp Require Import base gmap strings list pretty.
Import ListNotations.

Set Warnings "-register-all".

Local Open Scope Z_scope.
Local Open Scope list_scope.

(** ** Result codes *)

(** Modelled from the spec: the integer result codes
    [MAPCACHE_SUCCESS], [MAPCACHE_FAILURE], [MAPCACHE_CACHE_MISS],
    [MAPCACHE_TRUE] and [MAPCACHE_FALSE] that the functions below
    return.  They are macros of the header [include/mapcache.h], which
    is not among the source files, so the codes are parameters.  Of
    their values only what the spec says is kept: the outcomes
    [Success], [Miss] and [Failure] of a cache read are three outcomes
    that callers tell apart (4.D), and so are the answers [true] and
    [false] of [exists] and of [lock_or_wait] (4.C, 4.D).  Nothing else
    is known of the values: in particular not whether the code of
    [Failure] differs from the code of [true]. *)
Class ResultCodes := {
  MAPCACHE_SUCCESS : Z;
  MAPCACHE_FAILURE : Z;
  MAPCACHE_CACHE_MISS : Z;
  MAPCACHE_TRUE : Z;
  MAPCACHE_FALSE : Z;
  success_is_not_miss : MAPCACHE_SUCCESS <> MAPCACHE_CACHE_MISS;
  success_is_not_failure : MAPCACHE_SUCCESS <> MAPCACHE_FAILURE;
  miss_is_not_failure : MAPCACHE_CACHE_MISS <> MAPCACHE_FAILURE;
  true_is_not_false : MAPCACHE_TRUE <> MAPCACHE_FALSE
}.

(** ** C doubles *)

Module Double.

(** A C [double] is an IEEE 754 binary64 number.  A finite number is
    kept by its value, a rational; the operations below round their
    exact result to the nearest binary64 number, ties to the even
    mantissa, so the finite values they return are binary64 numbers.
    The two zeros are one value here: the program compares doubles,
    multiplies them, divides them by positive constants and converts
    them to integers, and none of these tells the zeros apart. *)
Inductive double :=
| Finite (value : Q)
| Infinity (negative : bool)
| NaN.

Definition pow2 (e : Z) : Q := Qpower 2 e.

(** The nearest integer, a tie going to the even one. *)
Definition round_half_even (q : Q) : Z :=
  let f := Qfloor q in
  match (q - inject_Z f ?= 1 # 2)%Q with
  | Lt => f
  | Gt => f + 1
  | Eq => if Z.even f then f else f + 1
  end.

(** For [0 < q], the integer [e] with [2^e <= q < 2^(e+1)]. *)
Definition Qlog2 (q : Q) : Z :=
  let e := Z.log2 (Qnum q) - Z.log2 (Zpos (Qden q)) in
  if Qle_bool (pow2 e) q then e else e - 1.

(** Rounding of [0 < q] to binary64: 53 bits of mantissa, the exponent
    no less than -1022 (below it the numbers are subnormal, with a
    spacing of 2^-1074), and infinity from 2^1024 on. *)
Definition round_positive (q : Q) : double :=
  let e := Z.max (Qlog2 q) (-1022) in
  let ulp := pow2 (e - 52) in
  let v := (inject_Z (round_half_even (q / ulp)) * ulp)%Q in
  if Qle_bool (pow2 1024) v then Infinity false else Finite (Qred v).

Definition opp (d : double) : double :=
  match d with
  | Finite q => Finite (Qred (- q))
  | Infinity s => Infinity (negb s)
  | NaN => NaN
  end.

Definition round (q : Q) : double :=
  match (q ?= 0)%Q with
  | Eq => Finite 0
  | Gt => round_positive q
  | Lt => opp (round_positive (- q))
  end.

(** [a * b] *)
Definition mul (a b : double) : double :=
  match a, b with
  | NaN, _ | _, NaN => NaN
  | Finite x, Finite y => round (x * y)
  | Infinity s, Infinity t => Infinity (xorb s t)
  | Infinity s, Finite y | Finite y, Infinity s =>
      match (y ?= 0)%Q with
      | Eq => NaN
      | Gt => Infinity s
      | Lt => Infinity (negb s)
      end
  end.

(** [a / b]; a zero divisor is taken as +0. *)
Definition div (a b : double) : double :=
  match a, b with
  | NaN, _ | _, NaN => NaN
  | Infinity _, Infinity _ => NaN
  | Infinity s, Finite y => Infinity (xorb s (Qnum y <? 0))
  | Finite _, Infinity _ => Finite 0
  | Finite x, Finite y =>
      match (y ?= 0)%Q with
      | Eq =>
          match (x ?= 0)%Q with
          | Eq => NaN
          | Gt => Infinity false
          | Lt => Infinity true
          end
      | _ => round (x / y)
      end
  end.

(** [a < b] and [a <= b]: false when an operand is not a number. *)
Definition ltb (a b : double) : bool :=
  match a, b with
  | NaN, _ | _, NaN => false
  | Finite x, Finite y => negb (Qle_bool y x)
  | Infinity s, Infinity t => s && negb t
  | Infinity s, Finite _ => s
  | Finite _, Infinity t => negb t
  end.

Definition leb (a b : double) : bool :=
  match a, b with
  | NaN, _ | _, NaN => false
  | Finite x, Finite y => Qle_bool x y
  | Infinity s, Infinity t => s || negb t
  | Infinity s, Finite _ => s
  | Finite _, Infinity t => negb t
  end.

(** Conversion of an [int] or an [unsigned int] (32 bits) to [double],
    and an integer constant used as a double: every such integer is a
    binary64 number, so nothing is rounded. *)
Definition of_int (n : Z) : double := Finite (inject_Z n).

(** Conversion of a double to an integer type discards the fraction;
    [None] stands for undefined behaviour: the double is not a number,
    is infinite, or its integral part is not a value of the type. *)
Definition trunc (q : Q) : Z := Z.quot (Qnum q) (Zpos (Qden q)).

Definition to_integer (lo hi : Z) (d : double) : option Z :=
  match d with
  | Finite q =>
      let t := trunc q in
      if (lo <=? t) && (t <=? hi) then Some t else None
  | _ => None
  end.

Definition to_int64 : double -> option Z := to_integer (- 2 ^ 63) (2 ^ 63 - 1).
Definition to_uint32 : double -> option Z := to_integer 0 (2 ^ 32 - 1).

End Double.

(** ** Request context and error ledger *)

Module Ctx.

Inductive mapcache_log_level :=
| MAPCACHE_DEBUG | MAPCACHE_INFO | MAPCACHE_NOTICE | MAPCACHE_WARN
| MAPCACHE_ERROR | MAPCACHE_CRIT | MAPCACHE_ALERT | MAPCACHE_EMERG.

(** A printf-style message is kept as its format and its arguments. *)
Inductive fmt_arg :=
| ArgS (s : string)
| ArgD (n : Z)
| ArgG (d : Double.double).

Record message := Msg { fmt : string; args : list fmt_arg }.

(** The error slot of a context: [_errcode] and [_errmsg]. *)
Record error_slot := ErrorSlot { _errcode : Z; _errmsg : list message }.

Record mapcache_context := Context {
  err : error_slot;
  logged : list (mapcache_log_level * message)
}.

Definition no_error : error_slot := ErrorSlot 0 [].

Definition new_context : mapcache_context := Context no_error [].

(** Modelled from the spec: [has_error()], the cheap predicate of the
    error ledger (4.A); it is the macro [GC_HAS_ERROR(ctx)] of
    [mapcache.h], [ctx->_errcode > 0]. *)
Definition GC_HAS_ERROR (ctx : mapcache_context) : bool :=
  0 <? _errcode (err ctx).

(** Modelled from the spec: [set_error(code, fmt, ...)] of the error
    ledger (4.A) sets an HTTP-style code and a message.  The ledger's
    implementation file is not among the sources. *)
Definition set_error (code : Z) (m : message) (ctx : mapcache_context)
  : mapcache_context :=
  Context (ErrorSlot code (_errmsg (err ctx) ++ [m])) (logged ctx).

(** Modelled from the spec: [clear_errors()] resets the error slot (4.A). *)
Definition clear_errors (ctx : mapcache_context) : mapcache_context :=
  Context no_error (logged ctx).

(** Modelled from the spec: [pop_errors(&saved)] opens a speculative
    section (4.A): it saves the current error and resets the slot. *)
Definition pop_errors (ctx : mapcache_context)
  : error_slot * mapcache_context :=
  (err ctx, Context no_error (logged ctx)).

(** Modelled from the spec: [push_errors(saved)] closes a speculative
    section (4.A) by putting the saved error back: a saved code replaces
    the current one, saved messages go before the current ones. *)
Definition push_errors (saved : error_slot) (ctx : mapcache_context)
  : mapcache_context :=
  Context
    (ErrorSlot
       (if _errcode saved =? 0 then _errcode (err ctx) else _errcode saved)
       (_errmsg saved ++ _errmsg (err ctx)))
    (logged ctx).

(** Modelled from the spec: the log callback of the context (3),
    [ctx->log(ctx, level, fmt, ...)]; the entries are kept in order. *)
Definition log (level : mapcache_log_level) (m : message)
    (ctx : mapcache_context) : mapcache_context :=
  Context (err ctx) (logged ctx ++ [(level, m)]).

End Ctx.

(** ** Lockers (OS-level locking support file) *)

Module Locker.
Import Ctx.

(** [mapcache_lock_result] *)
Inductive mapcache_lock_result :=
| MAPCACHE_LOCK_AQUIRED
| MAPCACHE_LOCK_LOCKED
| MAPCACHE_LOCK_NOENT.

(** The APR status values the lockers tell apart. *)
Inductive apr_status_t :=
| APR_SUCCESS
| APR_EEXIST
| APR_ENOENT
| APR_NOTFOUND
| APR_FAILED (code : Z).

Definition apr_status_eqb (a b : apr_status_t) : bool :=
  match a, b with
  | APR_SUCCESS, APR_SUCCESS | APR_EEXIST, APR_EEXIST
  | APR_ENOENT, APR_ENOENT | APR_NOTFOUND, APR_NOTFOUND => true
  | APR_FAILED x, APR_FAILED y => x =? y
  | _, _ => false
  end.

(** The fields every [mapcache_locker] has, in seconds. *)
Record locker_base := LockerBase {
  timeout : Double.double;
  retry_interval : Double.double
}.

Record mapcache_locker_disk := LockerDiskCfg { dir : string }.

Record mapcache_locker_memcache_server :=
  MemcacheServer { host : string; port : Z }.

Record mapcache_locker_memcache := LockerMemcacheCfg {
  servers : list mapcache_locker_memcache_server;
  key_prefix : option string
}.

(** A locker is one of the three structs that embed [mapcache_locker];
    the constructor plays the role of [self->type] and of the function
    pointers set by the [_create] functions. *)
Inductive mapcache_locker :=
| LockerDisk (base : locker_base) (ldisk : mapcache_locker_disk)
| LockerMemcache (base : locker_base) (lm : mapcache_locker_memcache)
| LockerFallback (base : locker_base) (lockers : list mapcache_locker).

Definition base_of (l : mapcache_locker) : locker_base :=
  match l with
  | LockerDisk b _ | LockerMemcache b _ | LockerFallback b _ => b
  end.

(** An [apr_memcache_t] is known by the servers added to it. *)
Definition apr_memcache_t := list mapcache_locker_memcache_server.

(** What a [void *lock] can point to: nothing, a lock file name
    ([char*]), a [mapcache_lock_memcache], or a
    [struct mapcache_locker_fallback_lock]. *)
Inductive lock_t :=
| lock_null
| lock_disk (lockname : string)
| lock_memcache (memcache : option apr_memcache_t) (lockname : option string)
| lock_fallback (locker : option mapcache_locker) (lock : lock_t).

Definition MAPCACHE_LOCKFILE_PREFIX : string := "_gc_lock".

(** *** Canonical resource names *)

(** The loops over [safeptr]: every character that satisfies [unsafe]
    is overwritten with ['#']. *)
Fixpoint sanitize (unsafe : ascii -> bool) (s : string) : string :=
  match s with
  | EmptyString => EmptyString
  | String c rest => String (if unsafe c then "#"%char else c) (sanitize unsafe rest)
  end.

(** The test of the loop of [lock_filename_for_resource]. *)
Definition disk_unsafe (c : ascii) : bool :=
  Ascii.eqb c " " || Ascii.eqb c "/" || Ascii.eqb c "~" || Ascii.eqb c ".".

(** The test of the loop of [memcache_key_for_resource]:
    ['\r' '\n' '\t' '\f' '\e' '\a' '\b'] are 13, 10, 9, 12, 27, 7, 8. *)
Definition memcache_unsafe (c : ascii) : bool :=
  Ascii.eqb c " " || Ascii.eqb c "/" || Ascii.eqb c "~" || Ascii.eqb c "." ||
  Ascii.eqb c "013" || Ascii.eqb c "010" || Ascii.eqb c "009" ||
  Ascii.eqb c "012" || Ascii.eqb c "027" || Ascii.eqb c "007" ||
  Ascii.eqb c "008".

Definition disk_saferes (resource : string) : string :=
  sanitize disk_unsafe resource.

Definition memcache_saferes (resource : string) : string :=
  sanitize memcache_unsafe resource.

Definition lock_filename_for_resource (ldisk : mapcache_locker_disk)
    (resource : string) : string :=
  let saferes := disk_saferes resource in
  dir ldisk +:+ "/" +:+ MAPCACHE_LOCKFILE_PREFIX +:+ saferes +:+ ".lck".

Definition memcache_key_for_resource (lm : mapcache_locker_memcache)
    (resource : string) : string :=
  let saferes := memcache_saferes resource in
  (match key_prefix lm with Some p => p | None => "" end)
    +:+ MAPCACHE_LOCKFILE_PREFIX +:+ saferes +:+ ".lck".

(** The eleven characters the specification lists. *)
Definition listed_chars : list ascii :=
  [" "; "/"; "~"; "."; "013"; "010"; "009"; "012"; "027"; "007"; "008"]%char.

(** The four characters the disk locker replaces. *)
Definition disk_chars : list ascii := [" "; "/"; "~"; "."]%char.

Fixpoint chars (s : string) : list ascii :=
  match s with
  | EmptyString => []
  | String c rest => c :: chars rest
  end.

(** *** The environment of the lockers

    APR files, the clock and apr_memcache are outside the program.  Every
    call takes the world and returns the world it leaves. *)

Class LockEnv (W : Type) := {
  apr_time_now : W -> Z * W;                 (* microseconds *)
  apr_sleep : Z -> W -> W;
  (* apr_file_open with APR_WRITE|APR_CREATE|APR_EXCL|APR_XTHREAD *)
  apr_file_open_excl : string -> W -> apr_status_t * W;
  getpid : W -> Z;
  (* apr_file_write of the pid followed by apr_file_close *)
  apr_file_write_close : string -> Z -> W -> W;
  apr_stat : string -> W -> apr_status_t * W;
  apr_file_remove : string -> W -> W;
  apr_strerror : apr_status_t -> string;
  apr_memcache_create : Z -> W -> apr_status_t * W;
  apr_memcache_server_create : string -> Z -> W -> apr_status_t * W;
  apr_memcache_add_server :
    apr_memcache_t -> mapcache_locker_memcache_server -> W -> apr_status_t * W;
  apr_memcache_add :
    apr_memcache_t -> string -> string -> Z -> W -> apr_status_t * W;
  apr_memcache_getp : apr_memcache_t -> string -> W -> apr_status_t * W;
  apr_memcache_delete : apr_memcache_t -> string -> W -> apr_status_t * W
}.

Section Lockers.
Context {W : Type} `{LockEnv W} `{ResultCodes}.

(** *** Disk locker *)

Definition mapcache_locker_disk_aquire_lock (ldisk : mapcache_locker_disk)
    (resource : string) (ctx : mapcache_context) (w : W)
  : mapcache_lock_result * lock_t * mapcache_context * W :=
  let lockname := lock_filename_for_resource ldisk resource in
  let lock := lock_disk lockname in
  let '(rv, w) := apr_file_open_excl lockname w in
  if negb (apr_status_eqb rv APR_SUCCESS) then
    if negb (apr_status_eqb rv APR_EEXIST) then
      (MAPCACHE_LOCK_NOENT, lock,
       set_error 500 (Msg "failed to create lockfile %s: %s"
                          [ArgS lockname; ArgS (apr_strerror rv)]) ctx, w)
    else (MAPCACHE_LOCK_LOCKED, lock, ctx, w)
  else
    let pid := getpid w in
    (MAPCACHE_LOCK_AQUIRED, lock, ctx, apr_file_write_close lockname pid w).

Definition mapcache_locker_disk_ping_lock (lock : lock_t)
    (ctx : mapcache_context) (w : W)
  : option (mapcache_lock_result * mapcache_context * W) :=
  match lock with
  | lock_disk lockname =>
      let '(rv, w) := apr_stat lockname w in
      if apr_status_eqb rv APR_ENOENT then Some (MAPCACHE_LOCK_NOENT, ctx, w)
      else Some (MAPCACHE_LOCK_LOCKED, ctx, w)
  | _ => None
  end.

Definition mapcache_locker_disk_release_lock (lock : lock_t)
    (ctx : mapcache_context) (w : W) : option (mapcache_context * W) :=
  match lock with
  | lock_disk lockname => Some (ctx, apr_file_remove lockname w)
  | _ => None
  end.

(** *** Memcache locker *)

(** The [for] loop of [create_memcache] over [lm->servers]. *)
Fixpoint create_memcache_servers (todo : list mapcache_locker_memcache_server)
    (memcache : apr_memcache_t) (ctx : mapcache_context) (w : W)
  : option apr_memcache_t * mapcache_context * W :=
  match todo with
  | [] => (Some memcache, ctx, w)
  | srv :: rest =>
      let '(rv, w) := apr_memcache_server_create (host srv) (port srv) w in
      if negb (apr_status_eqb APR_SUCCESS rv) then
        (None,
         set_error 500 (Msg "memcache locker: failed to create server %s:%d: %s"
                            [ArgS (host srv); ArgD (port srv); ArgS (apr_strerror rv)])
                   ctx, w)
      else
        let '(rv, w) := apr_memcache_add_server memcache srv w in
        if negb (apr_status_eqb APR_SUCCESS rv) then
          (None,
           set_error 500 (Msg "memcache locker: failed to add server %s:%d: %s"
                              [ArgS (host srv); ArgD (port srv); ArgS (apr_strerror rv)])
                     ctx, w)
        else create_memcache_servers rest (memcache ++ [srv]) ctx w
  end.

Definition create_memcache (lm : mapcache_locker_memcache)
    (ctx : mapcache_context) (w : W)
  : option apr_memcache_t * mapcache_context * W :=
  let '(rv, w) := apr_memcache_create (Z.of_nat (length (servers lm))) w in
  if negb (apr_status_eqb APR_SUCCESS rv) then
    (None,
     set_error 500 (Msg "memcache locker: failed to create memcache backend" [])
               ctx, w)
  else create_memcache_servers (servers lm) [] ctx w.

Definition mapcache_locker_memcache_ping_lock (lock : lock_t)
    (ctx : mapcache_context) (w : W)
  : option (mapcache_lock_result * mapcache_context * W) :=
  match lock with
  | lock_null => Some (MAPCACHE_LOCK_NOENT, ctx, w)
  | lock_memcache (Some memcache) (Some lockname) =>
      let '(rv, w) := apr_memcache_getp memcache lockname w in
      if apr_status_eqb rv APR_SUCCESS then Some (MAPCACHE_LOCK_LOCKED, ctx, w)
      else Some (MAPCACHE_LOCK_NOENT, ctx, w)
  | lock_memcache _ _ => Some (MAPCACHE_LOCK_NOENT, ctx, w)
  | _ => None
  end.

(** [lock0] is what the caller's [*lock] holds on entry: it is left as it
    is when [create_memcache] fails.  [self->timeout] is converted to
    the [apr_uint32_t] parameter of [apr_memcache_add]; [None] stands
    for undefined behaviour: the double has no value of that type. *)
Definition mapcache_locker_memcache_aquire_lock (base : locker_base)
    (lm : mapcache_locker_memcache) (resource : string) (lock0 : lock_t)
    (ctx : mapcache_context) (w : W)
  : option (mapcache_lock_result * lock_t * mapcache_context * W) :=
  let lockname := memcache_key_for_resource lm resource in
  let '(memcache, ctx, w) := create_memcache lm ctx w in
  if GC_HAS_ERROR ctx then Some (MAPCACHE_LOCK_NOENT, lock0, ctx, w)
  else
    let lock := lock_memcache memcache (Some lockname) in
    match memcache with
    | None =>
        (* not reached: [create_memcache] returns NULL with an error only *)
        Some (MAPCACHE_LOCK_NOENT, lock, ctx, w)
    | Some mc =>
        match Double.to_uint32 (timeout base) with
        | None => None
        | Some expiry =>
            let '(rv, w) := apr_memcache_add mc lockname "1" expiry w in
            if apr_status_eqb rv APR_SUCCESS
            then Some (MAPCACHE_LOCK_AQUIRED, lock, ctx, w)
            else if apr_status_eqb rv APR_EEXIST
            then Some (MAPCACHE_LOCK_LOCKED, lock, ctx, w)
            else
              Some (MAPCACHE_LOCK_NOENT, lock,
                    set_error 500
                      (Msg "failed to lock resource %s to memcache locker: %s"
                           [ArgS resource; ArgS (apr_strerror rv)]) ctx, w)
        end
    end.

Definition mapcache_locker_memcache_release_lock (lock : lock_t)
    (ctx : mapcache_context) (w : W) : option (mapcache_context * W) :=
  match lock with
  | lock_null => Some (ctx, w)
  | lock_memcache (Some memcache) (Some lockname) =>
      let '(rv, w) := apr_memcache_delete memcache lockname w in
      if negb (apr_status_eqb rv APR_SUCCESS) && negb (apr_status_eqb rv APR_NOTFOUND)
      then Some (set_error 500 (Msg "memcache: failed to delete key %s: %s"
                                    [ArgS lockname; ArgS (apr_strerror rv)]) ctx, w)
      else Some (ctx, w)
  | lock_memcache _ _ => Some (ctx, w)
  | _ => None
  end.

(** *** Fallback locker *)

(** The [for] loop of [mapcache_locker_fallback_aquire_lock] over
    [locker->lockers]; [aquire] is the [aquire_lock] entry of a child,
    [inner] is [fallback_lock->lock].  The test [i < nelts-1] holds when
    children remain after the current one. *)
Definition fallback_children_aquire
    (aquire : mapcache_locker -> string -> lock_t -> mapcache_context -> W ->
              option (mapcache_lock_result * lock_t * mapcache_context * W))
    (resource : string) :=
  fix go (lockers : list mapcache_locker) (inner : lock_t)
         (ctx : mapcache_context) (w : W)
    : option (mapcache_lock_result * lock_t * mapcache_context * W) :=
    match lockers with
    | [] => Some (MAPCACHE_LOCK_NOENT, lock_fallback None inner, ctx, w)
    | child_locker :: rest =>
        let '(error, ctx) := pop_errors ctx in
        match aquire child_locker resource inner ctx w with
        | None => None
        | Some (lock_result, inner, ctx, w) =>
            if negb (GC_HAS_ERROR ctx) then
              Some (lock_result, lock_fallback (Some child_locker) inner,
                    push_errors error ctx, w)
            else
              let ctx := match rest with
                         | [] => ctx
                         | _ :: _ => clear_errors ctx
                         end in
              go rest inner (push_errors error ctx) w
        end
    end.

(** [locker->aquire_lock(ctx, locker, resource, lock)]: dispatch on the
    kind of locker.  [None] stands for undefined behaviour (the
    conversion of the timeout in the memcache acquire). *)
Fixpoint aquire_lock (self : mapcache_locker) (resource : string)
    (lock0 : lock_t) (ctx : mapcache_context) (w : W)
  : option (mapcache_lock_result * lock_t * mapcache_context * W) :=
  match self with
  | LockerDisk _ ldisk =>
      Some (mapcache_locker_disk_aquire_lock ldisk resource ctx w)
  | LockerMemcache base lm =>
      mapcache_locker_memcache_aquire_lock base lm resource lock0 ctx w
  | LockerFallback _ lockers =>
      fallback_children_aquire aquire_lock resource lockers lock_null ctx w
  end.

Definition mapcache_locker_fallback_aquire_lock
    (lockers : list mapcache_locker) (resource : string)
    (ctx : mapcache_context) (w : W) :=
  fallback_children_aquire aquire_lock resource lockers lock_null ctx w.

(** [locker->ping_lock(ctx, locker, lock)].  [None] stands for
    undefined behaviour: a token of the wrong kind, or a fallback token
    whose [locker] is NULL. *)
Fixpoint ping_lock (self : mapcache_locker) (lock : lock_t)
    (ctx : mapcache_context) (w : W) {struct lock}
  : option (mapcache_lock_result * mapcache_context * W) :=
  match self with
  | LockerDisk _ _ => mapcache_locker_disk_ping_lock lock ctx w
  | LockerMemcache _ _ => mapcache_locker_memcache_ping_lock lock ctx w
  | LockerFallback _ _ =>
      (* mapcache_locker_fallback_ping_lock *)
      match lock with
      | lock_fallback (Some flock_locker) flock_lock =>
          ping_lock flock_locker flock_lock ctx w
      | _ => None
      end
  end.

(** [locker->release_lock(ctx, locker, lock)]. *)
Fixpoint release_lock (self : mapcache_locker) (lock : lock_t)
    (ctx : mapcache_context) (w : W) {struct lock}
  : option (mapcache_context * W) :=
  match self with
  | LockerDisk _ _ => mapcache_locker_disk_release_lock lock ctx w
  | LockerMemcache _ _ => mapcache_locker_memcache_release_lock lock ctx w
  | LockerFallback _ _ =>
      (* mapcache_locker_fallback_release_lock *)
      match lock with
      | lock_fallback (Some flock_locker) flock_lock =>
          release_lock flock_locker flock_lock ctx w
      | _ => None
      end
  end.

Definition mapcache_unlock_resource (locker : mapcache_locker) (lock : lock_t)
    (ctx : mapcache_context) (w : W) : option (mapcache_context * W) :=
  release_lock locker lock ctx w.

(** *** lock_or_wait *)

(** The calls [mapcache_lock_or_wait_for_resource] makes on the locker
    and on the clock, in order (a record kept by the embedding, not by
    the program). *)
Inductive lock_call :=
| CallAquire (resource : string)
| CallSleep (usec : Z)
| CallPing (lock : lock_t)
| CallRelease (lock : lock_t).

Definition is_release (c : lock_call) : bool :=
  match c with CallRelease _ => true | _ => false end.

(** [unsigned int waited = apr_time_as_msec(apr_time_now()-start_wait)] *)
Definition waited_msec (start_wait now : Z) : Z :=
  Z.quot (now - start_wait) 1000 mod 2 ^ 32.

(** [waited > locker->timeout*1000]: the product is a double, and the
    unsigned count is converted to a double for the comparison. *)
Definition timed_out (locker : mapcache_locker) (waited : Z) : bool :=
  Double.ltb (Double.mul (timeout (base_of locker)) (Double.of_int 1000))
             (Double.of_int waited).

(** The argument of [apr_sleep]: the double
    [locker->retry_interval * 1000000] converted to [apr_interval_time_t],
    a 64-bit integer. *)
Definition sleep_usec (locker : mapcache_locker) : option Z :=
  Double.to_int64
    (Double.mul (retry_interval (base_of locker)) (Double.of_int 1000000)).

(** The argument of [%g] is [waited/1000.0]. *)
Definition stale_lock_message (waited : Z) : message :=
  Msg "deleting a possibly stale lock after waiting on it for %g seconds"
      [ArgG (Double.div (Double.of_int waited) (Double.of_int 1000))].

(** The [while(rv != MAPCACHE_LOCK_NOENT)] loop; [fuel] bounds the number
    of rounds.  [None]: the fuel is used up, or the behaviour is
    undefined (the argument of [apr_sleep] has no value, or the token
    does not fit the locker). *)
Fixpoint lock_wait_loop (fuel : nat) (locker : mapcache_locker) (lock : lock_t)
    (start_wait : Z) (ctx : mapcache_context) (w : W) (calls : list lock_call)
  : option (Z * mapcache_context * W * list lock_call) :=
  match fuel with
  | O => None
  | S fuel =>
      let '(now, w) := apr_time_now w in
      let waited := waited_msec start_wait now in
      if timed_out locker waited then
        match mapcache_unlock_resource locker lock ctx w with
        | None => None
        | Some (ctx, w) =>
            Some (MAPCACHE_FALSE,
                  log MAPCACHE_ERROR (stale_lock_message waited) ctx, w,
                  calls ++ [CallRelease lock])
        end
      else
        match sleep_usec locker with
        | None => None
        | Some usec =>
            let w := apr_sleep usec w in
            match ping_lock locker lock ctx w with
            | None => None
            | Some (rv, ctx, w) =>
                let calls := calls ++ [CallSleep usec; CallPing lock] in
                match rv with
                | MAPCACHE_LOCK_NOENT => Some (MAPCACHE_FALSE, ctx, w, calls)
                | _ => lock_wait_loop fuel locker lock start_wait ctx w calls
                end
            end
        end
  end.

Definition mapcache_lock_or_wait_for_resource (fuel : nat)
    (locker : mapcache_locker) (resource : string) (lock0 : lock_t)
    (ctx : mapcache_context) (w : W)
  : option (Z * lock_t * mapcache_context * W * list lock_call) :=
  match aquire_lock locker resource lock0 ctx w with
  | None => None
  | Some (rv, lock, ctx, w) =>
      let calls := [CallAquire resource] in
      if GC_HAS_ERROR ctx then Some (MAPCACHE_FAILURE, lock, ctx, w, calls)
      else
        match rv with
        | MAPCACHE_LOCK_AQUIRED => Some (MAPCACHE_TRUE, lock, ctx, w, calls)
        | _ =>
            let '(start_wait, w) := apr_time_now w in
            match lock_wait_loop fuel locker lock start_wait ctx w calls with
            | None => None
            | Some (ret, ctx, w, calls) => Some (ret, lock, ctx, w, calls)
            end
        end
  end.

End Lockers.

End Locker.

(** ** Tiles *)

Module Tile.
Import Ctx.

Definition mapcache_buffer := list byte.

(** [mapcache_image]: width, height and the pixel bytes [data]. *)
Record mapcache_image := Image { img_w : Z; img_h : Z; img_data : list byte }.

(** [mapcache_image_format]: the [mime_type] and the [write] encoder. *)
Record mapcache_image_format := ImageFormat {
  mime_type : option string;
  write : mapcache_context -> option mapcache_image ->
          mapcache_context * option mapcache_buffer
}.

Record mapcache_grid := Grid { grid_name : string; tile_sx : Z; tile_sy : Z }.

Record mapcache_tileset := Tileset {
  tileset_name : string;
  format : option mapcache_image_format
}.

Record mapcache_tile := MkTile {
  tileset : mapcache_tileset;
  grid : mapcache_grid;             (* tile->grid_link->grid *)
  x : Z;
  y : Z;
  z : Z;
  dimensions : list (string * string);
  encoded_data : option mapcache_buffer;
  raw_image : option mapcache_image;
  mtime : Z;
  nodata : Z
}.

Definition set_encoded_data (d : option mapcache_buffer) (t : mapcache_tile) :=
  MkTile (tileset t) (grid t) (x t) (y t) (z t) (dimensions t)
         d (raw_image t) (mtime t) (nodata t).

Definition set_raw_image (i : option mapcache_image) (t : mapcache_tile) :=
  MkTile (tileset t) (grid t) (x t) (y t) (z t) (dimensions t)
         (encoded_data t) i (mtime t) (nodata t).

Definition set_mtime (m : Z) (t : mapcache_tile) :=
  MkTile (tileset t) (grid t) (x t) (y t) (z t) (dimensions t)
         (encoded_data t) (raw_image t) m (nodata t).

Definition set_nodata (n : Z) (t : mapcache_tile) :=
  MkTile (tileset t) (grid t) (x t) (y t) (z t) (dimensions t)
         (encoded_data t) (raw_image t) (mtime t) n.

(** The immutable identity of a tile: tileset, grid, x, y, z, dimensions. *)
Definition tile_id (t : mapcache_tile)
  : string * string * Z * Z * Z * list (string * string) :=
  (tileset_name (tileset t), grid_name (grid t), x t, y t, z t, dimensions t).

End Tile.

(** ** Multi-tier cache backend *)

Module Multitier.
Import Ctx Tile.

(** The entry points of a child cache, [mapcache_cache_tile_get] and its
    siblings applied to a [mapcache_cache*]: they belong to the generic
    cache layer and to the child backends, so they are an interface here.
    A call gets the tile, the context and the world and returns them as
    it leaves them. *)
Class CacheApi (cache W : Type) := {
  cache_name : cache -> string;
  mapcache_cache_tile_get :
    cache -> mapcache_tile -> mapcache_context -> W ->
    Z * mapcache_tile * mapcache_context * W;
  mapcache_cache_tile_set :
    cache -> mapcache_tile -> mapcache_context -> W ->
    mapcache_tile * mapcache_context * W;
  mapcache_cache_tile_exists :
    cache -> mapcache_tile -> mapcache_context -> W ->
    Z * mapcache_context * W;
  mapcache_cache_tile_delete :
    cache -> mapcache_tile -> mapcache_context -> W ->
    mapcache_context * W;
  mapcache_cache_tile_multi_set :
    cache -> list mapcache_tile -> mapcache_context -> W ->
    list mapcache_tile * mapcache_context * W
}.

Record mapcache_cache_multitier (cache : Type) := MultitierCache {
  name : string;
  caches : list cache;
  write_cache_idx : Z
}.
Arguments MultitierCache {cache}.
Arguments name {cache}.
Arguments caches {cache}.
Arguments write_cache_idx {cache}.

Section MultitierOps.
Context {cache W : Type} `{CacheApi cache W} `{ResultCodes}.

Definition tile_args (tile : mapcache_tile) (subcache : cache) : list fmt_arg :=
  [ArgS (tileset_name (tileset tile)); ArgD (z tile); ArgD (y tile);
   ArgD (x tile); ArgS (cache_name subcache)].

Fixpoint _mapcache_cache_multitier_tile_exists_loop (subcaches : list cache)
    (tile : mapcache_tile) (ctx : mapcache_context) (w : W)
  : Z * mapcache_context * W :=
  match subcaches with
  | [] => (MAPCACHE_FALSE, ctx, w)
  | subcache :: rest =>
      let '(r, ctx, w) := mapcache_cache_tile_exists subcache tile ctx w in
      if r =? MAPCACHE_TRUE then (MAPCACHE_TRUE, ctx, w)
      else _mapcache_cache_multitier_tile_exists_loop rest tile ctx w
  end.

Definition _mapcache_cache_multitier_tile_exists
    (pcache : mapcache_cache_multitier cache) :=
  _mapcache_cache_multitier_tile_exists_loop (caches pcache).

Fixpoint _mapcache_cache_multitier_tile_delete_loop (subcaches : list cache)
    (tile : mapcache_tile) (ctx : mapcache_context) (w : W)
  : mapcache_context * W :=
  match subcaches with
  | [] => (ctx, w)
  | subcache :: rest =>
      let '(ctx, w) := mapcache_cache_tile_delete subcache tile ctx w in
      (* ignore errors *)
      _mapcache_cache_multitier_tile_delete_loop rest tile (clear_errors ctx) w
  end.

Definition _mapcache_cache_multitier_tile_delete
    (pcache : mapcache_cache_multitier cache) :=
  _mapcache_cache_multitier_tile_delete_loop (caches pcache).

(** The inner loop [for(--i;i>=0;i--)] of the read: [upper] lists the
    caches in the order the loop visits them, from index [i-1] down to
    index 0. *)
Fixpoint multitier_promote (upper : list cache) (tile : mapcache_tile)
    (ctx : mapcache_context) (w : W) : mapcache_tile * mapcache_context * W :=
  match upper with
  | [] => (tile, ctx, w)
  | subcache :: rest =>
      let '(tile, ctx, w) := mapcache_cache_tile_set subcache tile ctx w in
      (* silently ignore these errors *)
      let ctx := clear_errors ctx in
      let ctx := log MAPCACHE_DEBUG
                     (Msg "transferring tile (%s,z=%d,y=%d,x=%d) to cache (%s)"
                          (tile_args tile subcache)) ctx in
      multitier_promote rest tile ctx w
  end.

(** The loop [for(i=1; i<nelts; i++)] of the read, entered at index [i]
    with [below] the caches of index [i] and more. *)
Fixpoint multitier_descend (all : list cache) (i : nat) (below : list cache)
    (tile : mapcache_tile) (ctx : mapcache_context) (w : W)
  : Z * mapcache_tile * mapcache_context * W :=
  match below with
  | [] => (MAPCACHE_CACHE_MISS, tile, ctx, w)
  | subcache :: rest =>
      let '(r, tile, ctx, w) := mapcache_cache_tile_get subcache tile ctx w in
      if r =? MAPCACHE_SUCCESS then
        let ctx := log MAPCACHE_DEBUG
                       (Msg "got tile (%s,z=%d,y=%d,x=%d) from secondary cache (%s)"
                            (tile_args tile subcache)) ctx in
        let '(tile, ctx, w) := multitier_promote (rev (firstn i all)) tile ctx w in
        (MAPCACHE_SUCCESS, tile, ctx, w)
      else multitier_descend all (S i) rest tile ctx w
  end.

(** [None]: the array of children is empty and [APR_ARRAY_IDX(caches,0)]
    reads past it. *)
Definition _mapcache_cache_multitier_tile_get
    (pcache : mapcache_cache_multitier cache) (tile : mapcache_tile)
    (ctx : mapcache_context) (w : W)
  : option (Z * mapcache_tile * mapcache_context * W) :=
  match caches pcache with
  | [] => None
  | subcache :: rest =>
      let '(ret, tile, ctx, w) := mapcache_cache_tile_get subcache tile ctx w in
      if ret =? MAPCACHE_CACHE_MISS then
        Some (multitier_descend (caches pcache) 1 rest tile ctx w)
      else Some (ret, tile, ctx, w)
  end.

(** [None]: [write_cache_idx] is not an index of the array. *)
Definition _mapcache_cache_multitier_tile_set
    (pcache : mapcache_cache_multitier cache) (tile : mapcache_tile)
    (ctx : mapcache_context) (w : W)
  : option (mapcache_tile * mapcache_context * W) :=
  if write_cache_idx pcache <? 0 then None
  else
    match nth_error (caches pcache) (Z.to_nat (write_cache_idx pcache)) with
    | None => None
    | Some subcache => Some (mapcache_cache_tile_set subcache tile ctx w)
    end.

Definition _mapcache_cache_multitier_tile_multi_set
    (pcache : mapcache_cache_multitier cache) (tiles : list mapcache_tile)
    (ctx : mapcache_context) (w : W)
  : option (list mapcache_tile * mapcache_context * W) :=
  if write_cache_idx pcache <? 0 then None
  else
    match nth_error (caches pcache) (Z.to_nat (write_cache_idx pcache)) with
    | None => None
    | Some subcache => Some (mapcache_cache_tile_multi_set subcache tiles ctx w)
    end.

End MultitierOps.

End Multitier.

(** ** Riak cache backend (lib/cache_riak2.c) *)

Module Riak.
Import Ctx Tile.

(** [riack_content]: [data] with [data_len] its length, [content_type]
    with NULL as [None], and the modification time fields. *)
Record riack_content := RiackContent {
  data : list byte;
  content_type : option string;
  last_modified_present : Z;
  last_modified : Z;
  last_modified_usecs_present : Z;
  last_modified_usecs : Z
}.

(** [riack_object]: [content] with [content_count] its length. *)
Record riack_object := RiackObject {
  bucket : string;
  key : string;
  vclock_len : Z;
  content : list riack_content
}.

Definition content_count (o : riack_object) : Z := Z.of_nat (length (content o)).
Definition data_len (c : riack_content) : Z := Z.of_nat (length (data c)).

Record riack_get_properties := GetProps { r_use : Z; r_val : Z }.
Record riack_put_properties :=
  PutProps { w_use : Z; w_val : Z; dw_use : Z; dw_val : Z }.
Record riack_del_properties := DelProps { rw_use : Z; rw_val : Z }.

Record riack_connection_options := ConnOptions {
  recv_timeout_ms : Z; send_timeout_ms : Z; keep_alive_enabled : Z
}.

Record riack_security_options := SecOptions {
  sec_ca_file : option string; sec_key_file : option string;
  sec_cert_file : option string; sec_ciphers : option string;
  sec_session_timeout : Z
}.

Record mapcache_cache_riak := RiakCache {
  cache_name : string;                      (* cache.name *)
  host : option string;
  ciphers : option string;
  ca_file : option string;
  cert_file : option string;
  key_file : option string;
  port : Z;
  key_template : option string;
  bucket_template : string;
  bucket_type_template : option string;
  keep_alive : Z;
  cache_r : Z;
  cache_w : Z;
  session_timeout : Z;
  detect_blank : Z;
  user : option string;
  password : option string
}.

Inductive mapcache_image_format_type := GC_UNKNOWN | GC_PNG | GC_JPEG.

(** [mapcache_pooled_connection]: [connection] is the riack client. *)
Record mapcache_pooled_connection (client : Type) := PooledConnection {
  connection : client
}.
Arguments PooledConnection {client}.
Arguments connection {client}.

(** The environment of the backend: the riack client library, the
    connection pool, the tile key template expansion and the image
    codecs.  [RIACK_SUCCESS] is riack's success code, and
    [RIACK_HAVE_SECURITY] says whether riack's header defines the macro
    of that name, that is whether riack was built with TLS and
    authentication. *)
Class RiakEnv (W client : Type) := {
  RIACK_SUCCESS : Z;
  RIACK_HAVE_SECURITY : bool;
  mapcache_util_get_tile_key :
    mapcache_context -> mapcache_tile -> option string -> string -> string ->
    mapcache_context * string;
  riack_new_client : W -> option client * W;
  riack_connect :
    client -> option string -> Z -> riack_connection_options -> W -> Z * W;
  riack_start_tls : client -> riack_security_options -> W -> Z * W;
  riack_auth : client -> option string -> option string -> W -> Z * W;
  riack_ping : client -> W -> Z * W;
  riack_free : client -> W -> W;
  riack_reconnect : client -> W -> Z * W;
  riack_get_ext :
    client -> string -> string -> riack_get_properties -> option string ->
    W -> Z * option riack_object * W;
  riack_put_ext :
    client -> riack_object -> option string -> riack_put_properties ->
    W -> Z * W;
  riack_delete_ext :
    client -> string -> option string -> string -> riack_del_properties ->
    W -> Z * W;
  mapcache_connection_pool_get_connection :
    mapcache_context -> string ->
    (mapcache_context -> W -> mapcache_context * option client * W) ->
    W -> mapcache_context * option (mapcache_pooled_connection client) * W;
  mapcache_connection_pool_release_connection :
    mapcache_context -> mapcache_pooled_connection client -> W ->
    mapcache_context * W;
  mapcache_connection_pool_invalidate_connection :
    mapcache_context -> mapcache_pooled_connection client -> W ->
    mapcache_context * W;
  mapcache_imageio_decode :
    mapcache_context -> option mapcache_buffer ->
    mapcache_context * option mapcache_image;
  mapcache_image_blank_color : option mapcache_image -> Z;
  (* the PNG encoding of the blank image of a width, a height and a
     colour (four bytes, RGBA) *)
  empty_png_data : Z -> Z -> list byte -> mapcache_buffer;
  mapcache_imageio_header_sniff :
    mapcache_context -> option mapcache_buffer -> mapcache_image_format_type
}.

(** The characters [" \r\n\t\f\e\a\b"] handed to the key expansion. *)
Definition key_sanitized_chars : string :=
  String " " (String "013" (String "010" (String "009" (String "012"
    (String "027" (String "007" (String "008" EmptyString))))))).

Definition blank_content_type : string := "image/mapcache-rgba".

(** [apr_time_make(sec, usec)] *)
Definition apr_time_make (sec usec : Z) : Z := sec * 1000000 + usec.

Fixpoint has_brace (s : string) : bool :=
  match s with
  | EmptyString => false
  | String c rest => Ascii.eqb c "{" || has_brace rest
  end.

Section RiakOps.
Context {W client : Type} `{RiakEnv W client} `{ResultCodes}.

(** Modelled from the spec: [mapcache_empty_png_decode(ctx, width,
    height, hex_color, &is_empty)], a function of the image codecs,
    which are not among the sources.  The read of a stored sentinel is
    to "expand back to a blank tile of the grid's tile size" (4.F): the
    function returns the blank tile of that width and height in the
    colour of the sentinel, the four bytes after ['#'], "encoded via the
    empty-png pipeline" (8, scenario 3).  The tile read is then a blank
    tile, for which [nodata] is true (3; 8, scenario 3): the
    out-parameter is set.  No error is raised. *)
Definition mapcache_empty_png_decode (ctx : mapcache_context)
    (width height : Z) (hex_color : list byte) (is_empty : Z)
  : mapcache_context * option mapcache_buffer * Z :=
  (ctx, Some (empty_png_data width height (drop 1 hex_color)), 1).

Definition mapcache_riak_connection_constructor (cache : mapcache_cache_riak)
    (ctx : mapcache_context) (w : W)
  : mapcache_context * option client * W :=
  match riack_new_client w with
  | (None, w) =>
      (set_error 500 (Msg "failed to riack_new_client(0)" []) ctx, None, w)
  | (Some cl, w) =>
      let options := ConnOptions 2000 2000 (keep_alive cache) in
      let '(rc, w) := riack_connect cl (host cache) (port cache) options w in
      if negb (rc =? RIACK_SUCCESS) then
        (set_error 500 (Msg "failed to riack_connect()" []) ctx, None,
         riack_free cl w)
      else
        (* #ifdef RIACK_HAVE_SECURITY ... if (cache->user) *)
        let secured :=
          match (if RIACK_HAVE_SECURITY then user cache else None) with
          | None => (ctx, true, w)
          | Some _ =>
              let security :=
                SecOptions (ca_file cache) (key_file cache) (cert_file cache)
                           (ciphers cache) (session_timeout cache) in
              let '(rc, w) := riack_start_tls cl security w in
              if negb (rc =? RIACK_SUCCESS) then
                (set_error 500
                   (Msg "failed to riack_start_tls(), check certificates, ciphers" [])
                   ctx, false, riack_free cl w)
              else
                let '(rc, w) := riack_auth cl (user cache) (password cache) w in
                if negb (rc =? RIACK_SUCCESS) then
                  (set_error 500
                     (Msg "failed to riack_auth(), check user, password" [])
                     ctx, false, riack_free cl w)
                else (ctx, true, w)
          end in
        let '(ctx, ok, w) := secured in
        if negb ok then (ctx, None, w)
        else
          let '(rc, w) := riack_ping cl w in
          if negb (rc =? RIACK_SUCCESS) then
            (set_error 500 (Msg "failed to riack_ping()" []) ctx, None,
             riack_free cl w)
          else (ctx, Some cl, w)
  end.

Definition _riak_get_connection (ctx : mapcache_context)
    (cache : mapcache_cache_riak) (w : W) :=
  mapcache_connection_pool_get_connection ctx (cache_name cache)
    (mapcache_riak_connection_constructor cache) w.

Definition string_from_template (ctx : mapcache_context) (tile : mapcache_tile)
    (template_string : string) : mapcache_context * string :=
  if has_brace template_string then
    mapcache_util_get_tile_key ctx tile (Some template_string)
                               key_sanitized_chars "#"
  else (ctx, template_string).

(** The [for] loop around [riack_reconnect]; called with
    [n = Z.to_nat retries], the number of times [retries] can be
    decremented while it is positive. *)
Fixpoint riak_reconnect_loop (n : nat) (cl : client) (retries : Z) (w : W)
  : Z * Z * W :=
  let '(connect_error, w) := riack_reconnect cl w in
  if negb (connect_error =? RIACK_SUCCESS) && (0 <? retries) then
    match n with
    | O => (connect_error, retries, w)
    | S n => riak_reconnect_loop n cl (retries - 1) w
    end
  else (connect_error, retries, w).

(** The [do ... while (error != RIACK_SUCCESS && retries >= 0)] loops.
    [op] is the riack request, [retry_message] the warning logged before
    a reconnection.  Called with [n = Z.to_nat (retries + 1)]: every
    failed round takes at least one from [retries]. *)
Fixpoint riak_retry {X : Type} (n : nat) (op : W -> Z * X * W)
    (retry_message : Z -> Z -> message) (cl : client)
    (retries connect_error : Z) (ctx : mapcache_context) (w : W)
  : Z * Z * X * mapcache_context * W :=
  let '(error, obj, w) := op w in
  if negb (error =? RIACK_SUCCESS) then
    let ctx := log MAPCACHE_WARN (retry_message (4 - retries) error) ctx in
    let '(connect_error, retries, w) :=
      riak_reconnect_loop (Z.to_nat retries) cl retries w in
    let retries := retries - 1 in
    if 0 <=? retries then
      match n with
      | O => (error, connect_error, obj, ctx, w)
      | S n => riak_retry n op retry_message cl retries connect_error ctx w
      end
    else (error, connect_error, obj, ctx, w)
  else (error, connect_error, obj, ctx, w).

(** [retries = 3] on entry, hence four rounds at most. *)
Definition riak_retry3 {X : Type} (op : W -> Z * X * W)
    (retry_message : Z -> Z -> message) (cl : client)
    (ctx : mapcache_context) (w : W) :=
  riak_retry (Z.to_nat (3 + 1)) op retry_message cl 3 RIACK_SUCCESS ctx w.

(** The common prologue of the four operations: key, bucket, bucket
    type.  [inl] is the state at the [GC_HAS_ERROR] test that fired. *)
Definition riak_names (cache : mapcache_cache_riak) (tile : mapcache_tile)
    (ctx : mapcache_context)
  : mapcache_context + (mapcache_context * string * string * option string) :=
  let '(ctx, key) :=
    mapcache_util_get_tile_key ctx tile (key_template cache)
                               key_sanitized_chars "#" in
  if GC_HAS_ERROR ctx then inl ctx
  else
    let '(ctx, bucket) := string_from_template ctx tile (bucket_template cache) in
    if GC_HAS_ERROR ctx then inl ctx
    else
      match bucket_type_template cache with
      | None => inr (ctx, key, bucket, None)
      | Some t =>
          let '(ctx, bucket_type) := string_from_template ctx tile t in
          if GC_HAS_ERROR ctx then inl ctx
          else inr (ctx, key, bucket, Some bucket_type)
      end.

Definition get_properties (cache : mapcache_cache_riak) : riack_get_properties :=
  if 0 <? cache_r cache then GetProps 1 (cache_r cache) else GetProps 0 0.

(** After a failed request: invalidate or release the connection. *)
Definition riak_drop_connection (connect_error : Z) (ctx : mapcache_context)
    (pc : mapcache_pooled_connection client) (w : W) : mapcache_context * W :=
  if negb (connect_error =? RIACK_SUCCESS)
  then mapcache_connection_pool_invalidate_connection ctx pc w
  else mapcache_connection_pool_release_connection ctx pc w.

(** [obj->object.content_count < 1 || obj->object.content[0].data_len == 0] *)
Definition no_content (obj : riack_object) : bool :=
  match content obj with
  | [] => true
  | c :: _ => data_len c =? 0
  end.

Definition has_tile_retry_message (key : string) (cache : mapcache_cache_riak)
    (attempt error : Z) : message :=
  Msg "Retry %d in riak_has_tile for tile %s from cache %s due to error %d"
      [ArgD attempt; ArgS key; ArgS (cache_name cache); ArgD error].

Definition get_retry_message (key : string) (cache : mapcache_cache_riak)
    (attempt error : Z) : message :=
  Msg "Retry %d in riak_get for tile %s from cache %s due to error %d"
      [ArgD attempt; ArgS key; ArgS (cache_name cache); ArgD error].

Definition set_retry_message (key : string) (cache : mapcache_cache_riak)
    (attempt error : Z) : message :=
  Msg "Retry %d in riak_set for tile %s from cache %s due to error %d"
      [ArgD attempt; ArgS key; ArgS (cache_name cache); ArgD error].

Definition delete_retry_message (key : string) (cache : mapcache_cache_riak)
    (attempt error : Z) : message :=
  Msg "Retry %d in riak_delete for tile %s from cache %s due to error %d"
      [ArgD attempt; ArgS key; ArgS (cache_name cache); ArgD error].

(** [None] stands for undefined behaviour: a NULL connection or a NULL
    object is read without an error having been raised. *)
Definition _mapcache_cache_riak_has_tile (cache : mapcache_cache_riak)
    (tile : mapcache_tile) (ctx : mapcache_context) (w : W)
  : option (Z * mapcache_context * W) :=
  match riak_names cache tile ctx with
  | inl ctx => Some (MAPCACHE_FALSE, ctx, w)
  | inr (ctx, key, bucket, pbucket_type) =>
      let '(ctx, pc, w) := _riak_get_connection ctx cache w in
      if GC_HAS_ERROR ctx then Some (MAPCACHE_FALSE, ctx, w)
      else
        match pc with
        | None => None
        | Some pc =>
            let cl := connection pc in
            let properties := get_properties cache in
            let '(error, connect_error, obj, ctx, w) :=
              riak_retry3 (riack_get_ext cl bucket key properties pbucket_type)
                          (has_tile_retry_message key cache) cl ctx w in
            if negb (error =? RIACK_SUCCESS) then
              let '(ctx, w) := riak_drop_connection connect_error ctx pc w in
              Some (MAPCACHE_FALSE,
                    set_error 500 (Msg "riak: failed to get key %s: %d"
                                       [ArgS key; ArgD error]) ctx, w)
            else
              match obj with
              | None => None
              | Some obj =>
                  let error := if no_content obj then MAPCACHE_FALSE
                               else MAPCACHE_TRUE in
                  let '(ctx, w) :=
                    mapcache_connection_pool_release_connection ctx pc w in
                  Some (error, ctx, w)
              end
        end
  end.

Definition _mapcache_cache_riak_delete (cache : mapcache_cache_riak)
    (tile : mapcache_tile) (ctx : mapcache_context) (w : W)
  : option (mapcache_context * W) :=
  match riak_names cache tile ctx with
  | inl ctx => Some (ctx, w)
  | inr (ctx, key, bucket, pbucket_type) =>
      let '(ctx, pc, w) := _riak_get_connection ctx cache w in
      if GC_HAS_ERROR ctx then Some (ctx, w)
      else
        match pc with
        | None => None
        | Some pc =>
            let cl := connection pc in
            let properties := DelProps 1 (4294967295 - 3) in
            let '(error, connect_error, _, ctx, w) :=
              riak_retry3
                (fun w => let '(e, w) :=
                            riack_delete_ext cl bucket pbucket_type key properties w
                          in (e, tt, w))
                (delete_retry_message key cache) cl ctx w in
            let '(ctx, w) := riak_drop_connection connect_error ctx pc w in
            if negb (error =? RIACK_SUCCESS) then
              Some (set_error 500 (Msg "riak: failed to delete key %s: %d"
                                       [ArgS key; ArgD error]) ctx, w)
            else Some (ctx, w)
        end
  end.

(** The test that recognises a stored blank tile: first byte ['#'], five
    bytes, content type [image/mapcache-rgba]. *)
Definition is_blank_sentinel (c : riack_content) : bool :=
  match data c with
  | first :: _ => Byte.eqb first "#"%byte
  | [] => false
  end
  && (data_len c =? 5)
  && match content_type c with
     | Some t => String.eqb t blank_content_type
     | None => false
     end.

(** The part of [_mapcache_cache_riak_get] after a successful request
    that returned content [c]. *)
Definition riak_get_fill (c : riack_content) (tile : mapcache_tile)
    (ctx : mapcache_context) : mapcache_tile * mapcache_context :=
  let tile := set_encoded_data (Some []) tile in
  let '(tile, ctx) :=
    if is_blank_sentinel c then
      (* Create blank tile *)
      let '(ctx, buf, is_empty) :=
        mapcache_empty_png_decode ctx (tile_sx (grid tile)) (tile_sy (grid tile))
                                  (data c) (nodata tile) in
      (set_nodata is_empty (set_encoded_data buf tile), ctx)
    else
      (* Copy the data into the buffer *)
      (set_encoded_data (Some ([] ++ data c)) tile, ctx) in
  let tile :=
    if negb (last_modified_present c =? 0)
       && negb (last_modified_usecs_present c =? 0)
    then set_mtime (apr_time_make (last_modified c) (last_modified_usecs c)) tile
    else if negb (last_modified_present c =? 0)
    then set_mtime (apr_time_make (last_modified c) 0) tile
    else tile in
  (tile, ctx).

Definition _mapcache_cache_riak_get (cache : mapcache_cache_riak)
    (tile : mapcache_tile) (ctx : mapcache_context) (w : W)
  : option (Z * mapcache_tile * mapcache_context * W) :=
  match riak_names cache tile ctx with
  | inl ctx => Some (MAPCACHE_FAILURE, tile, ctx, w)
  | inr (ctx, key, bucket, pbucket_type) =>
      let '(ctx, pc, w) := _riak_get_connection ctx cache w in
      if GC_HAS_ERROR ctx then Some (MAPCACHE_FAILURE, tile, ctx, w)
      else
        match pc with
        | None => None
        | Some pc =>
            let cl := connection pc in
            let properties := get_properties cache in
            let '(error, connect_error, obj, ctx, w) :=
              riak_retry3 (riack_get_ext cl bucket key properties pbucket_type)
                          (get_retry_message key cache) cl ctx w in
            if negb (error =? RIACK_SUCCESS) then
              let '(ctx, w) := riak_drop_connection connect_error ctx pc w in
              Some (MAPCACHE_FAILURE, tile,
                    set_error 500
                      (Msg "Failed to get tile %s from cache %s due to error %d"
                           [ArgS key; ArgS (cache_name cache); ArgD error]) ctx,
                    w)
            else
              match obj with
              | None => None
              | Some obj =>
                  (* Check if tile exists. *)
                  match content obj with
                  | [] =>
                      let '(ctx, w) :=
                        mapcache_connection_pool_release_connection ctx pc w in
                      Some (MAPCACHE_CACHE_MISS, tile, ctx, w)
                  | c :: _ =>
                      if data_len c =? 0 then
                        let '(ctx, w) :=
                          mapcache_connection_pool_release_connection ctx pc w in
                        Some (MAPCACHE_CACHE_MISS, tile, ctx, w)
                      else
                        let '(tile, ctx) := riak_get_fill c tile ctx in
                        let '(ctx, w) :=
                          mapcache_connection_pool_release_connection ctx pc w in
                        Some (MAPCACHE_SUCCESS, tile, ctx, w)
                  end
              end
        end
  end.

(** How far [_mapcache_cache_riak_set] gets before the request is sent:
    it has returned through a [GC_CHECK_ERROR], or it holds a connection
    and the object to put. *)
Inductive set_stage :=
| SetReturned (tile : mapcache_tile) (ctx : mapcache_context) (w : W)
| SetReady (tile : mapcache_tile) (ctx : mapcache_context) (w : W)
           (pc : mapcache_pooled_connection client) (object : riack_object)
           (pbucket_type : option string) (properties : riack_put_properties).

(** [memcpy(buf+1, tile->raw_image->data, 4)] after [buf[0] = '#']:
    [None] when the image has fewer than four bytes to read. *)
Definition blank_sentinel (img : mapcache_image) : option mapcache_buffer :=
  match img_data img with
  | b0 :: b1 :: b2 :: b3 :: _ => Some ["#"%byte; b0; b1; b2; b3]
  | _ => None
  end.

(** The block [if(cache->detect_blank)]: the tile, the context and
    [content_type] after it.  [Some (inl _)]: returned through
    [GC_CHECK_ERROR]; [None]: undefined behaviour. *)
Definition riak_detect_blank (cache : mapcache_cache_riak)
    (tile : mapcache_tile) (ctx : mapcache_context)
  : option (mapcache_tile * mapcache_context
            + mapcache_tile * mapcache_context * option string) :=
  if negb (detect_blank cache =? 0) then
    let '(tile, ctx, returned) :=
      match raw_image tile with
      | None =>
          let '(ctx, img) := mapcache_imageio_decode ctx (encoded_data tile) in
          (set_raw_image img tile, ctx, GC_HAS_ERROR ctx)
      | Some _ => (tile, ctx, false)
      end in
    if returned then Some (inl (tile, ctx))
    else if negb (mapcache_image_blank_color (raw_image tile) =? MAPCACHE_FALSE)
    then
      match raw_image tile with
      | None => None
      | Some img =>
          match blank_sentinel img with
          | None => None
          | Some buf =>
              Some (inr (set_encoded_data (Some buf) tile, ctx,
                         Some blank_content_type))
          end
      end
    else Some (inr (tile, ctx, None))
  else Some (inr (tile, ctx, None)).

Definition put_properties (cache : mapcache_cache_riak) : riack_put_properties :=
  if 0 <? cache_w cache
  then PutProps 1 (cache_w cache) 1 (cache_w cache)
  else PutProps 0 0 0 0.

Definition riak_set_prepare (cache : mapcache_cache_riak)
    (tile : mapcache_tile) (ctx : mapcache_context) (w : W)
  : option set_stage :=
  match riak_names cache tile ctx with
  | inl ctx => Some (SetReturned tile ctx w)
  | inr (ctx, key, bucket, pbucket_type) =>
      (* Blank tile detection *)
      match riak_detect_blank cache tile ctx with
      | None => None
      | Some (inl (tile, ctx)) => Some (SetReturned tile ctx w)
      | Some (inr (tile, ctx, content_type)) =>
          let encoded :=
            match encoded_data tile with
            | Some _ => Some (tile, ctx, false)
            | None =>
                match format (tileset tile) with
                | None => None
                | Some f =>
                    let '(ctx, buf) := write f ctx (raw_image tile) in
                    Some (set_encoded_data buf tile, ctx, GC_HAS_ERROR ctx)
                end
            end in
          match encoded with
          | None => None
          | Some (tile, ctx, returned) =>
              if returned then Some (SetReturned tile ctx w)
              else
                let content_type :=
                  match content_type with
                  | Some t => Some t
                  | None =>
                      match format (tileset tile) with
                      | Some f => mime_type f
                      | None => None
                      end
                  end in
                let content_type :=
                  match content_type with
                  | Some t => Some t
                  | None =>
                      (* compute the content-type *)
                      match mapcache_imageio_header_sniff ctx (encoded_data tile) with
                      | GC_PNG => Some "image/png"%string
                      | GC_JPEG => Some "image/jpeg"%string
                      | GC_UNKNOWN => None
                      end
                  end in
                let '(ctx, pc, w) := _riak_get_connection ctx cache w in
                if GC_HAS_ERROR ctx then Some (SetReturned tile ctx w)
                else
                  match pc, encoded_data tile with
                  | Some pc, Some buf =>
                      let content := RiackContent buf content_type 0 0 0 0 in
                      let object := RiackObject bucket key 0 [content] in
                      Some (SetReady tile ctx w pc object pbucket_type
                                     (put_properties cache))
                  | _, _ => None
                  end
          end
      end
  end.

(** The second half of [_mapcache_cache_riak_set]: the put request with
    its retries, the return of the connection and the error report. *)
Definition riak_set_put (cache : mapcache_cache_riak) (tile : mapcache_tile)
    (ctx : mapcache_context) (w : W) (pc : mapcache_pooled_connection client)
    (object : riack_object) (pbucket_type : option string)
    (properties : riack_put_properties)
  : mapcache_tile * mapcache_context * W :=
  let cl := connection pc in
  let '(error, connect_error, _, ctx, w) :=
    riak_retry3
      (fun w => let '(e, w) :=
                  riack_put_ext cl object pbucket_type properties w
                in (e, tt, w))
      (set_retry_message (key object) cache) cl ctx w in
  let '(ctx, w) := riak_drop_connection connect_error ctx pc w in
  if negb (error =? RIACK_SUCCESS) then
    (tile,
     set_error 500
       (Msg "failed to store tile %s to cache %s due to error %d."
            [ArgS (key object); ArgS (cache_name cache); ArgD error])
       ctx, w)
  else (tile, ctx, w).

Definition _mapcache_cache_riak_set (cache : mapcache_cache_riak)
    (tile : mapcache_tile) (ctx : mapcache_context) (w : W)
  : option (mapcache_tile * mapcache_context * W) :=
  match riak_set_prepare cache tile ctx w with
  | None => None
  | Some (SetReturned tile ctx w) => Some (tile, ctx, w)
  | Some (SetReady tile ctx w pc object pbucket_type properties) =>
      Some (riak_set_put cache tile ctx w pc object pbucket_type properties)
  end.

End RiakOps.

End Riak.

(** ** Apache module (apache/mod_mapcache.c) *)

Module ModMapcache.
Import Ctx.

(** *** Server configuration *)

Record mapcache_alias_entry := AliasEntry {
  endpoint : string;
  configfile : string
}.

Record mapcache_server_cfg := ServerCfg {
  aliases : list mapcache_alias_entry;
  cp_sharing_is_set : Z;
  cp_sharing : Z;
  cp_min_is_set : Z;
  cp_min : Z;
  cp_smax_is_set : Z;
  cp_smax : Z;
  cp_hmax_is_set : Z;
  cp_hmax : Z;
  cp_ttl_is_set : Z;
  cp_ttl : Z
}.

(** [apr_pcalloc(p, sizeof(mapcache_server_cfg))]: every field zero. *)
Definition pcalloc_server_cfg : mapcache_server_cfg :=
  ServerCfg [] 0 0 0 0 0 0 0 0 0 0.

Definition mod_mapcache_create_server_conf : mapcache_server_cfg :=
  ServerCfg [] 0 0 0 1 0 5 0 200 0 60.

(** C truth of an [int] and the value of [a || b]. *)
Definition truth (a : Z) : bool := negb (a =? 0).
Definition c_or (a b : Z) : Z := if truth a || truth b then 1 else 0.

(** In the source every right-hand side reads [vhost] and the freshly
    allocated [cfg]; each field of [cfg] is assigned once, from itself. *)
Definition mod_mapcache_merge_server_conf (base vhost : mapcache_server_cfg)
  : mapcache_server_cfg :=
  let cfg := pcalloc_server_cfg in
  ServerCfg
    (aliases vhost ++ aliases base)
    (c_or (cp_sharing_is_set vhost) (cp_sharing_is_set cfg))
    (if truth (cp_sharing_is_set vhost) then cp_sharing vhost else cp_sharing cfg)
    (c_or (cp_min_is_set vhost) (cp_min_is_set cfg))
    (if truth (cp_min_is_set vhost) then cp_min vhost else cp_min cfg)
    (c_or (cp_smax_is_set vhost) (cp_smax_is_set cfg))
    (if truth (cp_smax_is_set vhost) then cp_smax vhost else cp_smax cfg)
    (c_or (cp_hmax_is_set vhost) (cp_hmax_is_set cfg))
    (if truth (cp_hmax_is_set vhost) then cp_hmax vhost else cp_hmax cfg)
    (c_or (cp_ttl_is_set vhost) (cp_ttl_is_set cfg))
    (if truth (cp_ttl_is_set vhost) then cp_ttl vhost else cp_ttl cfg).

(** The directive handlers, applied to the value [atoi] (or the flag
    parser) returned. *)
Definition mapcache_set_cp_sharing (flag : Z) (c : mapcache_server_cfg) :=
  ServerCfg (aliases c) 1 flag (cp_min_is_set c) (cp_min c)
            (cp_smax_is_set c) (cp_smax c) (cp_hmax_is_set c) (cp_hmax c)
            (cp_ttl_is_set c) (cp_ttl c).

Definition mapcache_set_cp_min (arg : Z) (c : mapcache_server_cfg) :=
  ServerCfg (aliases c) (cp_sharing_is_set c) (cp_sharing c) 1 arg
            (cp_smax_is_set c) (cp_smax c) (cp_hmax_is_set c) (cp_hmax c)
            (cp_ttl_is_set c) (cp_ttl c).

Definition mapcache_set_cp_smax (arg : Z) (c : mapcache_server_cfg) :=
  ServerCfg (aliases c) (cp_sharing_is_set c) (cp_sharing c)
            (cp_min_is_set c) (cp_min c) 1 arg (cp_hmax_is_set c) (cp_hmax c)
            (cp_ttl_is_set c) (cp_ttl c).

Definition mapcache_set_cp_hmax (arg : Z) (c : mapcache_server_cfg) :=
  ServerCfg (aliases c) (cp_sharing_is_set c) (cp_sharing c)
            (cp_min_is_set c) (cp_min c) (cp_smax_is_set c) (cp_smax c) 1 arg
            (cp_ttl_is_set c) (cp_ttl c).

Definition mapcache_set_cp_ttl (arg : Z) (c : mapcache_server_cfg) :=
  ServerCfg (aliases c) (cp_sharing_is_set c) (cp_sharing c)
            (cp_min_is_set c) (cp_min c) (cp_smax_is_set c) (cp_smax c)
            (cp_hmax_is_set c) (cp_hmax c) 1 arg.

(** The five connection-pool options: how to read the value and the
    is-set bit of each. *)
Inductive cp_option := CpMin | CpSMax | CpHMax | CpTtl | CpSharing.

Definition cp_value (o : cp_option) (c : mapcache_server_cfg) : Z :=
  match o with
  | CpMin => cp_min c
  | CpSMax => cp_smax c
  | CpHMax => cp_hmax c
  | CpTtl => cp_ttl c
  | CpSharing => cp_sharing c
  end.

Definition cp_is_set (o : cp_option) (c : mapcache_server_cfg) : Z :=
  match o with
  | CpMin => cp_min_is_set c
  | CpSMax => cp_smax_is_set c
  | CpHMax => cp_hmax_is_set c
  | CpTtl => cp_ttl_is_set c
  | CpSharing => cp_sharing_is_set c
  end.

(** *** APR tables *)

(** An [apr_table_t]: entries in order; keys compare without regard to
    case; a NULL value is [None]. *)
Definition apr_table_t := list (string * option string).

Definition lower (c : ascii) : ascii :=
  let n := nat_of_ascii c in
  if (65 <=? n)%nat && (n <=? 90)%nat then ascii_of_nat (n + 32) else c.

Fixpoint strcasecmp_eq (a b : string) : bool :=
  match a, b with
  | EmptyString, EmptyString => true
  | String x a', String y b' => Ascii.eqb (lower x) (lower y) && strcasecmp_eq a' b'
  | _, _ => false
  end.

Fixpoint apr_table_get (t : apr_table_t) (key : string) : option string :=
  match t with
  | [] => None
  | (k, v) :: rest => if strcasecmp_eq k key then v else apr_table_get rest key
  end.

Fixpoint apr_table_unset (t : apr_table_t) (key : string) : apr_table_t :=
  match t with
  | [] => []
  | (k, v) :: rest =>
      if strcasecmp_eq k key then apr_table_unset rest key
      else (k, v) :: apr_table_unset rest key
  end.

(** [apr_table_set]: the first entry of that key takes the value and the
    other entries of that key go; without one, the entry is added. *)
Fixpoint apr_table_set (t : apr_table_t) (key : string) (val : option string)
  : apr_table_t :=
  match t with
  | [] => [(key, val)]
  | (k, v) :: rest =>
      if strcasecmp_eq k key then (k, val) :: apr_table_unset rest key
      else (k, v) :: apr_table_set rest key val
  end.

(** *** The proxy branch of the request handler *)

(** Apache's method numbers. *)
Definition M_GET : Z := 0.
Definition M_POST : Z := 2.

(** The fields of [request_rec] the branch reads; [client_ip] is
    [r->connection->client_ip] ([remote_ip] before Apache 2.4) and
    [server_hostname] is [r->server->server_hostname]. *)
Record request_rec := RequestRec {
  method_number : Z;
  headers_in : apr_table_t;
  content_type : option string;
  client_ip : string;
  server_hostname : string
}.

Record mapcache_request_proxy := RequestProxy {
  headers : option apr_table_t;
  post_buf : option (list byte);
  post_len : Z
}.

Definition set_headers (h : option apr_table_t) (p : mapcache_request_proxy) :=
  RequestProxy h (post_buf p) (post_len p).

(** [read_post_body] drains the request body through Apache's input
    filters and bucket brigades; the handler only looks at the error it
    may leave and passes on the request it filled. *)
Class BodyReader (W : Type) := {
  read_post_body :
    request_rec -> mapcache_request_proxy -> mapcache_context -> W ->
    mapcache_request_proxy * mapcache_context * W
}.

(** [apr_psprintf(pool, "%s, %s", a, b)] *)
Definition comma_join (a b : string) : string := a +:+ ", " +:+ b.

(** What the branch ends with: the error response is written, or the
    request is handed to [mapcache_core_proxy_request]. *)
Inductive proxy_outcome (W : Type) :=
| RespondToError (ctx : mapcache_context) (w : W)
| CoreProxyRequest (req_proxy : mapcache_request_proxy)
                   (ctx : mapcache_context) (w : W).
Arguments RespondToError {W}.
Arguments CoreProxyRequest {W}.

Section Handler.
Context {W : Type} `{BodyReader W}.

(** The branch [request->type == MAPCACHE_REQUEST_PROXY] of
    [mod_mapcache_request_handler]. *)
Definition mod_mapcache_request_handler_proxy (r : request_rec)
    (req_proxy : mapcache_request_proxy) (global_ctx : mapcache_context) (w : W)
  : proxy_outcome W :=
  if method_number r =? M_POST then
    let '(req_proxy, global_ctx, w) := read_post_body r req_proxy global_ctx w in
    if GC_HAS_ERROR global_ctx then RespondToError global_ctx w
    else
      let hdrs := match headers req_proxy with
                  | None => []          (* apr_table_make *)
                  | Some t => t
                  end in
      let hdrs := apr_table_set hdrs "Content-Type" (content_type r) in
      let hdrs :=
        match apr_table_get (headers_in r) "X-Forwarded-For" with
        | Some buf =>
            apr_table_set hdrs "X-Forwarded-For"
                          (Some (comma_join buf (client_ip r)))
        | None => apr_table_set hdrs "X-Forwarded-For" (Some (client_ip r))
        end in
      let hdrs :=
        match apr_table_get (headers_in r) "Host" with
        | Some buf =>
            match apr_table_get (headers_in r) "X-Forwarded-Host" with
            | Some buf2 =>
                apr_table_set hdrs "X-Forwarded-Host" (Some (comma_join buf2 buf))
            | None => apr_table_set hdrs "X-Forwarded-Host" (Some buf)
            end
        | None => hdrs
        end in
      let hdrs :=
        match apr_table_get (headers_in r) "X-Forwarded-Server" with
        | Some buf =>
            apr_table_set hdrs "X-Forwarded-Server"
                          (Some (comma_join buf (server_hostname r)))
        | None =>
            apr_table_set hdrs "X-Forwarded-Server" (Some (server_hostname r))
        end in
      CoreProxyRequest (set_headers (Some hdrs) req_proxy) global_ctx w
  else CoreProxyRequest req_proxy global_ctx w.

End Handler.

(** The headers of the request handed to the core. *)
Definition forwarded_header {W : Type} (o : proxy_outcome W) (key : string)
  : option string :=
  match o with
  | CoreProxyRequest req_proxy _ _ =>
      match headers req_proxy with
      | Some t => apr_table_get t key
      | None => None
      end
  | RespondToError _ _ => None
  end.

End ModMapcache.

(** ** Simulated environments

    Small executable worlds that implement the environment classes; the
    examples and the concrete runs below are evaluated in them. *)

Module Sim.
Import Ctx Tile.

(** One assignment of the result codes that satisfies what is known of
    them; every theorem holds for all of them. *)
#[export] Instance sim_codes : ResultCodes := {|
  MAPCACHE_SUCCESS := 0;
  MAPCACHE_FAILURE := 1;
  MAPCACHE_CACHE_MISS := 5;
  MAPCACHE_TRUE := 1;
  MAPCACHE_FALSE := 0;
  success_is_not_miss := ltac:(discriminate);
  success_is_not_failure := ltac:(discriminate);
  miss_is_not_failure := ltac:(discriminate);
  true_is_not_false := ltac:(discriminate)
|}.

(** *** Lock files, clock and memcache keys *)

(** [files] maps an existing lock file to the time at which its holder
    removes it ([None]: never); [unwritable] are the paths that cannot
    be created; [mc_down] makes every memcache request fail. *)
Record lock_world := LockWorld {
  clock : Z;
  files : gmap string (option Z);
  unwritable : gset string;
  mc_keys : gset string;
  mc_down : bool
}.

Definition file_exists (p : string) (w : lock_world) : bool :=
  match files w !! p with
  | Some None => true
  | Some (Some d) => clock w <? d
  | None => false
  end.

Definition sim_file_open_excl (p : string) (w : lock_world)
  : Locker.apr_status_t * lock_world :=
  if bool_decide (p ∈ unwritable w) then (Locker.APR_FAILED 13, w)
  else if file_exists p w then (Locker.APR_EEXIST, w)
  else (Locker.APR_SUCCESS,
        LockWorld (clock w) (<[p := None]> (files w)) (unwritable w)
                  (mc_keys w) (mc_down w)).

Definition sim_stat (p : string) (w : lock_world)
  : Locker.apr_status_t * lock_world :=
  if file_exists p w then (Locker.APR_SUCCESS, w) else (Locker.APR_ENOENT, w).

Definition sim_file_remove (p : string) (w : lock_world) : lock_world :=
  LockWorld (clock w) (delete p (files w)) (unwritable w) (mc_keys w) (mc_down w).

Definition sim_sleep (usec : Z) (w : lock_world) : lock_world :=
  LockWorld (clock w + Z.max 0 usec) (files w) (unwritable w) (mc_keys w)
            (mc_down w).

Definition sim_mc_status (w : lock_world) : Locker.apr_status_t :=
  if mc_down w then Locker.APR_FAILED 111 else Locker.APR_SUCCESS.

Definition sim_memcache_add (key : string) (w : lock_world)
  : Locker.apr_status_t * lock_world :=
  if mc_down w then (Locker.APR_FAILED 111, w)
  else if bool_decide (key ∈ mc_keys w) then (Locker.APR_EEXIST, w)
  else (Locker.APR_SUCCESS,
        LockWorld (clock w) (files w) (unwritable w) ({[key]} ∪ mc_keys w)
                  (mc_down w)).

Definition sim_memcache_getp (key : string) (w : lock_world)
  : Locker.apr_status_t * lock_world :=
  if mc_down w then (Locker.APR_FAILED 111, w)
  else if bool_decide (key ∈ mc_keys w) then (Locker.APR_SUCCESS, w)
  else (Locker.APR_NOTFOUND, w).

Definition sim_memcache_delete (key : string) (w : lock_world)
  : Locker.apr_status_t * lock_world :=
  if mc_down w then (Locker.APR_FAILED 111, w)
  else if bool_decide (key ∈ mc_keys w) then
    (Locker.APR_SUCCESS,
     LockWorld (clock w) (files w) (unwritable w) (mc_keys w ∖ {[key]})
               (mc_down w))
  else (Locker.APR_NOTFOUND, w).

#[export] Instance sim_lock_env : Locker.LockEnv lock_world := {|
  Locker.apr_time_now w := (clock w, w);
  Locker.apr_sleep := sim_sleep;
  Locker.apr_file_open_excl := sim_file_open_excl;
  Locker.getpid _ := 4242;
  Locker.apr_file_write_close _ _ w := w;
  Locker.apr_stat := sim_stat;
  Locker.apr_file_remove := sim_file_remove;
  Locker.apr_strerror _ := "error"%string;
  Locker.apr_memcache_create _ w := (sim_mc_status w, w);
  Locker.apr_memcache_server_create _ _ w := (sim_mc_status w, w);
  Locker.apr_memcache_add_server _ _ w := (sim_mc_status w, w);
  Locker.apr_memcache_add _ key _ _ w := sim_memcache_add key w;
  Locker.apr_memcache_getp _ key w := sim_memcache_getp key w;
  Locker.apr_memcache_delete _ key w := sim_memcache_delete key w
|}.

Definition empty_lock_world : lock_world := LockWorld 0 ∅ ∅ ∅ false.

(** *** In-memory cache tiers *)

(** A tier keeps encoded tiles by tile identity; [get_fails] and
    [set_fails] make it unhealthy for reads or for writes. *)
Record sim_tier := SimTier {
  store : gmap (string * string * Z * Z * Z * list (string * string))
               mapcache_buffer;
  get_fails : bool;
  set_fails : bool
}.

Definition sim_tile_get (c : nat) (tile : mapcache_tile)
    (ctx : mapcache_context) (w : list sim_tier)
  : Z * mapcache_tile * mapcache_context * list sim_tier :=
  match w !! c with
  | None =>
      (MAPCACHE_FAILURE, tile, set_error 500 (Msg "no such cache" []) ctx, w)
  | Some t =>
      if get_fails t then
        (MAPCACHE_FAILURE, tile,
         set_error 500 (Msg "cache cannot be read" []) ctx, w)
      else
        match store t !! tile_id tile with
        | Some b => (MAPCACHE_SUCCESS, set_encoded_data (Some b) tile, ctx, w)
        | None => (MAPCACHE_CACHE_MISS, tile, ctx, w)
        end
  end.

Definition sim_tile_set (c : nat) (tile : mapcache_tile)
    (ctx : mapcache_context) (w : list sim_tier)
  : mapcache_tile * mapcache_context * list sim_tier :=
  match w !! c, encoded_data tile with
  | Some t, Some b =>
      if set_fails t then
        (tile, set_error 500 (Msg "cache cannot be written" []) ctx, w)
      else
        (tile, ctx,
         <[c := SimTier (<[tile_id tile := b]> (store t)) (get_fails t)
                        (set_fails t)]> w)
  | _, _ => (tile, set_error 500 (Msg "nothing to store" []) ctx, w)
  end.

Definition sim_tile_exists (c : nat) (tile : mapcache_tile)
    (ctx : mapcache_context) (w : list sim_tier)
  : Z * mapcache_context * list sim_tier :=
  match w !! c with
  | Some t =>
      match store t !! tile_id tile with
      | Some _ => (MAPCACHE_TRUE, ctx, w)
      | None => (MAPCACHE_FALSE, ctx, w)
      end
  | None => (MAPCACHE_FALSE, ctx, w)
  end.

Definition sim_tile_delete (c : nat) (tile : mapcache_tile)
    (ctx : mapcache_context) (w : list sim_tier)
  : mapcache_context * list sim_tier :=
  match w !! c with
  | Some t =>
      if set_fails t then
        (set_error 500 (Msg "cache cannot be written" []) ctx, w)
      else
        (ctx, <[c := SimTier (delete (tile_id tile) (store t)) (get_fails t)
                             (set_fails t)]> w)
  | None => (set_error 500 (Msg "no such cache" []) ctx, w)
  end.

Fixpoint sim_tile_multi_set (c : nat) (tiles : list mapcache_tile)
    (ctx : mapcache_context) (w : list sim_tier)
  : list mapcache_tile * mapcache_context * list sim_tier :=
  match tiles with
  | [] => ([], ctx, w)
  | t :: rest =>
      let '(t, ctx, w) := sim_tile_set c t ctx w in
      let '(rest, ctx, w) := sim_tile_multi_set c rest ctx w in
      (t :: rest, ctx, w)
  end.

#[export] Instance sim_cache_api : Multitier.CacheApi nat (list sim_tier) := {|
  Multitier.cache_name c := ("tier" +:+ pretty c)%string;
  Multitier.mapcache_cache_tile_get := sim_tile_get;
  Multitier.mapcache_cache_tile_set := sim_tile_set;
  Multitier.mapcache_cache_tile_exists := sim_tile_exists;
  Multitier.mapcache_cache_tile_delete := sim_tile_delete;
  Multitier.mapcache_cache_tile_multi_set := sim_tile_multi_set
|}.

(** Tier [c] of world [w] keeps bytes for the identity of [tile]. *)
Definition sim_holds (c : nat) (w : list sim_tier) (tile : mapcache_tile)
  : Prop :=
  exists t b, w !! c = Some t /\ store t !! tile_id tile = Some b.

Definition sim_tier_data (c : nat) (w : list sim_tier) (tile : mapcache_tile)
  : option mapcache_buffer :=
  match w !! c with
  | Some t => store t !! tile_id tile
  | None => None
  end.

Definition a_tile : mapcache_tile :=
  MkTile (Tileset "l" None) (Grid "g" 256 256) 4 5 3 [] None None 0 0.

Definition a_tile_bytes : mapcache_buffer := [x89; x50; x4e; x47]%byte.

Definition empty_tier : sim_tier := SimTier ∅ false false.
Definition read_only_tier : sim_tier := SimTier ∅ false true.
Definition broken_tier : sim_tier := SimTier ∅ true false.
Definition full_tier : sim_tier :=
  SimTier (<[tile_id a_tile := a_tile_bytes]> ∅) false false.

(** *** A riak server *)

(** [objects] are the stored contents by bucket type, bucket and key;
    [request_errors] and [reconnect_errors] are the codes the next
    requests and reconnections answer with (a success code, or none
    left: the request is served); [reachable] is whether a connection can
    be made. *)
Record riak_world := RiakWorld {
  objects : gmap (option string * string * string) Riak.riack_content;
  request_errors : list Z;
  reconnect_errors : list Z;
  reachable : bool
}.

Definition sim_riack_success : Z := 1.

Definition next_request (w : riak_world) : Z * riak_world :=
  match request_errors w with
  | [] => (sim_riack_success, w)
  | e :: rest =>
      (e, RiakWorld (objects w) rest (reconnect_errors w) (reachable w))
  end.

Definition sim_riack_reconnect (w : riak_world) : Z * riak_world :=
  match reconnect_errors w with
  | [] => (sim_riack_success, w)
  | e :: rest => (e, RiakWorld (objects w) (request_errors w) rest (reachable w))
  end.

Definition sim_riack_get (bucket key : string) (bucket_type : option string)
    (w : riak_world) : Z * option Riak.riack_object * riak_world :=
  let '(e, w) := next_request w in
  if e =? sim_riack_success then
    (e,
     Some (Riak.RiackObject bucket key 0
             (match objects w !! (bucket_type, bucket, key) with
              | Some c => [c]
              | None => []
              end)),
     w)
  else (e, None, w).

Definition sim_riack_put (o : Riak.riack_object) (bucket_type : option string)
    (w : riak_world) : Z * riak_world :=
  let '(e, w) := next_request w in
  if e =? sim_riack_success then
    match Riak.content o with
    | c :: _ =>
        (e, RiakWorld (<[(bucket_type, Riak.bucket o, Riak.key o) := c]> (objects w))
                      (request_errors w) (reconnect_errors w) (reachable w))
    | [] => (e, w)
    end
  else (e, w).

Definition sim_riack_delete (bucket : string) (bucket_type : option string)
    (key : string) (w : riak_world) : Z * riak_world :=
  let '(e, w) := next_request w in
  if e =? sim_riack_success then
    (e, RiakWorld (delete (bucket_type, bucket, key) (objects w))
                  (request_errors w) (reconnect_errors w) (reachable w))
  else (e, w).

Definition sim_tile_key (tile : mapcache_tile) : string :=
  (tileset_name (tileset tile) +:+ "#" +:+ pretty (z tile) +:+ "#"
     +:+ pretty (x tile) +:+ "#" +:+ pretty (y tile))%string.

Fixpoint bytes_eqb (a b : list byte) : bool :=
  match a, b with
  | [], [] => true
  | x :: a', y :: b' => Byte.eqb x y && bytes_eqb a' b'
  | _, _ => false
  end.

(** Four bytes per pixel: the image is blank when every pixel repeats
    the first one. *)
Fixpoint pixels_all (p : list byte) (d : list byte) : bool :=
  match d with
  | [] => true
  | a :: b :: c :: e :: rest =>
      bytes_eqb [a; b; c; e] p && pixels_all p rest
  | _ => false
  end.

Definition sim_blank_color (img : option mapcache_image) : Z :=
  match img with
  | Some i =>
      match img_data i with
      | a :: b :: c :: e :: rest =>
          if pixels_all [a; b; c; e] rest then MAPCACHE_TRUE else MAPCACHE_FALSE
      | _ => MAPCACHE_FALSE
      end
  | None => MAPCACHE_FALSE
  end.

(** A raw pixel dump stands for the encoded formats. *)
Definition sim_decode (ctx : mapcache_context) (buf : option mapcache_buffer)
  : mapcache_context * option mapcache_image :=
  match buf with
  | Some d => (ctx, Some (Image 1 (Z.of_nat (length d) / 4) d))
  | None => (set_error 500 (Msg "nothing to decode" []) ctx, None)
  end.

(** The blank image of a colour: the PNG signature, then the colour. *)
Definition sim_empty_png (width height : Z) (color : list byte)
  : mapcache_buffer :=
  [x89; x50; x4e; x47]%byte ++ color.

#[export] Instance sim_riak_env : Riak.RiakEnv riak_world unit := {|
  Riak.RIACK_SUCCESS := sim_riack_success;
  Riak.RIACK_HAVE_SECURITY := true;
  Riak.mapcache_util_get_tile_key ctx tile _ _ _ := (ctx, sim_tile_key tile);
  Riak.riack_new_client w := (Some tt, w);
  Riak.riack_connect _ _ _ _ w :=
    (if reachable w then sim_riack_success else -1, w);
  Riak.riack_start_tls _ _ w := (sim_riack_success, w);
  Riak.riack_auth _ _ _ w := (sim_riack_success, w);
  Riak.riack_ping _ w := (sim_riack_success, w);
  Riak.riack_free _ w := w;
  Riak.riack_reconnect _ w := sim_riack_reconnect w;
  Riak.riack_get_ext _ bucket key _ bucket_type w :=
    sim_riack_get bucket key bucket_type w;
  Riak.riack_put_ext _ o bucket_type _ w := sim_riack_put o bucket_type w;
  Riak.riack_delete_ext _ bucket bucket_type key _ w :=
    sim_riack_delete bucket bucket_type key w;
  Riak.mapcache_connection_pool_get_connection ctx _ ctor w :=
    (let '(ctx, cl, w) := ctor ctx w in
     (ctx, option_map Riak.PooledConnection cl, w));
  Riak.mapcache_connection_pool_release_connection ctx _ w := (ctx, w);
  Riak.mapcache_connection_pool_invalidate_connection ctx _ w := (ctx, w);
  Riak.mapcache_imageio_decode := sim_decode;
  Riak.mapcache_image_blank_color := sim_blank_color;
  Riak.empty_png_data := sim_empty_png;
  Riak.mapcache_imageio_header_sniff _ _ := Riak.GC_UNKNOWN
|}.

Definition a_riak_cache : Riak.mapcache_cache_riak :=
  Riak.RiakCache "riak" (Some "localhost"%string) None None None None 8087
                 None "tiles" None 0 0 0 0 1 None None.

Definition empty_riak_world : riak_world := RiakWorld ∅ [] [] true.

(** A 2x1 image of one fully transparent colour, and one of opaque
    red. *)
Definition transparent_tile : mapcache_tile :=
  MkTile (Tileset "l" None) (Grid "g" 256 256) 4 5 3 []
         (Some [x00; x00; x00; x00; x00; x00; x00; x00]%byte) None 0 0.

Definition red_tile : mapcache_tile :=
  MkTile (Tileset "l" None) (Grid "g" 256 256) 4 5 3 []
         (Some [xff; x00; x00; xff; xff; x00; x00; xff]%byte) None 0 0.

(** *** Request bodies *)

Record body_world := BodyWorld { body : option (list byte) }.

#[export] Instance sim_body_reader : ModMapcache.BodyReader body_world := {|
  ModMapcache.read_post_body r p ctx w :=
    match body w with
    | Some b =>
        (ModMapcache.RequestProxy (ModMapcache.headers p) (Some b)
                                  (Z.of_nat (length b)), ctx, w)
    | None => (p, set_error 500 (Msg "failed to read form input" []) ctx, w)
    end
|}.

End Sim.

(** ** Notions used in the statements *)

Module Notions.
Import Ctx Locker.

(** A resource name with a newline in it: ["t\ns"]. *)
Definition newline_resource : string :=
  String "t" (String "010" (String "s" EmptyString)).

(** A header name with its letters in lower case. *)
Fixpoint fold_case (s : string) : string :=
  match s with
  | EmptyString => EmptyString
  | String c rest => String (ModMapcache.lower c) (fold_case rest)
  end.

Section LockRuns.
Context {W : Type} `{LockEnv W}.

(** A double that is a number (or plus infinity) of at least [q]. *)
Definition at_least (d : Double.double) (q : Q) : Prop :=
  match d with
  | Double.Finite x => (q <= x)%Q
  | Double.Infinity negative => negative = false
  | Double.NaN => False
  end.

(** [n] rounds of the wait loop that all leave the lock held: no round
    starts after the timeout and every ping answers something else than
    [MAPCACHE_LOCK_NOENT].  The result is the state at the head of the
    next round and the calls the rounds made. *)
Fixpoint locked_rounds (n : nat) (locker : mapcache_locker) (lock : lock_t)
    (start_wait : Z) (ctx : mapcache_context) (w : W)
  : option (mapcache_context * W * list lock_call) :=
  match n with
  | O => Some (ctx, w, [])
  | S n =>
      let '(now, w) := apr_time_now w in
      if timed_out locker (waited_msec start_wait now) then None
      else
        match sleep_usec locker with
        | None => None
        | Some usec =>
            match ping_lock locker lock ctx (apr_sleep usec w) with
            | Some (MAPCACHE_LOCK_NOENT, _, _) => None
            | Some (_, ctx, w) =>
                match locked_rounds n locker lock start_wait ctx w with
                | Some (ctx, w, calls) =>
                    Some (ctx, w, [CallSleep usec; CallPing lock] ++ calls)
                | None => None
                end
            | None => None
            end
        end
  end.

(** The children [pre] of a fallback locker are tried in order and each
    of them raises an error while another child remains to try: the
    inner token, the context and the world the loop then holds. *)
Fixpoint children_fail (resource : string) (pre : list mapcache_locker)
    (inner : lock_t) (ctx : mapcache_context) (w : W)
  : option (lock_t * mapcache_context * W) :=
  match pre with
  | [] => Some (inner, ctx, w)
  | child_locker :: rest =>
      let '(error, ctx) := pop_errors ctx in
      match aquire_lock child_locker resource inner ctx w with
      | Some (_, inner, ctx, w) =>
          if GC_HAS_ERROR ctx then
            children_fail resource rest inner
                          (push_errors error (clear_errors ctx)) w
          else None
      | None => None
      end
  end.

End LockRuns.

Section TierRuns.
Import Tile Multitier.
Context {cache W : Type} `{CacheApi cache W} `{ResultCodes}.

(** The reads of the tiers [subs], in order, all return something else
    than [MAPCACHE_SUCCESS]: the tile, the context and the world after
    them. *)
Fixpoint tiers_without_hit (subs : list cache) (tile : mapcache_tile)
    (ctx : mapcache_context) (w : W)
  : option (mapcache_tile * mapcache_context * W) :=
  match subs with
  | [] => Some (tile, ctx, w)
  | subcache :: rest =>
      let '(r, tile, ctx, w) := mapcache_cache_tile_get subcache tile ctx w in
      if r =? MAPCACHE_SUCCESS then None
      else tiers_without_hit rest tile ctx w
  end.

(** The caches of [upper] whose promotion set returned without an error,
    when the promotion loop runs over [upper]. *)
Fixpoint promoted (upper : list cache) (tile : mapcache_tile)
    (ctx : mapcache_context) (w : W) : list cache :=
  match upper with
  | [] => []
  | subcache :: rest =>
      let '(tile, ctx, w) := mapcache_cache_tile_set subcache tile ctx w in
      (if GC_HAS_ERROR ctx then [] else [subcache])
        ++ promoted rest tile
             (log MAPCACHE_DEBUG
                  (Msg "transferring tile (%s,z=%d,y=%d,x=%d) to cache (%s)"
                       (tile_args tile subcache)) (clear_errors ctx)) w
  end.

Definition got_tile_message (tile : mapcache_tile) (subcache : cache) : message :=
  Msg "got tile (%s,z=%d,y=%d,x=%d) from secondary cache (%s)"
      (tile_args tile subcache).

Definition transfer_message (tile : mapcache_tile) (subcache : cache) : message :=
  Msg "transferring tile (%s,z=%d,y=%d,x=%d) to cache (%s)"
      (tile_args tile subcache).

(** One round of the promotion loop on cache [subcache]: the set, the
    clearing of its error, the debug line. *)
Definition promote_one (subcache : cache)
    (st : mapcache_tile * mapcache_context * W)
  : mapcache_tile * mapcache_context * W :=
  let '(tile, ctx, w) := st in
  let '(tile, ctx, w) := mapcache_cache_tile_set subcache tile ctx w in
  (tile, log MAPCACHE_DEBUG (transfer_message tile subcache) (clear_errors ctx), w).

(** The sets of the child backends leave the encoded data of the tile
    they are given as it is. *)
Definition sets_keep_data : Prop :=
  forall (c : cache) tile ctx (w : W) tile' ctx' w',
    mapcache_cache_tile_set c tile ctx w = (tile', ctx', w') ->
    encoded_data tile' = encoded_data tile.

(** What a notion [holds] of "cache [c] contains the tile in world [w]"
    must get from the child backends for a promotion to establish it:
    it depends on the identity of the tile only; a set keeps the
    identity of the tile; a set that returns without error makes its
    cache contain the tile it was given; and a set never takes the
    tile it writes away from a cache. *)
Definition backend_contract (holds : cache -> W -> mapcache_tile -> Prop)
  : Prop :=
  (forall c w tile tile',
      tile_id tile' = tile_id tile -> holds c w tile -> holds c w tile')
  /\ (forall c tile ctx w tile' ctx' w',
         mapcache_cache_tile_set c tile ctx w = (tile', ctx', w') ->
         tile_id tile' = tile_id tile)
  /\ (forall c tile ctx w tile' ctx' w',
         mapcache_cache_tile_set c tile ctx w = (tile', ctx', w') ->
         GC_HAS_ERROR ctx' = false -> holds c w' tile)
  /\ (forall c tile ctx w tile' ctx' w' c0,
         mapcache_cache_tile_set c tile ctx w = (tile', ctx', w') ->
         holds c0 w tile -> holds c0 w' tile).

End TierRuns.

Section RiakRuns.
Import Tile Riak.
Context {W client : Type} `{RiakEnv W client} `{ResultCodes}.

(** The raw image the blank detection of [_mapcache_cache_riak_set]
    looks at is [img]: the tile carries it, or the tile carries none and
    the decoder returns it from the encoded data without an error.
    [ctx'] is the context after that step. *)
Definition raw_image_is (tile : mapcache_tile) (ctx ctx' : mapcache_context)
    (img : mapcache_image) : Prop :=
  (raw_image tile = Some img /\ ctx' = ctx)
  \/ (raw_image tile = None
      /\ mapcache_imageio_decode ctx (encoded_data tile) = (ctx', Some img)
      /\ GC_HAS_ERROR ctx' = false).

(** The five bytes stored for a blank tile of colour [b0 b1 b2 b3]. *)
Definition sentinel_of (b0 b1 b2 b3 : byte) : mapcache_buffer :=
  ["#"%byte; b0; b1; b2; b3].

Definition sentinel_content (b0 b1 b2 b3 : byte) : riack_content :=
  RiackContent (sentinel_of b0 b1 b2 b3) (Some blank_content_type) 0 0 0 0.

End RiakRuns.

End Notions.

(** ** Concrete scenarios *)

Module Scenario.
Import Ctx Locker Sim.

(** The doubles of the literals [0.1] and [0.2]. *)
Definition d_0_1 : Double.double := Double.round (1 # 10).
Definition d_0_2 : Double.double := Double.round (1 # 5).

(** A disk locker on [/locks] that gives up after 0.2 seconds and
    retries every 0.1 seconds. *)
Definition a_disk_locker : mapcache_locker :=
  LockerDisk (LockerBase d_0_2 d_0_1) (LockerDiskCfg "/locks").

Definition r_lock_file : string := "/locks/_gc_lockr.lck".

(** The lock directory cannot be written. *)
Definition unwritable_world : lock_world :=
  LockWorld 0 ∅ {[r_lock_file]} ∅ false.

(** Another worker holds the lock on ["r"] and never removes it. *)
Definition stale_world : lock_world :=
  LockWorld 0 (<[r_lock_file := None]> ∅) ∅ ∅ false.

(** Another worker holds the lock on ["r"] and removes it after 0.15
    seconds. *)
Definition busy_world : lock_world :=
  LockWorld 0 (<[r_lock_file := Some 150000]> ∅) ∅ ∅ false.

(** A disk locker with a timeout of 5,000,000 seconds that retries
    every 1,000,000 seconds. *)
Definition a_slow_locker : mapcache_locker :=
  LockerDisk (LockerBase (Double.of_int 5000000) (Double.of_int 1000000))
             (LockerDiskCfg "/locks").

(** Another worker holds the lock on ["r"] and removes it after
    6,500,000 seconds. *)
Definition long_held_world : lock_world :=
  LockWorld 0 (<[r_lock_file := Some 6500000000000]> ∅) ∅ ∅ false.

(** A memcache locker, and a fallback locker that tries it before the
    disk locker. *)
Definition a_memcache_locker : mapcache_locker :=
  LockerMemcache (LockerBase (Double.of_int 120) d_0_1)
                 (LockerMemcacheCfg [MemcacheServer "mc" 11211] (Some "site"%string)).

Definition a_fallback_locker : mapcache_locker :=
  LockerFallback (LockerBase (Double.of_int 120) d_0_1)
                 [a_memcache_locker; a_disk_locker].

(** The memcache servers cannot be reached. *)
Definition mc_down_world : lock_world := LockWorld 0 ∅ ∅ ∅ true.

(** A two-tier and a three-tier cache over the simulated tiers 0, 1, 2. *)
Definition two_tiers : Multitier.mapcache_cache_multitier nat :=
  Multitier.MultitierCache "mt" [0%nat; 1%nat] 1.

Definition three_tiers : Multitier.mapcache_cache_multitier nat :=
  Multitier.MultitierCache "mt" [0%nat; 1%nat; 2%nat] 2.

(** The main server sets [MapCacheConnectionPoolMin 10]; a virtual host
    sets nothing. *)
Definition base_with_min_10 : ModMapcache.mapcache_server_cfg :=
  ModMapcache.mapcache_set_cp_min 10 ModMapcache.mod_mapcache_create_server_conf.

Definition plain_vhost : ModMapcache.mapcache_server_cfg :=
  ModMapcache.mod_mapcache_create_server_conf.

(** A proxied GET and a proxied POST from client 10.0.0.1, both through
    an earlier proxy that left [X-Forwarded-For: 192.0.2.7]. *)
Definition inbound_headers : ModMapcache.apr_table_t :=
  [("Host"%string, Some "maps.example.org"%string);
   ("X-Forwarded-For"%string, Some "192.0.2.7"%string)].

Definition a_get_request : ModMapcache.request_rec :=
  ModMapcache.RequestRec ModMapcache.M_GET inbound_headers None
                         "10.0.0.1" "tiles.example.org".

Definition a_post_request : ModMapcache.request_rec :=
  ModMapcache.RequestRec ModMapcache.M_POST inbound_headers
                         (Some "text/xml"%string)
                         "10.0.0.1" "tiles.example.org".

Definition a_proxy_request : ModMapcache.mapcache_request_proxy :=
  ModMapcache.RequestProxy None None 0.

Definition a_body : body_world := BodyWorld (Some [x3c; x61; x2f; x3e]%byte).

(** A riak server that holds an object without data under the key of
    [a_tile], and answers the first request with an error. *)
Definition hollow_riak_world : riak_world :=
  RiakWorld (<[(None, "tiles"%string, sim_tile_key a_tile)
               := Riak.RiackContent [] (Some "image/png"%string) 0 0 0 0]> ∅)
            [-1] [] true.

(** The riak server after the blank tile of [transparent_tile] was
    stored, and after that of [red_tile] was. *)
Definition stored_blank_world : riak_world :=
  RiakWorld (<[(None, "tiles"%string, sim_tile_key transparent_tile)
               := Notions.sentinel_content x00 x00 x00 x00]> ∅)
            [] [] true.

Definition stored_red_world : riak_world :=
  RiakWorld (<[(None, "tiles"%string, sim_tile_key red_tile)
               := Notions.sentinel_content xff x00 x00 xff]> ∅)
            [] [] true.

End Scenario.

(** ** Configuration documents and the C library *)

Module Ezxml.

(** An [ezxml_t] tag: its [name], its attributes, its character content
    [txt] and its child tags in document order. *)
Inductive ezxml :=
| Tag (name : string) (attr : list (string * string)) (txt : string)
      (child : list ezxml).

Definition name (xml : ezxml) : string :=
  match xml with Tag n _ _ _ => n end.

Definition attr (xml : ezxml) : list (string * string) :=
  match xml with Tag _ a _ _ => a end.

Definition txt (xml : ezxml) : string :=
  match xml with Tag _ _ t _ => t end.

Definition child (xml : ezxml) : list ezxml :=
  match xml with Tag _ _ _ c => c end.

(** The tags a loop [for(n = ezxml_child(xml, name); n; n = n->next)]
    visits: the child tags called [name], in document order. *)
Definition ezxml_children (xml : ezxml) (n : string) : list ezxml :=
  List.filter (fun c => String.eqb (name c) n) (child xml).

(** [ezxml_child(xml, name)]: the first child tag called [name]. *)
Definition ezxml_child (xml : ezxml) (n : string) : option ezxml :=
  match ezxml_children xml n with
  | [] => None
  | c :: _ => Some c
  end.

(** [ezxml_attr(xml, attr)]: the value of the attribute, or NULL. *)
Fixpoint attr_lookup (attrs : list (string * string)) (a : string)
  : option string :=
  match attrs with
  | [] => None
  | (k, v) :: rest => if String.eqb k a then Some v else attr_lookup rest a
  end.

Definition ezxml_attr (xml : ezxml) (a : string) : option string :=
  attr_lookup (attr xml) a.

End Ezxml.

Module Libc.

(** The number parsers of the C library.  [strtol] and [strtod] return
    the value and the text [endptr] is left at ([strtol] is only called
    with base 10 where [endptr] is read).  [strtod] returns a double,
    which may be an infinity or no number (for texts such as [inf] and
    [nan]). *)
Class LibC := {
  strtol : string -> Z * string;
  strtod : string -> Double.double * string;
  atoi : string -> Z
}.

(** Conversion to [unsigned int] and to [int]. *)
Definition to_uint32 (v : Z) : Z := v mod 2 ^ 32.
Definition to_int32 (v : Z) : Z := (v + 2 ^ 31) mod 2 ^ 32 - 2 ^ 31.

(** [*s == 0] *)
Definition at_end (s : string) : bool :=
  match s with EmptyString => true | String _ _ => false end.

(** The double quote character, for the messages that quote a value. *)
Definition dquote : string := String "034" EmptyString.

End Libc.

(** ** Locker configuration (OS-level locking support file) *)

Module LockerConfig.
Import Ctx Locker Ezxml Libc.

Definition set_retry_interval (v : Double.double) (l : mapcache_locker)
  : mapcache_locker :=
  match l with
  | LockerDisk b d => LockerDisk (LockerBase (timeout b) v) d
  | LockerMemcache b m => LockerMemcache (LockerBase (timeout b) v) m
  | LockerFallback b ls => LockerFallback (LockerBase (timeout b) v) ls
  end.

Definition set_timeout (v : Double.double) (l : mapcache_locker)
  : mapcache_locker :=
  match l with
  | LockerDisk b d => LockerDisk (LockerBase v (retry_interval b)) d
  | LockerMemcache b m => LockerMemcache (LockerBase v (retry_interval b)) m
  | LockerFallback b ls => LockerFallback (LockerBase v (retry_interval b)) ls
  end.

(** [apr_pcalloc] leaves [timeout] and [retry_interval] at zero. *)
Definition pcalloc_base : locker_base :=
  LockerBase (Double.of_int 0) (Double.of_int 0).

(** The double of the literal [0.1]: the binary64 number nearest to
    1/10. *)
Definition literal_0_1 : Double.double := Double.round (1 # 10).

(** [mapcache_locker_disk_parse_xml]: the directory of the lock files.
    [dir] is NULL between [mapcache_locker_disk_create] and this call,
    which always sets it. *)
Definition mapcache_locker_disk_parse_xml (doc : ezxml) : mapcache_locker_disk :=
  match ezxml_child doc "directory" with
  | Some node => LockerDiskCfg (txt node)
  | None => LockerDiskCfg "/tmp"
  end.

(** [mapcache_locker_disk_create] followed by the [parse_xml] it
    installs. *)
Definition mapcache_locker_disk_create_parse (doc : ezxml) : mapcache_locker :=
  LockerDisk pcalloc_base (mapcache_locker_disk_parse_xml doc).

Definition mapcache_locker_memcache_create : mapcache_locker :=
  LockerMemcache pcalloc_base (LockerMemcacheCfg [] None).

Definition mapcache_locker_fallback_create : mapcache_locker :=
  LockerFallback pcalloc_base [].

Definition port_message (text : string) : message :=
  Msg ("failed to parse memcache locker port " +:+ dquote +:+ "%s" +:+ dquote
         +:+ ". Expecting a positive integer")
      [ArgS text].

Definition lock_retry_message (text : string) : message :=
  Msg ("failed to parse lock_retry microseconds " +:+ dquote +:+ "%s" +:+ dquote
         +:+ ". Expecting a positive integer")
      [ArgS text].

Definition retry_message (text : string) : message :=
  Msg ("failed to locker parse retry seconds " +:+ dquote +:+ "%s" +:+ dquote
         +:+ ". Expecting a positive floating point number")
      [ArgS text].

Definition timeout_message (text : string) : message :=
  Msg ("failed to parse locker timeout seconds " +:+ dquote +:+ "%s" +:+ dquote
         +:+ ". Expecting a positive floating point number")
      [ArgS text].

Definition no_memcache_message : message :=
  Msg ("<locker>: type " +:+ dquote +:+ "memcache" +:+ dquote
         +:+ " cannot be used as memcache support is not compiled in")
      [].

Definition unknown_type_message (ltype : string) : message :=
  Msg ("<locker>: unknown type " +:+ dquote +:+ "%s" +:+ dquote
         +:+ " (allowed are disk and memcache)")
      [ArgS ltype].

Section Parse.
Context `{LibC}.

(** Whether the memcache locker is compiled in ([USE_MEMCACHE]). *)
Variable USE_MEMCACHE : bool.

(** The second loop of [mapcache_locker_memcache_parse_xml] over the
    [<server>] tags; [servers] are the entries [0 .. nservers-1] of
    [lm->servers].  The boolean tells that the function has returned. *)
Fixpoint memcache_parse_servers (server_nodes : list ezxml)
    (servers : list mapcache_locker_memcache_server) (ctx : mapcache_context)
  : bool * list mapcache_locker_memcache_server * mapcache_context :=
  match server_nodes with
  | [] => (false, servers, ctx)
  | server_node :: rest =>
      match ezxml_child server_node "host" with
      | None =>
          (true, servers,
           set_error 400 (Msg "memcache locker: no <host> provided" []) ctx)
      | Some hnode =>
          match ezxml_child server_node "port" with
          | Some node =>
              let '(v, endptr) := strtol (txt node) in
              let port := to_int32 (to_uint32 v) in
              if negb (at_end endptr) || (port <=? 0) then
                (true, servers, set_error 400 (port_message (txt node)) ctx)
              else
                memcache_parse_servers rest
                  (servers ++ [MemcacheServer (txt hnode) port]) ctx
          | None =>
              (* default memcached port *)
              memcache_parse_servers rest
                (servers ++ [MemcacheServer (txt hnode) 11211]) ctx
          end
      end
  end.

(** The first loop counts the [<server>] tags for the allocation; the
    count is then reset and the second loop fills the array. *)
Definition mapcache_locker_memcache_parse_xml (lm : mapcache_locker_memcache)
    (doc : ezxml) (ctx : mapcache_context)
  : mapcache_locker_memcache * mapcache_context :=
  let '(returned, servers, ctx) :=
    memcache_parse_servers (ezxml_children doc "server") [] ctx in
  if returned then (LockerMemcacheCfg servers (key_prefix lm), ctx)
  else
    match ezxml_child doc "key_prefix" with
    | Some node => (LockerMemcacheCfg servers (Some (txt node)), ctx)
    | None => (LockerMemcacheCfg servers (key_prefix lm), ctx)
    end.

(** The loop of [mapcache_locker_fallback_parse_xml] over the [<locker>]
    tags among the child tags [siblings]; [parse] is
    [mapcache_config_parse_locker]. *)
Definition fallback_parse_lockers
    (parse : ezxml -> mapcache_context ->
             mapcache_context * option mapcache_locker) :=
  fix loop (siblings : list ezxml) (lockers : list mapcache_locker)
           (ctx : mapcache_context)
    : list mapcache_locker * mapcache_context :=
    match siblings with
    | [] => (lockers, ctx)
    | node :: rest =>
        if String.eqb (name node) "locker" then
          let '(ctx, child_locker) := parse node ctx in
          (* GC_CHECK_ERROR *)
          if GC_HAS_ERROR ctx then (lockers, ctx)
          else
            match child_locker with
            | Some child_locker => loop rest (lockers ++ [child_locker]) ctx
            | None =>
                (* not reached: the locker is left unset with an error only *)
                (lockers, ctx)
            end
        else loop rest lockers ctx
    end.

(** The part of [mapcache_config_parse_locker] after [parse_xml]: the
    [<retry>] and [<timeout>] tags. *)
Definition parse_retry_timeout (node : ezxml) (locker : mapcache_locker)
    (ctx : mapcache_context) : mapcache_context * mapcache_locker :=
  let retried :=
    match ezxml_child node "retry" with
    | Some cur_node =>
        let '(v, endptr) := strtod (txt cur_node) in
        let locker := set_retry_interval v locker in
        if negb (at_end endptr) || Double.leb v (Double.of_int 0) then
          inl (set_error 400 (retry_message (txt cur_node)) ctx, locker)
        else inr locker
    | None =>
        (* default retry interval is 1/10th of a second *)
        inr (set_retry_interval literal_0_1 locker)
    end in
  match retried with
  | inl returned => returned
  | inr locker =>
      match ezxml_child node "timeout" with
      | Some cur_node =>
          let '(v, endptr) := strtod (txt cur_node) in
          let locker := set_timeout v locker in
          if negb (at_end endptr) || Double.leb v (Double.of_int 0) then
            (set_error 400 (timeout_message (txt cur_node)) ctx, locker)
          else (ctx, locker)
      | None =>
          (* default timeout is 2 minutes *)
          (ctx, set_timeout (Double.of_int 120) locker)
      end
  end.

(** [mapcache_config_parse_locker]: the context and what [*locker] holds
    when the function returns ([None]: it was not assigned). *)
Fixpoint mapcache_config_parse_locker (node : ezxml) (ctx : mapcache_context)
    {struct node} : mapcache_context * option mapcache_locker :=
  match node with
  | Tag _ _ _ children =>
      let ltype := match ezxml_attr node "type" with
                   | Some t => t
                   | None => "disk"%string
                   end in
      let created :=
        if String.eqb ltype "disk" then
          inr (mapcache_locker_disk_create_parse node, ctx)
        else if String.eqb ltype "fallback" then
          (* mapcache_locker_fallback_parse_xml *)
          let '(lockers, ctx) :=
            fallback_parse_lockers mapcache_config_parse_locker children [] ctx in
          inr (LockerFallback pcalloc_base lockers, ctx)
        else if String.eqb ltype "memcache" then
          if USE_MEMCACHE then
            let '(lm, ctx) :=
              mapcache_locker_memcache_parse_xml (LockerMemcacheCfg [] None)
                                                 node ctx in
            inr (LockerMemcache pcalloc_base lm, ctx)
          else inl (set_error 400 no_memcache_message ctx)
        else inl (set_error 400 (unknown_type_message ltype) ctx) in
      match created with
      | inl ctx => (ctx, None)
      | inr (locker, ctx) =>
          let '(ctx, locker) := parse_retry_timeout node locker ctx in
          (ctx, Some locker)
      end
  end.

Definition mapcache_locker_fallback_parse_xml (doc : ezxml)
    (ctx : mapcache_context) : list mapcache_locker * mapcache_context :=
  fallback_parse_lockers mapcache_config_parse_locker (child doc) [] ctx.

(** [mapcache_config_parse_locker_old] (backwards compatibility): the
    context and [config->locker]. *)
Definition mapcache_config_parse_locker_old (doc : ezxml)
    (ctx : mapcache_context) : mapcache_context * mapcache_locker :=
  let ldisk :=
    match ezxml_child doc "lock_dir" with
    | Some node => LockerDiskCfg (txt node)
    | None => LockerDiskCfg "/tmp"
    end in
  let parsed :=
    match ezxml_child doc "lock_retry" with
    | Some node =>
        let '(v, endptr) := strtol (txt node) in
        let micro_retry := to_int32 v in
        if negb (at_end endptr) || (micro_retry <=? 0) then
          inl (set_error 400 (lock_retry_message (txt node)) ctx)
        else inr micro_retry
    | None =>
        (* default retry interval is 1/100th of a second, i.e. 10000
           microseconds *)
        inr 10000
    end in
  match parsed with
  | inl ctx => (ctx, LockerDisk pcalloc_base ldisk)
  | inr micro_retry =>
      (* micro_retry / 1000000.0 *)
      (ctx,
       LockerDisk
         (LockerBase (Double.of_int 120)
                     (Double.div (Double.of_int micro_retry)
                                 (Double.of_int 1000000)))
         ldisk)
  end.

End Parse.

(** What the test [d <= 0] of the parser lets through: a positive
    number, plus infinity, or no number at all (a NaN compares false
    with everything). *)
Definition positive_or_nan (d : Double.double) : Prop :=
  match d with
  | Double.Finite q => (0 < q)%Q
  | Double.Infinity negative => negative = false
  | Double.NaN => True
  end.

(** Every locker in [l], children of fallback lockers included, has a
    timeout and a retry interval that are positive or no number. *)
Fixpoint timings_positive_or_nan (l : mapcache_locker) : Prop :=
  positive_or_nan (timeout (base_of l))
  /\ positive_or_nan (retry_interval (base_of l)) /\
  match l with
  | LockerFallback _ lockers =>
      (fix all (ls : list mapcache_locker) : Prop :=
         match ls with
         | [] => True
         | c :: rest => timings_positive_or_nan c /\ all rest
         end) lockers
  | _ => True
  end.

End LockerConfig.

(** ** Notions used in the statements about the lockers *)

Module LockerNotions.
Import Ctx Locker.

(** [n] rounds of sleeping [usec] microseconds and pinging [lock]. *)
Fixpoint wait_calls (usec : Z) (lock : lock_t) (n : nat) : list lock_call :=
  match n with
  | O => []
  | S n => CallSleep usec :: CallPing lock :: wait_calls usec lock n
  end.

(** No fallback locker in [l], at any depth, has an empty list of
    children. *)
Fixpoint has_children (l : mapcache_locker) : Prop :=
  match l with
  | LockerFallback _ lockers =>
      lockers <> [] /\
      (fix all (ls : list mapcache_locker) : Prop :=
         match ls with
         | [] => True
         | c :: rest => has_children c /\ all rest
         end) lockers
  | _ => True
  end.

(** The children of a fallback locker. *)
Definition children_of (l : mapcache_locker) : list mapcache_locker :=
  match l with
  | LockerFallback _ lockers => lockers
  | _ => []
  end.

(** The entry [srv] of a memcache locker was read from the tag
    [server_node]: the host is the text of [<host>]; the port is 11211
    without a [<port>] tag, and otherwise the number [strtol] read from
    a text it read to the end, modulo 2^32; it is a positive [int]. *)
Definition server_read `{Libc.LibC} (server_node : Ezxml.ezxml)
    (srv : mapcache_locker_memcache_server) : Prop :=
  (exists hnode, Ezxml.ezxml_child server_node "host" = Some hnode
                 /\ host srv = Ezxml.txt hnode)
  /\ 1 <= port srv <= 2147483647
  /\ match Ezxml.ezxml_child server_node "port" with
     | None => port srv = 11211
     | Some pnode =>
         snd (Libc.strtol (Ezxml.txt pnode)) = EmptyString
         /\ port srv mod 2 ^ 32 = fst (Libc.strtol (Ezxml.txt pnode)) mod 2 ^ 32
     end.

End LockerNotions.

(** ** A simulated C library and configuration documents *)

Module SimLibc.
Import Libc Ezxml.

Definition digit_of (c : ascii) : option Z :=
  let n := Z.of_nat (nat_of_ascii c) in
  if (48 <=? n) && (n <=? 57) then Some (n - 48) else None.

Fixpoint read_digits (s : string) (acc : Z) : Z * string :=
  match s with
  | EmptyString => (acc, s)
  | String c rest =>
      match digit_of c with
      | Some d => read_digits rest (10 * acc + d)
      | None => (acc, s)
      end
  end.

Fixpoint read_fraction (s : string) (num : Z) (den : positive) : Q * string :=
  match s with
  | EmptyString => (num # den, s)
  | String c rest =>
      match digit_of c with
      | Some d => read_fraction rest (10 * num + d) (10 * den)
      | None => (num # den, s)
      end
  end.

Definition starts_with_digit (s : string) : bool :=
  match s with
  | String c _ => match digit_of c with Some _ => true | None => false end
  | EmptyString => false
  end.

(** Decimal numbers with an optional minus sign; a text that does not
    start with a number gives 0 and is left unread. *)
Definition sim_strtol (s : string) : Z * string :=
  match s with
  | String "-" rest =>
      if starts_with_digit rest
      then let '(v, r) := read_digits rest 0 in (- v, r)
      else (0, s)
  | _ => if starts_with_digit s then read_digits s 0 else (0, s)
  end.

(** Decimal numbers with an optional fraction, rounded to the nearest
    double, and the text [nan]. *)
Definition sim_strtod (s : string) : Double.double * string :=
  if String.eqb s "nan" then (Double.NaN, EmptyString)
  else if starts_with_digit s then
    let '(v, r) := read_digits s 0 in
    match r with
    | String "." frac =>
        let '(q, r) := read_fraction frac v 1 in (Double.round q, r)
    | _ => (Double.round (inject_Z v), r)
    end
  else (Double.of_int 0, s).

#[export] Instance sim_libc : LibC := {|
  strtol := sim_strtol;
  strtod := sim_strtod;
  atoi s := to_int32 (fst (sim_strtol s))
|}.

(** A tag with text only, and a tag with children only. *)
Definition leaf (n t : string) : ezxml := Tag n [] t [].
Definition node (n : string) (attrs : list (string * string))
    (children : list ezxml) : ezxml :=
  Tag n attrs EmptyString children.

End SimLibc.

Module ConfigScenario.
Import Ctx Locker Ezxml Libc SimLibc.

(** A very long timeout: 5,000,000 seconds. *)
Definition a_patient_locker : mapcache_locker :=
  LockerDisk (LockerBase (Double.of_int 5000000) Scenario.d_0_1)
             (LockerDiskCfg "/locks").

(** [<locker>] with the timeout [nan] and a retry interval of 249
    microseconds. *)
Definition a_nan_timeout_doc : ezxml :=
  node "locker" [] [leaf "retry" "0.000249"; leaf "timeout" "nan"]%string.

(** [<locker type="fallback">] with a memcache locker on two servers
    and a disk locker, retrying every 0.25 seconds for 30 seconds. *)
Definition a_fallback_doc : ezxml :=
  node "locker" [("type", "fallback")]
    [node "locker" [("type", "memcache")]
       [node "server" [] [leaf "host" "mc1"; leaf "port" "11212"];
        node "server" [] [leaf "host" "mc2"];
        leaf "key_prefix" "site"];
     node "locker" [("type", "disk")] [leaf "directory" "/locks"];
     leaf "retry" "0.25";
     leaf "timeout" "30"]%string.

(** [<locker type="fallback"/>]: no child locker. *)
Definition an_empty_fallback_doc : ezxml :=
  node "locker" [("type", "fallback")]%string [].

(** [<locker/>]: nothing is given. *)
Definition a_bare_locker_doc : ezxml := node "locker" [] [].

(** A memcache locker whose port is 2^32 + 1. *)
Definition a_wrapped_port_doc : ezxml :=
  node "locker" [("type", "memcache")]%string
    [node "server" [] [leaf "host" "mc1"; leaf "port" "4294967297"]].

(** The old configuration style: [<lock_dir>] and [<lock_retry>] in the
    document root. *)
Definition an_old_style_doc : ezxml :=
  node "mapcache" [] [leaf "lock_dir" "/var/lock"; leaf "lock_retry" "20000"].

(** The same with a retry of 249 microseconds. *)
Definition an_old_style_249_doc : ezxml :=
  node "mapcache" [] [leaf "lock_dir" "/var/lock"; leaf "lock_retry" "249"].

End ConfigScenario.

(** ** Multi-tier cache configuration *)

Module MultitierConfig.
Import Ctx Tile Multitier Ezxml Libc.

(** [mapcache_configuration_get_cache(config, key)]: the cache declared
    under that name, or NULL.  It belongs to the configuration layer,
    so it is an interface here. *)
Class ConfigApi (mapcache_cfg cache : Type) := {
  mapcache_configuration_get_cache : mapcache_cfg -> string -> option cache
}.

Definition more_than_one_message (pcache_name : string) : message :=
  Msg ("multitier cache " +:+ dquote +:+ "%s" +:+ dquote
         +:+ " has write attribute set to true on more than one child cache")
      [ArgS pcache_name].

Definition not_configured_message (pcache_name text : string) : message :=
  Msg ("multitier cache " +:+ dquote +:+ "%s" +:+ dquote
         +:+ " references cache " +:+ dquote +:+ "%s" +:+ dquote
         +:+ ", but it is not configured (hint:referenced caches must be"
         +:+ " declared before this multitier cache in the xml file)")
      [ArgS pcache_name; ArgS text].

Definition no_child_message (pcache_name : string) : message :=
  Msg ("multitier cache " +:+ dquote +:+ "%s" +:+ dquote
         +:+ " does not reference any child caches")
      [ArgS pcache_name].

Definition no_writable_message (pcache_name : string) : message :=
  Msg ("multitier cache " +:+ dquote +:+ "%s" +:+ dquote
         +:+ " has no child cache configured as writable")
      [ArgS pcache_name].

Section ParseXml.
Context {mapcache_cfg mapcache_cache : Type}
        `{ConfigApi mapcache_cfg mapcache_cache}.

Definition set_write_cache_idx (i : Z) (c : mapcache_cache_multitier mapcache_cache) :=
  MultitierCache (Multitier.name c) (caches c) i.

(** [APR_ARRAY_PUSH(cache->caches, mapcache_cache* ) = refcache] *)
Definition push_cache (refcache : mapcache_cache) (c : mapcache_cache_multitier mapcache_cache) :=
  MultitierCache (Multitier.name c) (caches c ++ [refcache]) (write_cache_idx c).

(** The loop of [_mapcache_cache_multitier_configuration_parse_xml]
    over the [<cache>] tags, entered at index [i]; the boolean tells
    that the function has returned. *)
Fixpoint multitier_parse_children (config : mapcache_cfg)
    (nodes : list ezxml) (i rw_cache : Z)
    (cache : mapcache_cache_multitier mapcache_cache) (ctx : mapcache_context)
  : bool * Z * mapcache_cache_multitier mapcache_cache * mapcache_context :=
  match nodes with
  | [] => (false, rw_cache, cache, ctx)
  | cur_node :: rest =>
      let flagged :=
        match ezxml_attr cur_node "write" with
        | Some write =>
            (* check if write flag is set to true on this child cache *)
            if String.eqb write "true" then
              if 0 <=? write_cache_idx cache then
                (* can only set write flag to true on one child cache *)
                inl (set_error 400 (more_than_one_message (Multitier.name cache)) ctx)
              else inr (set_write_cache_idx i cache, rw_cache)
            else inr (cache, rw_cache)
        | None =>
            (* write flag not set, this child cache is writable by
               default. we'll remember the last one *)
            inr (cache, i)
        end in
      match flagged with
      | inl ctx => (true, rw_cache, cache, ctx)
      | inr (cache, rw_cache) =>
          match mapcache_configuration_get_cache config (txt cur_node) with
          | None =>
              (true, rw_cache, cache,
               set_error 400
                 (not_configured_message (Multitier.name cache) (txt cur_node)) ctx)
          | Some refcache =>
              multitier_parse_children config rest (i + 1) rw_cache
                                       (push_cache refcache cache) ctx
          end
      end
  end.

Definition _mapcache_cache_multitier_configuration_parse_xml (node : ezxml)
    (pcache : mapcache_cache_multitier mapcache_cache) (config : mapcache_cfg)
    (ctx : mapcache_context)
  : mapcache_cache_multitier mapcache_cache * mapcache_context :=
  (* cache->caches = apr_array_make(...) *)
  let cache := MultitierCache (Multitier.name pcache) [] (write_cache_idx pcache) in
  let '(returned, rw_cache, cache, ctx) :=
    multitier_parse_children config (ezxml_children node "cache") 0 (-1)
                             cache ctx in
  if returned then (cache, ctx)
  else if Z.of_nat (length (caches cache)) =? 0 then
    (cache, set_error 400 (no_child_message (Multitier.name cache)) ctx)
  else if write_cache_idx cache <? 0 then
    (* write flag was not set to true on any child cache *)
    if rw_cache <? 0 then
      (cache, set_error 400 (no_writable_message (Multitier.name cache)) ctx)
    else
      (* write tiles to last writable child cache *)
      (set_write_cache_idx rw_cache cache, ctx)
  else (cache, ctx).

End ParseXml.

(** [cur_node] carries [write="true"]. *)
Definition write_true (cur_node : ezxml) : Prop :=
  ezxml_attr cur_node "write" = Some "true"%string.

(** [cur_node] carries no [write] attribute. *)
Definition write_unset (cur_node : ezxml) : Prop :=
  ezxml_attr cur_node "write" = None.

Section TierProbes.
Context {cache W : Type} `{CacheApi cache W} `{ResultCodes}.

(** The [exists] calls on the tiers [subs], in order, all answer
    something else than [MAPCACHE_TRUE]: the context and the world after
    them. *)
Fixpoint tiers_all_absent (subs : list cache) (tile : mapcache_tile)
    (ctx : mapcache_context) (w : W) : option (mapcache_context * W) :=
  match subs with
  | [] => Some (ctx, w)
  | subcache :: rest =>
      let '(r, ctx, w) := mapcache_cache_tile_exists subcache tile ctx w in
      if r =? MAPCACHE_TRUE then None
      else tiers_all_absent rest tile ctx w
  end.

(** One round of the delete loop on cache [subcache]. *)
Definition delete_one (tile : mapcache_tile) (subcache : cache)
    (st : mapcache_context * W) : mapcache_context * W :=
  let '(ctx, w) := st in
  let '(ctx, w) := mapcache_cache_tile_delete subcache tile ctx w in
  (clear_errors ctx, w).

End TierProbes.

End MultitierConfig.

Module SimConfig.
Import Ezxml SimLibc MultitierConfig.

(** The caches of a configuration by name; a cache is the number of a
    simulated tier. *)
#[export] Instance sim_config_api : ConfigApi (gmap string nat) nat := {|
  mapcache_configuration_get_cache config key := config !! key
|}.

Definition three_caches : gmap string nat :=
  <["fast"%string := 0%nat]> (<["slow"%string := 1%nat]>
    (<["slower"%string := 2%nat]> ∅)).

(** A multi-tier cache over [fast], which is read-only, [slow] and
    [slower]. *)
Definition a_multitier_doc : ezxml :=
  node "cache" [("name", "mt"); ("type", "multitier")]
    [Tag "cache" [("write", "false")] "fast" [];
     leaf "cache" "slow";
     leaf "cache" "slower"]%string.

(** What [mapcache_cache_multitier_create] leaves, then named. *)
Definition a_new_multitier : Multitier.mapcache_cache_multitier nat :=
  Multitier.MultitierCache "mt" [] (-1).

End SimConfig.

(** ** Apache module: hooks, aliases and responses *)

Module ModMapcacheHooks.
Import Ctx ModMapcache.

(** Apache's handler results and the status of a refused method. *)
Definition OK : Z := 0.
Definition DECLINED : Z := -1.
Definition HTTP_METHOD_NOT_ALLOWED : Z := 405.

(** *** Alias matching *)

Definition is_slash (c : ascii) : bool := Ascii.eqb c "/".

(** The [do ... while] loops that move a pointer past a run of
    slashes, once the pointer is past the first slash: the number of
    further slashes passed, and where the pointer stops. *)
Fixpoint skip_slashes (p : string) : Z * string :=
  match p with
  | String c rest =>
      if is_slash c then let '(k, stop) := skip_slashes rest in (k + 1, stop)
      else (0, p)
  | EmptyString => (0, p)
  end.

(** The [while] loop of [mapcache_alias_matches] over the alias;
    [matched] is [urip - uri].  [None] is the [return 0] inside the loop;
    otherwise the result is [urip] and [urip - uri] when the loop
    ends. *)
Fixpoint alias_loop (aliasp urip : string) (matched : Z) {struct aliasp}
  : option (string * Z) :=
  match aliasp with
  | EmptyString => Some (urip, matched)
  | String a aliasp' =>
      if is_slash a then
        (* any number of '/' in the alias matches any number in the
           supplied URI, but there must be at least one... *)
        match urip with
        | String u urip' =>
            if is_slash u then
              let '(k, urip_stop) := skip_slashes urip' in
              (fix skip_alias (p : string) : option (string * Z) :=
                 match p with
                 | String c p' =>
                     if is_slash c then skip_alias p'
                     else alias_loop p urip_stop (matched + 1 + k)
                 | EmptyString => Some (urip_stop, matched + 1 + k)
                 end) aliasp'
            else None
        | EmptyString => None
        end
      else
        (* Other characters are compared literally *)
        match urip with
        | String u urip' =>
            if Ascii.eqb u a then alias_loop aliasp' urip' (matched + 1)
            else None
        | EmptyString => None
        end
  end.

Fixpoint last_char (s : string) : option ascii :=
  match s with
  | EmptyString => None
  | String c EmptyString => Some c
  | String _ rest => last_char rest
  end.

(** [mapcache_alias_matches(uri, alias_fakename)].  [None] stands for
    undefined behaviour: with an empty alias the loop does not run and
    [aliasp[-1]] reads the byte before the alias. *)
Definition mapcache_alias_matches (uri alias_fakename : string) : option Z :=
  match alias_loop alias_fakename uri 0 with
  | None => Some 0
  | Some (urip, matched) =>
      (* did the last alias path component match all the way? *)
      match last_char alias_fakename with
      | None => None
      | Some before =>
          if negb (is_slash before)
             && match urip with
                | EmptyString => false
                | String u _ => negb (is_slash u)
                end
          then Some 0
          else Some matched
      end
  end.

(** *** The fixup hook and the request context *)

(** The fields of [request_rec] the hooks read and write. *)
Record request_rec := RequestRec {
  handler : option string;
  method_number : Z;
  uri : string;
  notes : apr_table_t;
  path_info : option string
}.

(** [&(r->uri[l])] *)
Fixpoint string_from (l : nat) (s : string) : string :=
  match l, s with
  | O, _ => s
  | S l, String _ rest => string_from l rest
  | S _, EmptyString => EmptyString
  end.

(** The loop of [mapcache_hook_fixups] through the entries to find one
    where the alias matches. *)
Fixpoint fixups_loop (entries : list mapcache_alias_entry) (r : request_rec)
  : option (Z * request_rec) :=
  match entries with
  | [] => Some (DECLINED, r)
  | alias_entry :: rest =>
      match mapcache_alias_matches (uri r) (endpoint alias_entry) with
      | None => None
      | Some l =>
          if 0 <? l then
            Some (OK,
                  RequestRec (Some "mapcache"%string) (method_number r) (uri r)
                    (apr_table_set (notes r) "mapcache_alias_entry"
                                   (Some (endpoint alias_entry)))
                    (Some (string_from (Z.to_nat l) (uri r))))
          else fixups_loop rest r
      end
  end.

(** [mapcache_hook_fixups]; [sconfig] is the module configuration of
    the server, NULL as [None]. *)
Definition mapcache_hook_fixups (sconfig : option mapcache_server_cfg)
    (r : request_rec) : option (Z * request_rec) :=
  match handler r with
  | None =>
      match sconfig with
      | None => Some (DECLINED, r)
      | Some sconfig =>
          match uri r with
          | String c _ =>
              if negb (is_slash c) then Some (DECLINED, r)
              else fixups_loop (aliases sconfig) r
          | EmptyString => fixups_loop (aliases sconfig) r
          end
      end
  | Some _ => Some (DECLINED, r)
  end.

(** The loop of [apache_request_context_create]: the first entry whose
    endpoint is the alias. *)
Fixpoint find_alias_entry (entries : list mapcache_alias_entry)
    (mapcache_alias : string) : option mapcache_alias_entry :=
  match entries with
  | [] => None
  | alias_entry :: rest =>
      if negb (String.eqb (endpoint alias_entry) mapcache_alias)
      then find_alias_entry rest mapcache_alias
      else Some alias_entry
  end.

(** [apache_request_context_create]: the alias entry whose configuration
    and connection pool the new context takes (NULL as [None]), and the
    lines written to the error log. *)
Definition apache_request_context_create (cfg : option mapcache_server_cfg)
    (r : request_rec) : option mapcache_alias_entry * list message :=
  match cfg with
  | None => (None, [])
  | Some cfg =>
      match apr_table_get (notes r) "mapcache_alias_entry" with
      | None =>
          (None, [Msg "mapcache module bug? no mapcache_alias_entry found" []])
      | Some mapcache_alias =>
          match find_alias_entry (aliases cfg) mapcache_alias with
          | Some alias_entry => (Some alias_entry, [])
          | None =>
              (None,
               [Msg "mapcache module bug? no mapcache_alias_entry found for %s"
                    [ArgS mapcache_alias]])
          end
      end
  end.

(** The head of [mod_mapcache_request_handler], up to the creation of
    the request context: the code returned there, or the alias entry of
    the context the handler goes on with. *)
Definition request_handler_gate (cfg : option mapcache_server_cfg)
    (r : request_rec) : Z + mapcache_alias_entry :=
  match handler r with
  | None => inl DECLINED
  | Some h =>
      if negb (String.eqb h "mapcache") then inl DECLINED
      else if negb (method_number r =? M_GET) && negb (method_number r =? M_POST)
      then inl HTTP_METHOD_NOT_ALLOWED
      else
        match fst (apache_request_context_create cfg r) with
        | None => inl DECLINED
        | Some alias_entry => inr alias_entry
        end
  end.

(** *** The service URL of a capabilities document *)

Fixpoint strstr (haystack needle : string) : option nat :=
  if String.prefix needle haystack then Some O
  else match haystack with
       | EmptyString => None
       | String _ rest =>
           match strstr rest needle with
           | Some e => Some (S e)
           | None => None
           end
       end.

(** The slashes at the head of [l]. *)
Fixpoint leading_slashes (l : list ascii) : nat :=
  match l with
  | c :: rest => if is_slash c then S (leading_slashes rest) else O
  | [] => O
  end.

(** The block of the handler that removes the path info from the end
    of the URL of a capabilities request.  [None] stands for undefined
    behaviour: the loop that steps [slash] back reads the byte before
    the URL when only slashes come before the path info. *)
Definition remove_path_info (url path_info : string) : option string :=
  if negb (Libc.at_end path_info) && negb (String.eqb path_info "/") then
    match strstr url path_info with
    | Some e =>
        let chars := list_ascii_of_string url in
        match nth_error chars e with
        | Some c =>
            if is_slash c then
              (* make sure our url ends with a single '/' *)
              let back := leading_slashes (rev (firstn e chars)) in
              if (back =? e)%nat then None
              else Some (string_of_list_ascii (firstn (e - back + 1) chars))
            else Some (string_of_list_ascii (firstn e chars))
        | None => Some (string_of_list_ascii (firstn e chars))
        end
    | None => Some url
    end
  else Some url.

(** *** Connection pools of the child process *)

(** [mapcache_connection_pool_create_custom]: the status and the pool
    left in the out-parameter (NULL as [None]); 0 is [APR_SUCCESS]. *)
Class PoolEnv (W pool : Type) := {
  mapcache_connection_pool_create_custom :
    Z -> Z -> Z -> Z -> W -> Z * option pool * W
}.

Section ChildInit.
Context {W pool : Type} `{PoolEnv W pool}.

(** The loop of [mod_mapcache_child_init] over the aliases of one
    server: the pool given to each alias, and the log. *)
Fixpoint child_init_aliases (cfg : mapcache_server_cfg)
    (server_hostname : string) (entries : list mapcache_alias_entry)
    (cp : option pool) (w : W)
  : list (mapcache_alias_entry * option pool)
    * list (mapcache_log_level * message) * W :=
  match entries with
  | [] => ([], [], w)
  | alias_entry :: rest =>
      match cp with
      | None =>
          let '(rv, cp, w) :=
            mapcache_connection_pool_create_custom
              (cp_min cfg) (cp_smax cfg) (cp_hmax cfg) (cp_ttl cfg) w in
          let created :=
            (MAPCACHE_DEBUG,
             Msg ("creating a child process mapcache connection pool "
                    +:+ "(min=%d,smax=%d,hmax=%d,ttl=%d) on server %s for alias %s")
                 [ArgD (cp_min cfg); ArgD (cp_smax cfg); ArgD (cp_hmax cfg);
                  ArgD (cp_ttl cfg); ArgS server_hostname;
                  ArgS (endpoint alias_entry)]) in
          let failed :=
            if negb (rv =? 0)
            then [(MAPCACHE_CRIT,
                   Msg "failed to create mapcache connection pool" [])]
            else [] in
          let next := if cp_sharing cfg =? 0 then None else cp in
          let '(given, logged, w) :=
            child_init_aliases cfg server_hostname rest next w in
          ((alias_entry, cp) :: given, created :: failed ++ logged, w)
      | Some _ =>
          let shared :=
            (MAPCACHE_DEBUG,
             Msg ("sharing a child process mapcache connection pool "
                    +:+ "on server %s for alias %s")
                 [ArgS server_hostname; ArgS (endpoint alias_entry)]) in
          let '(given, logged, w) :=
            child_init_aliases cfg server_hostname rest cp w in
          ((alias_entry, cp) :: given, shared :: logged, w)
      end
  end.

(** One round of the loop over the servers: [cp] starts at NULL. *)
Definition child_init_server (cfg : mapcache_server_cfg)
    (server_hostname : string) (w : W) :=
  child_init_aliases cfg server_hostname (aliases cfg) None w.

End ChildInit.

End ModMapcacheHooks.

(** ** Notions used in the statements about the hooks *)

Module HookNotions.
Import ModMapcache ModMapcacheHooks.

(** A run of [n] slashes. *)
Fixpoint slashes (n : nat) : string :=
  match n with
  | O => EmptyString
  | S n => String "/" (slashes n)
  end.

Definition starts_with_slash (s : string) : bool :=
  match s with
  | String c _ => is_slash c
  | EmptyString => false
  end.

(** [s] with every run of slashes replaced by one slash. *)
Fixpoint squeeze (s : string) : string :=
  match s with
  | EmptyString => EmptyString
  | String c rest =>
      if is_slash c && starts_with_slash rest then squeeze rest
      else String c (squeeze rest)
  end.

(** The first [n] characters of [s]. *)
Fixpoint string_take (n : nat) (s : string) : string :=
  match n, s with
  | S n, String c rest => String c (string_take n rest)
  | _, _ => EmptyString
  end.

(** The first entry of [entries] whose endpoint matches [uri] with a
    positive length. *)
Fixpoint first_match (entries : list mapcache_alias_entry) (uri : string)
  : option mapcache_alias_entry :=
  match entries with
  | [] => None
  | e :: rest =>
      match mapcache_alias_matches uri (endpoint e) with
      | Some l => if 0 <? l then Some e else first_match rest uri
      | None => None
      end
  end.

End HookNotions.

Module HookScenario.
Import ModMapcache ModMapcacheHooks.

(** The main server serves [/maps] and [/tiles]; a virtual host serves
    [/maps] from a configuration file of its own. *)
Definition main_server : mapcache_server_cfg :=
  ServerCfg [AliasEntry "/tiles" "/etc/mapcache/tiles.xml";
             AliasEntry "/maps" "/etc/mapcache/maps.xml"]
            0 0 0 1 0 5 0 200 0 60.

Definition a_vhost : mapcache_server_cfg :=
  ServerCfg [AliasEntry "/maps" "/etc/mapcache/vhost-maps.xml"]
            0 0 0 1 0 5 0 200 0 60.

(** The main server with [MapCacheConnectionPoolSharing On]. *)
Definition a_sharing_server : mapcache_server_cfg :=
  mapcache_set_cp_sharing 1 main_server.

(** A GET of [/maps//wmts/1.0.0/WMTSCapabilities.xml] that no handler
    has claimed yet. *)
Definition a_fresh_request : request_rec :=
  RequestRec None M_GET "/maps//wmts/1.0.0/WMTSCapabilities.xml" [] None.

(** Pools are numbered in the order of their creation. *)
#[export] Instance sim_pool_env : PoolEnv nat nat := {|
  mapcache_connection_pool_create_custom _ _ _ _ w := (0, Some w, S w)
|}.

End HookScenario.

Module RiakScenario.
Import Ctx Tile Riak Sim.

(** The riak cache of the other scenarios without blank detection. *)
Definition a_plain_riak_cache : mapcache_cache_riak :=
  RiakCache "riak" (Some "localhost"%string) None None None None 8087
            None "tiles" None 0 0 0 0 0 None None.

(** A tile with four encoded bytes. *)
Definition an_encoded_tile : mapcache_tile :=
  set_encoded_data (Some a_tile_bytes) a_tile.

Definition a_stored_content : riack_content :=
  RiackContent a_tile_bytes None 0 0 0 0.

(** The riak server after [an_encoded_tile] was stored. *)
Definition stored_tile_world : riak_world :=
  RiakWorld (<[(None, "tiles"%string, sim_tile_key a_tile) := a_stored_content]> ∅)
            [] [] true.

(** A riak server that cannot be reached. *)
Definition unreachable_riak_world : riak_world := RiakWorld ∅ [] [] false.

End RiakScenario.

(** ** Riak cache configuration (lib/cache_riak2.c) *)

Module RiakConfig.
Import Ctx Riak Ezxml Libc.

(** The text of a tag that is there and is not empty
    ([x && x->txt && *x->txt]). *)
Definition text_of (x : option ezxml) : option string :=
  match x with
  | Some n => if at_end (txt n) then None else Some (txt n)
  | None => None
  end.

Definition set_host (v : option string) (c : mapcache_cache_riak) :=
  RiakCache (cache_name c) v (ciphers c) (ca_file c) (cert_file c) (key_file c)
            (port c) (key_template c) (bucket_template c)
            (bucket_type_template c) (keep_alive c) (cache_r c) (cache_w c)
            (session_timeout c) (detect_blank c) (user c) (password c).

Definition set_ciphers (v : option string) (c : mapcache_cache_riak) :=
  RiakCache (cache_name c) (host c) v (ca_file c) (cert_file c) (key_file c)
            (port c) (key_template c) (bucket_template c)
            (bucket_type_template c) (keep_alive c) (cache_r c) (cache_w c)
            (session_timeout c) (detect_blank c) (user c) (password c).

Definition set_ca_file (v : option string) (c : mapcache_cache_riak) :=
  RiakCache (cache_name c) (host c) (ciphers c) v (cert_file c) (key_file c)
            (port c) (key_template c) (bucket_template c)
            (bucket_type_template c) (keep_alive c) (cache_r c) (cache_w c)
            (session_timeout c) (detect_blank c) (user c) (password c).

Definition set_cert_file (v : option string) (c : mapcache_cache_riak) :=
  RiakCache (cache_name c) (host c) (ciphers c) (ca_file c) v (key_file c)
            (port c) (key_template c) (bucket_template c)
            (bucket_type_template c) (keep_alive c) (cache_r c) (cache_w c)
            (session_timeout c) (detect_blank c) (user c) (password c).

Definition set_key_file (v : option string) (c : mapcache_cache_riak) :=
  RiakCache (cache_name c) (host c) (ciphers c) (ca_file c) (cert_file c) v
            (port c) (key_template c) (bucket_template c)
            (bucket_type_template c) (keep_alive c) (cache_r c) (cache_w c)
            (session_timeout c) (detect_blank c) (user c) (password c).

Definition set_port (v : Z) (c : mapcache_cache_riak) :=
  RiakCache (cache_name c) (host c) (ciphers c) (ca_file c) (cert_file c)
            (key_file c) v (key_template c) (bucket_template c)
            (bucket_type_template c) (keep_alive c) (cache_r c) (cache_w c)
            (session_timeout c) (detect_blank c) (user c) (password c).

Definition set_key_template (v : option string) (c : mapcache_cache_riak) :=
  RiakCache (cache_name c) (host c) (ciphers c) (ca_file c) (cert_file c)
            (key_file c) (port c) v (bucket_template c)
            (bucket_type_template c) (keep_alive c) (cache_r c) (cache_w c)
            (session_timeout c) (detect_blank c) (user c) (password c).

Definition set_bucket_template (v : string) (c : mapcache_cache_riak) :=
  RiakCache (cache_name c) (host c) (ciphers c) (ca_file c) (cert_file c)
            (key_file c) (port c) (key_template c) v
            (bucket_type_template c) (keep_alive c) (cache_r c) (cache_w c)
            (session_timeout c) (detect_blank c) (user c) (password c).

Definition set_bucket_type_template (v : option string)
    (c : mapcache_cache_riak) :=
  RiakCache (cache_name c) (host c) (ciphers c) (ca_file c) (cert_file c)
            (key_file c) (port c) (key_template c) (bucket_template c)
            v (keep_alive c) (cache_r c) (cache_w c)
            (session_timeout c) (detect_blank c) (user c) (password c).

Definition set_keep_alive (v : Z) (c : mapcache_cache_riak) :=
  RiakCache (cache_name c) (host c) (ciphers c) (ca_file c) (cert_file c)
            (key_file c) (port c) (key_template c) (bucket_template c)
            (bucket_type_template c) v (cache_r c) (cache_w c)
            (session_timeout c) (detect_blank c) (user c) (password c).

Definition set_r (v : Z) (c : mapcache_cache_riak) :=
  RiakCache (cache_name c) (host c) (ciphers c) (ca_file c) (cert_file c)
            (key_file c) (port c) (key_template c) (bucket_template c)
            (bucket_type_template c) (keep_alive c) v (cache_w c)
            (session_timeout c) (detect_blank c) (user c) (password c).

Definition set_w (v : Z) (c : mapcache_cache_riak) :=
  RiakCache (cache_name c) (host c) (ciphers c) (ca_file c) (cert_file c)
            (key_file c) (port c) (key_template c) (bucket_template c)
            (bucket_type_template c) (keep_alive c) (cache_r c) v
            (session_timeout c) (detect_blank c) (user c) (password c).

Definition set_session_timeout (v : Z) (c : mapcache_cache_riak) :=
  RiakCache (cache_name c) (host c) (ciphers c) (ca_file c) (cert_file c)
            (key_file c) (port c) (key_template c) (bucket_template c)
            (bucket_type_template c) (keep_alive c) (cache_r c) (cache_w c)
            v (detect_blank c) (user c) (password c).

Definition set_detect_blank (v : Z) (c : mapcache_cache_riak) :=
  RiakCache (cache_name c) (host c) (ciphers c) (ca_file c) (cert_file c)
            (key_file c) (port c) (key_template c) (bucket_template c)
            (bucket_type_template c) (keep_alive c) (cache_r c) (cache_w c)
            (session_timeout c) v (user c) (password c).

Definition set_user (v : option string) (c : mapcache_cache_riak) :=
  RiakCache (cache_name c) (host c) (ciphers c) (ca_file c) (cert_file c)
            (key_file c) (port c) (key_template c) (bucket_template c)
            (bucket_type_template c) (keep_alive c) (cache_r c) (cache_w c)
            (session_timeout c) (detect_blank c) v (password c).

Definition set_password (v : option string) (c : mapcache_cache_riak) :=
  RiakCache (cache_name c) (host c) (ciphers c) (ca_file c) (cert_file c)
            (key_file c) (port c) (key_template c) (bucket_template c)
            (bucket_type_template c) (keep_alive c) (cache_r c) (cache_w c)
            (session_timeout c) (detect_blank c) (user c) v.

(** [if (x && x->txt && *x->txt) field = x->txt]: the field is set
    when the tag has text. *)
Definition set_if_text (set : option string -> mapcache_cache_riak ->
                              mapcache_cache_riak)
    (x : option ezxml) (c : mapcache_cache_riak) : mapcache_cache_riak :=
  match text_of x with
  | Some t => set (Some t) c
  | None => c
  end.

Section ParseXml.
Context `{LibC}.

(** The [r] and [w] attributes of [<bucket>]: the cache, and the
    context when the function returns there. *)
Definition riak_parse_quorums (xbucket : ezxml) (dcache : mapcache_cache_riak)
    (ctx : mapcache_context) : mapcache_cache_riak * option mapcache_context :=
  let read_r :=
    match ezxml_attr xbucket "r" with
    | Some r =>
        let dcache := set_r (atoi r) dcache in
        if cache_r dcache <=? 0 then
          (dcache,
           Some (set_error 400 (Msg "cache %s: r value must be positive"
                                    [ArgS (cache_name dcache)]) ctx))
        else (dcache, None)
    | None => (dcache, None)
    end in
  match read_r with
  | (dcache, Some ctx) => (dcache, Some ctx)
  | (dcache, None) =>
      match ezxml_attr xbucket "w" with
      | Some w =>
          let dcache := set_w (atoi w) dcache in
          if cache_w dcache <=? 0 then
            (dcache,
             Some (set_error 400 (Msg "cache %s: w value must be positive"
                                      [ArgS (cache_name dcache)]) ctx))
          else (dcache, None)
      | None => (dcache, None)
      end
  end.

(** The part of the parse after [<host>], [<port>] and [<bucket>]: the
    optional tags, none of which makes the function return early. *)
Definition riak_parse_options (node cur_node : ezxml)
    (dcache : mapcache_cache_riak) (ctx : mapcache_context)
  : mapcache_cache_riak * mapcache_context :=
  let dcache := set_if_text set_key_template (ezxml_child cur_node "key") dcache in
  let dcache := set_if_text set_bucket_type_template
                            (ezxml_child cur_node "bucket_type") dcache in
  let dcache := set_if_text set_user (ezxml_child cur_node "user") dcache in
  let dcache := set_if_text set_password (ezxml_child cur_node "password")
                            dcache in
  let dcache := set_if_text set_ca_file (ezxml_child cur_node "ca_file") dcache in
  let dcache := set_if_text set_cert_file (ezxml_child cur_node "cert_file")
                            dcache in
  let dcache := set_if_text set_key_file (ezxml_child cur_node "key_file")
                            dcache in
  let dcache := set_if_text set_ciphers (ezxml_child cur_node "ciphers") dcache in
  let '(dcache, ctx) :=
    match text_of (ezxml_child cur_node "session_timeout") with
    | Some t =>
        let dcache := set_session_timeout (atoi t) dcache in
        if session_timeout dcache <=? 0 then
          (dcache,
           set_error 400
             (Msg "cache %s: session_timeout must be a positive number"
                  [ArgS (cache_name dcache)]) ctx)
        else (dcache, ctx)
    | None => (dcache, ctx)
    end in
  let dcache :=
    match ezxml_child cur_node "keep_alive" with
    | Some _ => set_keep_alive 1 dcache
    | None => dcache
    end in
  let dcache :=
    match text_of (ezxml_child node "detect_blank") with
    | Some t =>
        if ModMapcache.strcasecmp_eq t "true" then set_detect_blank 1 dcache
        else dcache
    | None => dcache
    end in
  (dcache, ctx).

Definition _mapcache_cache_riak_configuration_parse_xml (node : ezxml)
    (dcache : mapcache_cache_riak) (ctx : mapcache_context)
  : mapcache_cache_riak * mapcache_context :=
  let servercount := Z.of_nat (length (ezxml_children node "server")) in
  if servercount =? 0 then
    (dcache,
     set_error 400 (Msg "riak cache %s has no <server>s configured"
                        [ArgS (cache_name dcache)]) ctx)
  else if 1 <? servercount then
    (dcache,
     set_error 400 (Msg "riak cache %s has more than 1 server configured"
                        [ArgS (cache_name dcache)]) ctx)
  else
    match ezxml_child node "server" with
    | None => (dcache, ctx)       (* not reached: there is one server *)
    | Some cur_node =>
        match text_of (ezxml_child cur_node "host") with
        | None =>
            (dcache,
             set_error 400 (Msg "cache %s: <server> with no <host>"
                                [ArgS (cache_name dcache)]) ctx)
        | Some xhost =>
            let dcache := set_host (Some xhost) dcache in
            match text_of (ezxml_child cur_node "port") with
            | None =>
                (dcache,
                 set_error 400 (Msg "cache %s: <server> with no <port>"
                                    [ArgS (cache_name dcache)]) ctx)
            | Some xport =>
                let dcache := set_port (atoi xport) dcache in
                match ezxml_child cur_node "bucket",
                      text_of (ezxml_child cur_node "bucket") with
                | Some xbucket, Some bucket_txt =>
                    let dcache := set_bucket_template bucket_txt dcache in
                    match riak_parse_quorums xbucket dcache ctx with
                    | (dcache, Some ctx) => (dcache, ctx)
                    | (dcache, None) =>
                        riak_parse_options node cur_node dcache ctx
                    end
                | _, _ =>
                    (dcache,
                     set_error 400 (Msg "cache %s: <server> with no <bucket>"
                                        [ArgS (cache_name dcache)]) ctx)
                end
            end
        end
    end.

End ParseXml.

End RiakConfig.

Module RiakConfigScenario.
Import Riak Ezxml SimLibc.

(** A riak cache on one server, with a read quorum of 2 and blank
    detection. *)
Definition a_riak_doc : ezxml :=
  node "cache" [("name", "riak"); ("type", "riak")]
    [node "server" []
       [leaf "host" "riak1"; leaf "port" "8087";
        Tag "bucket" [("r", "2")] "tiles" [];
        leaf "key" "{tileset}/{z}/{x}/{y}"];
     leaf "detect_blank" "True"]%string.

(** What [mapcache_cache_riak_create] leaves, then named; the bucket
    template is not set yet. *)
Definition a_new_riak_cache : mapcache_cache_riak :=
  RiakCache "riak" None None None None None 8087 None EmptyString None 0 0 0 0 0
            None None.

End RiakConfigScenario.
(** * Properties *)

(** ** The error ledger *)

Section CtxFacts.
Import Ctx.

Lemma has_error_clear ctx : GC_HAS_ERROR (clear_errors ctx) = false.
Proof. reflexivity. Qed.

Lemma has_error_log level m ctx :
  GC_HAS_ERROR (log level m ctx) = GC_HAS_ERROR ctx.
Proof. reflexivity. Qed.

Lemma has_error_set_error code m ctx :
  0 < code -> GC_HAS_ERROR (set_error code m ctx) = true.
Proof. intros Hc. unfold GC_HAS_ERROR; simpl. now apply Z.ltb_lt. Qed.

Lemma has_error_code ctx : GC_HAS_ERROR ctx = true <-> 0 < _errcode (err ctx).
Proof. unfold GC_HAS_ERROR. apply Z.ltb_lt. Qed.

Lemma pop_errors_clean ctx : GC_HAS_ERROR (snd (pop_errors ctx)) = false.
Proof. reflexivity. Qed.

Lemma push_no_error ctx : err (push_errors no_error ctx) = err ctx.
Proof. destruct ctx as [[c m] l]. reflexivity. Qed.

(** Putting back an empty saved slot leaves the context as it is. *)
Lemma push_errors_clean saved ctx :
  _errcode saved = 0 -> _errmsg saved = [] -> push_errors saved ctx = ctx.
Proof.
  intros Hc Hm. destruct ctx as [[c m] l]. unfold push_errors; simpl.
  rewrite Hc, Hm. reflexivity.
Qed.

End CtxFacts.

(** ** Lock names *)

Section LockNames.
Import Locker Notions.

Lemma chars_sanitize unsafe s :
  chars (sanitize unsafe s)
  = List.map (fun c => if unsafe c then "#"%char else c) (chars s).
Proof.
  induction s as [|c s IH]; simpl; [reflexivity|]. now rewrite IH.
Qed.

Lemma sanitize_safe unsafe s c :
  unsafe "#"%char = false ->
  List.In c (chars (sanitize unsafe s)) -> unsafe c = false.
Proof.
  intros Hhash. rewrite chars_sanitize. induction (chars s) as [|d l IH]; simpl.
  - intros [].
  - intros [Hc | Hc]; [|now apply IH].
    destruct (unsafe d) eqn:Hd; subst; assumption.
Qed.

Lemma sanitize_keeps unsafe s c :
  unsafe c = false -> List.In c (chars s) ->
  List.In c (chars (sanitize unsafe s)).
Proof.
  intros Hc. rewrite chars_sanitize. induction (chars s) as [|d l IH]; simpl.
  - intros [].
  - intros [Hd | Hd]; [left | right; now apply IH].
    subst. now rewrite Hc.
Qed.

Lemma sanitize_length unsafe s :
  String.length (sanitize unsafe s) = String.length s.
Proof. induction s as [|c s IH]; simpl; congruence. Qed.

Lemma memcache_unsafe_listed c :
  List.In c listed_chars -> memcache_unsafe c = true.
Proof.
  unfold listed_chars; simpl.
  intros H; repeat (destruct H as [<- | H]; [reflexivity|]); destruct H.
Qed.

Lemma disk_unsafe_listed c : List.In c disk_chars -> disk_unsafe c = true.
Proof.
  unfold disk_chars; simpl.
  intros H; repeat (destruct H as [<- | H]; [reflexivity|]); destruct H.
Qed.

Lemma disk_unsafe_only c : disk_unsafe c = true -> List.In c disk_chars.
Proof.
  unfold disk_unsafe, disk_chars. intros H.
  repeat (apply orb_prop in H; destruct H as [H | H]);
    apply Ascii.eqb_eq in H; subst; simpl; tauto.
Qed.

(** C4 (as the code has it): the canonical part of a memcache lock key
    holds none of the eleven listed characters; the canonical part of a
    disk lock file name holds none of [' ' '/' '~' '.'], has each of them
    replaced with ['#'] and keeps every other character, the control
    characters included; the names are [<dir>/_gc_lock<canonical>.lck]
    and [<prefix>_gc_lock<canonical>.lck]. *)
Theorem C4_lock_names_canonical :
  forall (ldisk : mapcache_locker_disk) (lm : mapcache_locker_memcache)
         (resource : string),
    (forall c, List.In c listed_chars ->
               ~ List.In c (chars (memcache_saferes resource))) /\
    (forall c, List.In c disk_chars ->
               ~ List.In c (chars (disk_saferes resource))) /\
    chars (disk_saferes resource)
    = List.map (fun c => if disk_unsafe c then "#"%char else c) (chars resource) /\
    chars (memcache_saferes resource)
    = List.map (fun c => if memcache_unsafe c then "#"%char else c)
               (chars resource) /\
    (forall c, ~ List.In c disk_chars -> List.In c (chars resource) ->
               List.In c (chars (disk_saferes resource))) /\
    lock_filename_for_resource ldisk resource
    = (dir ldisk +:+ "/_gc_lock" +:+ disk_saferes resource +:+ ".lck")%string /\
    memcache_key_for_resource lm resource
    = (match key_prefix lm with Some p => p | None => ""%string end
         +:+ "_gc_lock" +:+ memcache_saferes resource +:+ ".lck")%string.
Proof.
  intros ldisk lm resource.
  split; [|split; [|split; [|split; [|split; [|split; reflexivity]]]]].
  - intros c Hc Hin. apply sanitize_safe in Hin; [|reflexivity].
    rewrite (memcache_unsafe_listed c Hc) in Hin. discriminate.
  - intros c Hc Hin. apply sanitize_safe in Hin; [|reflexivity].
    rewrite (disk_unsafe_listed c Hc) in Hin. discriminate.
  - apply chars_sanitize.
  - apply chars_sanitize.
  - intros c Hc Hin. apply sanitize_keeps; [|assumption].
    destruct (disk_unsafe c) eqn:Hd; [|reflexivity].
    elim Hc. now apply disk_unsafe_only.
Qed.

(** C4 at a resource with a newline and at ["a b"] in [/tmp]. *)
Lemma C4_lock_names_canonical_witness :
  ~ List.In "010"%char (chars (memcache_saferes newline_resource)) /\
  lock_filename_for_resource (LockerDiskCfg "/tmp") "a b"
  = "/tmp/_gc_locka#b.lck"%string.
Proof.
  destruct (C4_lock_names_canonical (LockerDiskCfg "/tmp")
              (LockerMemcacheCfg [] None) newline_resource)
    as (Hm & _).
  split.
  - apply Hm. unfold listed_chars. simpl. tauto.
  - reflexivity.
Defined.

(** The disk locker keeps a newline of the resource in the lock file
    name, although the newline is one of the listed characters. *)
Lemma C4_disk_keeps_newline :
  ~ (forall c, List.In c listed_chars ->
               ~ List.In c (chars (disk_saferes newline_resource))).
Proof.
  intros Hall. apply (Hall "010"%char).
  - unfold listed_chars. simpl. tauto.
  - simpl. tauto.
Qed.

End LockNames.

(** ** Lockers *)

Section LockerFacts.
Import Ctx Locker Notions.
Context {W : Type} `{LockEnv W} `{ResultCodes}.

(** Within 2^32 milliseconds the count of the loop is the elapsed time
    in whole milliseconds. *)
Lemma waited_msec_exact start_wait now :
  0 <= now - start_wait < 2 ^ 32 * 1000 ->
  waited_msec start_wait now = (now - start_wait) / 1000.
Proof.
  intros [Hlo Hhi]. unfold waited_msec.
  rewrite Z.quot_div_nonneg by lia.
  apply Z.mod_small. split.
  - apply Z.div_pos; lia.
  - apply Z.div_lt_upper_bound; lia.
Qed.

(** [create_memcache] returns no client only together with an error. *)
Lemma create_memcache_servers_none todo :
  forall memcache ctx (w : W) ctx' w',
    create_memcache_servers todo memcache ctx w = (None, ctx', w') ->
    GC_HAS_ERROR ctx' = true.
Proof.
  induction todo as [|srv todo IH]; intros memcache ctx w ctx' w';
    cbn [create_memcache_servers].
  - discriminate.
  - destruct (apr_memcache_server_create (host srv) (port srv) w) as [rv v].
    destruct (negb (apr_status_eqb APR_SUCCESS rv)).
    + intros Heq. inversion Heq. reflexivity.
    + destruct (apr_memcache_add_server memcache srv v) as [rv' v'].
      destruct (negb (apr_status_eqb APR_SUCCESS rv')).
      * intros Heq. inversion Heq. reflexivity.
      * apply IH.
Qed.

Lemma create_memcache_none lm ctx (w : W) ctx' w' :
  create_memcache lm ctx w = (None, ctx', w') -> GC_HAS_ERROR ctx' = true.
Proof.
  unfold create_memcache.
  destruct (apr_memcache_create (Z.of_nat (length (servers lm))) w) as [rv v].
  destruct (negb (apr_status_eqb APR_SUCCESS rv)).
  - intros Heq. inversion Heq. reflexivity.
  - apply create_memcache_servers_none.
Qed.

(** The wait loop after [n] rounds that left the lock held. *)
Lemma lock_wait_loop_rounds n :
  forall fuel locker lock start_wait ctx w calls ctx' w' made,
    locked_rounds n locker lock start_wait ctx w = Some (ctx', w', made) ->
    lock_wait_loop (n + fuel) locker lock start_wait ctx w calls
    = lock_wait_loop fuel locker lock start_wait ctx' w' (calls ++ made).
Proof.
  induction n as [|n IH]; intros fuel locker lock start_wait ctx w calls ctx' w' made.
  - simpl. intros [= <- <- <-]. now rewrite app_nil_r.
  - simpl. destruct (apr_time_now w) as [now w1].
    destruct (timed_out locker (waited_msec start_wait now)); [discriminate|].
    destruct (sleep_usec locker) as [usec|]; [|discriminate].
    destruct (ping_lock locker lock ctx (apr_sleep usec w1))
      as [[[rv ctx2] w2]|]; [|discriminate].
    destruct rv; try discriminate;
      (destruct (locked_rounds n locker lock start_wait ctx2 w2)
         as [[[ctx3 w3] made3]|] eqn:E; [|discriminate]);
      intros [= <- <- <-];
      rewrite (IH fuel locker lock start_wait ctx2 w2 _ ctx3 w3 made3 E);
      now rewrite <- app_assoc.
Qed.

Lemma locked_rounds_no_release n :
  forall locker lock start_wait ctx w ctx' w' made,
    locked_rounds n locker lock start_wait ctx w = Some (ctx', w', made) ->
    existsb is_release made = false.
Proof.
  induction n as [|n IH]; intros locker lock start_wait ctx w ctx' w' made.
  - simpl. now intros [= <- <- <-].
  - simpl. destruct (apr_time_now w) as [now w1].
    destruct (timed_out locker (waited_msec start_wait now)); [discriminate|].
    destruct (sleep_usec locker) as [usec|]; [|discriminate].
    destruct (ping_lock locker lock ctx (apr_sleep usec w1))
      as [[[rv ctx2] w2]|]; [|discriminate].
    destruct rv; try discriminate;
      (destruct (locked_rounds n locker lock start_wait ctx2 w2)
         as [[[ctx3 w3] made3]|] eqn:E; [|discriminate]);
      intros [= <- <- <-]; simpl; exact (IH _ _ _ _ _ _ _ _ E).
Qed.


Lemma context_eta ctx : err ctx = no_error -> Context no_error (logged ctx) = ctx.
Proof. destruct ctx as [e l]. simpl. now intros ->. Qed.

Lemma push_no_error_id ctx : push_errors no_error ctx = ctx.
Proof. destruct ctx as [[c m] l]. reflexivity. Qed.

Lemma fallback_children_aquire_cons aquire resource child rest inner ctx (w : W) :
  fallback_children_aquire aquire resource (child :: rest) inner ctx w
  = (let '(error, ctx) := pop_errors ctx in
     match aquire child resource inner ctx w with
     | None => None
     | Some (lock_result, inner, ctx, w) =>
         if negb (GC_HAS_ERROR ctx) then
           Some (lock_result, lock_fallback (Some child) inner,
                 push_errors error ctx, w)
         else
           let ctx := match rest with
                      | [] => ctx
                      | _ :: _ => clear_errors ctx
                      end in
           fallback_children_aquire aquire resource rest inner
                                    (push_errors error ctx) w
     end).
Proof. reflexivity. Qed.

(** Every run of the loop over the children, from a context without an
    error: no child; or a first child that returns without error, after
    children that all failed; or children that all failed. *)
Lemma fallback_children_cases resource (lockers : list mapcache_locker) :
  forall inner ctx (w : W) r tok ctx' w',
    err ctx = no_error ->
    fallback_children_aquire aquire_lock resource lockers inner ctx w
    = Some (r, tok, ctx', w') ->
    (lockers = [] /\ r = MAPCACHE_LOCK_NOENT /\ tok = lock_fallback None inner
     /\ ctx' = ctx /\ w' = w)
    \/ (exists pre child post inner1 ctx1 w1 token,
           lockers = pre ++ child :: post
           /\ children_fail resource pre inner ctx w = Some (inner1, ctx1, w1)
           /\ err ctx1 = no_error
           /\ aquire_lock child resource inner1 ctx1 w1
              = Some (r, token, ctx', w')
           /\ GC_HAS_ERROR ctx' = false
           /\ tok = lock_fallback (Some child) token)
    \/ (exists pre last inner1 ctx1 w1 r_last token,
           lockers = pre ++ [last]
           /\ children_fail resource pre inner ctx w = Some (inner1, ctx1, w1)
           /\ err ctx1 = no_error
           /\ aquire_lock last resource inner1 ctx1 w1
              = Some (r_last, token, ctx', w')
           /\ GC_HAS_ERROR ctx' = true
           /\ r = MAPCACHE_LOCK_NOENT
           /\ tok = lock_fallback None token).
Proof.
  induction lockers as [|child rest IH]; intros inner ctx w r tok ctx' w' Hclean.
  - simpl. intros [= <- <- <- <-]. left. repeat split; reflexivity.
  - rewrite fallback_children_aquire_cons. unfold pop_errors.
    rewrite Hclean, (context_eta ctx Hclean).
    destruct (aquire_lock child resource inner ctx w)
      as [[[[lr in1] cx1] w1]|] eqn:Haq; [|discriminate].
    destruct (GC_HAS_ERROR cx1) eqn:Herr; simpl.
    + destruct rest as [|next rest'].
      * simpl. rewrite push_no_error_id. intros [= <- <- <- <-].
        right; right. exists [], child, inner, ctx, w, lr, in1.
        repeat split; try reflexivity; assumption.
      * intros Hrest.
        apply IH in Hrest; [|reflexivity].
        destruct Hrest as [(Hnil & _) | [Hwin | Hlose]]; [discriminate| |].
        -- destruct Hwin as (pre & c & post & i1 & c1 & w2 & t & E & Hf & Hc & Ha & He & Ht).
           right; left. exists (child :: pre), c, post, i1, c1, w2, t.
           repeat split; try assumption.
           ++ simpl. now rewrite E.
           ++ simpl. unfold pop_errors.
              rewrite Hclean, (context_eta ctx Hclean), Haq, Herr. exact Hf.
        -- destruct Hlose as (pre & c & i1 & c1 & w2 & rl & t & E & Hf & Hc & Ha & He & Hr & Ht).
           right; right. exists (child :: pre), c, i1, c1, w2, rl, t.
           repeat split; try assumption.
           ++ simpl. now rewrite E.
           ++ simpl. unfold pop_errors.
              rewrite Hclean, (context_eta ctx Hclean), Haq, Herr. exact Hf.
    + rewrite push_no_error_id. intros [= <- <- <- <-].
      right; left. exists [], child, rest, inner, ctx, w, in1.
      repeat split; try reflexivity; assumption.
Qed.

(** C5: from a context without an error, the fallback acquire tries the
    children in order.  Either a child [child] returns without error
    after the children before it all failed: then its result is
    returned, no error is left, and the token carries [child], so that
    release and ping of the fallback locker on that token are release
    and ping of [child] on its own token.  Or every child failed: then
    the context is as the last child left it, error included (the
    errors of the children before it were cleared), and the token
    carries no child.  Or there is no child. *)
Theorem C5_fallback_first_clean_child_wins :
  forall base (lockers : list mapcache_locker) resource lock0 ctx (w : W)
         r tok ctx' w',
    err ctx = no_error ->
    aquire_lock (LockerFallback base lockers) resource lock0 ctx w
    = Some (r, tok, ctx', w') ->
    (lockers = [] /\ r = MAPCACHE_LOCK_NOENT /\ ctx' = ctx /\ w' = w)
    \/ (exists pre child post inner1 ctx1 w1 token,
           lockers = pre ++ child :: post
           /\ children_fail resource pre lock_null ctx w = Some (inner1, ctx1, w1)
           /\ err ctx1 = no_error
           /\ aquire_lock child resource inner1 ctx1 w1
              = Some (r, token, ctx', w')
           /\ GC_HAS_ERROR ctx' = false
           /\ tok = lock_fallback (Some child) token
           /\ (forall c (v : W),
                  release_lock (LockerFallback base lockers) tok c v
                  = release_lock child token c v)
           /\ (forall c (v : W),
                  ping_lock (LockerFallback base lockers) tok c v
                  = ping_lock child token c v))
    \/ (exists pre last inner1 ctx1 w1 r_last token,
           lockers = pre ++ [last]
           /\ children_fail resource pre lock_null ctx w = Some (inner1, ctx1, w1)
           /\ err ctx1 = no_error
           /\ aquire_lock last resource inner1 ctx1 w1
              = Some (r_last, token, ctx', w')
           /\ GC_HAS_ERROR ctx' = true
           /\ r = MAPCACHE_LOCK_NOENT
           /\ tok = lock_fallback None token).
Proof.
  intros base lockers resource lock0 ctx w r tok ctx' w' Hclean Hrun.
  simpl in Hrun.
  apply fallback_children_cases in Hrun; [|assumption].
  destruct Hrun as [(Hnil & Hr & _ & Hc & Hw) | [Hwin | Hlose]].
  - left. repeat split; assumption.
  - right; left.
    destruct Hwin as (pre & c & post & i1 & c1 & w2 & t & E & Hf & Hc & Ha & He & Ht).
    exists pre, c, post, i1, c1, w2, t.
    repeat split; try assumption; intros c0 v; subst tok; reflexivity.
  - right; right. exact Hlose.
Qed.

End LockerFacts.

Section LockerRuns.
Import Ctx Locker Notions Sim Scenario.



(** C5 for a memcache locker that cannot reach its servers, followed by
    a disk locker. *)
Lemma C5_fallback_first_clean_child_wins_witness :
  exists tok ctx' w',
    aquire_lock a_fallback_locker "r" lock_null new_context mc_down_world
    = Some (MAPCACHE_LOCK_AQUIRED, tok, ctx', w')
    /\ GC_HAS_ERROR ctx' = false
    /\ release_lock a_fallback_locker tok ctx' w'
       = release_lock a_disk_locker (lock_disk r_lock_file) ctx' w'.
Proof.
  pose (run := aquire_lock a_fallback_locker "r" lock_null new_context
                           mc_down_world).
  pose (tok := lock_fallback (Some a_disk_locker) (lock_disk r_lock_file)).
  pose (w' := LockWorld 0 (<[r_lock_file := None]> ∅) ∅ ∅ true).
  exists tok, new_context, w'.
  assert (Hrun : aquire_lock a_fallback_locker "r" lock_null new_context
                             mc_down_world
                 = Some (MAPCACHE_LOCK_AQUIRED, tok, new_context, w'))
    by (vm_compute; reflexivity).
  split; [exact Hrun|].
  destruct (C5_fallback_first_clean_child_wins
              _ _ _ _ new_context _ _ _ _ _ eq_refl Hrun)
    as [(Hnil & _) | [Hwin | Hlose]].
  - discriminate Hnil.
  - destruct Hwin as (pre & c & post & i1 & c1 & w2 & t & _ & _ & _ & _ & He & _).
    split; [exact He | vm_compute; reflexivity].
  - destruct Hlose as (pre & c & i1 & c1 & w2 & rl & t & _ & _ & _ & _ & _ & Hr & _).
    discriminate Hr.
Defined.

End LockerRuns.

(** ** Multi-tier cache *)

Section MultitierFacts.
Import Ctx Tile Multitier Notions.
Context {cache W : Type} `{CacheApi cache W} `{ResultCodes}.

Lemma tile_args_id tile tile' (subcache : cache) :
  tile_id tile' = tile_id tile -> tile_args tile' subcache = tile_args tile subcache.
Proof.
  unfold tile_id, tile_args. intros [= Hn _ Hx Hy Hz _].
  now rewrite Hn, Hx, Hy, Hz.
Qed.

(** The descent passes the tiers that do not hit. *)
Lemma multitier_descend_skip all :
  forall (mid rest : list cache) i tile ctx (w : W) tile1 ctx1 w1,
    tiers_without_hit mid tile ctx w = Some (tile1, ctx1, w1) ->
    multitier_descend all i (mid ++ rest) tile ctx w
    = multitier_descend all (i + length mid) rest tile1 ctx1 w1.
Proof.
  induction mid as [|sub mid IH]; intros rest i tile ctx w tile1 ctx1 w1.
  - simpl. intros [= <- <- <-]. now rewrite Nat.add_0_r.
  - simpl.
    destruct (mapcache_cache_tile_get sub tile ctx w) as [[[r t] c] v].
    destruct (r =? MAPCACHE_SUCCESS); [discriminate|].
    intros Hrest. rewrite (IH rest (S i) t c v tile1 ctx1 w1 Hrest).
    f_equal. lia.
Qed.

(** When no error is in the context, none is after the promotion. *)
Lemma multitier_promote_clean :
  forall (upper : list cache) tile ctx (w : W),
    GC_HAS_ERROR ctx = false ->
    GC_HAS_ERROR (snd (fst (multitier_promote upper tile ctx w))) = false.
Proof.
  induction upper as [|sub upper IH]; intros tile ctx w Hclean; simpl.
  - assumption.
  - destruct (mapcache_cache_tile_set sub tile ctx w) as [[t c] v].
    apply IH. reflexivity.
Qed.

Lemma multitier_promote_no_error :
  forall (upper : list cache) tile ctx (w : W),
    upper <> [] ->
    GC_HAS_ERROR (snd (fst (multitier_promote upper tile ctx w))) = false.
Proof.
  intros [|sub upper] tile ctx w Hne; [congruence|]. simpl.
  destruct (mapcache_cache_tile_set sub tile ctx w) as [[t c] v].
  apply multitier_promote_clean. reflexivity.
Qed.

Lemma firstn_prefix (sub0 : cache) mid rest :
  firstn (1 + length mid) (sub0 :: mid ++ rest) = sub0 :: mid.
Proof.
  cbn [Nat.add firstn]. f_equal.
  induction mid as [|c mid IH]; simpl; [reflexivity | now rewrite IH].
Qed.

(** The read when tier 0 misses, the tiers [mid] do not hit and the next
    tier hits. *)
Lemma multitier_get_hit :
  forall (pcache : mapcache_cache_multitier cache) sub0 mid subk below
         tile ctx (w : W) tile0 ctx0 w0 tile1 ctx1 w1 tile2 ctx2 w2,
    caches pcache = sub0 :: mid ++ subk :: below ->
    mapcache_cache_tile_get sub0 tile ctx w
    = (MAPCACHE_CACHE_MISS, tile0, ctx0, w0) ->
    tiers_without_hit mid tile0 ctx0 w0 = Some (tile1, ctx1, w1) ->
    mapcache_cache_tile_get subk tile1 ctx1 w1
    = (MAPCACHE_SUCCESS, tile2, ctx2, w2) ->
    _mapcache_cache_multitier_tile_get pcache tile ctx w
    = Some (let '(t, c, v) :=
              multitier_promote (rev (sub0 :: mid)) tile2
                (log MAPCACHE_DEBUG
                     (Msg "got tile (%s,z=%d,y=%d,x=%d) from secondary cache (%s)"
                          (tile_args tile2 subk)) ctx2) w2 in
            (MAPCACHE_SUCCESS, t, c, v)).
Proof.
  intros pcache sub0 mid subk below tile ctx w tile0 ctx0 w0 tile1 ctx1 w1
         tile2 ctx2 w2 Hcaches Hget0 Hmid Hgetk.
  unfold _mapcache_cache_multitier_tile_get. rewrite Hcaches, Hget0.
  rewrite Z.eqb_refl.
  rewrite (multitier_descend_skip _ mid (subk :: below) 1 _ _ _ _ _ _ Hmid).
  cbn [multitier_descend]. rewrite Hgetk, Z.eqb_refl.
  rewrite firstn_prefix. reflexivity.
Qed.

Lemma multitier_descend_all_miss all :
  forall (rest : list cache) i tile ctx (w : W) tile1 ctx1 w1,
    tiers_without_hit rest tile ctx w = Some (tile1, ctx1, w1) ->
    multitier_descend all i rest tile ctx w
    = (MAPCACHE_CACHE_MISS, tile1, ctx1, w1).
Proof.
  intros rest i tile ctx w tile1 ctx1 w1 Hmiss.
  rewrite <- (app_nil_r rest).
  now rewrite (multitier_descend_skip all rest [] i _ _ _ _ _ _ Hmiss).
Qed.

(** When the tiers do not all stay without a hit, there is a first one
    that returns Success. *)
Lemma tiers_first_hit :
  forall (rest : list cache) tile ctx (w : W),
    tiers_without_hit rest tile ctx w = None ->
    exists mid subk below tile1 ctx1 w1 tile2 ctx2 w2,
      rest = mid ++ subk :: below
      /\ tiers_without_hit mid tile ctx w = Some (tile1, ctx1, w1)
      /\ mapcache_cache_tile_get subk tile1 ctx1 w1
         = (MAPCACHE_SUCCESS, tile2, ctx2, w2).
Proof.
  induction rest as [|sub rest IH]; intros tile ctx w; simpl; [discriminate|].
  destruct (mapcache_cache_tile_get sub tile ctx w) as [[[r t] c] v] eqn:Hget.
  destruct (r =? MAPCACHE_SUCCESS) eqn:Hr.
  - intros _. apply Z.eqb_eq in Hr. subst r.
    exists [], sub, rest, tile, ctx, w, t, c, v. repeat split. exact Hget.
  - intros Hnone. apply IH in Hnone.
    destruct Hnone as (mid & subk & below & t1 & c1 & w1 & t2 & c2 & w2
                       & -> & Hmid & Hk).
    exists (sub :: mid), subk, below, t1, c1, w1, t2, c2, w2.
    repeat split; [|exact Hk]. simpl. now rewrite Hget, Hr.
Qed.

(** C2 (as the code has it): the read returns the result of tier 0 as it
    is when that is not Miss, so a Failure of tier 0 is returned.  When
    tier 0 misses, the deeper tiers are read in order and only Success
    stops the descent: if none of them returns Success (each returns
    Miss or Failure) the read returns Miss, with the context as the
    last tier left it; if one of them returns Success the read returns
    Success and no error is left in the context. *)
Theorem C2_read_result :
  forall (pcache : mapcache_cache_multitier cache) sub0 rest tile ctx (w : W)
         ret0 tile0 ctx0 w0,
    caches pcache = sub0 :: rest ->
    mapcache_cache_tile_get sub0 tile ctx w = (ret0, tile0, ctx0, w0) ->
    (ret0 <> MAPCACHE_CACHE_MISS ->
     _mapcache_cache_multitier_tile_get pcache tile ctx w
     = Some (ret0, tile0, ctx0, w0))
    /\ (ret0 = MAPCACHE_CACHE_MISS ->
        forall tile1 ctx1 w1,
          tiers_without_hit rest tile0 ctx0 w0 = Some (tile1, ctx1, w1) ->
          _mapcache_cache_multitier_tile_get pcache tile ctx w
          = Some (MAPCACHE_CACHE_MISS, tile1, ctx1, w1))
    /\ (ret0 = MAPCACHE_CACHE_MISS ->
        tiers_without_hit rest tile0 ctx0 w0 = None ->
        exists tile' ctx' w',
          _mapcache_cache_multitier_tile_get pcache tile ctx w
          = Some (MAPCACHE_SUCCESS, tile', ctx', w')
          /\ GC_HAS_ERROR ctx' = false).
Proof.
  intros pcache sub0 rest tile ctx w ret0 tile0 ctx0 w0 Hcaches Hget0.
  split; [|split].
  - intros Hne. unfold _mapcache_cache_multitier_tile_get.
    rewrite Hcaches, Hget0. apply Z.eqb_neq in Hne. now rewrite Hne.
  - intros -> tile1 ctx1 w1 Hmiss.
    unfold _mapcache_cache_multitier_tile_get.
    rewrite Hcaches, Hget0, Z.eqb_refl.
    now rewrite (multitier_descend_all_miss _ rest 1 _ _ _ _ _ _ Hmiss).
  - intros -> Hhit. apply tiers_first_hit in Hhit.
    destruct Hhit as (mid & subk & below & t1 & c1 & w1 & t2 & c2 & w2
                      & -> & Hmid & Hk).
    rewrite (multitier_get_hit pcache sub0 mid subk below tile ctx w tile0 ctx0
               w0 t1 c1 w1 t2 c2 w2 Hcaches Hget0 Hmid Hk).
    pose proof (multitier_promote_no_error (rev (sub0 :: mid)) t2
                  (log MAPCACHE_DEBUG
                       (Msg "got tile (%s,z=%d,y=%d,x=%d) from secondary cache (%s)"
                            (tile_args t2 subk)) c2) w2) as Hclean.
    destruct (multitier_promote (rev (sub0 :: mid)) t2
                (log MAPCACHE_DEBUG
                     (Msg "got tile (%s,z=%d,y=%d,x=%d) from secondary cache (%s)"
                          (tile_args t2 subk)) c2) w2) as [[t c] v].
    exists t, c, v. split; [reflexivity|]. apply Hclean.
    simpl. now destruct (rev mid).
Qed.

Lemma multitier_promote_fold :
  forall (upper : list cache) tile ctx (w : W),
    multitier_promote upper tile ctx w
    = fold_left (fun st c => promote_one c st) upper (tile, ctx, w).
Proof.
  induction upper as [|sub upper IH]; intros tile ctx w; simpl.
  - reflexivity.
  - destruct (mapcache_cache_tile_set sub tile ctx w) as [[t c] v].
    apply IH.
Qed.

Lemma multitier_promote_data :
  sets_keep_data ->
  forall (upper : list cache) tile ctx (w : W),
    encoded_data (fst (fst (multitier_promote upper tile ctx w)))
    = encoded_data tile.
Proof.
  intros Hkeep.
  induction upper as [|sub upper IH]; intros tile ctx w; simpl.
  - reflexivity.
  - destruct (mapcache_cache_tile_set sub tile ctx w) as [[t c] v] eqn:Hset.
    rewrite IH. exact (Hkeep _ _ _ _ _ _ _ Hset).
Qed.

Section Contract.

Variable holds : cache -> W -> mapcache_tile -> Prop.
Hypothesis contract : backend_contract holds.

Lemma multitier_promote_id :
  forall (upper : list cache) tile ctx (w : W),
    tile_id (fst (fst (multitier_promote upper tile ctx w))) = tile_id tile.
Proof.
  destruct contract as (_ & set_id & _).
  induction upper as [|sub upper IH]; intros tile ctx w; simpl.
  - reflexivity.
  - destruct (mapcache_cache_tile_set sub tile ctx w) as [[t c] v] eqn:Hset.
    rewrite IH. exact (set_id _ _ _ _ _ _ _ Hset).
Qed.

Lemma multitier_promote_keeps :
  forall (upper : list cache) tile ctx (w : W) c0,
    holds c0 w tile ->
    holds c0 (snd (multitier_promote upper tile ctx w)) tile.
Proof.
  destruct contract as (holds_id & set_id & _ & set_keeps).
  induction upper as [|sub upper IH]; intros tile ctx w c0 Hh; simpl.
  - assumption.
  - destruct (mapcache_cache_tile_set sub tile ctx w) as [[t c] v] eqn:Hset.
    pose proof (set_id _ _ _ _ _ _ _ Hset) as Hid.
    apply (holds_id _ _ t tile); [congruence|].
    apply IH. apply (holds_id _ _ tile t); [assumption|].
    exact (set_keeps _ _ _ _ _ _ _ c0 Hset Hh).
Qed.

Lemma multitier_promote_holds :
  forall (upper : list cache) tile ctx (w : W) c0,
    List.In c0 (promoted upper tile ctx w) ->
    holds c0 (snd (multitier_promote upper tile ctx w)) tile.
Proof.
  destruct contract as (holds_id & set_id & set_stores & _).
  induction upper as [|sub upper IH]; intros tile ctx w c0; simpl.
  - intros [].
  - destruct (mapcache_cache_tile_set sub tile ctx w) as [[t c] v] eqn:Hset.
    pose proof (set_id _ _ _ _ _ _ _ Hset) as Hid.
    intros Hin. apply in_app_or in Hin. destruct Hin as [Hin | Hin].
    + destruct (GC_HAS_ERROR c) eqn:Herr; [destruct Hin|].
      destruct Hin as [<- | []].
      apply (holds_id _ _ t tile); [congruence|].
      apply multitier_promote_keeps.
      apply (holds_id _ _ tile t); [assumption|].
      exact (set_stores _ _ _ _ _ _ _ Hset Herr).
    + apply (holds_id _ _ t tile); [congruence|]. now apply IH.
Qed.

End Contract.


End MultitierFacts.

Section MultitierRuns.
Import Ctx Tile Multitier Notions Sim Scenario.

Lemma sim_holds_id c w tile tile' :
  tile_id tile' = tile_id tile -> sim_holds c w tile -> sim_holds c w tile'.
Proof. unfold sim_holds. intros ->. trivial. Qed.

Lemma sim_set_cases c tile ctx w tile' ctx' w' :
  sim_tile_set c tile ctx w = (tile', ctx', w') ->
  tile' = tile
  /\ ((exists m, ctx' = set_error 500 m ctx /\ w' = w)
      \/ (exists t b, w !! c = Some t /\ encoded_data tile = Some b /\ ctx' = ctx
                      /\ w' = <[c := SimTier (<[tile_id tile := b]> (store t))
                                              (get_fails t) (set_fails t)]> w)).
Proof.
  unfold sim_tile_set.
  destruct (w !! c) as [t|] eqn:Hc; [destruct (encoded_data tile) as [b|] eqn:Hd|].
  - destruct (set_fails t) eqn:Hs; intros [= <- <- <-]; split; try reflexivity.
    + left. eauto.
    + right. exists t, b. rewrite Hs. repeat split; reflexivity.
  - intros [= <- <- <-]. split; [reflexivity|]. left. eauto.
  - intros [= <- <- <-]. split; [reflexivity|]. left. eauto.
Qed.

Lemma sim_set_id c tile ctx w tile' ctx' w' :
  mapcache_cache_tile_set c tile ctx w = (tile', ctx', w') ->
  tile_id tile' = tile_id tile.
Proof.
  intros Hset. apply sim_set_cases in Hset. destruct Hset as [-> _].
  reflexivity.
Qed.

Lemma sim_set_stores c tile ctx w tile' ctx' w' :
  mapcache_cache_tile_set c tile ctx w = (tile', ctx', w') ->
  GC_HAS_ERROR ctx' = false -> sim_holds c w' tile.
Proof.
  intros Hset Hclean. apply sim_set_cases in Hset.
  destruct Hset as [_ [(m & -> & _) | (t & b & Hc & _ & _ & ->)]].
  - discriminate Hclean.
  - unfold sim_holds. eexists _, b. split.
    + apply list_lookup_insert_eq. now apply lookup_lt_Some in Hc.
    + simpl. apply lookup_insert_eq.
Qed.

Lemma sim_set_keeps c tile ctx w tile' ctx' w' c0 :
  mapcache_cache_tile_set c tile ctx w = (tile', ctx', w') ->
  sim_holds c0 w tile -> sim_holds c0 w' tile.
Proof.
  intros Hset Hh. apply sim_set_cases in Hset.
  destruct Hset as [_ [(m & _ & ->) | (t & b & Hc & _ & _ & ->)]];
    [assumption|].
  destruct Hh as (t0 & b0 & Hc0 & Hb0).
  destruct (decide (c = c0)) as [<- | Hne].
  - unfold sim_holds. eexists _, b. split.
    + apply list_lookup_insert_eq. now apply lookup_lt_Some in Hc.
    + simpl. apply lookup_insert_eq.
  - exists t0, b0. split; [|assumption].
    now rewrite list_lookup_insert_ne.
Qed.

Lemma sim_sets_keep_data : sets_keep_data.
Proof.
  intros c tile ctx w tile' ctx' w' Hset. apply sim_set_cases in Hset.
  destruct Hset as [-> _]. reflexivity.
Qed.

(** The simulated tiers respect [sim_holds]. *)
Lemma sim_backend_contract : backend_contract sim_holds.
Proof.
  split; [exact sim_holds_id|]. split; [exact sim_set_id|].
  split; [exact sim_set_stores | exact sim_set_keeps].
Qed.



(** C2 for a tier 0 that fails, and for two tiers that miss. *)
Lemma C2_read_result_witness :
  (exists ctx',
      _mapcache_cache_multitier_tile_get two_tiers a_tile new_context
                                         [broken_tier; full_tier]
      = Some (MAPCACHE_FAILURE, a_tile, ctx', [broken_tier; full_tier]))
  /\ _mapcache_cache_multitier_tile_get two_tiers a_tile new_context
                                        [empty_tier; empty_tier]
     = Some (MAPCACHE_CACHE_MISS, a_tile, new_context, [empty_tier; empty_tier]).
Proof.
  split.
  - eexists.
    refine (proj1 (C2_read_result two_tiers 0%nat [1%nat] a_tile new_context
                     [broken_tier; full_tier] MAPCACHE_FAILURE a_tile _ _
                     eq_refl eq_refl) _).
    discriminate.
  - refine (proj1 (proj2 (C2_read_result two_tiers 0%nat [1%nat] a_tile
                            new_context [empty_tier; empty_tier]
                            MAPCACHE_CACHE_MISS a_tile new_context _
                            eq_refl eq_refl)) eq_refl _ _ _ eq_refl).
Defined.

(** Tier 0 misses and tier 1 fails.  With no further tier the read
    returns [MAPCACHE_CACHE_MISS], not [MAPCACHE_FAILURE] (the error of
    tier 1 is still in the context); with a tier 2 that has the tile it
    returns [MAPCACHE_SUCCESS] and the error is gone. *)
Lemma C2_deep_failure_not_surfaced :
  fst (fst (fst (mapcache_cache_tile_get 1%nat a_tile new_context
                                         [empty_tier; broken_tier])))
  = MAPCACHE_FAILURE
  /\ (exists ctx',
         _mapcache_cache_multitier_tile_get two_tiers a_tile new_context
                                            [empty_tier; broken_tier]
         = Some (MAPCACHE_CACHE_MISS, a_tile, ctx', [empty_tier; broken_tier])
         /\ GC_HAS_ERROR ctx' = true
         /\ MAPCACHE_CACHE_MISS <> MAPCACHE_FAILURE)
  /\ (exists tile' ctx' w',
         _mapcache_cache_multitier_tile_get three_tiers a_tile new_context
                                            [empty_tier; broken_tier; full_tier]
         = Some (MAPCACHE_SUCCESS, tile', ctx', w')
         /\ GC_HAS_ERROR ctx' = false).
Proof.
  split; [reflexivity|]. split.
  - eexists. split; [vm_compute; reflexivity|].
    split; [vm_compute; reflexivity | discriminate].
  - do 3 eexists. split; vm_compute; reflexivity.
Qed.

End MultitierRuns.

(** ** Server configuration *)

Section ServerConf.
Import ModMapcache Scenario.

(** C6, what the code computes: for each of the five options the merged
    value is the virtual host's when its is-set bit is set and 0
    otherwise, and the merged bit is the virtual host's bit as 0 or 1;
    the base configuration is read for the aliases only.  With
    [MapCacheConnectionPoolMin 10] in the base and nothing in the
    virtual host the merged minimum is 0 and unset, and two default
    configurations merge to minimum 0, not to the default 1. *)
Theorem C6_merge_ignores_base :
  (forall base vhost o,
      cp_value o (mod_mapcache_merge_server_conf base vhost)
      = (if truth (cp_is_set o vhost) then cp_value o vhost else 0)
      /\ cp_is_set o (mod_mapcache_merge_server_conf base vhost)
         = (if truth (cp_is_set o vhost) then 1 else 0))
  /\ cp_value CpMin base_with_min_10 = 10
  /\ cp_is_set CpMin base_with_min_10 = 1
  /\ cp_is_set CpMin plain_vhost = 0
  /\ cp_value CpMin (mod_mapcache_merge_server_conf base_with_min_10 plain_vhost) = 0
  /\ cp_is_set CpMin (mod_mapcache_merge_server_conf base_with_min_10 plain_vhost) = 0
  /\ cp_value CpMin mod_mapcache_create_server_conf = 1
  /\ cp_value CpMin
       (mod_mapcache_merge_server_conf mod_mapcache_create_server_conf
                                       mod_mapcache_create_server_conf) = 0.
Proof.
  split; [|repeat split; reflexivity].
  intros base vhost o. destruct o; simpl; unfold c_or; simpl;
    rewrite orb_false_r; split; reflexivity.
Qed.

End ServerConf.

(** ** Proxy headers *)

Section ProxyHeaders.
Import Ctx ModMapcache Notions.

Lemma strcasecmp_eq_fold a : forall b,
  strcasecmp_eq a b = true <-> fold_case a = fold_case b.
Proof.
  induction a as [|x a IH]; intros [|y b]; simpl; split;
    try reflexivity; try discriminate.
  - intros Hxy. apply andb_prop in Hxy. destruct Hxy as [Hc Hr].
    apply Ascii.eqb_eq in Hc. apply IH in Hr. congruence.
  - intros [= Hc Hr]. apply andb_true_intro. split.
    + now apply Ascii.eqb_eq.
    + now apply IH.
Qed.

Lemma strcasecmp_eq_trans_l a b c :
  strcasecmp_eq a b = true -> strcasecmp_eq a c = strcasecmp_eq b c.
Proof.
  intros Hab. apply strcasecmp_eq_fold in Hab.
  destruct (strcasecmp_eq a c) eqn:Hac, (strcasecmp_eq b c) eqn:Hbc;
    try reflexivity.
  - apply strcasecmp_eq_fold in Hac.
    assert (strcasecmp_eq b c = true) by (apply strcasecmp_eq_fold; congruence).
    congruence.
  - apply strcasecmp_eq_fold in Hbc.
    assert (strcasecmp_eq a c = true) by (apply strcasecmp_eq_fold; congruence).
    congruence.
Qed.

Lemma apr_table_get_unset t key key' :
  strcasecmp_eq key key' = false ->
  apr_table_get (apr_table_unset t key) key' = apr_table_get t key'.
Proof.
  intros Hne. induction t as [|[k v] t IH]; simpl; [reflexivity|].
  destruct (strcasecmp_eq k key) eqn:Hk; simpl.
  - rewrite (strcasecmp_eq_trans_l k key key' Hk), Hne. exact IH.
  - now rewrite IH.
Qed.

(** Reading a table after [apr_table_set]. *)
Lemma apr_table_get_set t key val key' :
  apr_table_get (apr_table_set t key val) key'
  = if strcasecmp_eq key key' then val else apr_table_get t key'.
Proof.
  induction t as [|[k v] t IH]; simpl; [reflexivity|].
  destruct (strcasecmp_eq k key) eqn:Hk; simpl.
  - rewrite (strcasecmp_eq_trans_l k key key' Hk).
    destruct (strcasecmp_eq key key') eqn:Hkk; [reflexivity|].
    now apply apr_table_get_unset.
  - rewrite IH. destruct (strcasecmp_eq k key') eqn:Hk'; [|reflexivity].
    destruct (strcasecmp_eq key key') eqn:Hkk; [|reflexivity].
    assert (Hcontra : strcasecmp_eq k key = true).
    { apply strcasecmp_eq_fold. apply strcasecmp_eq_fold in Hk', Hkk. congruence. }
    congruence.
Qed.

Section Handler.
Context {W : Type} `{BodyReader W}.

(** C7 (as the code has it): for a proxied POST whose body is read
    without error, the request handed to the core carries
    [X-Forwarded-For] equal to the inbound one with the client address
    appended (the client address alone without an inbound one),
    [X-Forwarded-Server] built the same way from the server host name,
    and, when the request has a [Host] header, [X-Forwarded-Host] built
    the same way from it.  For any other method the request is handed
    to the core as it came, with no header added. *)
Theorem C7_post_forwards_headers :
  forall (r : request_rec) (req_proxy : mapcache_request_proxy)
         (ctx : mapcache_context) (w : W),
    (method_number r = M_POST ->
     forall req' ctx' w',
       read_post_body r req_proxy ctx w = (req', ctx', w') ->
       GC_HAS_ERROR ctx' = false ->
       let out := mod_mapcache_request_handler_proxy r req_proxy ctx w in
       (exists hdrs, out = CoreProxyRequest (set_headers (Some hdrs) req') ctx' w')
       /\ forwarded_header out "X-Forwarded-For"
          = Some (match apr_table_get (headers_in r) "X-Forwarded-For" with
                  | Some buf => comma_join buf (client_ip r)
                  | None => client_ip r
                  end)
       /\ forwarded_header out "X-Forwarded-Server"
          = Some (match apr_table_get (headers_in r) "X-Forwarded-Server" with
                  | Some buf => comma_join buf (server_hostname r)
                  | None => server_hostname r
                  end)
       /\ (forall host,
              apr_table_get (headers_in r) "Host" = Some host ->
              forwarded_header out "X-Forwarded-Host"
              = Some (match apr_table_get (headers_in r) "X-Forwarded-Host" with
                      | Some buf2 => comma_join buf2 host
                      | None => host
                      end)))
    /\ (method_number r <> M_POST ->
        mod_mapcache_request_handler_proxy r req_proxy ctx w
        = CoreProxyRequest req_proxy ctx w).
Proof.
  intros r req_proxy ctx w. split.
  - intros Hpost req' ctx' w' Hread Hclean out. subst out.
    unfold mod_mapcache_request_handler_proxy.
    rewrite Hpost, Z.eqb_refl, Hread, Hclean.
    destruct (apr_table_get (headers_in r) "X-Forwarded-For") as [xff|];
      destruct (apr_table_get (headers_in r) "X-Forwarded-Server") as [xfs|];
      destruct (apr_table_get (headers_in r) "Host") as [host|];
      destruct (apr_table_get (headers_in r) "X-Forwarded-Host") as [xfh|];
      (split; [eexists; reflexivity|]);
      unfold forwarded_header, set_headers; cbn [headers];
      repeat rewrite apr_table_get_set; cbn [strcasecmp_eq];
      (split; [reflexivity|]); (split; [reflexivity|]);
      intros host' Hhost; try discriminate Hhost;
      injection Hhost as <-; reflexivity.
  - intros Hother. unfold mod_mapcache_request_handler_proxy.
    destruct (method_number r =? M_POST) eqn:E; [|reflexivity].
    apply Z.eqb_eq in E. contradiction.
Qed.

End Handler.

End ProxyHeaders.

Section ProxyRuns.
Import Ctx ModMapcache Sim Scenario.

(** C7 for a POST that came through another proxy. *)
Lemma C7_post_forwards_headers_witness :
  forwarded_header
    (mod_mapcache_request_handler_proxy a_post_request a_proxy_request
                                        new_context a_body)
    "X-Forwarded-For"
  = Some "192.0.2.7, 10.0.0.1"%string.
Proof.
  destruct (C7_post_forwards_headers a_post_request a_proxy_request new_context
                                     a_body) as [Hpost _].
  destruct (Hpost eq_refl _ _ _ eq_refl eq_refl) as (_ & Hxff & _).
  exact Hxff.
Defined.

(** A proxied GET is forwarded without [X-Forwarded-For]. *)
Lemma C7_get_has_no_forwarded_for :
  ~ (forwarded_header
       (mod_mapcache_request_handler_proxy a_get_request a_proxy_request
                                           new_context a_body)
       "X-Forwarded-For"
     = Some (comma_join "192.0.2.7" "10.0.0.1")).
Proof. vm_compute. discriminate. Qed.

End ProxyRuns.

(** ** Riak backend *)

Section RiakFacts.
Import Ctx Tile Riak Notions.
Context {W client : Type} `{RiakEnv W client} `{ResultCodes}.

(** The bound [Z.to_nat retries] is enough for the reconnection loop: a
    larger one changes nothing, and [retries] never grows. *)
Lemma riak_reconnect_loop_fuel (n : nat) :
  forall (cl : client) retries (w : W),
    (Z.to_nat retries <= n)%nat ->
    riak_reconnect_loop (S n) cl retries w = riak_reconnect_loop n cl retries w.
Proof.
  induction n as [|n IH]; intros cl retries w Hn.
  - simpl. destruct (riack_reconnect cl w) as [ce v].
    destruct (negb (ce =? RIACK_SUCCESS)); [|reflexivity].
    destruct (0 <? retries) eqn:Hpos; [|reflexivity].
    apply Z.ltb_lt in Hpos. lia.
  - change (riak_reconnect_loop (S (S n)) cl retries w)
      with (let '(ce, v) := riack_reconnect cl w in
            if negb (ce =? RIACK_SUCCESS) && (0 <? retries)
            then riak_reconnect_loop (S n) cl (retries - 1) v
            else (ce, retries, v)).
    change (riak_reconnect_loop (S n) cl retries w)
      with (let '(ce, v) := riack_reconnect cl w in
            if negb (ce =? RIACK_SUCCESS) && (0 <? retries)
            then riak_reconnect_loop n cl (retries - 1) v
            else (ce, retries, v)).
    destruct (riack_reconnect cl w) as [ce v].
    destruct (negb (ce =? RIACK_SUCCESS) && (0 <? retries)) eqn:E;
      [|reflexivity].
    apply IH. apply andb_prop in E. destruct E as [_ Hpos].
    apply Z.ltb_lt in Hpos. lia.
Qed.

Lemma riak_reconnect_loop_le (n : nat) :
  forall (cl : client) retries (w : W),
    snd (fst (riak_reconnect_loop n cl retries w)) <= retries.
Proof.
  induction n as [|n IH]; intros cl retries w; simpl;
    destruct (riack_reconnect cl w) as [ce v];
    destruct (negb (ce =? RIACK_SUCCESS) && (0 <? retries)); simpl; try lia.
  specialize (IH cl (retries - 1) v). lia.
Qed.

(** The bound [Z.to_nat (retries + 1)] is enough for the request loop. *)
Lemma riak_retry_fuel {X : Type} (n : nat) :
  forall (op : W -> Z * X * W) retry_message (cl : client) retries
         connect_error ctx w,
    (Z.to_nat (retries + 1) <= n)%nat ->
    riak_retry (S n) op retry_message cl retries connect_error ctx w
    = riak_retry n op retry_message cl retries connect_error ctx w.
Proof.
  induction n as [|n IH]; intros op retry_message cl retries connect_error ctx w Hn.
  - simpl. destruct (op w) as [[error obj] v].
    destruct (negb (error =? RIACK_SUCCESS)); [|reflexivity].
    pose proof (riak_reconnect_loop_le (Z.to_nat retries) cl retries v) as Hle.
    destruct (riak_reconnect_loop (Z.to_nat retries) cl retries v)
      as [[ce rt] v']. simpl in Hle.
    destruct (0 <=? rt - 1) eqn:Hpos; [|reflexivity].
    apply Z.leb_le in Hpos. lia.
  - change (riak_retry (S (S n)) op retry_message cl retries connect_error ctx w)
      with (let '(error, obj, v) := op w in
            if negb (error =? RIACK_SUCCESS) then
              let ctx := log MAPCACHE_WARN (retry_message (4 - retries) error) ctx in
              let '(connect_error, retries, v) :=
                riak_reconnect_loop (Z.to_nat retries) cl retries v in
              let retries := retries - 1 in
              if 0 <=? retries then
                riak_retry (S n) op retry_message cl retries connect_error ctx v
              else (error, connect_error, obj, ctx, v)
            else (error, connect_error, obj, ctx, v)).
    change (riak_retry (S n) op retry_message cl retries connect_error ctx w)
      with (let '(error, obj, v) := op w in
            if negb (error =? RIACK_SUCCESS) then
              let ctx := log MAPCACHE_WARN (retry_message (4 - retries) error) ctx in
              let '(connect_error, retries, v) :=
                riak_reconnect_loop (Z.to_nat retries) cl retries v in
              let retries := retries - 1 in
              if 0 <=? retries then
                riak_retry n op retry_message cl retries connect_error ctx v
              else (error, connect_error, obj, ctx, v)
            else (error, connect_error, obj, ctx, v)).
    destruct (op w) as [[error obj] v].
    destruct (negb (error =? RIACK_SUCCESS)); [|reflexivity].
    pose proof (riak_reconnect_loop_le (Z.to_nat retries) cl retries v) as Hle.
    destruct (riak_reconnect_loop (Z.to_nat retries) cl retries v)
      as [[ce rt] v']. simpl in Hle. cbn zeta.
    destruct (0 <=? rt - 1) eqn:Hpos; [|reflexivity].
    apply Z.leb_le in Hpos. apply IH. lia.
Qed.

(** The retry loop logs and never touches the error slot. *)
Lemma riak_retry_err {X : Type} (n : nat) :
  forall (op : W -> Z * X * W) retry_message (cl : client) retries
         connect_error ctx w,
    err (snd (fst (riak_retry n op retry_message cl retries connect_error ctx w)))
    = err ctx.
Proof.
  induction n as [|n IH]; intros op retry_message cl retries connect_error ctx w;
    simpl; destruct (op w) as [[error obj] v];
    destruct (negb (error =? RIACK_SUCCESS)); try reflexivity;
    destruct (riak_reconnect_loop (Z.to_nat retries) cl retries v)
      as [[ce rt] v'];
    destruct (0 <=? rt - 1); try reflexivity.
  rewrite IH. reflexivity.
Qed.

(** C9: the key and bucket are computed and a connection is obtained
    without error, the request (after its retries) succeeds, and the
    object returned has no content entry or a first entry without data.
    Then the read returns [MAPCACHE_CACHE_MISS], which is neither
    [MAPCACHE_SUCCESS] nor [MAPCACHE_FAILURE], leaves the tile as it
    was and raises no error: the error slot is untouched up to the
    return of the connection to the pool.  Under the same condition
    [has_tile] returns [MAPCACHE_FALSE]. *)
Theorem C9_no_content_is_miss :
  forall cache tile ctx (w : W) ctx1 key bucket pbucket_type ctx2 pc w2
         connect_error obj ctx3 w3,
    riak_names cache tile ctx = inr (ctx1, key, bucket, pbucket_type) ->
    _riak_get_connection ctx1 cache w = (ctx2, Some pc, w2) ->
    GC_HAS_ERROR ctx2 = false ->
    no_content obj = true ->
    (riak_retry3
       (riack_get_ext (connection pc) bucket key (get_properties cache)
                      pbucket_type)
       (get_retry_message key cache) (connection pc) ctx2 w2
     = (RIACK_SUCCESS, connect_error, Some obj, ctx3, w3) ->
     _mapcache_cache_riak_get cache tile ctx w
     = Some (MAPCACHE_CACHE_MISS, tile,
             fst (mapcache_connection_pool_release_connection ctx3 pc w3),
             snd (mapcache_connection_pool_release_connection ctx3 pc w3))
     /\ err ctx3 = err ctx2
     /\ GC_HAS_ERROR ctx3 = false
     /\ MAPCACHE_CACHE_MISS <> MAPCACHE_SUCCESS
     /\ MAPCACHE_CACHE_MISS <> MAPCACHE_FAILURE)
    /\
    (riak_retry3
       (riack_get_ext (connection pc) bucket key (get_properties cache)
                      pbucket_type)
       (has_tile_retry_message key cache) (connection pc) ctx2 w2
     = (RIACK_SUCCESS, connect_error, Some obj, ctx3, w3) ->
     _mapcache_cache_riak_has_tile cache tile ctx w
     = Some (MAPCACHE_FALSE,
             fst (mapcache_connection_pool_release_connection ctx3 pc w3),
             snd (mapcache_connection_pool_release_connection ctx3 pc w3))
     /\ err ctx3 = err ctx2).
Proof.
  intros cache tile ctx w ctx1 key bucket pbucket_type ctx2 pc w2
         connect_error obj ctx3 w3 Hnames Hconn Hclean Hempty.
  split; intros Hloop.
  - assert (Herr : err ctx3 = err ctx2).
    { unfold riak_retry3 in Hloop.
      pose proof (riak_retry_err (Z.to_nat (3 + 1))
                    (riack_get_ext (connection pc) bucket key
                                   (get_properties cache) pbucket_type)
                    (get_retry_message key cache) (connection pc) 3
                    RIACK_SUCCESS ctx2 w2) as E.
      rewrite Hloop in E. exact E. }
    split; [|split; [exact Herr|split; [|split]]];
      [| |exact (fun E => success_is_not_miss (eq_sym E))
       |exact miss_is_not_failure].
    + unfold _mapcache_cache_riak_get.
      rewrite Hnames, Hconn, Hclean, Hloop, Z.eqb_refl. simpl.
      unfold no_content in Hempty.
      destruct (mapcache_connection_pool_release_connection ctx3 pc w3)
        as [c v].
      destruct (content obj) as [|c0 rest]; [reflexivity|].
      rewrite Hempty. reflexivity.
    + unfold GC_HAS_ERROR in *. now rewrite Herr.
  - split.
    + unfold _mapcache_cache_riak_has_tile.
      rewrite Hnames, Hconn, Hclean, Hloop, Z.eqb_refl. simpl.
      rewrite Hempty.
      destruct (mapcache_connection_pool_release_connection ctx3 pc w3)
        as [c v].
      reflexivity.
    + unfold riak_retry3 in Hloop.
      pose proof (riak_retry_err (Z.to_nat (3 + 1))
                    (riack_get_ext (connection pc) bucket key
                                   (get_properties cache) pbucket_type)
                    (has_tile_retry_message key cache) (connection pc) 3
                    RIACK_SUCCESS ctx2 w2) as E.
      rewrite Hloop in E. exact E.
Qed.

Lemma set_raw_image_same tile img :
  raw_image tile = Some img -> set_raw_image (Some img) tile = tile.
Proof. destruct tile; simpl. now intros ->. Qed.

(** The blank detection on a tile whose raw image is of one colour. *)
Lemma riak_detect_blank_uniform cache tile ctx ctx' img b0 b1 b2 b3 rest :
  detect_blank cache <> 0 ->
  raw_image_is tile ctx ctx' img ->
  mapcache_image_blank_color (Some img) <> MAPCACHE_FALSE ->
  img_data img = b0 :: b1 :: b2 :: b3 :: rest ->
  riak_detect_blank cache tile ctx
  = Some (inr (set_encoded_data (Some (sentinel_of b0 b1 b2 b3))
                                (set_raw_image (Some img) tile),
               ctx', Some blank_content_type)).
Proof.
  intros Hdetect Himg Hblank Hdata. unfold riak_detect_blank.
  apply Z.eqb_neq in Hdetect. apply Z.eqb_neq in Hblank.
  rewrite Hdetect. cbn [negb].
  destruct Himg as [[Hraw ->] | (Hraw & Hdec & Hclean)].
  - rewrite Hraw. cbn iota. rewrite Hraw, Hblank. cbn [negb].
    unfold blank_sentinel. rewrite Hdata.
    now rewrite (set_raw_image_same tile img Hraw).
  - rewrite Hraw, Hdec, Hclean. cbn [raw_image set_raw_image].
    rewrite Hblank. cbn [negb].
    unfold blank_sentinel. now rewrite Hdata.
Qed.


End RiakFacts.

Section RiakRuns.
Import Ctx Tile Riak Notions Sim Scenario.

(** C9 for a stored object without data, read after one failed
    request. *)
Lemma C9_no_content_is_miss_witness :
  exists ctx' w',
    _mapcache_cache_riak_get a_riak_cache a_tile new_context hollow_riak_world
    = Some (MAPCACHE_CACHE_MISS, a_tile, ctx', w')
    /\ GC_HAS_ERROR ctx' = false.
Proof.
  do 2 eexists. split.
  - refine (proj1 (proj1 (C9_no_content_is_miss
                            a_riak_cache a_tile new_context hollow_riak_world
                            new_context (sim_tile_key a_tile) "tiles"%string
                            None new_context (PooledConnection tt)
                            hollow_riak_world _
                            (RiackObject "tiles" (sim_tile_key a_tile) 0
                               [RiackContent [] (Some "image/png"%string)
                                             0 0 0 0])
                            _ _ eq_refl eq_refl eq_refl eq_refl) _)).
    vm_compute; reflexivity.
  - vm_compute. reflexivity.
Defined.


End RiakRuns.
(** * Further properties *)

(** ** Doubles: rounding does not go below an integer bound *)

Module DoubleFacts.
Import Double Notions.
Local Open Scope Q_scope.

Lemma pow2_pos e : 0 < pow2 e.
Proof. unfold pow2. apply Qpower_0_lt. reflexivity. Qed.

Lemma pow2_add a b : pow2 (a + b) == pow2 a * pow2 b.
Proof. unfold pow2. apply Qpower_plus. discriminate. Qed.

Lemma pow2_Z n : (0 <= n)%Z -> pow2 n == inject_Z (2 ^ n).
Proof. intros Hn. unfold pow2. rewrite Zpower_Qpower by exact Hn. reflexivity. Qed.

Lemma pow2_ge_1 n : (0 <= n)%Z -> 1 <= pow2 n.
Proof.
  intros Hn. rewrite (pow2_Z n Hn). change 1 with (inject_Z 1).
  rewrite <- Zle_Qle. pose proof (Z.pow_pos_nonneg 2 n ltac:(lia) Hn). lia.
Qed.

Lemma pow2_le a b : (a <= b)%Z -> pow2 a <= pow2 b.
Proof.
  intros Hab. replace b with (a + (b - a))%Z by lia. rewrite pow2_add.
  rewrite <- (Qmult_1_r (pow2 a)) at 1.
  apply Qmult_le_l; [apply pow2_pos | apply pow2_ge_1; lia].
Qed.

Lemma pow2_cancel a b : pow2 (a - b) * pow2 b == pow2 a.
Proof. rewrite <- pow2_add. replace (a - b + b)%Z with a by lia. reflexivity. Qed.

(** [2^(Qlog2 q) <= q] for a positive [q]. *)
Lemma Qlog2_lower q : 0 < q -> pow2 (Qlog2 q) <= q.
Proof.
  intros Hq. unfold Qlog2.
  destruct (Qle_bool (pow2 (Z.log2 (Qnum q) - Z.log2 (Z.pos (Qden q)))) q) eqn:Hle.
  - apply Qle_bool_iff. exact Hle.
  - clear Hle. destruct q as [n d]. cbn [Qnum Qden].
    assert (Hn : (0 < n)%Z).
    { unfold Qlt in Hq. cbn in Hq. lia. }
    pose proof (Z.log2_spec n Hn) as [Hlo _].
    pose proof (Z.log2_spec (Z.pos d) ltac:(lia)) as [_ Hhi].
    pose proof (Z.log2_nonneg n) as Hln.
    pose proof (Z.log2_nonneg (Z.pos d)) as Hld.
    set (ln := Z.log2 n) in *. set (ld := Z.log2 (Z.pos d)) in *.
    apply Qmult_le_r with (z := pow2 (ld + 1)); [apply pow2_pos|].
    replace (ln - ld - 1)%Z with (ln - (ld + 1))%Z by lia.
    rewrite pow2_cancel.
    rewrite (pow2_Z ln Hln), (pow2_Z (ld + 1)) by lia.
    replace (Z.succ ld) with (ld + 1)%Z in Hhi by lia.
    unfold Qle, Qmult, inject_Z. cbn [Qnum Qden].
    rewrite !Z.mul_1_r, Pos.mul_1_r.
    apply Z.le_trans with (m := (n * Z.pos d)%Z).
    + apply Z.mul_le_mono_nonneg_r; lia.
    + apply Z.mul_le_mono_nonneg_l; lia.
Qed.

(** Rounding to the nearest integer does not go below an integer that
    the number is not below. *)
Lemma round_half_even_ge q k : inject_Z k <= q -> (k <= round_half_even q)%Z.
Proof.
  intros Hk. unfold round_half_even.
  assert (Hf : (k <= Qfloor q)%Z).
  { rewrite <- (Qfloor_Z k). apply Qfloor_resp_le. exact Hk. }
  destruct (q - inject_Z (Qfloor q) ?= 1 # 2); [destruct (Z.even (Qfloor q))| |]; lia.
Qed.

Lemma round_positive_ge q (c : Z) :
  (0 < c < 2 ^ 53)%Z -> inject_Z c <= q -> at_least (round_positive q) (inject_Z c).
Proof.
  intros Hc Hq.
  assert (Hq0 : 0 < q).
  { apply Qlt_le_trans with (y := inject_Z c); [|exact Hq].
    change 0 with (inject_Z 0). rewrite <- Zlt_Qlt. lia. }
  unfold round_positive.
  set (e := Z.max (Qlog2 q) (-1022)).
  set (ulp := pow2 (e - 52)).
  assert (Hulp : 0 < ulp) by apply pow2_pos.
  assert (Hv : inject_Z c <= inject_Z (round_half_even (q / ulp)) * ulp).
  { destruct (Z_le_gt_dec e 52) as [Hsmall|Hbig].
    - assert (Hk : inject_Z (c * 2 ^ (52 - e)) * ulp == inject_Z c).
      { rewrite inject_Z_mult, <- (pow2_Z (52 - e)) by lia.
        rewrite <- Qmult_assoc. unfold ulp.
        rewrite <- pow2_add. replace (52 - e + (e - 52))%Z with 0%Z by lia.
        change (pow2 0) with 1. apply Qmult_1_r. }
      rewrite <- Hk. apply Qmult_le_r; [exact Hulp|].
      rewrite <- Zle_Qle. apply round_half_even_ge.
      apply Qle_shift_div_l; [exact Hulp|]. rewrite Hk. exact Hq.
    - assert (He : e = Qlog2 q) by (unfold e in *; lia).
      apply Qle_trans with (y := pow2 e).
      + apply Qle_trans with (y := pow2 53); [|apply pow2_le; lia].
        rewrite (pow2_Z 53) by lia. rewrite <- Zle_Qle. lia.
      + assert (Hk : inject_Z (2 ^ 52) * ulp == pow2 e).
        { rewrite <- (pow2_Z 52) by lia. unfold ulp. rewrite <- pow2_add.
          replace (52 + (e - 52))%Z with e by lia. reflexivity. }
        rewrite <- Hk. apply Qmult_le_r; [exact Hulp|].
        rewrite <- Zle_Qle. apply round_half_even_ge.
        apply Qle_shift_div_l; [exact Hulp|]. rewrite Hk, He.
        apply Qlog2_lower. exact Hq0. }
  destruct (Qle_bool (pow2 1024) _); cbn [at_least]; [reflexivity|].
  rewrite Qred_correct. exact Hv.
Qed.

Lemma round_half_even_le q k : q <= inject_Z k -> (round_half_even q <= k)%Z.
Proof.
  intros Hk. unfold round_half_even.
  pose proof (Qfloor_le q) as Hlo.
  assert (Hf : (Qfloor q <= k)%Z).
  { rewrite <- (Qfloor_Z k). apply Qfloor_resp_le. exact Hk. }
  destruct (Z.eq_dec (Qfloor q) k) as [Heq|Hne].
  - assert (Hc : (q - inject_Z (Qfloor q) ?= 1 # 2) = Lt).
    { apply (proj1 (Qlt_alt _ _)). rewrite Heq in *. lra. }
    rewrite Hc. lia.
  - destruct (q - inject_Z (Qfloor q) ?= 1 # 2);
      [destruct (Z.even (Qfloor q))| |]; lia.
Qed.

Lemma round_half_even_error q :
  q - (1 # 2) <= inject_Z (round_half_even q)
  /\ inject_Z (round_half_even q) <= q + (1 # 2).
Proof.
  unfold round_half_even.
  pose proof (Qfloor_le q) as Hlo. pose proof (Qlt_floor q) as Hhi.
  rewrite inject_Z_plus in Hhi. change (inject_Z 1) with 1 in Hhi.
  destruct (q - inject_Z (Qfloor q) ?= 1 # 2) eqn:Hc.
  - apply (proj2 (Qeq_alt _ _)) in Hc.
    destruct (Z.even (Qfloor q));
      [|rewrite inject_Z_plus; change (inject_Z 1) with 1]; lra.
  - apply (proj2 (Qlt_alt _ _)) in Hc. lra.
  - apply (proj2 (Qgt_alt _ _)) in Hc. rewrite inject_Z_plus. change (inject_Z 1) with 1. lra.
Qed.


(** A number [k * 2^j] with [0 < k < 2^53] and [-1074 <= j] is a
    binary64 number, so rounding does not cross it. *)
Lemma round_positive_ge_dyadic q k j :
  (0 < k < 2 ^ 53)%Z -> (-1074 <= j)%Z ->
  inject_Z k * pow2 j <= q ->
  at_least (round_positive q) (inject_Z k * pow2 j).
Proof.
  intros Hk Hj Hq.
  assert (Hc0 : 0 < inject_Z k * pow2 j).
  { apply Qmult_lt_0_compat; [|apply pow2_pos].
    change 0 with (inject_Z 0). rewrite <- Zlt_Qlt. lia. }
  assert (Hq0 : 0 < q) by (apply Qlt_le_trans with (y := inject_Z k * pow2 j); assumption).
  unfold round_positive.
  set (e := Z.max (Qlog2 q) (-1022)).
  set (ulp := pow2 (e - 52)).
  assert (Hulp : 0 < ulp) by apply pow2_pos.
  assert (Hv : inject_Z k * pow2 j
               <= inject_Z (round_half_even (q / ulp)) * ulp).
  { destruct (Z_le_gt_dec (e - 52) j) as [Hsmall|Hbig].
    - assert (HK : inject_Z (k * 2 ^ (j - (e - 52))) * ulp
                   == inject_Z k * pow2 j).
      { rewrite inject_Z_mult, <- (pow2_Z (j - (e - 52))) by lia.
        rewrite <- Qmult_assoc. unfold ulp. rewrite pow2_cancel. reflexivity. }
      rewrite <- HK. apply Qmult_le_r; [exact Hulp|].
      rewrite <- Zle_Qle. apply round_half_even_ge.
      apply Qle_shift_div_l; [exact Hulp|]. rewrite HK. exact Hq.
    - assert (He : e = Qlog2 q) by (unfold e in *; lia).
      apply Qle_trans with (y := pow2 e).
      + apply Qle_trans with (y := pow2 (53 + j)); [|apply pow2_le; lia].
        rewrite pow2_add, (pow2_Z 53) by lia.
        apply Qmult_le_r; [apply pow2_pos|]. rewrite <- Zle_Qle. lia.
      + assert (HK : inject_Z (2 ^ 52) * ulp == pow2 e).
        { rewrite <- (pow2_Z 52) by lia. unfold ulp. rewrite <- pow2_add.
          replace (52 + (e - 52))%Z with e by lia. reflexivity. }
        rewrite <- HK. apply Qmult_le_r; [exact Hulp|].
        rewrite <- Zle_Qle. apply round_half_even_ge.
        apply Qle_shift_div_l; [exact Hulp|]. rewrite HK, He.
        apply Qlog2_lower. exact Hq0. }
  destruct (Qle_bool (pow2 1024) _); cbn [at_least]; [reflexivity|].
  rewrite Qred_correct. exact Hv.
Qed.

Lemma round_positive_le_dyadic q k j :
  0 < q -> (0 < k < 2 ^ 53)%Z -> (-1074 <= j <= 970)%Z ->
  q <= inject_Z k * pow2 j ->
  exists v, round_positive q = Finite v /\ v <= inject_Z k * pow2 j.
Proof.
  intros Hq0 Hk Hj Hq.
  assert (Hc : inject_Z k * pow2 j < pow2 (53 + j)).
  { rewrite pow2_add, (pow2_Z 53) by lia.
    apply Qmult_lt_r; [apply pow2_pos|]. rewrite <- Zlt_Qlt. lia. }
  unfold round_positive.
  set (e := Z.max (Qlog2 q) (-1022)).
  set (ulp := pow2 (e - 52)).
  assert (Hulp : 0 < ulp) by apply pow2_pos.
  assert (Hv : inject_Z (round_half_even (q / ulp)) * ulp
               <= inject_Z k * pow2 j).
  { destruct (Z_le_gt_dec (e - 52) j) as [Hsmall|Hbig].
    - assert (HK : inject_Z (k * 2 ^ (j - (e - 52))) * ulp
                   == inject_Z k * pow2 j).
      { rewrite inject_Z_mult, <- (pow2_Z (j - (e - 52))) by lia.
        rewrite <- Qmult_assoc. unfold ulp. rewrite pow2_cancel. reflexivity. }
      rewrite <- HK. apply Qmult_le_r; [exact Hulp|].
      rewrite <- Zle_Qle. apply round_half_even_le.
      apply Qle_shift_div_r; [exact Hulp|]. rewrite HK. exact Hq.
    - assert (He : e = Qlog2 q) by (unfold e in *; lia).
      exfalso.
      pose proof (Qlog2_lower q Hq0) as Hlow. rewrite <- He in Hlow.
      pose proof (pow2_le (53 + j) e ltac:(lia)) as Hmono.
      apply (Qlt_irrefl q).
      apply Qle_lt_trans with (y := inject_Z k * pow2 j); [exact Hq|].
      apply Qlt_le_trans with (y := pow2 (53 + j)); [exact Hc|].
      apply Qle_trans with (y := pow2 e); assumption. }
  assert (Hfin : Qle_bool (pow2 1024)
                   (inject_Z (round_half_even (q / ulp)) * ulp) = false).
  { destruct (Qle_bool (pow2 1024) _) eqn:Hover; [|reflexivity].
    apply Qle_bool_iff in Hover. exfalso.
    pose proof (pow2_le (53 + j) 1024 ltac:(lia)) as Hmono.
    apply (Qlt_irrefl (pow2 1024)).
    apply Qle_lt_trans with (y := inject_Z k * pow2 j);
      [apply Qle_trans with (y := inject_Z (round_half_even (q / ulp)) * ulp);
       assumption|].
    apply Qlt_le_trans with (y := pow2 (53 + j)); assumption. }
  rewrite Hfin. eexists. split; [reflexivity|].
  rewrite Qred_correct. exact Hv.
Qed.

(** The error of a rounding that does not overflow: half a unit in the
    last place, which is at most [q * 2^-53], or [2^-1075] among the
    subnormal numbers. *)
Lemma round_positive_error q :
  0 < q -> q <= inject_Z (2 ^ 62) ->
  exists v, round_positive q = Finite v
    /\ q - (q * pow2 (-53) + pow2 (-1075)) <= v
    /\ v <= q + (q * pow2 (-53) + pow2 (-1075)).
Proof.
  intros Hq0 Hbig. unfold round_positive.
  set (e := Z.max (Qlog2 q) (-1022)).
  remember (pow2 (e - 52)) as ulp eqn:Eulp.
  assert (Hulp : 0 < ulp) by (subst ulp; apply pow2_pos).
  assert (Hnz : ~ ulp == 0) by (intros E; rewrite E in Hulp; discriminate).
  pose proof (round_half_even_error (q / ulp)) as [Hlo Hhi].
  remember (inject_Z (round_half_even (q / ulp))) as r eqn:Er.
  pose proof (pow2_pos (-53)) as H53. pose proof (pow2_pos (-1075)) as H1075.
  assert (Hhalf : ulp * (1 # 2) <= q * pow2 (-53) + pow2 (-1075)).
  { assert (E2 : ulp * (1 # 2) == pow2 (e - 53)).
    { subst ulp. change (1 # 2) with (pow2 (-1)). rewrite <- pow2_add.
      replace (e - 52 + -1)%Z with (e - 53)%Z by lia. reflexivity. }
    rewrite E2. destruct (Z.max_spec (Qlog2 q) (-1022)) as [[_ He]|[_ He]];
      fold e in He.
    - rewrite He. change (-1022 - 53)%Z with (-1075)%Z.
      assert (0 <= q * pow2 (-53)) by (apply Qmult_le_0_compat; lra).
      lra.
    - replace (e - 53)%Z with (e + -53)%Z by lia. rewrite pow2_add.
      assert (pow2 e * pow2 (-53) <= q * pow2 (-53)).
      { apply Qmult_le_r; [exact H53|]. rewrite He. apply Qlog2_lower.
        exact Hq0. }
      lra. }
  assert (H1 : (q / ulp - (1 # 2)) * ulp <= r * ulp)
    by (apply Qmult_le_r; assumption).
  assert (H2 : r * ulp <= (q / ulp + (1 # 2)) * ulp)
    by (apply Qmult_le_r; assumption).
  assert (E1 : (q / ulp - (1 # 2)) * ulp == q - ulp * (1 # 2))
    by (field; exact Hnz).
  assert (E2 : (q / ulp + (1 # 2)) * ulp == q + ulp * (1 # 2))
    by (field; exact Hnz).
  rewrite E1 in H1. rewrite E2 in H2.
  assert (Hfin : Qle_bool (pow2 1024) (r * ulp) = false).
  { destruct (Qle_bool (pow2 1024) (r * ulp)) eqn:Hover; [|reflexivity].
    apply Qle_bool_iff in Hover. exfalso.
    pose proof (pow2_le 64 1024 ltac:(lia)) as Hmono.
    rewrite (pow2_Z 64) in Hmono by lia.
    pose proof (pow2_le (-53) 0 ltac:(lia)) as Hs1.
    pose proof (pow2_le (-1075) 0 ltac:(lia)) as Hs2.
    change (pow2 0) with 1 in Hs1, Hs2.
    assert (Hprod : q * pow2 (-53) <= q * 1)
      by (apply Qmult_le_l; assumption).
    change (inject_Z (2 ^ 62)) with (4611686018427387904 # 1) in Hbig.
    change (inject_Z (2 ^ 64)) with (18446744073709551616 # 1) in Hmono.
    lra. }
  rewrite Hfin. eexists. split; [reflexivity|].
  rewrite Qred_correct. split; lra.
Qed.

(** The integral part of a positive number between two integers. *)
Lemma trunc_between (v : Q) (a b : Z) :
  (0 <= a)%Z -> inject_Z a <= v -> v < inject_Z b ->
  (a <= trunc v < b)%Z.
Proof.
  intros Ha Hlo Hhi.
  assert (Hfloor : trunc v = Qfloor v).
  { unfold trunc, Qfloor. destruct v as [n d]. cbn [Qnum Qden].
    apply Z.quot_div_nonneg; [|lia].
    assert (0 <= n # d)
      by (apply Qle_trans with (y := inject_Z a); [|exact Hlo];
          change 0 with (inject_Z 0); rewrite <- Zle_Qle; exact Ha).
    unfold Qle in H. cbn in H. lia. }
  rewrite Hfloor. split.
  - rewrite <- (Qfloor_Z a). apply Qfloor_resp_le. exact Hlo.
  - rewrite Zlt_Qlt. apply Qle_lt_trans with (y := v); [apply Qfloor_le|].
    exact Hhi.
Qed.

(** [m / 1000000.0 * 1000000] converted to a 64-bit integer, for a
    positive [int] [m]: the quotient and the product are rounded, and
    what comes back is [m] or [m - 1]. *)
Lemma microseconds_round_trip (m : Z) :
  (0 < m < 2 ^ 31)%Z ->
  exists usec,
    to_int64 (mul (div (of_int m) (of_int 1000000)) (of_int 1000000))
    = Some usec
    /\ (m - 1 <= usec <= m)%Z.
Proof.
  intros Hm. unfold div, mul, of_int, round.
  change (inject_Z 1000000 ?= 0) with Gt. cbv iota.
  assert (Hm1 : 1 <= inject_Z m)
    by (change 1 with (inject_Z 1); rewrite <- Zle_Qle; lia).
  assert (Hm31 : inject_Z m <= 2147483648 # 1)
    by (change (2147483648 # 1) with (inject_Z 2147483648);
        rewrite <- Zle_Qle; lia).
  set (q1 := inject_Z m / inject_Z 1000000).
  assert (Eq1 : q1 * inject_Z 1000000 == inject_Z m)
    by (unfold q1; field; discriminate).
  change (inject_Z 1000000) with (1000000 # 1) in *.
  assert (Hq1 : 0 < q1) by lra.
  rewrite (proj1 (Qgt_alt _ _) Hq1).
  destruct (round_positive_error q1 Hq1) as (v1 & -> & Hlo1 & Hhi1).
  { change (inject_Z (2 ^ 62)) with (4611686018427387904 # 1). lra. }
  pose proof (pow2_pos (-53)) as H53. pose proof (pow2_pos (-1075)) as H1075.
  assert (Hs1 : pow2 (-53) * (2147483648 # 1) <= pow2 (-22)).
  { change (2147483648 # 1) with (inject_Z (2 ^ 31)).
    rewrite <- (pow2_Z 31), <- pow2_add by lia. apply Qle_refl. }
  assert (Hs2 : pow2 (-1075) * (1000000 # 1) <= pow2 (-22)).
  { apply Qle_trans with (y := pow2 (-1075) * pow2 20).
    - apply Qmult_le_l; [exact H1075|]. rewrite (pow2_Z 20) by lia.
      change (1000000 # 1) with (inject_Z 1000000). rewrite <- Zle_Qle. lia.
    - rewrite <- pow2_add. apply pow2_le. lia. }
  assert (E21 : pow2 (-22) + pow2 (-22) == pow2 (-21)).
  { change (-21)%Z with (-22 + 1)%Z. rewrite pow2_add.
    change (pow2 1) with 2. ring. }
  assert (Hprod1 : q1 * pow2 (-53) * (1000000 # 1) <= pow2 (-22)).
  { apply Qle_trans with (y := pow2 (-53) * (2147483648 # 1)); [|exact Hs1].
    setoid_replace (q1 * pow2 (-53) * (1000000 # 1))
      with (pow2 (-53) * (q1 * (1000000 # 1))) using relation Qeq by ring.
    apply Qmult_le_l; [exact H53|]. lra. }
  assert (Hlo2 : inject_Z m - pow2 (-21) <= v1 * (1000000 # 1)).
  { assert ((q1 - (q1 * pow2 (-53) + pow2 (-1075))) * (1000000 # 1)
            <= v1 * (1000000 # 1))
      by (apply Qmult_le_r; [reflexivity | exact Hlo1]).
    lra. }
  assert (Hhi2 : v1 * (1000000 # 1) <= inject_Z m + pow2 (-21)).
  { assert (v1 * (1000000 # 1)
            <= (q1 + (q1 * pow2 (-53) + pow2 (-1075))) * (1000000 # 1))
      by (apply Qmult_le_r; [reflexivity | exact Hhi1]).
    lra. }
  assert (Hsmall : pow2 (-21) <= 1 # 2) by (apply (pow2_le (-21) (-1)); lia).
  assert (Hv1 : 0 < v1 * (1000000 # 1)) by lra.
  rewrite (proj1 (Qgt_alt _ _) Hv1).
  assert (Ea : inject_Z (m * 2 ^ 21 - 1) * pow2 (-21)
               == inject_Z m - pow2 (-21)).
  { unfold Zminus. rewrite inject_Z_plus, inject_Z_mult, <- (pow2_Z 21) by lia.
    change (inject_Z (- (1))) with (- (1)).
    setoid_replace ((inject_Z m * pow2 21 + - (1)) * pow2 (-21))
      with (inject_Z m * (pow2 21 * pow2 (-21)) - pow2 (-21)) using relation Qeq by ring.
    rewrite <- pow2_add. change (pow2 (21 + -21)) with 1. ring. }
  assert (Eb : inject_Z (m * 2 ^ 21 + 1) * pow2 (-21)
               == inject_Z m + pow2 (-21)).
  { rewrite inject_Z_plus, inject_Z_mult, <- (pow2_Z 21) by lia.
    change (inject_Z 1) with 1.
    setoid_replace ((inject_Z m * pow2 21 + 1) * pow2 (-21))
      with (inject_Z m * (pow2 21 * pow2 (-21)) + pow2 (-21)) using relation Qeq by ring.
    rewrite <- pow2_add. change (pow2 (21 + -21)) with 1. ring. }
  destruct (round_positive_le_dyadic (v1 * (1000000 # 1)) (m * 2 ^ 21 + 1) (-21)
              Hv1 ltac:(lia) ltac:(lia))
    as (v2 & Hround & Hhi3).
  { rewrite Eb. exact Hhi2. }
  assert (Hlo3 : inject_Z (m * 2 ^ 21 - 1) * pow2 (-21) <= v2).
  { pose proof (round_positive_ge_dyadic (v1 * (1000000 # 1))
                  (m * 2 ^ 21 - 1) (-21) ltac:(lia) ltac:(lia)) as Hge.
    rewrite Hround in Hge. apply Hge. rewrite Ea. exact Hlo2. }
  rewrite Ea in Hlo3. rewrite Eb in Hhi3. rewrite Hround.
  destruct (trunc_between v2 (m - 1) (m + 1) ltac:(lia)) as [Ht1 Ht2].
  { unfold Zminus. rewrite inject_Z_plus. change (inject_Z (- (1))) with (- (1)).
    lra. }
  { rewrite inject_Z_plus. change (inject_Z 1) with 1. lra. }
  unfold to_int64, to_integer.
  replace ((- 2 ^ 63 <=? trunc v2) && (trunc v2 <=? 2 ^ 63 - 1)) with true.
  - exists (trunc v2). split; [reflexivity | lia].
  - symmetry. apply andb_true_intro. split; apply Z.leb_le; lia.
Qed.

Lemma round_half_even_eq q k : q == inject_Z k -> round_half_even q = k.
Proof.
  intros E. unfold round_half_even.
  assert (Hf : Qfloor q = k) by (rewrite E; apply Qfloor_Z).
  rewrite Hf.
  assert (Hc : (q - inject_Z k ?= 1 # 2) = Lt)
    by (apply (proj1 (Qlt_alt _ _)); lra).
  rewrite Hc. reflexivity.
Qed.

Lemma Qred_inject_Z n : Qred (inject_Z n) = inject_Z n.
Proof.
  unfold Qred, inject_Z.
  pose proof (Z.ggcd_gcd n 1) as Hg.
  pose proof (Z.ggcd_correct_divisors n 1) as Hd.
  destruct (Z.ggcd n 1) as [g [a b]]. cbn [fst snd] in *.
  rewrite Z.gcd_1_r in Hg. subst g. destruct Hd as [Ha Hb].
  assert (a = n) by lia. assert (b = 1%Z) by lia. subst a b. reflexivity.
Qed.

(** An integer below 2^53 in absolute value is a binary64 number:
    rounding it changes nothing, so [of_int] is the conversion of C. *)
Lemma round_positive_int n :
  (0 < n < 2 ^ 53)%Z -> round_positive (inject_Z n) = of_int n.
Proof.
  intros Hn.
  assert (Hq0 : 0 < inject_Z n)
    by (change 0 with (inject_Z 0); rewrite <- Zlt_Qlt; lia).
  assert (Hlog : (Qlog2 (inject_Z n) <= 52)%Z).
  { destruct (Z_le_gt_dec (Qlog2 (inject_Z n)) 52) as [Hle|Hgt]; [exact Hle|].
    exfalso. pose proof (Qlog2_lower _ Hq0) as Hlow.
    pose proof (pow2_le 53 (Qlog2 (inject_Z n)) ltac:(lia)) as Hmono.
    rewrite (pow2_Z 53) in Hmono by lia.
    assert (Hle : inject_Z (2 ^ 53) <= inject_Z n)
      by (apply Qle_trans with (y := pow2 (Qlog2 (inject_Z n))); assumption).
    rewrite <- Zle_Qle in Hle. lia. }
  unfold round_positive, of_int.
  set (e := Z.max (Qlog2 (inject_Z n)) (-1022)).
  assert (He : (e <= 52)%Z) by (unfold e; lia).
  set (ulp := pow2 (e - 52)).
  assert (Hulp : 0 < ulp) by apply pow2_pos.
  assert (HK : inject_Z (n * 2 ^ (52 - e)) * ulp == inject_Z n).
  { rewrite inject_Z_mult, <- (pow2_Z (52 - e)) by lia.
    rewrite <- Qmult_assoc. unfold ulp. rewrite <- pow2_add.
    replace (52 - e + (e - 52))%Z with 0%Z by lia.
    change (pow2 0) with 1. apply Qmult_1_r. }
  assert (Hdiv : inject_Z n / ulp == inject_Z (n * 2 ^ (52 - e))).
  { rewrite <- HK. field. intros E. rewrite E in Hulp. discriminate. }
  rewrite (round_half_even_eq _ _ Hdiv).
  assert (Hfin : Qle_bool (pow2 1024) (inject_Z (n * 2 ^ (52 - e)) * ulp)
                 = false).
  { destruct (Qle_bool (pow2 1024) _) eqn:Hover; [|reflexivity].
    apply Qle_bool_iff in Hover. rewrite HK in Hover. exfalso.
    pose proof (pow2_le 53 1024 ltac:(lia)) as Hmono.
    rewrite (pow2_Z 53) in Hmono by lia.
    assert (Hle : inject_Z (2 ^ 53) <= inject_Z n)
      by (apply Qle_trans with (y := pow2 1024); assumption).
    rewrite <- Zle_Qle in Hle. lia. }
  rewrite Hfin. f_equal. rewrite (Qred_complete _ _ HK). apply Qred_inject_Z.
Qed.

Lemma of_int_is_rounded n :
  (- 2 ^ 53 < n < 2 ^ 53)%Z -> round (inject_Z n) = of_int n.
Proof.
  intros Hn. unfold round.
  destruct (Z.compare_spec n 0) as [Hz|Hneg|Hpos].
  - subst n. reflexivity.
  - assert (Hc : (inject_Z n ?= 0) = Lt).
    { apply (proj1 (Qlt_alt _ _)). change 0 with (inject_Z 0).
      rewrite <- Zlt_Qlt. exact Hneg. }
    rewrite Hc. change (- inject_Z n) with (inject_Z (- n)).
    rewrite round_positive_int by lia. unfold opp, of_int.
    change (- inject_Z (- n)) with (inject_Z (- - n)).
    rewrite Z.opp_involutive, Qred_inject_Z. reflexivity.
  - assert (Hc : (inject_Z n ?= 0) = Gt).
    { apply (proj1 (Qgt_alt _ _)). change 0 with (inject_Z 0).
      rewrite <- Zlt_Qlt. exact Hpos. }
    rewrite Hc. apply round_positive_int. lia.
Qed.

End DoubleFacts.

(** ** Lockers: what a wait looks like *)

Section LockerShape.
Import Ctx Locker Notions LockerNotions.
Context {W : Type} `{LockEnv W} `{ResultCodes}.

Lemma lock_wait_loop_shape fuel :
  forall locker lock start_wait ctx (w : W) calls ret ctx' w' calls',
    lock_wait_loop fuel locker lock start_wait ctx w calls
    = Some (ret, ctx', w', calls') ->
    ret = MAPCACHE_FALSE /\
    exists n (released : bool) usec,
      (n <> O -> sleep_usec locker = Some usec)
      /\ calls' = calls ++ wait_calls usec lock n
                        ++ (if released then [CallRelease lock] else [])
      /\ (n = O -> released = true).
Proof.
  induction fuel as [|fuel IH];
    intros locker lock start_wait ctx w calls ret ctx' w' calls';
    cbn [lock_wait_loop]; [discriminate|].
  destruct (apr_time_now w) as [now w1].
  destruct (timed_out locker (waited_msec start_wait now)).
  - unfold mapcache_unlock_resource.
    destruct (release_lock locker lock ctx w1) as [[ctx2 w2]|]; [|discriminate].
    intros [= <- <- <- <-]. split; [reflexivity|].
    exists O, true, 0. split; [intros Hn; now destruct Hn|]. split; reflexivity.
  - destruct (sleep_usec locker) as [usec|] eqn:Husec; [|discriminate].
    destruct (ping_lock locker lock ctx (apr_sleep usec w1))
      as [[[rv ctx2] w2]|]; [|discriminate].
    assert (Hnext :
      lock_wait_loop fuel locker lock start_wait ctx2 w2
        (calls ++ [CallSleep usec; CallPing lock])
      = Some (ret, ctx', w', calls') ->
      ret = MAPCACHE_FALSE /\
      exists n (released : bool) usec',
        (n <> O -> Some usec = Some usec')
        /\ calls' = calls ++ wait_calls usec' lock n
                          ++ (if released then [CallRelease lock] else [])
        /\ (n = O -> released = true)).
    { intros Hrun. apply IH in Hrun.
      destruct Hrun as (Hret & n & released & usec' & Hs & Hcalls & _).
      split; [exact Hret|]. exists (S n), released, usec.
      split; [reflexivity|]. split; [|discriminate].
      rewrite Hcalls, <- app_assoc.
      destruct n as [|n]; [reflexivity|].
      specialize (Hs ltac:(discriminate)). rewrite Husec in Hs.
      injection Hs as <-. reflexivity. }
    destruct rv; [exact Hnext | exact Hnext |].
    intros [= <- <- <- <-]. split; [reflexivity|].
    exists 1%nat, false, usec.
    split; [reflexivity|]. split; [|discriminate]. reflexivity.
Qed.

(** X1.  Every call of [mapcache_lock_or_wait_for_resource] that
    returns has one of three shapes.  The acquire raised an error: the
    result is [MAPCACHE_FAILURE] and nothing else was called.  The
    acquire gave the lock: the result is [MAPCACHE_TRUE] and nothing else
    was called.  Otherwise the result is [MAPCACHE_FALSE] and the calls
    after the acquire are rounds of one sleep and one ping, optionally
    followed by one release, which is then the last call; when no round
    was made the release was.  Every sleep is of the same number of
    microseconds: the double product [retry_interval * 1000000],
    rounded as a double is, converted to a 64-bit integer.  In every
    case the token is the one the acquire left, and every ping and the
    release are made on it. *)
Theorem lock_or_wait_calls :
  forall fuel locker resource lock0 ctx (w : W) ret lock ctx' w' calls
         rv lock1 ctx1 w1,
    aquire_lock locker resource lock0 ctx w = Some (rv, lock1, ctx1, w1) ->
    mapcache_lock_or_wait_for_resource fuel locker resource lock0 ctx w
    = Some (ret, lock, ctx', w', calls) ->
    lock = lock1 /\
    ((GC_HAS_ERROR ctx1 = true /\ ret = MAPCACHE_FAILURE
      /\ calls = [CallAquire resource] /\ ctx' = ctx1 /\ w' = w1)
     \/ (GC_HAS_ERROR ctx1 = false /\ rv = MAPCACHE_LOCK_AQUIRED
         /\ ret = MAPCACHE_TRUE
         /\ calls = [CallAquire resource] /\ ctx' = ctx1 /\ w' = w1)
     \/ (GC_HAS_ERROR ctx1 = false /\ rv <> MAPCACHE_LOCK_AQUIRED
         /\ ret = MAPCACHE_FALSE
         /\ exists n (released : bool) usec,
              (n <> O ->
               Double.to_int64
                 (Double.mul (retry_interval (base_of locker))
                             (Double.of_int 1000000)) = Some usec)
              /\ calls = CallAquire resource
                           :: wait_calls usec lock n
                           ++ (if released then [CallRelease lock] else [])
              /\ (n = O -> released = true))).
Proof.
  intros fuel locker resource lock0 ctx w ret lock ctx' w' calls
         rv lock1 ctx1 w1 Haq.
  unfold mapcache_lock_or_wait_for_resource. rewrite Haq.
  destruct (GC_HAS_ERROR ctx1) eqn:Herr.
  - intros [= <- <- <- <- <-]. split; [reflexivity|]. left.
    repeat split; reflexivity.
  - assert (Hwait :
      (let '(start_wait, w2) := apr_time_now w1 in
       match lock_wait_loop fuel locker lock1 start_wait ctx1 w2
                            [CallAquire resource] with
       | Some (ret, ctx, w, calls) => Some (ret, lock1, ctx, w, calls)
       | None => None
       end) = Some (ret, lock, ctx', w', calls) ->
      lock = lock1 /\ ret = MAPCACHE_FALSE /\
      exists n (released : bool) usec,
        (n <> O -> sleep_usec locker = Some usec)
        /\ calls = CallAquire resource
                     :: wait_calls usec lock n
                     ++ (if released then [CallRelease lock] else [])
        /\ (n = O -> released = true)).
    { destruct (apr_time_now w1) as [start_wait w2].
      destruct (lock_wait_loop fuel locker lock1 start_wait ctx1 w2
                               [CallAquire resource])
        as [[[[ret2 ctx2] w3] calls2]|] eqn:Hloop; [|discriminate].
      intros [= <- <- <- <- <-].
      apply lock_wait_loop_shape in Hloop.
      destruct Hloop as (Hret & n & released & usec & Hs & Hcalls & Hn).
      split; [reflexivity|]. split; [exact Hret|].
      exists n, released, usec.
      split; [exact Hs|]. split; [exact Hcalls | exact Hn]. }
    destruct rv.
    + intros [= <- <- <- <- <-]. split; [reflexivity|]. right; left.
      repeat split; reflexivity.
    + intros Hrun. apply Hwait in Hrun. destruct Hrun as (Hl & Hret & Hex).
      split; [exact Hl|]. right; right.
      repeat split; [discriminate | exact Hret | exact Hex].
    + intros Hrun. apply Hwait in Hrun. destruct Hrun as (Hl & Hret & Hex).
      split; [exact Hl|]. right; right.
      repeat split; [discriminate | exact Hret | exact Hex].
Qed.

Lemma waited_msec_range start_wait now :
  0 <= waited_msec start_wait now <= 4294967295.
Proof.
  unfold waited_msec.
  pose proof (Z.mod_pos_bound (Z.quot (now - start_wait) 1000) (2 ^ 32)
                              ltac:(lia)) as Hb.
  change (2 ^ 32) with 4294967296 in *. lia.
Qed.

Lemma long_timeout_never_fires locker start_wait now :
  at_least (timeout (base_of locker)) (4294967295 # 1000) ->
  timed_out locker (waited_msec start_wait now) = false.
Proof.
  intros Hlong. unfold timed_out.
  pose proof (waited_msec_range start_wait now) as [_ Hhi].
  rewrite Zle_Qle in Hhi.
  destruct (timeout (base_of locker)) as [x|negative|];
    cbn [at_least] in Hlong; [| subst negative; reflexivity | destruct Hlong].
  assert (Hprod : (inject_Z 4294967295 <= x * inject_Z 1000)%Q).
  { apply Qle_trans with (y := ((4294967295 # 1000) * inject_Z 1000)%Q);
      [apply Qle_lteq; right; reflexivity|].
    apply Qmult_le_r; [reflexivity | exact Hlong]. }
  assert (Hpos : (x * inject_Z 1000 ?= 0)%Q = Gt).
  { apply Qgt_alt. apply Qlt_le_trans with (y := inject_Z 4294967295);
      [reflexivity | exact Hprod]. }
  unfold Double.mul, Double.of_int, Double.round. rewrite Hpos.
  pose proof (DoubleFacts.round_positive_ge (x * inject_Z 1000) 4294967295
                ltac:(lia) Hprod) as Hge.
  destruct (Double.round_positive (x * inject_Z 1000)) as [v|negative|];
    cbn [at_least] in Hge; [| subst negative; reflexivity | destruct Hge].
  cbn [Double.ltb]. apply negb_false_iff, Qle_bool_iff.
  apply Qle_trans with (y := inject_Z 4294967295); assumption.
Qed.

Lemma lock_wait_loop_long_timeout fuel :
  forall locker lock start_wait ctx (w : W) calls ret ctx' w' calls',
    at_least (timeout (base_of locker)) (4294967295 # 1000) ->
    lock_wait_loop fuel locker lock start_wait ctx w calls
    = Some (ret, ctx', w', calls') ->
    existsb is_release calls = false ->
    existsb is_release calls' = false.
Proof.
  induction fuel as [|fuel IH];
    intros locker lock start_wait ctx w calls ret ctx' w' calls' Hlong;
    cbn [lock_wait_loop]; [discriminate|].
  destruct (apr_time_now w) as [now w1].
  rewrite (long_timeout_never_fires locker start_wait now Hlong).
  destruct (sleep_usec locker) as [usec|]; [|discriminate].
  destruct (ping_lock locker lock ctx (apr_sleep usec w1))
    as [[[rv ctx2] w2]|]; [|discriminate].
  assert (Hnext :
    lock_wait_loop fuel locker lock start_wait ctx2 w2
      (calls ++ [CallSleep usec; CallPing lock])
    = Some (ret, ctx', w', calls') ->
    existsb is_release calls = false ->
    existsb is_release calls' = false).
  { intros Hrun Hcalls.
    apply IH in Hrun; [exact Hrun | exact Hlong |].
    rewrite existsb_app, Hcalls. reflexivity. }
  destruct rv; [exact Hnext | exact Hnext |].
  intros [= <- <- <- <-] Hcalls.
  rewrite existsb_app, Hcalls. reflexivity.
Qed.

(** X2.  The time waited is an unsigned 32-bit count of milliseconds,
    so it never exceeds 4294967295: with a timeout of 4294967.295
    seconds or more (plus infinity included) the timeout test never
    holds, and a call that returns has released nothing, whatever the
    clock says. *)
Theorem lock_or_wait_long_timeout_never_releases :
  forall fuel locker resource lock0 ctx (w : W) ret lock ctx' w' calls,
    at_least (timeout (base_of locker)) (4294967295 # 1000) ->
    mapcache_lock_or_wait_for_resource fuel locker resource lock0 ctx w
    = Some (ret, lock, ctx', w', calls) ->
    (forall start_wait now,
        timed_out locker (waited_msec start_wait now) = false)
    /\ existsb is_release calls = false.
Proof.
  intros fuel locker resource lock0 ctx w ret lock ctx' w' calls Hlong Hrun.
  split; [intros s n; apply long_timeout_never_fires; exact Hlong|].
  revert Hrun. unfold mapcache_lock_or_wait_for_resource.
  destruct (aquire_lock locker resource lock0 ctx w)
    as [[[[rv lock1] ctx1] w1]|]; [|discriminate].
  destruct (GC_HAS_ERROR ctx1); [intros [= <- <- <- <- <-]; reflexivity|].
  assert (Hwait :
    (let '(start_wait, w2) := apr_time_now w1 in
     match lock_wait_loop fuel locker lock1 start_wait ctx1 w2
                          [CallAquire resource] with
     | Some (ret, ctx, w, calls) => Some (ret, lock1, ctx, w, calls)
     | None => None
     end) = Some (ret, lock, ctx', w', calls) ->
    existsb is_release calls = false).
  { destruct (apr_time_now w1) as [start_wait w2].
    destruct (lock_wait_loop fuel locker lock1 start_wait ctx1 w2
                             [CallAquire resource])
      as [[[[ret2 ctx2] w3] calls2]|] eqn:Hloop; [|discriminate].
    intros [= <- <- <- <- <-].
    apply lock_wait_loop_long_timeout in Hloop; [exact Hloop|exact Hlong|reflexivity]. }
  destruct rv; [intros [= <- <- <- <- <-]; reflexivity | exact Hwait | exact Hwait].
Qed.

End LockerShape.

(** ** Lockers: results and tokens of an acquire *)

Section LockerTokens.
Import Ctx Locker Notions LockerNotions.
Context {W : Type} `{LockEnv W} `{ResultCodes}.

Lemma mapcache_locker_nested_ind (P : mapcache_locker -> Prop) :
  (forall base ldisk, P (LockerDisk base ldisk)) ->
  (forall base lm, P (LockerMemcache base lm)) ->
  (forall base lockers, Forall P lockers -> P (LockerFallback base lockers)) ->
  forall l, P l.
Proof.
  intros Hd Hm Hf. fix IH 1. intros [base ldisk|base lm|base lockers].
  - apply Hd.
  - apply Hm.
  - apply Hf. induction lockers as [|c rest IHl]; constructor.
    + apply IH.
    + exact IHl.
Qed.

Lemma has_children_fallback base lockers :
  has_children (LockerFallback base lockers)
  <-> lockers <> [] /\ Forall has_children lockers.
Proof.
  cbn [has_children]. split; intros [Hne Hall]; (split; [exact Hne|]);
    clear Hne; induction lockers as [|c rest IH].
  - constructor.
  - destruct Hall as [Hc Hrest]. constructor; [exact Hc | exact (IH Hrest)].
  - exact I.
  - inversion Hall; subst. split; [assumption | apply IH; assumption].
Qed.

Lemma clean_has_no_error ctx : err ctx = no_error -> GC_HAS_ERROR ctx = false.
Proof. unfold GC_HAS_ERROR. now intros ->. Qed.

(** What an acquire returns, from a context without error, for a locker
    whose fallback lockers all have children: [MAPCACHE_LOCK_NOENT]
    exactly when it raised an error, and otherwise a token on which the
    ping and the release of that locker are defined. *)
Lemma aquire_lock_sound :
  forall locker, has_children locker ->
    forall resource lock0 ctx (w : W) r tok ctx' w',
      err ctx = no_error ->
      aquire_lock locker resource lock0 ctx w = Some (r, tok, ctx', w') ->
      (r = MAPCACHE_LOCK_NOENT <-> GC_HAS_ERROR ctx' = true)
      /\ (GC_HAS_ERROR ctx' = false ->
          forall c (v : W),
            ping_lock locker tok c v <> None
            /\ release_lock locker tok c v <> None).
Proof.
  induction locker as [base ldisk|base lm|base lockers IH]
    using mapcache_locker_nested_ind;
    intros Hwf resource lock0 ctx w r tok ctx' w' Hclean.
  - cbn [aquire_lock]. unfold mapcache_locker_disk_aquire_lock.
    pose proof (clean_has_no_error ctx Hclean) as Hne.
    destruct (apr_file_open_excl (lock_filename_for_resource ldisk resource) w)
      as [rv w1].
    destruct (negb (apr_status_eqb rv APR_SUCCESS)).
    + destruct (negb (apr_status_eqb rv APR_EEXIST)).
      * intros [= <- <- <- <-]. split; [split; reflexivity|].
        intros Hno. discriminate Hno.
      * intros [= <- <- <- <-]. split.
        -- split; [discriminate | rewrite Hne; discriminate].
        -- intros _ c v. cbn.
           destruct (apr_stat (lock_filename_for_resource ldisk resource) v)
             as [rs vs].
           destruct (apr_status_eqb rs APR_ENOENT); split; discriminate.
    + intros [= <- <- <- <-]. split.
      * split; [discriminate | rewrite Hne; discriminate].
      * intros _ c v. cbn.
        destruct (apr_stat (lock_filename_for_resource ldisk resource) v)
          as [rs vs].
        destruct (apr_status_eqb rs APR_ENOENT); split; discriminate.
  - cbn [aquire_lock]. unfold mapcache_locker_memcache_aquire_lock.
    destruct (create_memcache lm ctx w) as [[memcache ctx1] w1] eqn:Hcreate.
    destruct (GC_HAS_ERROR ctx1) eqn:Herr.
    + intros [= <- <- <- <-]. split; [split; [intros _; exact Herr | reflexivity]|].
      intros Hno. congruence.
    + destruct memcache as [mc|].
      2:{ apply create_memcache_none in Hcreate. congruence. }
      destruct (Double.to_uint32 (timeout base)) as [expiry|]; [|discriminate].
      destruct (apr_memcache_add mc (memcache_key_for_resource lm resource) "1"
                                 expiry w1)
        as [rv w2].
      assert (Hdefined : forall c (v : W),
        ping_lock (LockerMemcache base lm)
          (lock_memcache (Some mc) (Some (memcache_key_for_resource lm resource)))
          c v <> None
        /\ release_lock (LockerMemcache base lm)
             (lock_memcache (Some mc) (Some (memcache_key_for_resource lm resource)))
             c v <> None).
      { intros c v. cbn. split.
        - destruct (apr_memcache_getp mc (memcache_key_for_resource lm resource) v)
            as [rg vg].
          destruct (apr_status_eqb rg APR_SUCCESS); discriminate.
        - destruct (apr_memcache_delete mc (memcache_key_for_resource lm resource) v)
            as [rd vd].
          destruct (negb (apr_status_eqb rd APR_SUCCESS)
                    && negb (apr_status_eqb rd APR_NOTFOUND)); discriminate. }
      destruct (apr_status_eqb rv APR_SUCCESS).
      * intros [= <- <- <- <-]. split.
        -- split; [discriminate | rewrite Herr; discriminate].
        -- intros _. exact Hdefined.
      * destruct (apr_status_eqb rv APR_EEXIST).
        -- intros [= <- <- <- <-]. split.
           ++ split; [discriminate | rewrite Herr; discriminate].
           ++ intros _. exact Hdefined.
        -- intros [= <- <- <- <-]. split; [split; reflexivity|].
           intros Hno. discriminate Hno.
  - apply has_children_fallback in Hwf. destruct Hwf as [Hne Hall].
    cbn [aquire_lock]. intros Hrun.
    apply fallback_children_cases in Hrun; [|exact Hclean].
    destruct Hrun as [(Hnil & _) | [Hwin | Hlose]].
    + contradiction.
    + destruct Hwin as (pre & child & post & inner1 & ctx1 & w1 & token
                        & Hsplit & _ & Hclean1 & Haq & Herr & Htok).
      assert (Hin : In child lockers)
        by (rewrite Hsplit; apply in_or_app; right; left; reflexivity).
      rewrite List.Forall_forall in IH, Hall.
      destruct (IH child Hin (Hall child Hin) resource inner1 ctx1 w1 r token
                   ctx' w' Hclean1 Haq) as [Hiff Hdef].
      split.
      * split; [intros Hr; apply Hiff in Hr; congruence | congruence].
      * intros _ c v. subst tok. exact (Hdef Herr c v).
    + destruct Hlose as (pre & last & inner1 & ctx1 & w1 & r_last & token
                         & _ & _ & _ & _ & Herr & Hr & _).
      split; [split; [intros _; exact Herr | intros _; exact Hr]|].
      intros Hno. congruence.
Qed.

(** X3.  For a locker whose fallback lockers all have children, and
    from a context without error, the acquire returns
    [MAPCACHE_LOCK_NOENT] exactly when it raised an error: a result
    without error is [MAPCACHE_LOCK_AQUIRED] or [MAPCACHE_LOCK_LOCKED],
    so the wait loop of [lock_or_wait] is only entered on a lock that
    is held. *)
Theorem aquire_noent_iff_error :
  forall locker resource lock0 ctx (w : W) r tok ctx' w',
    has_children locker ->
    err ctx = no_error ->
    aquire_lock locker resource lock0 ctx w = Some (r, tok, ctx', w') ->
    (r = MAPCACHE_LOCK_NOENT <-> GC_HAS_ERROR ctx' = true).
Proof.
  intros locker resource lock0 ctx w r tok ctx' w' Hwf Hclean Hrun.
  exact (proj1 (aquire_lock_sound locker Hwf resource lock0 ctx w r tok ctx' w'
                                  Hclean Hrun)).
Qed.

(** X4.  For such a locker, the token an acquire without error leaves
    is of the kind the locker's ping and release expect, at every level
    of a fallback locker: neither of them reads a token of another
    locker or a NULL locker pointer. *)
Theorem aquire_token_fits_locker :
  forall locker resource lock0 ctx (w : W) r tok ctx' w',
    has_children locker ->
    err ctx = no_error ->
    aquire_lock locker resource lock0 ctx w = Some (r, tok, ctx', w') ->
    GC_HAS_ERROR ctx' = false ->
    forall c (v : W),
      ping_lock locker tok c v <> None /\ release_lock locker tok c v <> None.
Proof.
  intros locker resource lock0 ctx w r tok ctx' w' Hwf Hclean Hrun.
  exact (proj2 (aquire_lock_sound locker Hwf resource lock0 ctx w r tok ctx' w'
                                  Hclean Hrun)).
Qed.

(** X5.  A fallback locker without children: the acquire touches
    nothing, raises no error and returns [MAPCACHE_LOCK_NOENT] with a
    token that names no locker; ping and release on that token go
    through a NULL locker pointer, so that [lock_or_wait], which then
    pings or releases, has no defined result. *)
Theorem fallback_without_children_is_undefined :
  forall base resource lock0 ctx (w : W),
    aquire_lock (LockerFallback base []) resource lock0 ctx w
    = Some (MAPCACHE_LOCK_NOENT, lock_fallback None lock_null, ctx, w)
    /\ (forall c (v : W),
           ping_lock (LockerFallback base []) (lock_fallback None lock_null) c v
           = None
           /\ release_lock (LockerFallback base [])
                           (lock_fallback None lock_null) c v
              = None)
    /\ (GC_HAS_ERROR ctx = false ->
        forall fuel,
          mapcache_lock_or_wait_for_resource fuel (LockerFallback base [])
                                             resource lock0 ctx w
          = None).
Proof.
  intros base resource lock0 ctx w. split; [reflexivity|]. split.
  - intros c v. split; reflexivity.
  - intros Hno fuel. unfold mapcache_lock_or_wait_for_resource.
    cbn [aquire_lock fallback_children_aquire]. rewrite Hno.
    destruct (apr_time_now w) as [start_wait w2].
    destruct fuel as [|fuel]; [reflexivity|].
    cbn [lock_wait_loop]. destruct (apr_time_now w2) as [now w3].
    destruct (timed_out (LockerFallback base []) (waited_msec start_wait now));
      [reflexivity|].
    destruct (sleep_usec (LockerFallback base [])); reflexivity.
Qed.

End LockerTokens.

Section LockerShapeRuns.
Import Ctx Locker Notions LockerNotions Sim Scenario ConfigScenario.

(** X1 on a lock file that is never removed: rounds of sleep and ping,
    then the release. *)
Lemma lock_or_wait_calls_witness :
  exists ret lock ctx' w' calls,
    mapcache_lock_or_wait_for_resource 10 a_disk_locker "r" lock_null
                                       new_context stale_world
    = Some (ret, lock, ctx', w', calls)
    /\ lock = lock_disk r_lock_file
    /\ ret = MAPCACHE_FALSE
    /\ last calls = Some (CallRelease lock).
Proof.
  eassert (Haq : aquire_lock a_disk_locker "r" lock_null new_context stale_world
                 = Some (_, _, _, _)) by (vm_compute; reflexivity).
  eassert (Hrun : mapcache_lock_or_wait_for_resource 10 a_disk_locker "r"
                    lock_null new_context stale_world
                  = Some (_, _, _, _, _)) by (vm_compute; reflexivity).
  do 5 eexists. split; [exact Hrun|].
  destruct (lock_or_wait_calls _ _ _ _ _ _ _ _ _ _ _ _ _ _ _ Haq Hrun)
    as [Hlock Hshape].
  split; [exact Hlock|]. split; vm_compute; reflexivity.
Defined.

(** X2 on a lock file that its holder removes after 0.15 seconds. *)
Lemma lock_or_wait_long_timeout_never_releases_witness :
  exists ret lock ctx' w' calls,
    mapcache_lock_or_wait_for_resource 10 a_patient_locker "r" lock_null
                                       new_context busy_world
    = Some (ret, lock, ctx', w', calls)
    /\ existsb is_release calls = false.
Proof.
  eassert (Hrun : mapcache_lock_or_wait_for_resource 10 a_patient_locker "r"
                    lock_null new_context busy_world
                  = Some (_, _, _, _, _)) by (vm_compute; reflexivity).
  do 5 eexists. split; [exact Hrun|].
  refine (proj2 (lock_or_wait_long_timeout_never_releases
                   _ _ _ _ _ _ _ _ _ _ _ _ Hrun)).
  vm_compute. discriminate.
Defined.

(** X3 on a fallback locker whose memcache servers cannot be reached:
    the disk locker gives the lock and no error is left. *)
Lemma aquire_noent_iff_error_witness :
  exists r tok ctx' w',
    aquire_lock a_fallback_locker "r" lock_null new_context mc_down_world
    = Some (r, tok, ctx', w')
    /\ (r = MAPCACHE_LOCK_NOENT <-> GC_HAS_ERROR ctx' = true)
    /\ r = MAPCACHE_LOCK_AQUIRED.
Proof.
  eassert (Haq : aquire_lock a_fallback_locker "r" lock_null new_context
                             mc_down_world
                 = Some (_, _, _, _)) by (vm_compute; reflexivity).
  do 4 eexists. split; [exact Haq|]. split; [|reflexivity].
  refine (aquire_noent_iff_error _ _ _ new_context _ _ _ _ _ _ eq_refl Haq).
  cbn. repeat split; discriminate.
Defined.

(** X4 on the same run: the token of the fallback locker can be pinged
    and released. *)
Lemma aquire_token_fits_locker_witness :
  exists r tok ctx' w',
    aquire_lock a_fallback_locker "r" lock_null new_context mc_down_world
    = Some (r, tok, ctx', w')
    /\ ping_lock a_fallback_locker tok ctx' w' <> None
    /\ release_lock a_fallback_locker tok ctx' w' <> None.
Proof.
  eassert (Haq : aquire_lock a_fallback_locker "r" lock_null new_context
                             mc_down_world
                 = Some (_, _, _, _)) by (vm_compute; reflexivity).
  do 4 eexists. split; [exact Haq|].
  refine (aquire_token_fits_locker _ _ _ new_context _ _ _ _ _ _ eq_refl Haq eq_refl _ _).
  cbn. repeat split; discriminate.
Defined.

End LockerShapeRuns.

(** ** Locker configuration *)

Section LockerConfigFacts.
Import Ctx Locker Ezxml Libc LockerConfig LockerNotions.
Context `{LibC}.
Variable USE_MEMCACHE : bool.

Lemma ezxml_nested_ind (P : ezxml -> Prop) :
  (forall n a t children, Forall P children -> P (Tag n a t children)) ->
  forall xml, P xml.
Proof.
  intros Htag. fix IH 1. intros [n a t children]. apply Htag.
  induction children as [|c rest IHc]; constructor.
  - apply IH.
  - exact IHc.
Qed.

Lemma has_error_400 m ctx : GC_HAS_ERROR (set_error 400 m ctx) = true.
Proof. reflexivity. Qed.

Lemma positive_of_test (v : Double.double) :
  Double.leb v (Double.of_int 0) = false -> positive_or_nan v.
Proof.
  destruct v as [q|negative|]; cbn [Double.leb Double.of_int positive_or_nan].
  - intros Htest. apply Qnot_le_lt. intros Hle.
    apply Qle_bool_iff in Hle. change (inject_Z 0) with 0%Q in Htest.
    congruence.
  - intros Htest. exact Htest.
  - intros _. exact I.
Qed.

Lemma literal_0_1_value :
  literal_0_1 = Double.Finite (3602879701896397 # 36028797018963968).
Proof. vm_compute. reflexivity. Qed.

Lemma literal_0_1_positive : positive_or_nan literal_0_1.
Proof. rewrite literal_0_1_value. reflexivity. Qed.

Lemma timeout_120_positive : positive_or_nan (Double.of_int 120).
Proof. reflexivity. Qed.

Lemma timings_positive_unfold l :
  timings_positive_or_nan l
  <-> positive_or_nan (timeout (base_of l))
      /\ positive_or_nan (retry_interval (base_of l))
      /\ Forall timings_positive_or_nan (children_of l).
Proof.
  destruct l as [b d|b m|b lockers];
    cbn [timings_positive_or_nan children_of base_of].
  - split; intros (Ht & Hr & _); repeat split; try assumption. constructor.
  - split; intros (Ht & Hr & _); repeat split; try assumption. constructor.
  - split; intros (Ht & Hr & Hall); (split; [exact Ht|]); (split; [exact Hr|]);
      clear Ht Hr; induction lockers as [|c rest IH].
    + constructor.
    + destruct Hall as [Hc Hrest]. constructor; [exact Hc | exact (IH Hrest)].
    + exact I.
    + inversion Hall; subst. split; [assumption | apply IH; assumption].
Qed.

Lemma children_of_set_timeout v l : children_of (set_timeout v l) = children_of l.
Proof. destruct l; reflexivity. Qed.

Lemma children_of_set_retry v l :
  children_of (set_retry_interval v l) = children_of l.
Proof. destruct l; reflexivity. Qed.

Lemma base_of_set_timeout v l :
  base_of (set_timeout v l) = LockerBase v (retry_interval (base_of l)).
Proof. destruct l; reflexivity. Qed.

Lemma base_of_set_retry v l :
  base_of (set_retry_interval v l) = LockerBase (timeout (base_of l)) v.
Proof. destruct l; reflexivity. Qed.

(** The [<retry>] and [<timeout>] step, when it leaves no error. *)
Lemma parse_retry_timeout_clean node locker ctx ctx' locker' :
  parse_retry_timeout node locker ctx = (ctx', locker') ->
  GC_HAS_ERROR ctx' = false ->
  ctx' = ctx
  /\ children_of locker' = children_of locker
  /\ positive_or_nan (timeout (base_of locker'))
  /\ positive_or_nan (retry_interval (base_of locker'))
  /\ (ezxml_child node "retry" = None ->
      retry_interval (base_of locker') = literal_0_1)
  /\ (ezxml_child node "timeout" = None ->
      timeout (base_of locker') = Double.of_int 120).
Proof.
  unfold parse_retry_timeout.
  destruct (ezxml_child node "retry") as [rnode|].
  - destruct (strtod (txt rnode)) as [rv rend].
    destruct (negb (at_end rend)) eqn:Hrend; cbn [orb].
    + intros [= <- <-] Herr. rewrite has_error_400 in Herr. discriminate.
    + destruct (Double.leb rv (Double.of_int 0)) eqn:Hrv.
      * intros [= <- <-] Herr. rewrite has_error_400 in Herr. discriminate.
      * apply positive_of_test in Hrv.
        destruct (ezxml_child node "timeout") as [tnode|].
        -- destruct (strtod (txt tnode)) as [tv tend].
           destruct (negb (at_end tend)); cbn [orb].
           ++ intros [= <- <-] Herr. rewrite has_error_400 in Herr. discriminate.
           ++ destruct (Double.leb tv (Double.of_int 0)) eqn:Htv.
              ** intros [= <- <-] Herr. rewrite has_error_400 in Herr.
                 discriminate.
              ** apply positive_of_test in Htv. intros [= <- <-] _.
                 rewrite children_of_set_timeout, children_of_set_retry,
                   base_of_set_timeout, base_of_set_retry.
                 cbn [timeout retry_interval].
                 repeat split; try assumption; discriminate.
        -- intros [= <- <-] _.
           rewrite children_of_set_timeout, children_of_set_retry,
             base_of_set_timeout, base_of_set_retry.
           cbn [timeout retry_interval].
           repeat split; try assumption; try discriminate;
             try reflexivity; apply timeout_120_positive.
  - destruct (ezxml_child node "timeout") as [tnode|].
    + destruct (strtod (txt tnode)) as [tv tend].
      destruct (negb (at_end tend)); cbn [orb].
      * intros [= <- <-] Herr. rewrite has_error_400 in Herr. discriminate.
      * destruct (Double.leb tv (Double.of_int 0)) eqn:Htv.
        -- intros [= <- <-] Herr. rewrite has_error_400 in Herr. discriminate.
        -- apply positive_of_test in Htv. intros [= <- <-] _.
           rewrite children_of_set_timeout, children_of_set_retry,
             base_of_set_timeout, base_of_set_retry.
           cbn [timeout retry_interval].
           repeat split; try assumption; try discriminate;
             try reflexivity; apply literal_0_1_positive.
    + intros [= <- <-] _.
      rewrite children_of_set_timeout, children_of_set_retry,
        base_of_set_timeout, base_of_set_retry.
      cbn [timeout retry_interval].
      split; [reflexivity|]. split; [reflexivity|].
      split; [apply timeout_120_positive|].
      split; [apply literal_0_1_positive|]. split; reflexivity.
Qed.

(** The memcache servers loop, when it leaves no error. *)
Lemma memcache_parse_servers_clean server_nodes :
  forall servers ctx returned servers' ctx',
    memcache_parse_servers server_nodes servers ctx
    = (returned, servers', ctx') ->
    GC_HAS_ERROR ctx' = false ->
    ctx' = ctx /\ returned = false
    /\ exists added,
         servers' = servers ++ added
         /\ Forall2
              server_read
              server_nodes added.
Proof.
  induction server_nodes as [|server_node rest IH];
    intros servers ctx returned servers' ctx'; cbn [memcache_parse_servers].
  - intros [= <- <- <-] _. repeat split. exists []. split.
    + now rewrite app_nil_r.
    + constructor.
  - destruct (ezxml_child server_node "host") as [hnode|] eqn:Hhost.
    2:{ intros [= <- <- <-] Herr. rewrite has_error_400 in Herr. discriminate. }
    destruct (ezxml_child server_node "port") as [pnode|] eqn:Hport.
    + destruct (strtol (txt pnode)) as [v endptr] eqn:Hparse.
      destruct (negb (at_end endptr)) eqn:Hend; cbn [orb].
      { intros [= <- <- <-] Herr. rewrite has_error_400 in Herr. discriminate. }
      destruct (to_int32 (to_uint32 v) <=? 0) eqn:Hpos.
      { intros [= <- <- <-] Herr. rewrite has_error_400 in Herr. discriminate. }
      intros Hrun Herr. apply IH in Hrun; [|exact Herr].
      destruct Hrun as (Hctx & Hret & added & Hservers & Hall).
      split; [exact Hctx|]. split; [exact Hret|].
      exists (MemcacheServer (txt hnode) (to_int32 (to_uint32 v)) :: added).
      split; [rewrite Hservers, <- app_assoc; reflexivity|].
      constructor; [|exact Hall].
      unfold server_read. cbn [host port]. rewrite Hport, Hparse. apply Z.leb_gt in Hpos.
      split; [exists hnode; split; [exact Hhost | reflexivity]|].
      assert (Hrange : to_int32 (to_uint32 v) < 2147483648).
      { unfold to_int32.
        pose proof (Z.mod_pos_bound (to_uint32 v + 2 ^ 31) (2 ^ 32) ltac:(lia)).
        change (2 ^ 31) with 2147483648 in *.
        change (2 ^ 32) with 4294967296 in *. lia. }
      split; [lia|]. split.
      * destruct endptr; [reflexivity | discriminate].
      * cbn [fst]. unfold to_int32, to_uint32.
        change (2 ^ 31) with 2147483648.
        change (2 ^ 32) with 4294967296.
        rewrite Zminus_mod_idemp_l.
        replace (v mod 4294967296 + 2147483648 - 2147483648)
          with (v mod 4294967296) by lia.
        apply Z.mod_mod. lia.
    + intros Hrun Herr. apply IH in Hrun; [|exact Herr].
      destruct Hrun as (Hctx & Hret & added & Hservers & Hall).
      split; [exact Hctx|]. split; [exact Hret|].
      exists (MemcacheServer (txt hnode) 11211 :: added).
      split; [rewrite Hservers, <- app_assoc; reflexivity|].
      constructor; [|exact Hall].
      unfold server_read. cbn [host port]. rewrite Hport.
      split; [exists hnode; split; [exact Hhost | reflexivity]|].
      split; [lia | reflexivity].
Qed.

(** The memcache locker configuration, when it is read without error,
    leaves the context as it was. *)
Lemma memcache_parse_xml_ctx :
  forall lm doc ctx lm' ctx',
    mapcache_locker_memcache_parse_xml lm doc ctx = (lm', ctx') ->
    GC_HAS_ERROR ctx' = false ->
    ctx' = ctx.
Proof.
  intros lm doc ctx lm' ctx'. unfold mapcache_locker_memcache_parse_xml.
  destruct (memcache_parse_servers (ezxml_children doc "server") [] ctx)
    as [[returned servers'] ctx1] eqn:Hloop.
  destruct returned.
  - intros [= <- <-] Herr.
    destruct (memcache_parse_servers_clean _ _ _ _ _ _ Hloop Herr)
      as (_ & Hret & _). discriminate.
  - destruct (ezxml_child doc "key_prefix") as [knode|];
      intros [= <- <-] Herr;
      destruct (memcache_parse_servers_clean _ _ _ _ _ _ Hloop Herr)
        as (Hctx & _); exact Hctx.
Qed.

(** X6.  A memcache locker configuration that is read without error
    has one server for each [<server>] tag, in document order: its host
    is the text of [<host>], its port is 11211 without a [<port>] tag,
    and otherwise the number read by [strtol] from a text that was read
    to its end, taken modulo 2^32 into the range 1 .. 2^31-1 (no upper
    bound of 65535 is applied, and 4294967297 is read as port 1); the
    key prefix is the text of [<key_prefix>], if that tag is there. *)
Theorem memcache_locker_parsed_servers :
  forall lm doc ctx lm' ctx',
    mapcache_locker_memcache_parse_xml lm doc ctx = (lm', ctx') ->
    GC_HAS_ERROR ctx' = false ->
    ctx' = ctx
    /\ Forall2
         server_read
         (ezxml_children doc "server") (servers lm')
    /\ key_prefix lm'
       = match ezxml_child doc "key_prefix" with
         | Some node => Some (txt node)
         | None => key_prefix lm
         end.
Proof.
  intros lm doc ctx lm' ctx'. unfold mapcache_locker_memcache_parse_xml.
  destruct (memcache_parse_servers (ezxml_children doc "server") [] ctx)
    as [[returned servers'] ctx1] eqn:Hloop.
  assert (Hclean : GC_HAS_ERROR ctx1 = false ->
                   ctx1 = ctx /\ returned = false
                   /\ Forall2 server_read (ezxml_children doc "server") servers').
  { intros Herr.
    destruct (memcache_parse_servers_clean _ _ _ _ _ _ Hloop Herr)
      as (Hctx & Hret & added & Hservers & Hall).
    cbn [app] in Hservers. subst servers'.
    split; [exact Hctx|]. split; [exact Hret | exact Hall]. }
  destruct returned.
  - intros [= <- <-] Herr. destruct (Hclean Herr) as (_ & Hret & _).
    discriminate.
  - destruct (ezxml_child doc "key_prefix") as [knode|];
      intros [= <- <-] Herr; destruct (Hclean Herr) as (Hctx & _ & Hall);
      (split; [exact Hctx|]); (split; [exact Hall | reflexivity]).
Qed.

(** The loop over the child lockers of a fallback locker, when it
    leaves no error and every child tag satisfies [P]. *)
Lemma fallback_parse_lockers_clean (P : ezxml -> Prop) (children : list ezxml) :
  (forall xml, P xml ->
     forall ctx ctx' l,
       mapcache_config_parse_locker USE_MEMCACHE xml ctx = (ctx', l) ->
       GC_HAS_ERROR ctx' = false ->
       ctx' = ctx /\ exists locker, l = Some locker /\ timings_positive_or_nan locker) ->
  Forall P children ->
  forall lockers ctx lockers' ctx',
    fallback_parse_lockers (mapcache_config_parse_locker USE_MEMCACHE)
                           children lockers ctx
    = (lockers', ctx') ->
    GC_HAS_ERROR ctx' = false ->
    ctx' = ctx
    /\ exists added,
         lockers' = lockers ++ added /\ Forall timings_positive_or_nan added
         /\ length added = length (List.filter
                                     (fun c => String.eqb (name c) "locker")
                                     children).
Proof.
  intros HP.
  induction 1 as [|xml rest Hxml _ IH]; intros lockers ctx lockers' ctx';
    cbn [fallback_parse_lockers List.filter].
  - intros [= <- <-] _. split; [reflexivity|]. exists []. split.
    + now rewrite app_nil_r.
    + split; [constructor | reflexivity].
  - destruct (String.eqb (name xml) "locker").
    + destruct (mapcache_config_parse_locker USE_MEMCACHE xml ctx)
        as [ctx1 child_locker] eqn:Hchild.
      destruct (GC_HAS_ERROR ctx1) eqn:Herr1.
      { intros [= <- <-] Herr. congruence. }
      destruct (HP _ Hxml _ _ _ Hchild Herr1) as (Hctx1 & locker & Hsome & Hpos).
      subst child_locker ctx1.
      intros Hrun Herr. apply IH in Hrun; [|exact Herr].
      destruct Hrun as (Hctx & added & Hlockers & Hall & Hlen).
      split; [exact Hctx|]. exists (locker :: added). split.
      * rewrite Hlockers, <- app_assoc. reflexivity.
      * split; [constructor; assumption | cbn [length]; now rewrite Hlen].
    + apply IH.
Qed.

Lemma parse_locker_clean :
  forall node ctx ctx' l,
    mapcache_config_parse_locker USE_MEMCACHE node ctx = (ctx', l) ->
    GC_HAS_ERROR ctx' = false ->
    ctx' = ctx
    /\ exists locker,
         l = Some locker /\ timings_positive_or_nan locker
         /\ (ezxml_child node "retry" = None ->
             retry_interval (base_of locker) = literal_0_1)
         /\ (ezxml_child node "timeout" = None ->
             timeout (base_of locker) = Double.of_int 120)
         /\ length (children_of locker)
            = (if match ezxml_attr node "type" with
                  | Some t => String.eqb t "fallback"
                  | None => false
                  end
               then length (ezxml_children node "locker") else 0%nat).
Proof.
  induction node as [n a t children IH] using ezxml_nested_ind.
  intros ctx ctx' l. cbn [mapcache_config_parse_locker].
  set (node := Tag n a t children).
  assert (Hfinish : forall locker0 ctx0,
    (let '(ctx, locker) := parse_retry_timeout node locker0 ctx0 in
     (ctx, Some locker)) = (ctx', l) ->
    GC_HAS_ERROR ctx' = false ->
    Forall timings_positive_or_nan (children_of locker0) ->
    ctx' = ctx0
    /\ exists locker,
         l = Some locker /\ timings_positive_or_nan locker
         /\ (ezxml_child node "retry" = None ->
             retry_interval (base_of locker) = literal_0_1)
         /\ (ezxml_child node "timeout" = None ->
             timeout (base_of locker) = Double.of_int 120)
         /\ children_of locker = children_of locker0).
  { intros locker0 ctx0.
    destruct (parse_retry_timeout node locker0 ctx0) as [ctx1 locker1] eqn:Hrt.
    intros [= <- <-] Herr Hchildren.
    destruct (parse_retry_timeout_clean _ _ _ _ _ Hrt Herr)
      as (Hctx & Hsame & Ht & Hr & Hdr & Hdt).
    split; [exact Hctx|]. exists locker1. split; [reflexivity|].
    split; [|split; [exact Hdr | split; [exact Hdt | exact Hsame]]].
    apply timings_positive_unfold. rewrite Hsame.
    split; [exact Ht | split; [exact Hr | exact Hchildren]]. }
  destruct (ezxml_attr node "type") as [ltype|] eqn:Htype.
  2:{ cbn [String.eqb Ascii.eqb Bool.eqb]. cbn.
      intros Hrun Herr.
      destruct (Hfinish _ _ Hrun Herr ltac:(constructor))
        as (Hctx & locker & Hl & Hpos & Hdr & Hdt & Hch).
      split; [exact Hctx|]. exists locker.
      repeat split; try assumption. rewrite Hch. reflexivity. }
  destruct (String.eqb ltype "disk") eqn:Hdisk.
  { apply String.eqb_eq in Hdisk. subst ltype. cbn [String.eqb Ascii.eqb Bool.eqb].
    intros Hrun Herr.
    destruct (Hfinish _ _ Hrun Herr ltac:(constructor))
      as (Hctx & locker & Hl & Hpos & Hdr & Hdt & Hch).
    split; [exact Hctx|]. exists locker.
    repeat split; try assumption. rewrite Hch. reflexivity. }
  destruct (String.eqb ltype "fallback") eqn:Hfallback.
  { destruct (fallback_parse_lockers (mapcache_config_parse_locker USE_MEMCACHE)
                                     children [] ctx)
      as [lockers ctx1] eqn:Hloop.
    intros Hrun Herr.
    assert (Herr1 : GC_HAS_ERROR ctx1 = false).
    { destruct (parse_retry_timeout node (LockerFallback pcalloc_base lockers)
                                    ctx1) as [ctx2 locker2] eqn:Hrt.
      injection Hrun as <- <-.
      destruct (parse_retry_timeout_clean _ _ _ _ _ Hrt Herr) as (-> & _).
      exact Herr. }
    pose proof (fun HP => fallback_parse_lockers_clean _ children HP IH
                            _ _ _ _ Hloop Herr1) as Hchildren.
    destruct Hchildren as (Hctx1 & added & Hlockers & Hall & Hlen).
    { intros xml Hxml c c' l0 Hp He.
      destruct (Hxml c c' l0 Hp He) as (Hc & locker & Hl & Hpos & _).
      split; [exact Hc|]. exists locker. split; assumption. }
    cbn [app] in Hlockers. subst lockers.
    destruct (Hfinish _ _ Hrun Herr Hall)
      as (Hctx & locker & Hl & Hpos & Hdr & Hdt & Hch).
    split; [congruence|]. exists locker.
    repeat split; try assumption. rewrite Hch. cbn [children_of].
    exact Hlen. }
  destruct (String.eqb ltype "memcache") eqn:Hmemcache.
  { destruct USE_MEMCACHE.
    - destruct (mapcache_locker_memcache_parse_xml (LockerMemcacheCfg [] None)
                                                   node ctx)
        as [lm ctx1] eqn:Hlm.
      intros Hrun Herr.
      assert (Herr1 : GC_HAS_ERROR ctx1 = false).
      { destruct (parse_retry_timeout node (LockerMemcache pcalloc_base lm) ctx1)
          as [ctx2 locker2] eqn:Hrt.
        injection Hrun as <- <-.
        destruct (parse_retry_timeout_clean _ _ _ _ _ Hrt Herr) as (-> & _).
        exact Herr. }
      pose proof (memcache_parse_xml_ctx _ _ _ _ _ Hlm Herr1) as Hctx1.
      destruct (Hfinish _ _ Hrun Herr ltac:(constructor))
        as (Hctx & locker & Hl & Hpos & Hdr & Hdt & Hch).
      split; [congruence|]. exists locker.
      repeat split; try assumption. rewrite Hch. reflexivity.
    - intros [= <- <-] Herr. rewrite has_error_400 in Herr. discriminate. }
  intros [= <- <-] Herr. rewrite has_error_400 in Herr. discriminate.
Qed.

(** X7.  A locker read from a [<locker>] tag without error leaves
    the context as it was, and every locker in the result, the children
    of fallback lockers included at every depth, has a timeout and a
    retry interval that the test [<= 0] lets through: a positive
    number, plus infinity, or a NaN, which compares false with
    everything.  Without a [<retry>] tag the retry interval is the
    double of the literal [0.1], the binary64 number nearest to 1/10,
    and the wait loop sleeps 100000 microseconds; without a [<timeout>]
    tag the timeout is 120 seconds. *)
Theorem parsed_locker_timings :
  forall node ctx ctx' l,
    mapcache_config_parse_locker USE_MEMCACHE node ctx = (ctx', l) ->
    GC_HAS_ERROR ctx' = false ->
    ctx' = ctx
    /\ exists locker,
         l = Some locker /\ timings_positive_or_nan locker
         /\ (ezxml_child node "retry" = None ->
             retry_interval (base_of locker) = Double.round (1 # 10)
             /\ sleep_usec locker = Some 100000)
         /\ (ezxml_child node "timeout" = None ->
             timeout (base_of locker) = Double.of_int 120).
Proof.
  intros node ctx ctx' l Hrun Herr.
  destruct (parse_locker_clean node ctx ctx' l Hrun Herr)
    as (Hctx & locker & Hl & Hpos & Hdr & Hdt & _).
  split; [exact Hctx|]. exists locker.
  split; [exact Hl|]. split; [exact Hpos|]. split; [|exact Hdt].
  intros Hnone. split; [exact (Hdr Hnone)|].
  unfold sleep_usec. rewrite (Hdr Hnone), literal_0_1_value.
  vm_compute. reflexivity.
Qed.

Lemma fallback_parse_lockers_none parse (children : list ezxml) :
  List.filter (fun c => String.eqb (name c) "locker") children = [] ->
  forall lockers ctx,
    fallback_parse_lockers parse children lockers ctx = (lockers, ctx).
Proof.
  induction children as [|c rest IH]; intros Hnone lockers ctx;
    cbn [fallback_parse_lockers]; [reflexivity|].
  cbn [List.filter] in Hnone.
  destruct (String.eqb (name c) "locker"); [discriminate|].
  apply IH. exact Hnone.
Qed.

(** X8.  Nothing rejects a fallback locker without children: a
    [<locker type="fallback">] tag that has no [<locker>] tag in it is
    read as a fallback locker with an empty list of children, and
    without a [<retry>] and a [<timeout>] tag it is read without any
    error. *)
Theorem fallback_without_children_is_accepted :
  forall node ctx ctx' l,
    ezxml_attr node "type" = Some "fallback"%string ->
    ezxml_children node "locker" = [] ->
    mapcache_config_parse_locker USE_MEMCACHE node ctx = (ctx', l) ->
    (exists base, l = Some (LockerFallback base []))
    /\ (ezxml_child node "retry" = None ->
        ezxml_child node "timeout" = None ->
        ctx' = ctx
        /\ l = Some (LockerFallback
                       (LockerBase (Double.of_int 120) (Double.round (1 # 10)))
                       [])).
Proof.
  intros [n a t children] ctx ctx' l Htype Hnone.
  cbn [mapcache_config_parse_locker]. rewrite Htype.
  cbn [String.eqb Ascii.eqb Bool.eqb]. cbn match.
  unfold ezxml_children in Hnone. cbn [child] in Hnone.
  rewrite (fallback_parse_lockers_none _ children Hnone).
  set (node := Tag n a t children).
  destruct (parse_retry_timeout node (LockerFallback pcalloc_base []) ctx)
    as [ctx1 locker1] eqn:Hrt.
  intros [= <- <-]. split.
  - revert Hrt. unfold parse_retry_timeout.
    destruct (ezxml_child node "retry") as [rnode|].
    + destruct (strtod (txt rnode)) as [rv rend].
      destruct (negb (at_end rend) || Double.leb rv (Double.of_int 0)).
      * intros [= <- <-]. eexists; reflexivity.
      * destruct (ezxml_child node "timeout") as [tnode|].
        -- destruct (strtod (txt tnode)) as [tv tend].
           destruct (negb (at_end tend) || Double.leb tv (Double.of_int 0));
             intros [= <- <-]; eexists; reflexivity.
        -- intros [= <- <-]. eexists; reflexivity.
    + destruct (ezxml_child node "timeout") as [tnode|].
      * destruct (strtod (txt tnode)) as [tv tend].
        destruct (negb (at_end tend) || Double.leb tv (Double.of_int 0));
          intros [= <- <-]; eexists; reflexivity.
      * intros [= <- <-]. eexists; reflexivity.
  - intros Hr Ht. revert Hrt. unfold parse_retry_timeout. rewrite Hr, Ht.
    intros [= <- <-]. split; reflexivity.
Qed.

(** X9.  The old configuration style read without error gives a disk
    locker in the directory of [<lock_dir>] ([/tmp] without that tag)
    with a timeout of 120 seconds.  Its retry interval is the double
    quotient [micro_retry / 1000000.0], where [micro_retry] is the
    number of [<lock_retry>] read as an [int] (10000 without that tag),
    which is positive.  The wait loop sleeps the double product of
    that quotient and 1000000, converted to an integer: both the
    quotient and the product are rounded, and the sleep is
    [micro_retry] or [micro_retry - 1] microseconds; it is 10000
    without the tag. *)
Theorem old_style_locker :
  forall doc ctx ctx' l,
    mapcache_config_parse_locker_old doc ctx = (ctx', l) ->
    GC_HAS_ERROR ctx' = false ->
    ctx' = ctx
    /\ exists micro_retry usec,
         micro_retry
         = match ezxml_child doc "lock_retry" with
           | Some node => to_int32 (fst (strtol (txt node)))
           | None => 10000
           end
         /\ 0 < micro_retry
         /\ l = LockerDisk
                  (LockerBase (Double.of_int 120)
                              (Double.div (Double.of_int micro_retry)
                                          (Double.of_int 1000000)))
                  (LockerDiskCfg match ezxml_child doc "lock_dir" with
                                 | Some node => txt node
                                 | None => "/tmp"%string
                                 end)
         /\ sleep_usec l = Some usec
         /\ micro_retry - 1 <= usec <= micro_retry
         /\ (ezxml_child doc "lock_retry" = None -> usec = 10000).
Proof.
  intros doc ctx ctx' l. unfold mapcache_config_parse_locker_old.
  assert (Hint : forall v, to_int32 v < 2 ^ 31).
  { intros v. unfold to_int32.
    pose proof (Z.mod_pos_bound (v + 2 ^ 31) (2 ^ 32) ltac:(lia)). lia. }
  assert (Hsleep : forall micro_retry ldisk,
    0 < micro_retry < 2 ^ 31 ->
    exists usec,
      sleep_usec (LockerDisk
                    (LockerBase (Double.of_int 120)
                                (Double.div (Double.of_int micro_retry)
                                            (Double.of_int 1000000)))
                    ldisk) = Some usec
      /\ micro_retry - 1 <= usec <= micro_retry).
  { intros m ldisk Hm. unfold sleep_usec. cbn [base_of retry_interval].
    apply DoubleFacts.microseconds_round_trip. exact Hm. }
  destruct (ezxml_child doc "lock_retry") as [rnode|].
  - destruct (strtol (txt rnode)) as [v endptr].
    destruct (negb (at_end endptr)); cbn [orb].
    { destruct (ezxml_child doc "lock_dir"); intros [= <- <-] Herr;
        rewrite has_error_400 in Herr; discriminate. }
    destruct (to_int32 v <=? 0) eqn:Hpos.
    { destruct (ezxml_child doc "lock_dir"); intros [= <- <-] _Herr;
        rewrite has_error_400 in _Herr; discriminate. }
    apply Z.leb_gt in Hpos. pose proof (Hint v) as Hhi.
    destruct (ezxml_child doc "lock_dir") as [dnode|]; intros [= <- <-] _;
      (split; [reflexivity|]).
    + destruct (Hsleep (to_int32 v) (LockerDiskCfg (txt dnode))
                       (conj Hpos Hhi)) as (usec & Hs & Hb).
      exists (to_int32 v), usec. cbn [fst].
      repeat split; try assumption; try lia. discriminate.
    + destruct (Hsleep (to_int32 v) (LockerDiskCfg "/tmp")
                       (conj Hpos Hhi)) as (usec & Hs & Hb).
      exists (to_int32 v), usec. cbn [fst].
      repeat split; try assumption; try lia. discriminate.
  - destruct (ezxml_child doc "lock_dir") as [dnode|]; intros [= <- <-] _;
      (split; [reflexivity|]); exists 10000, 10000;
      (split; [reflexivity|]); (split; [lia|]); (split; [reflexivity|]);
      (split; [vm_compute; reflexivity|]); (split; [lia | reflexivity]).
Qed.

End LockerConfigFacts.

Section LockerConfigRuns.
Import Ctx Locker Ezxml Libc LockerConfig LockerNotions SimLibc ConfigScenario.

(** X6 on a port of 2^32 + 1: it is read as port 1. *)
Lemma memcache_locker_parsed_servers_witness :
  exists lm',
    mapcache_locker_memcache_parse_xml (LockerMemcacheCfg [] None)
                                       a_wrapped_port_doc new_context
    = (lm', new_context)
    /\ Forall2 server_read (ezxml_children a_wrapped_port_doc "server")
                           (servers lm')
    /\ servers lm' = [MemcacheServer "mc1" 1].
Proof.
  eassert (Hrun : mapcache_locker_memcache_parse_xml (LockerMemcacheCfg [] None)
                    a_wrapped_port_doc new_context = (_, _))
    by (vm_compute; reflexivity).
  destruct (memcache_locker_parsed_servers _ _ _ _ _ Hrun eq_refl)
    as (Hctx & Hall & Hprefix).
  eexists. split; [exact Hrun|]. split; [exact Hall | reflexivity].
Defined.

(** X7 on a fallback locker with a memcache and a disk child, and on
    a locker with [<retry>0.000249</retry>] and [<timeout>nan</timeout>]:
    it is read without error, its timeout is no number, and the wait
    loop sleeps 248 microseconds. *)
Lemma parsed_locker_timings_witness :
  (exists locker,
      mapcache_config_parse_locker true a_fallback_doc new_context
      = (new_context, Some locker)
      /\ timings_positive_or_nan locker
      /\ length (children_of locker) = 2%nat)
  /\
  (exists locker,
      mapcache_config_parse_locker true a_nan_timeout_doc new_context
      = (new_context, Some locker)
      /\ timings_positive_or_nan locker
      /\ timeout (base_of locker) = Double.NaN
      /\ sleep_usec locker = Some 248).
Proof.
  split.
  - eassert (Hrun : mapcache_config_parse_locker true a_fallback_doc new_context
                    = (_, _)) by (vm_compute; reflexivity).
    destruct (parsed_locker_timings true _ _ _ _ Hrun eq_refl)
      as (Hctx & locker & Hl & Hpos & _).
    exists locker. injection Hl as <-.
    split; [exact Hrun|]. split; [exact Hpos | reflexivity].
  - eassert (Hrun : mapcache_config_parse_locker true a_nan_timeout_doc
                      new_context
                    = (_, _)) by (vm_compute; reflexivity).
    destruct (parsed_locker_timings true _ _ _ _ Hrun eq_refl)
      as (Hctx & locker & Hl & Hpos & _).
    exists locker. injection Hl as <-.
    split; [exact Hrun|]. split; [exact Hpos|].
    split; [reflexivity | vm_compute; reflexivity].
Defined.

(** X8 on [<locker type="fallback"/>]. *)
Lemma fallback_without_children_is_accepted_witness :
  exists ctx' l,
    mapcache_config_parse_locker true an_empty_fallback_doc new_context
    = (ctx', l)
    /\ ctx' = new_context
    /\ l = Some (LockerFallback
                   (LockerBase (Double.of_int 120) (Double.round (1 # 10)))
                   []).
Proof.
  eassert (Hrun : mapcache_config_parse_locker true an_empty_fallback_doc
                    new_context = (_, _)) by (vm_compute; reflexivity).
  destruct (fallback_without_children_is_accepted true an_empty_fallback_doc
              _ _ _ eq_refl eq_refl Hrun) as (_ & Hdefault).
  do 2 eexists. split; [exact Hrun|]. exact (Hdefault eq_refl eq_refl).
Defined.

(** X9 on [<lock_dir>/var/lock</lock_dir>] and
    [<lock_retry>249</lock_retry>]: the wait loop sleeps 248
    microseconds. *)
Lemma old_style_locker_witness :
  exists l usec,
    mapcache_config_parse_locker_old an_old_style_249_doc new_context
    = (new_context, l)
    /\ sleep_usec l = Some usec
    /\ 248 <= usec <= 249
    /\ sleep_usec l = Some 248.
Proof.
  eassert (Hrun : mapcache_config_parse_locker_old an_old_style_249_doc
                    new_context
                  = (_, _)) by (vm_compute; reflexivity).
  destruct (old_style_locker _ _ _ _ Hrun eq_refl)
    as (_ & micro_retry & usec & Hm & _ & _ & Hsleep & Hbound & _).
  assert (Hm' : micro_retry = 249) by (rewrite Hm; vm_compute; reflexivity).
  subst micro_retry.
  eexists. exists usec. split; [exact Hrun|]. split; [exact Hsleep|].
  split; [exact Hbound | vm_compute; reflexivity].
Defined.

End LockerConfigRuns.

(** ** Multi-tier cache: exists, delete and configuration *)

Section MultitierProbes.
Import Ctx Tile Multitier MultitierConfig.
Context {cache W : Type} `{CacheApi cache W} `{ResultCodes}.

(** X10.  The multi-tier [exists] asks the tiers in order and stops at
    the first one that answers [MAPCACHE_TRUE]: the tiers after it are
    not asked, and the context and the world are as that tier left
    them.  When no tier answers [MAPCACHE_TRUE] the result is
    [MAPCACHE_FALSE], whatever other codes the tiers returned. *)
Theorem multitier_exists_first_true :
  forall (pcache : mapcache_cache_multitier cache) tile ctx (w : W),
    (exists pre c post ctx1 w1 ctx2 w2,
        caches pcache = pre ++ c :: post
        /\ tiers_all_absent pre tile ctx w = Some (ctx1, w1)
        /\ mapcache_cache_tile_exists c tile ctx1 w1 = (MAPCACHE_TRUE, ctx2, w2)
        /\ _mapcache_cache_multitier_tile_exists pcache tile ctx w
           = (MAPCACHE_TRUE, ctx2, w2))
    \/ (exists ctx1 w1,
           tiers_all_absent (caches pcache) tile ctx w = Some (ctx1, w1)
           /\ _mapcache_cache_multitier_tile_exists pcache tile ctx w
              = (MAPCACHE_FALSE, ctx1, w1)).
Proof.
  intros pcache tile. unfold _mapcache_cache_multitier_tile_exists.
  induction (caches pcache) as [|subcache rest IH]; intros ctx w.
  - right. exists ctx, w. split; reflexivity.
  - cbn [_mapcache_cache_multitier_tile_exists_loop tiers_all_absent].
    destruct (mapcache_cache_tile_exists subcache tile ctx w)
      as [[r ctx1] w1] eqn:Hhead.
    destruct (r =? MAPCACHE_TRUE) eqn:Hr.
    + apply Z.eqb_eq in Hr. subst r. left.
      exists [], subcache, rest, ctx, w, ctx1, w1.
      repeat split; try reflexivity. exact Hhead.
    + destruct (IH ctx1 w1)
        as [(pre & c & post & c1 & v1 & c2 & v2 & Hsplit & Hpre & Hc & Hres)
           |(c1 & v1 & Hall & Hres)].
      * left. exists (subcache :: pre), c, post, c1, v1, c2, v2.
        split; [cbn; now rewrite Hsplit|].
        split; [cbn [tiers_all_absent]; rewrite Hhead, Hr; exact Hpre|].
        split; [exact Hc | exact Hres].
      * right. exists c1, v1. split; [exact Hall | exact Hres].
Qed.

Lemma delete_loop_fold (subcaches : list cache) :
  forall tile ctx (w : W),
    _mapcache_cache_multitier_tile_delete_loop subcaches tile ctx w
    = fold_left (fun st c => delete_one tile c st) subcaches (ctx, w).
Proof.
  induction subcaches as [|subcache rest IH]; intros tile ctx w;
    cbn [_mapcache_cache_multitier_tile_delete_loop fold_left];
    [reflexivity|].
  unfold delete_one at 2.
  destruct (mapcache_cache_tile_delete subcache tile ctx w) as [ctx1 w1].
  apply IH.
Qed.

Lemma delete_loop_clean (subcaches : list cache) :
  forall tile ctx (w : W),
    subcaches <> [] ->
    err (fst (_mapcache_cache_multitier_tile_delete_loop subcaches tile ctx w))
    = no_error.
Proof.
  induction subcaches as [|subcache rest IH]; intros tile ctx w Hne;
    [contradiction|].
  cbn [_mapcache_cache_multitier_tile_delete_loop].
  destruct (mapcache_cache_tile_delete subcache tile ctx w) as [ctx1 w1].
  destruct rest as [|next rest']; [reflexivity|].
  apply IH. discriminate.
Qed.

(** X11.  The multi-tier [delete] calls the delete of every tier, in
    order, whether the tiers before it failed or not, and clears the
    error slot after each call: with at least one tier the context comes
    back without any error, also when every tier failed and also when
    the context held an error before the call. *)
Theorem multitier_delete_reports_nothing :
  forall (pcache : mapcache_cache_multitier cache) tile ctx (w : W),
    _mapcache_cache_multitier_tile_delete pcache tile ctx w
    = fold_left (fun st c => delete_one tile c st) (caches pcache) (ctx, w)
    /\ (caches pcache <> [] ->
        err (fst (_mapcache_cache_multitier_tile_delete pcache tile ctx w))
        = no_error).
Proof.
  intros pcache tile ctx w. unfold _mapcache_cache_multitier_tile_delete.
  split; [apply delete_loop_fold | apply delete_loop_clean].
Qed.

End MultitierProbes.

Section MultitierConfigFacts.
Import Ctx Tile Multitier Ezxml MultitierConfig.
Context {mapcache_cfg cache W : Type} `{ConfigApi mapcache_cfg cache}
        `{CacheApi cache W} `{ResultCodes}.

Lemma write_true_not_unset n : write_true n -> ~ write_unset n.
Proof. unfold write_true, write_unset. congruence. Qed.

(** The loop over the [<cache>] tags, when it leaves no error: the
    caches pushed, the index recorded for [write="true"] and the index
    remembered for the tags without a [write] attribute. *)
Lemma multitier_parse_children_clean (config : mapcache_cfg) nodes :
  forall i rw_cache (pcache : mapcache_cache_multitier cache) ctx
         returned rw' cache' ctx',
    0 <= i ->
    multitier_parse_children config nodes i rw_cache pcache ctx
    = (returned, rw', cache', ctx') ->
    GC_HAS_ERROR ctx' = false ->
    returned = false /\ ctx' = ctx
    /\ (exists added,
           caches cache' = caches pcache ++ added
           /\ Forall2 (fun n c =>
                         mapcache_configuration_get_cache config (txt n) = Some c)
                      nodes added)
    /\ ((write_cache_idx cache' = write_cache_idx pcache
         /\ Forall (fun n => ~ write_true n) nodes)
        \/ (write_cache_idx pcache < 0
            /\ exists k n,
                 nth_error nodes k = Some n /\ write_true n
                 /\ write_cache_idx cache' = i + Z.of_nat k
                 /\ forall k' n', nth_error nodes k' = Some n' ->
                                  write_true n' -> k' = k))
    /\ ((rw' = rw_cache /\ Forall (fun n => ~ write_unset n) nodes)
        \/ (exists k n,
               nth_error nodes k = Some n /\ write_unset n
               /\ rw' = i + Z.of_nat k
               /\ forall k' n', nth_error nodes k' = Some n' ->
                                write_unset n' -> (k' <= k)%nat)).
Proof.
  induction nodes as [|cur_node rest IH];
    intros i rw_cache pcache ctx returned rw' cache' ctx' Hi;
    cbn [multitier_parse_children].
  - intros [= <- <- <- <-] _. split; [reflexivity|]. split; [reflexivity|].
    split; [exists []; split; [now rewrite app_nil_r | constructor]|].
    split; left; (split; [reflexivity | constructor]).
  - assert (Hstep : forall pcache1 rw1,
      caches pcache1 = caches pcache ->
      match mapcache_configuration_get_cache config (txt cur_node) with
      | Some refcache =>
          multitier_parse_children config rest (i + 1) rw1
                                   (push_cache refcache pcache1) ctx
      | None =>
          (true, rw1, pcache1,
           set_error 400
             (not_configured_message (Multitier.name pcache1) (txt cur_node))
             ctx)
      end = (returned, rw', cache', ctx') ->
      GC_HAS_ERROR ctx' = false ->
      returned = false /\ ctx' = ctx
      /\ (exists added,
             caches cache' = caches pcache ++ added
             /\ Forall2 (fun n c =>
                           mapcache_configuration_get_cache config (txt n)
                           = Some c)
                        (cur_node :: rest) added)
      /\ ((write_cache_idx cache' = write_cache_idx pcache1
           /\ Forall (fun n => ~ write_true n) rest)
          \/ (write_cache_idx pcache1 < 0
              /\ exists k n,
                   nth_error rest k = Some n /\ write_true n
                   /\ write_cache_idx cache' = i + 1 + Z.of_nat k
                   /\ forall k' n', nth_error rest k' = Some n' ->
                                    write_true n' -> k' = k))
      /\ ((rw' = rw1 /\ Forall (fun n => ~ write_unset n) rest)
          \/ (exists k n,
                 nth_error rest k = Some n /\ write_unset n
                 /\ rw' = i + 1 + Z.of_nat k
                 /\ forall k' n', nth_error rest k' = Some n' ->
                                  write_unset n' -> (k' <= k)%nat))).
    { intros pcache1 rw1 Hcaches.
      destruct (mapcache_configuration_get_cache config (txt cur_node))
        as [refcache|] eqn:Hget.
      2:{ intros [= <- <- <- <-] Herr. discriminate Herr. }
      intros Hrun Herr.
      assert (Hi1 : 0 <= i + 1) by lia.
      destruct (IH (i + 1) _ _ _ _ _ _ _ Hi1 Hrun Herr)
        as (Hret & Hctx & (added & Hadded & Hall) & Hw & Hrw).
      split; [exact Hret|]. split; [exact Hctx|].
      split; [|split; [exact Hw | exact Hrw]].
      exists (refcache :: added). split.
      - rewrite Hadded. cbn [push_cache caches]. rewrite Hcaches, <- app_assoc.
        reflexivity.
      - constructor; assumption. }
    destruct (ezxml_attr cur_node "write") as [write|] eqn:Hattr.
    + destruct (String.eqb write "true") eqn:Htrue.
      * apply String.eqb_eq in Htrue. subst write.
        destruct (0 <=? write_cache_idx pcache) eqn:Hidx.
        { intros [= <- <- <- <-] Herr. discriminate Herr. }
        apply Z.leb_gt in Hidx.
        intros Hrun Herr.
        destruct (Hstep (set_write_cache_idx i pcache) rw_cache eq_refl Hrun Herr)
          as (Hret & Hctx & Hadded & Hw & Hrw).
        split; [exact Hret|]. split; [exact Hctx|]. split; [exact Hadded|].
        split.
        -- right. split; [exact Hidx|].
           exists O, cur_node. split; [reflexivity|]. split; [exact Hattr|].
           destruct Hw as [[Hsame Hnone] | [Hneg _]].
           ++ split; [rewrite Hsame; cbn; lia|].
              intros [|k'] n' Hnth Hn'; [reflexivity|].
              cbn in Hnth. rewrite List.Forall_forall in Hnone.
              exfalso. apply (Hnone n' (nth_error_In _ _ Hnth)). exact Hn'.
           ++ cbn in Hneg. lia.
        -- destruct Hrw as [[Hsame Hnone] | (k & n & Hnth & Hn & Hrw' & Hlast)].
           ++ left. split; [exact Hsame|]. constructor; [|exact Hnone].
              apply write_true_not_unset. exact Hattr.
           ++ right. exists (S k), n. split; [exact Hnth|]. split; [exact Hn|].
              split; [lia|].
              intros [|k'] n' Hnth' Hn'; [lia|].
              apply le_n_S. exact (Hlast k' n' Hnth' Hn').
      * intros Hrun Herr.
        destruct (Hstep pcache rw_cache eq_refl Hrun Herr)
          as (Hret & Hctx & Hadded & Hw & Hrw).
        assert (Hnot_true : ~ write_true cur_node).
        { unfold write_true. rewrite Hattr. intros [= Heq]. subst write.
          discriminate Htrue. }
        assert (Hnot_unset : ~ write_unset cur_node).
        { unfold write_unset. rewrite Hattr. discriminate. }
        split; [exact Hret|]. split; [exact Hctx|]. split; [exact Hadded|].
        split.
        -- destruct Hw as [[Hsame Hnone] | (Hneg & k & n & Hnth & Hn & Hw' & Hone)].
           ++ left. split; [exact Hsame | constructor; assumption].
           ++ right. split; [exact Hneg|].
              exists (S k), n. split; [exact Hnth|]. split; [exact Hn|].
              split; [lia|].
              intros [|k'] n' Hnth' Hn'.
              ** cbn in Hnth'. injection Hnth' as <-. contradiction.
              ** f_equal. exact (Hone k' n' Hnth' Hn').
        -- destruct Hrw as [[Hsame Hnone] | (k & n & Hnth & Hn & Hrw' & Hlast)].
           ++ left. split; [exact Hsame | constructor; assumption].
           ++ right. exists (S k), n. split; [exact Hnth|]. split; [exact Hn|].
              split; [lia|].
              intros [|k'] n' Hnth' Hn'; [lia|].
              apply le_n_S. exact (Hlast k' n' Hnth' Hn').
    + intros Hrun Herr.
      destruct (Hstep pcache i eq_refl Hrun Herr)
        as (Hret & Hctx & Hadded & Hw & Hrw).
      assert (Hnot_true : ~ write_true cur_node).
      { unfold write_true. rewrite Hattr. discriminate. }
      split; [exact Hret|]. split; [exact Hctx|]. split; [exact Hadded|].
      split.
      * destruct Hw as [[Hsame Hnone] | (Hneg & k & n & Hnth & Hn & Hw' & Hone)].
        -- left. split; [exact Hsame | constructor; assumption].
        -- right. split; [exact Hneg|].
           exists (S k), n. split; [exact Hnth|]. split; [exact Hn|].
           split; [lia|].
           intros [|k'] n' Hnth' Hn'.
           ++ cbn in Hnth'. injection Hnth' as <-. contradiction.
           ++ f_equal. exact (Hone k' n' Hnth' Hn').
      * right.
        destruct Hrw as [[Hsame Hnone] | (k & n & Hnth & Hn & Hrw' & Hlast)].
        -- exists O, cur_node. split; [reflexivity|]. split; [exact Hattr|].
           split; [lia|].
           intros [|k'] n' Hnth' Hn'; [lia|].
           cbn in Hnth'. rewrite List.Forall_forall in Hnone.
           exfalso. apply (Hnone n' (nth_error_In _ _ Hnth')). exact Hn'.
        -- exists (S k), n. split; [exact Hnth|]. split; [exact Hn|].
           split; [lia|].
           intros [|k'] n' Hnth' Hn'; [lia|].
           apply le_n_S. exact (Hlast k' n' Hnth' Hn').
Qed.

(** The whole of the parse, from the state [create] leaves
    ([write_cache_idx = -1]), when it leaves no error. *)
Lemma multitier_parse_xml_clean :
  forall node (pcache : mapcache_cache_multitier cache) (config : mapcache_cfg)
         ctx cache' ctx',
    write_cache_idx pcache = -1 ->
    _mapcache_cache_multitier_configuration_parse_xml node pcache config ctx
    = (cache', ctx') ->
    GC_HAS_ERROR ctx' = false ->
    let nodes := ezxml_children node "cache" in
    ctx' = ctx
    /\ nodes <> []
    /\ Forall2 (fun n c =>
                  mapcache_configuration_get_cache config (txt n) = Some c)
               nodes (caches cache')
    /\ exists k n,
         write_cache_idx cache' = Z.of_nat k
         /\ nth_error nodes k = Some n
         /\ ((write_true n
              /\ forall k' n', nth_error nodes k' = Some n' ->
                               write_true n' -> k' = k)
             \/ (write_unset n
                 /\ Forall (fun n => ~ write_true n) nodes
                 /\ forall k' n', nth_error nodes k' = Some n' ->
                                  write_unset n' -> (k' <= k)%nat)).
Proof.
  intros node pcache config ctx cache' ctx' Hcreate.
  unfold _mapcache_cache_multitier_configuration_parse_xml.
  set (nodes := ezxml_children node "cache").
  destruct (multitier_parse_children config nodes 0 (-1)
              (MultitierCache (Multitier.name pcache) [] (write_cache_idx pcache))
              ctx) as [[[returned rw'] cache1] ctx1] eqn:Hloop.
  assert (Hclean : GC_HAS_ERROR ctx1 = false -> _)
    by (intros Herr;
        exact (multitier_parse_children_clean config nodes 0 _ _ _ _ _ _ _
                 (Z.le_refl 0) Hloop Herr)).
  cbn [write_cache_idx caches] in Hclean. rewrite Hcreate in Hclean.
  destruct returned.
  { intros [= <- <-] Herr. destruct (Hclean Herr) as (Hret & _). discriminate. }
  destruct (Z.of_nat (length (caches cache1)) =? 0) eqn:Hlen.
  { intros [= <- <-] Herr. discriminate Herr. }
  apply Z.eqb_neq in Hlen.
  destruct (write_cache_idx cache1 <? 0) eqn:Hidx.
  - apply Z.ltb_lt in Hidx.
    destruct (rw' <? 0) eqn:Hrw.
    { intros [= <- <-] Herr. discriminate Herr. }
    apply Z.ltb_ge in Hrw.
    intros [= <- <-] Herr.
    destruct (Hclean Herr) as (_ & Hctx & (added & Hadded & Hall) & Hw & Hrw').
    cbn [app] in Hadded. cbn [set_write_cache_idx caches write_cache_idx].
    split; [exact Hctx|].
    split; [intros Hnil; rewrite Hnil in Hall;
            apply Forall2_nil_inv_l in Hall; rewrite Hall in Hadded;
            rewrite Hadded in Hlen; cbn in Hlen; lia|].
    split; [rewrite Hadded; exact Hall|].
    destruct Hw as [[_ Hnone] | (_ & k & n & _ & _ & Hw' & _)]; [|lia].
    destruct Hrw' as [[Hsame _] | (k & n & Hnth & Hn & Hk & Hlast)]; [lia|].
    exists k, n. split; [lia|]. split; [exact Hnth|].
    right. split; [exact Hn|]. split; [exact Hnone | exact Hlast].
  - apply Z.ltb_ge in Hidx.
    intros [= <- <-] Herr.
    destruct (Hclean Herr) as (_ & Hctx & (added & Hadded & Hall) & Hw & _).
    cbn [app] in Hadded.
    split; [exact Hctx|].
    split; [intros Hnil; rewrite Hnil in Hall;
            apply Forall2_nil_inv_l in Hall; rewrite Hall in Hadded;
            rewrite Hadded in Hlen; cbn in Hlen; lia|].
    split; [rewrite Hadded; exact Hall|].
    destruct Hw as [[Hsame _] | (_ & k & n & Hnth & Hn & Hw' & Hone)]; [lia|].
    exists k, n. split; [lia|]. split; [exact Hnth|].
    left. split; [exact Hn | exact Hone].
Qed.

(** X12.  A multi-tier cache configured without error, from the state
    [mapcache_cache_multitier_create] leaves, has at least one tier, one
    for each [<cache>] tag in document order (the cache declared under
    the text of the tag), and a write index that is an index of a tier:
    the multi-tier read, write and multi-write never index the array of
    tiers out of its bounds, and a write goes to that one tier only. *)
Theorem multitier_configured_indices :
  forall node (pcache : mapcache_cache_multitier cache) (config : mapcache_cfg)
         ctx cache' ctx',
    write_cache_idx pcache = -1 ->
    _mapcache_cache_multitier_configuration_parse_xml node pcache config ctx
    = (cache', ctx') ->
    GC_HAS_ERROR ctx' = false ->
    ctx' = ctx
    /\ Forall2 (fun n c =>
                  mapcache_configuration_get_cache config (txt n) = Some c)
               (ezxml_children node "cache") (caches cache')
    /\ 0 <= write_cache_idx cache' < Z.of_nat (length (caches cache'))
    /\ (exists write_cache,
           nth_error (caches cache') (Z.to_nat (write_cache_idx cache'))
           = Some write_cache
           /\ (forall tile c (w : W),
                  _mapcache_cache_multitier_tile_set cache' tile c w
                  = Some (mapcache_cache_tile_set write_cache tile c w))
           /\ (forall tiles c (w : W),
                  _mapcache_cache_multitier_tile_multi_set cache' tiles c w
                  = Some (mapcache_cache_tile_multi_set write_cache tiles c w)))
    /\ (forall tile c (w : W),
           _mapcache_cache_multitier_tile_get cache' tile c w <> None).
Proof.
  intros node pcache config ctx cache' ctx' Hcreate Hrun Herr.
  destruct (multitier_parse_xml_clean node pcache config ctx cache' ctx'
              Hcreate Hrun Herr)
    as (Hctx & Hne & Hall & k & n & Hidx & Hnth & _).
  pose proof (Forall2_length _ _ _ Hall) as Hlen.
  assert (Hk : (k < length (caches cache'))%nat).
  { rewrite <- Hlen. apply nth_error_Some. congruence. }
  destruct (nth_error (caches cache') k) as [write_cache|] eqn:Hwc.
  2:{ apply nth_error_None in Hwc. lia. }
  split; [exact Hctx|]. split; [exact Hall|]. split; [lia|]. split.
  - exists write_cache. rewrite Hidx, Nat2Z.id. split; [exact Hwc|].
    unfold _mapcache_cache_multitier_tile_set,
      _mapcache_cache_multitier_tile_multi_set.
    rewrite Hidx, Nat2Z.id, Hwc.
    assert (Hpos : (Z.of_nat k <? 0) = false) by (apply Z.ltb_ge; lia).
    rewrite Hpos. split; reflexivity.
  - intros tile c w. unfold _mapcache_cache_multitier_tile_get.
    destruct (caches cache') as [|sub0 rest]; [cbn in Hk; lia|].
    destruct (mapcache_cache_tile_get sub0 tile c w) as [[[ret t1] c1] w1].
    destruct (ret =? MAPCACHE_CACHE_MISS); discriminate.
Qed.

(** X13.  Which tier is written, for a multi-tier cache configured
    without error: the tier of the one [<cache>] tag that carries
    [write="true"] (two such tags are an error); and when no tag carries
    it, the tier of the last tag that has no [write] attribute at all (a
    tag with another value of [write], as [write="false"], is never
    chosen). *)
Theorem multitier_write_tier_choice :
  forall node (pcache : mapcache_cache_multitier cache) (config : mapcache_cfg)
         ctx cache' ctx',
    write_cache_idx pcache = -1 ->
    _mapcache_cache_multitier_configuration_parse_xml node pcache config ctx
    = (cache', ctx') ->
    GC_HAS_ERROR ctx' = false ->
    let nodes := ezxml_children node "cache" in
    exists k n,
      write_cache_idx cache' = Z.of_nat k
      /\ nth_error nodes k = Some n
      /\ ((write_true n
           /\ forall k' n', nth_error nodes k' = Some n' ->
                            write_true n' -> k' = k)
          \/ (write_unset n
              /\ Forall (fun n => ~ write_true n) nodes
              /\ forall k' n', nth_error nodes k' = Some n' ->
                               write_unset n' -> (k' <= k)%nat)).
Proof.
  intros node pcache config ctx cache' ctx' Hcreate Hrun Herr.
  destruct (multitier_parse_xml_clean node pcache config ctx cache' ctx'
              Hcreate Hrun Herr) as (_ & _ & _ & Hchoice).
  exact Hchoice.
Qed.

End MultitierConfigFacts.

Section MultitierConfigRuns.
Import Ctx Tile Multitier Ezxml MultitierConfig Sim SimConfig.

(** X12 on three tiers of which the first is marked [write="false"]:
    the writes go to the third tier. *)
Lemma multitier_configured_indices_witness :
  exists cache',
    _mapcache_cache_multitier_configuration_parse_xml
      a_multitier_doc a_new_multitier three_caches new_context
    = (cache', new_context)
    /\ caches cache' = [0%nat; 1%nat; 2%nat]
    /\ 0 <= write_cache_idx cache' < Z.of_nat (length (caches cache'))
    /\ (forall tile c (w : list sim_tier),
           _mapcache_cache_multitier_tile_get cache' tile c w <> None).
Proof.
  eassert (Hrun : _mapcache_cache_multitier_configuration_parse_xml
                    a_multitier_doc a_new_multitier three_caches new_context
                  = (_, _)) by (vm_compute; reflexivity).
  destruct (multitier_configured_indices (W := list sim_tier)
              a_multitier_doc a_new_multitier three_caches new_context _ _
              eq_refl Hrun eq_refl)
    as (_ & _ & Hidx & _ & Hget).
  eexists. split; [exact Hrun|]. split; [reflexivity|].
  split; [exact Hidx | exact Hget].
Defined.

(** X13 on the same document: no tag carries [write="true"], and the
    last tag without a [write] attribute is the third. *)
Lemma multitier_write_tier_choice_witness :
  exists cache' k n,
    _mapcache_cache_multitier_configuration_parse_xml
      a_multitier_doc a_new_multitier three_caches new_context
    = (cache', new_context)
    /\ write_cache_idx cache' = Z.of_nat k
    /\ nth_error (ezxml_children a_multitier_doc "cache") k = Some n
    /\ write_cache_idx cache' = 2.
Proof.
  eassert (Hrun : _mapcache_cache_multitier_configuration_parse_xml
                    a_multitier_doc a_new_multitier three_caches new_context
                  = (_, _)) by (vm_compute; reflexivity).
  destruct (multitier_write_tier_choice
              a_multitier_doc a_new_multitier three_caches new_context _ _
              eq_refl Hrun eq_refl)
    as (k & n & Hidx & Hnth & _).
  eexists. exists k, n. split; [exact Hrun|]. split; [exact Hidx|].
  split; [exact Hnth | reflexivity].
Defined.

End MultitierConfigRuns.

(** ** Apache module: alias matching *)

Section AliasMatching.
Import ModMapcache ModMapcacheHooks HookNotions.
Local Open Scope string_scope.

Lemma append_String c (a b : string) : String c a ++ b = String c (a ++ b).
Proof. reflexivity. Qed.

Lemma append_Empty (b : string) : EmptyString ++ b = b.
Proof. reflexivity. Qed.

Lemma skip_slashes_spec p :
  forall k stop,
    skip_slashes p = (k, stop) ->
    0 <= k /\ p = slashes (Z.to_nat k) ++ stop
    /\ starts_with_slash stop = false.
Proof.
  induction p as [|c rest IH]; intros k stop; cbn [skip_slashes].
  - intros [= <- <-]. repeat split; reflexivity || lia.
  - destruct (is_slash c) eqn:Hc.
    + destruct (skip_slashes rest) as [k' stop'].
      intros [= <- <-].
      destruct (IH k' stop' eq_refl) as (Hk & Hp & Hstop).
      split; [lia|]. split; [|exact Hstop].
      replace (Z.to_nat (k' + 1)) with (S (Z.to_nat k')) by lia.
      cbn [slashes]. rewrite append_String, <- Hp.
      unfold is_slash in Hc. apply Ascii.eqb_eq in Hc. now subst c.
    + intros [= <- <-]. split; [lia|]. split; [reflexivity|]. exact Hc.
Qed.

Lemma length_append (a b : string) :
  String.length (a ++ b) = (String.length a + String.length b)%nat.
Proof.
  induction a as [|c a IH]; [reflexivity|].
  rewrite append_String. cbn [String.length]. now rewrite IH.
Qed.

Lemma length_slashes n : String.length (slashes n) = n.
Proof. induction n as [|n IH]; cbn; [reflexivity | now rewrite IH]. Qed.

Lemma alias_loop_slash a' u' m :
  alias_loop (String "/" a') (String "/" u') m
  = alias_loop (snd (skip_slashes a')) (snd (skip_slashes u'))
               (m + 1 + fst (skip_slashes u')).
Proof.
  cbn [alias_loop]. change (is_slash "/") with true. cbn match.
  destruct (skip_slashes u') as [k urip_stop]. cbn [fst snd].
  induction a' as [|c rest IH]; cbn [skip_slashes snd].
  - reflexivity.
  - destruct (is_slash c) eqn:Hc.
    + rewrite IH. destruct (skip_slashes rest) as [j stop]. reflexivity.
    + reflexivity.
Qed.

Lemma alias_loop_slash_miss a' u m :
  starts_with_slash u = false -> alias_loop (String "/" a') u m = None.
Proof.
  intros Hu. cbn [alias_loop]. change (is_slash "/") with true. cbn match.
  destruct u as [|c u']; [reflexivity|]. cbn in Hu. now rewrite Hu.
Qed.

Lemma squeeze_slashes n s :
  starts_with_slash s = false ->
  squeeze (String "/" (slashes n ++ s)) = String "/" (squeeze s).
Proof.
  intros Hs. induction n as [|n IH]; cbn [slashes].
  - rewrite append_Empty. cbn [squeeze]. rewrite Hs, andb_false_r. reflexivity.
  - rewrite append_String. cbn [squeeze starts_with_slash].
    change (is_slash "/") with true. cbn [andb]. exact IH.
Qed.

Lemma starts_with_slash_prefix p stop :
  starts_with_slash (p ++ stop) = false ->
  p = EmptyString \/ starts_with_slash p = false.
Proof. destruct p as [|c p]; [now left | right; assumption]. Qed.

(** What the loop has matched when it ends: [urip] has moved over a
    part [p] of the URI that is the alias up to repeated slashes. *)
Lemma alias_loop_sound n :
  forall aliasp, (String.length aliasp <= n)%nat ->
    forall urip matched stop matched',
      alias_loop aliasp urip matched = Some (stop, matched') ->
      exists p,
        urip = p ++ stop
        /\ matched' = matched + Z.of_nat (String.length p)
        /\ squeeze p = squeeze aliasp
        /\ (aliasp <> EmptyString -> p <> EmptyString).
Proof.
  induction n as [|n IH]; intros aliasp Hlen urip matched stop matched'.
  - destruct aliasp; [|cbn in Hlen; lia]. cbn [alias_loop].
    intros [= <- <-]. exists EmptyString.
    repeat split; try reflexivity; [cbn; lia | congruence].
  - destruct aliasp as [|a aliasp']; cbn [alias_loop].
    { intros [= <- <-]. exists EmptyString.
      repeat split; try reflexivity; [cbn; lia | congruence]. }
    destruct (is_slash a) eqn:Ha.
    + unfold is_slash in Ha. apply Ascii.eqb_eq in Ha. subst a.
      destruct urip as [|u urip']; [discriminate|].
      destruct (is_slash u) eqn:Hu; [|discriminate].
      unfold is_slash in Hu. apply Ascii.eqb_eq in Hu. subst u.
      intros Hrun.
      change (alias_loop (String "/" aliasp') (String "/" urip') matched
              = Some (stop, matched')) in Hrun.
      rewrite alias_loop_slash in Hrun.
      destruct (skip_slashes aliasp') as [j a_stop] eqn:Hsa.
      destruct (skip_slashes urip') as [k u_stop] eqn:Hsu.
      cbn [fst snd] in Hrun.
      destruct (skip_slashes_spec _ _ _ Hsa) as (Hj & Ha' & Hastop).
      destruct (skip_slashes_spec _ _ _ Hsu) as (Hk & Hu' & Hustop).
      assert (Hshort : (String.length a_stop <= n)%nat).
      { cbn in Hlen. rewrite Ha', length_append in Hlen. lia. }
      destruct (IH a_stop Hshort _ _ _ _ Hrun) as (p' & Hp' & Hm & Hsq & _).
      exists (String "/" (slashes (Z.to_nat k) ++ p')).
      split; [|split; [|split]].
      * rewrite append_String, Hu', Hp'. f_equal.
        generalize (Z.to_nat k) as i. clear. intros i.
        induction i as [|i IHi]; cbn [slashes];
          [reflexivity | rewrite !append_String; now rewrite IHi].
      * cbn [String.length]. rewrite length_append, length_slashes. lia.
      * rewrite Ha'. rewrite Hp' in Hustop.
        destruct (starts_with_slash_prefix _ _ Hustop) as [-> | Hps].
        -- rewrite !squeeze_slashes by (reflexivity || assumption).
           now rewrite <- Hsq.
        -- rewrite !squeeze_slashes by assumption. now rewrite Hsq.
      * discriminate.
    + destruct urip as [|u urip']; [discriminate|].
      destruct (Ascii.eqb u a) eqn:Hua; [|discriminate].
      apply Ascii.eqb_eq in Hua. subst u.
      intros Hrun.
      assert (Hshort : (String.length aliasp' <= n)%nat)
        by (cbn in Hlen; lia).
      destruct (IH aliasp' Hshort _ _ _ _ Hrun) as (p' & Hp' & Hm & Hsq & _).
      exists (String a p'). split; [|split; [|split]].
      * rewrite append_String. now rewrite Hp'.
      * cbn [String.length]. lia.
      * cbn [squeeze]. rewrite Ha. cbn [andb]. now rewrite Hsq.
      * discriminate.
Qed.

Lemma alias_loop_self n :
  forall a, (String.length a <= n)%nat ->
    forall matched,
      alias_loop a a matched
      = Some (EmptyString, matched + Z.of_nat (String.length a)).
Proof.
  induction n as [|n IH]; intros a Hlen matched.
  - destruct a; [|cbn in Hlen; lia]. cbn. f_equal. f_equal. lia.
  - destruct a as [|c a']; [cbn; f_equal; f_equal; lia|].
    destruct (is_slash c) eqn:Hc.
    + unfold is_slash in Hc. apply Ascii.eqb_eq in Hc. subst c.
      rewrite alias_loop_slash.
      destruct (skip_slashes a') as [k stop] eqn:Hs. cbn [fst snd].
      destruct (skip_slashes_spec _ _ _ Hs) as (Hk & Ha' & _).
      assert (Hshort : (String.length stop <= n)%nat).
      { cbn in Hlen. rewrite Ha', length_append in Hlen. lia. }
      rewrite (IH stop Hshort). f_equal. f_equal.
      cbn [String.length]. rewrite Ha'.
      rewrite length_append, length_slashes. lia.
    + cbn [alias_loop]. rewrite Hc, Ascii.eqb_refl.
      assert (Hshort : (String.length a' <= n)%nat) by (cbn in Hlen; lia).
      rewrite (IH a' Hshort). f_equal. f_equal. cbn [String.length]. lia.
Qed.

Lemma last_char_some a : a <> EmptyString -> exists c, last_char a = Some c.
Proof.
  induction a as [|c a IH]; [congruence|]. intros _.
  destruct a as [|d a']; [exists c; reflexivity|].
  destruct IH as [e He]; [discriminate|]. exists e. exact He.
Qed.

Lemma take_from_append p stop :
  string_take (String.length p) (p ++ stop) = p
  /\ string_from (String.length p) (p ++ stop) = stop.
Proof.
  induction p as [|c p [IHt IHf]].
  - rewrite append_Empty. split; [destruct stop; reflexivity | reflexivity].
  - rewrite append_String. cbn [String.length string_take string_from].
    split; [now rewrite IHt | exact IHf].
Qed.

(** X14.  An alias that is not empty matches itself over its whole
    length, repeated slashes included. *)
Theorem alias_matches_itself :
  forall a,
    a <> EmptyString ->
    mapcache_alias_matches a a = Some (Z.of_nat (String.length a)).
Proof.
  intros a Hne. unfold mapcache_alias_matches.
  rewrite (alias_loop_self (String.length a) a (Nat.le_refl _)).
  destruct (last_char_some a Hne) as [c ->].
  rewrite andb_false_r. reflexivity.
Qed.

(** X15.  The number [mapcache_alias_matches] returns is between 0 and
    the length of the URI, so that [&uri[l]] points into the URI.  When
    it is positive, the first [l] characters of the URI are the alias up
    to runs of slashes (each run replaced by one slash on both sides),
    and the match ends at a path boundary: the alias ends with a slash,
    or the URI ends there, or the URI goes on with a slash. *)
Theorem alias_match_is_a_path_prefix :
  forall uri alias_fakename l,
    mapcache_alias_matches uri alias_fakename = Some l ->
    0 <= l <= Z.of_nat (String.length uri)
    /\ (0 < l ->
        uri = string_take (Z.to_nat l) uri ++ string_from (Z.to_nat l) uri
        /\ squeeze (string_take (Z.to_nat l) uri) = squeeze alias_fakename
        /\ (last_char alias_fakename = Some "/"%char
            \/ string_from (Z.to_nat l) uri = EmptyString
            \/ starts_with_slash (string_from (Z.to_nat l) uri) = true)).
Proof.
  intros uri a l. unfold mapcache_alias_matches.
  destruct (alias_loop a uri 0) as [[urip matched]|] eqn:Hloop.
  2:{ intros [= <-]. split; [lia|]. lia. }
  destruct (alias_loop_sound _ a (Nat.le_refl _) _ _ _ _ Hloop)
    as (p & Huri & Hm & Hsq & _).
  destruct (last_char a) as [before|] eqn:Hlast; [|discriminate].
  destruct (take_from_append p urip) as [Htake Hfrom].
  assert (Hresult : matched = l ->
    0 <= l <= Z.of_nat (String.length uri)
    /\ (0 < l ->
        uri = string_take (Z.to_nat l) uri ++ string_from (Z.to_nat l) uri
        /\ squeeze (string_take (Z.to_nat l) uri) = squeeze a
        /\ (urip = string_from (Z.to_nat l) uri))).
  { intros <-. rewrite Hm, Z.add_0_l, Nat2Z.id.
    rewrite Huri, length_append, Htake, Hfrom.
    split; [lia|]. intros _. repeat split. exact Hsq. }
  destruct (negb (is_slash before)) eqn:Hb; cbn [andb].
  - destruct urip as [|u urip'].
    + intros [= Hl]. destruct (Hresult Hl) as (Hrange & Hpos).
      split; [exact Hrange|]. intros Hl0.
      destruct (Hpos Hl0) as (Hsplit & Hsq' & Hrest).
      repeat split; try assumption. right; left. now rewrite <- Hrest.
    + destruct (negb (is_slash u)) eqn:Hu.
      * intros [= <-]. split; [lia|]. lia.
      * intros [= Hl]. destruct (Hresult Hl) as (Hrange & Hpos).
        split; [exact Hrange|]. intros Hl0.
        destruct (Hpos Hl0) as (Hsplit & Hsq' & Hrest).
        repeat split; try assumption. right; right. rewrite <- Hrest.
        cbn. now apply negb_false_iff in Hu.
  - intros [= Hl]. destruct (Hresult Hl) as (Hrange & Hpos).
    split; [exact Hrange|]. intros Hl0.
    destruct (Hpos Hl0) as (Hsplit & Hsq' & Hrest).
    repeat split; try assumption. left.
    apply negb_false_iff in Hb. unfold is_slash in Hb.
    apply Ascii.eqb_eq in Hb. now subst before.
Qed.

End AliasMatching.

Section AliasMatchingRuns.
Import ModMapcache ModMapcacheHooks HookNotions.
Local Open Scope string_scope.

(** X14 on an alias with a doubled slash. *)
Lemma alias_matches_itself_witness :
  mapcache_alias_matches "/maps//tiles" "/maps//tiles" = Some 12.
Proof.
  refine (alias_matches_itself "/maps//tiles" _). discriminate.
Defined.

(** X15 on a URI that doubles a slash of the alias: 12 characters
    match, and the rest of the URI is the path info. *)
Lemma alias_match_is_a_path_prefix_witness :
  mapcache_alias_matches "/maps//tiles/1.0.0" "/maps/tiles" = Some 12
  /\ squeeze (string_take 12 "/maps//tiles/1.0.0") = squeeze "/maps/tiles"
  /\ string_from 12 "/maps//tiles/1.0.0" = "/1.0.0".
Proof.
  assert (Hrun : mapcache_alias_matches "/maps//tiles/1.0.0" "/maps/tiles"
                 = Some 12) by (vm_compute; reflexivity).
  destruct (alias_match_is_a_path_prefix _ _ _ Hrun) as (_ & Hpos).
  destruct (Hpos ltac:(lia)) as (_ & Hsq & _).
  split; [exact Hrun|]. split; [exact Hsq | reflexivity].
Defined.

End AliasMatchingRuns.

(** ** Apache module: the fixup hook and the request context *)

Section FixupHook.
Import Ctx ModMapcache ModMapcacheHooks HookNotions.

Lemma strcasecmp_eq_refl a : strcasecmp_eq a a = true.
Proof. apply strcasecmp_eq_fold. reflexivity. Qed.

Lemma fixups_loop_cases entries :
  forall r code r',
    fixups_loop entries r = Some (code, r') ->
    (code = DECLINED /\ r' = r
     /\ Forall (fun e => exists l, mapcache_alias_matches (uri r) (endpoint e)
                                   = Some l /\ l <= 0) entries)
    \/ (exists alias_entry l,
           code = OK
           /\ first_match entries (uri r) = Some alias_entry
           /\ mapcache_alias_matches (uri r) (endpoint alias_entry) = Some l
           /\ 0 < l
           /\ r' = RequestRec (Some "mapcache"%string) (method_number r) (uri r)
                     (apr_table_set (notes r) "mapcache_alias_entry"
                                    (Some (endpoint alias_entry)))
                     (Some (string_from (Z.to_nat l) (uri r)))).
Proof.
  induction entries as [|e rest IH]; intros r code r';
    cbn [fixups_loop first_match].
  - intros [= <- <-]. left. repeat split. constructor.
  - destruct (mapcache_alias_matches (uri r) (endpoint e)) as [l|] eqn:Hm;
      [|discriminate].
    destruct (0 <? l) eqn:Hl.
    + intros [= <- <-]. right. exists e, l. apply Z.ltb_lt in Hl.
      repeat split; try reflexivity; assumption.
    + apply Z.ltb_ge in Hl. intros Hrun.
      destruct (IH _ _ _ Hrun) as [(Hc & Hr & Hall) | Hfound].
      * left. repeat split; try assumption.
        constructor; [exists l; split; assumption | exact Hall].
      * right. exact Hfound.
Qed.

Lemma first_match_finds entries uri_ :
  forall alias_entry,
    first_match entries uri_ = Some alias_entry ->
    find_alias_entry entries (endpoint alias_entry) = Some alias_entry
    /\ exists l, mapcache_alias_matches uri_ (endpoint alias_entry) = Some l
                 /\ 0 < l.
Proof.
  induction entries as [|e rest IH]; intros alias_entry;
    cbn [first_match find_alias_entry]; [discriminate|].
  destruct (mapcache_alias_matches uri_ (endpoint e)) as [l|] eqn:Hm;
    [|discriminate].
  destruct (0 <? l) eqn:Hl.
  - intros [= <-]. rewrite String.eqb_refl. cbn [negb].
    split; [reflexivity|]. exists l. apply Z.ltb_lt in Hl. split; assumption.
  - intros Hrest. destruct (IH _ Hrest) as (Hfind & l' & Hm' & Hl').
    split; [|exists l'; split; assumption].
    destruct (String.eqb (endpoint e) (endpoint alias_entry)) eqn:Heq;
      cbn [negb]; [|exact Hfind].
    apply String.eqb_eq in Heq. rewrite Heq, Hm' in Hm.
    injection Hm as <-. apply Z.ltb_ge in Hl. lia.
Qed.

(** X16.  The fixup hook either declines and leaves the request as it
    was, or it marks the request for the first alias entry whose
    endpoint matches the URI with a positive length [l]: the handler is
    [mapcache], the path info is the URI from its [l]-th character, and
    the note names the endpoint.  On a request so marked,
    [apache_request_context_create] finds that same entry and logs
    nothing, and the request handler, for a GET or a POST, goes on with
    the configuration of that entry instead of declining. *)
Theorem fixups_choice_reaches_handler :
  forall sconfig r code r',
    mapcache_hook_fixups (Some sconfig) r = Some (code, r') ->
    (code = DECLINED /\ r' = r)
    \/ (exists alias_entry l,
           code = OK
           /\ first_match (aliases sconfig) (uri r) = Some alias_entry
           /\ mapcache_alias_matches (uri r) (endpoint alias_entry) = Some l
           /\ 0 < l
           /\ handler r' = Some "mapcache"%string
           /\ path_info r' = Some (string_from (Z.to_nat l) (uri r))
           /\ apr_table_get (notes r') "mapcache_alias_entry"
              = Some (endpoint alias_entry)
           /\ apache_request_context_create (Some sconfig) r'
              = (Some alias_entry, [])
           /\ (method_number r = M_GET \/ method_number r = M_POST ->
               request_handler_gate (Some sconfig) r' = inr alias_entry)).
Proof.
  intros sconfig r code r'. unfold mapcache_hook_fixups.
  destruct (handler r) as [h|]; [intros [= <- <-]; left; split; reflexivity|].
  assert (Hloop : fixups_loop (aliases sconfig) r = Some (code, r') ->
    (code = DECLINED /\ r' = r)
    \/ (exists alias_entry l,
           code = OK
           /\ first_match (aliases sconfig) (uri r) = Some alias_entry
           /\ mapcache_alias_matches (uri r) (endpoint alias_entry) = Some l
           /\ 0 < l
           /\ handler r' = Some "mapcache"%string
           /\ path_info r' = Some (string_from (Z.to_nat l) (uri r))
           /\ apr_table_get (notes r') "mapcache_alias_entry"
              = Some (endpoint alias_entry)
           /\ apache_request_context_create (Some sconfig) r'
              = (Some alias_entry, [])
           /\ (method_number r = M_GET \/ method_number r = M_POST ->
               request_handler_gate (Some sconfig) r' = inr alias_entry))).
  { intros Hrun.
    destruct (fixups_loop_cases _ _ _ _ Hrun)
      as [(Hc & Hr & _) | (e & l & Hc & Hfirst & Hm & Hl & Hr')].
    - left. split; assumption.
    - right. exists e, l.
      destruct (first_match_finds _ _ _ Hfirst) as (Hfind & _).
      assert (Hnote : apr_table_get (notes r') "mapcache_alias_entry"
                      = Some (endpoint e)).
      { subst r'. cbn [notes]. rewrite apr_table_get_set.
        now rewrite strcasecmp_eq_refl. }
      assert (Hctx : apache_request_context_create (Some sconfig) r'
                     = (Some e, [])).
      { unfold apache_request_context_create. rewrite Hnote, Hfind.
        reflexivity. }
      split; [exact Hc|]. split; [exact Hfirst|]. split; [exact Hm|].
      split; [exact Hl|]. split; [subst r'; reflexivity|].
      split; [subst r'; reflexivity|]. split; [exact Hnote|].
      split; [exact Hctx|].
      intros Hmethod. unfold request_handler_gate. rewrite Hctx.
      subst r'. cbn [handler method_number fst].
      destruct Hmethod as [-> | ->]; reflexivity. }
  destruct (uri r) as [|c rest] eqn:Huri.
  - exact Hloop.
  - destruct (negb (is_slash c)); [|exact Hloop].
    intros [= <- <-]. left. split; reflexivity.
Qed.

Lemma fixups_loop_app entries more r :
  (forall code r', fixups_loop entries r = Some (code, r') -> code = OK ->
                   fixups_loop (entries ++ more) r = Some (code, r'))
  /\ (forall r', fixups_loop entries r = Some (DECLINED, r') ->
                 fixups_loop (entries ++ more) r = fixups_loop more r).
Proof.
  induction entries as [|e rest [IHok IHdecl]];
    cbn [fixups_loop app].
  - split; [intros code r' [= <- <-]; discriminate | reflexivity].
  - destruct (mapcache_alias_matches (uri r) (endpoint e)) as [l|];
      [|split; [discriminate | discriminate]].
    destruct (0 <? l).
    + split; [intros code r' Hrun _; exact Hrun
             | intros r' Hrun; inversion Hrun].
    + split; [exact IHok | exact IHdecl].
Qed.

(** X17.  After the merge of the server configurations the aliases of
    the virtual host come before those of the main server: a request
    that the fixup hook marks with the aliases of the virtual host alone
    is marked in the same way with the merged configuration, and a
    request it declines with them is treated as with the aliases of the
    main server alone. *)
Theorem vhost_aliases_shadow_base :
  forall base vhost r,
    let merged := mod_mapcache_merge_server_conf base vhost in
    (forall r', mapcache_hook_fixups (Some vhost) r = Some (OK, r') ->
                mapcache_hook_fixups (Some merged) r = Some (OK, r'))
    /\ (forall r', mapcache_hook_fixups (Some vhost) r = Some (DECLINED, r') ->
                   mapcache_hook_fixups (Some merged) r
                   = mapcache_hook_fixups (Some base) r).
Proof.
  intros base vhost r merged. unfold mapcache_hook_fixups.
  subst merged. cbn [mod_mapcache_merge_server_conf aliases].
  destruct (fixups_loop_app (aliases vhost) (aliases base) r) as [Hok Hdecl].
  destruct (handler r) as [h|].
  { split; [intros r' Hrun; inversion Hrun | reflexivity]. }
  destruct (uri r) as [|c rest].
  - split; [intros r' Hrun; exact (Hok _ _ Hrun eq_refl) | exact Hdecl].
  - destruct (negb (is_slash c)).
    + split; [intros r' Hrun; inversion Hrun | reflexivity].
    + split; [intros r' Hrun; exact (Hok _ _ Hrun eq_refl) | exact Hdecl].
Qed.

End FixupHook.

Section FixupHookRuns.
Import Ctx ModMapcache ModMapcacheHooks HookNotions HookScenario.

(** X16 on a request for [/maps//wmts/...] on the main server: the
    second alias matches over five characters, and the path info keeps
    both slashes. *)
Lemma fixups_choice_reaches_handler_witness :
  exists r',
    mapcache_hook_fixups (Some main_server) a_fresh_request = Some (OK, r')
    /\ path_info r' = Some "//wmts/1.0.0/WMTSCapabilities.xml"%string
    /\ request_handler_gate (Some main_server) r'
       = inr (AliasEntry "/maps" "/etc/mapcache/maps.xml").
Proof.
  eassert (Hrun : mapcache_hook_fixups (Some main_server) a_fresh_request
                  = Some (_, _)) by (vm_compute; reflexivity).
  destruct (fixups_choice_reaches_handler _ _ _ _ Hrun)
    as [(Hc & _) | (e & l & _ & Hfirst & _ & _ & _ & _ & _ & _ & Hgate)].
  - discriminate Hc.
  - eexists. split; [exact Hrun|]. split; [reflexivity|].
    injection Hfirst as <-. apply Hgate. left. reflexivity.
Defined.

(** X17 on a virtual host that serves [/maps] itself: the merged
    configuration answers with the entry of the virtual host. *)
Lemma vhost_aliases_shadow_base_witness :
  exists r',
    mapcache_hook_fixups
      (Some (mod_mapcache_merge_server_conf main_server a_vhost))
      a_fresh_request = Some (OK, r')
    /\ fst (apache_request_context_create
              (Some (mod_mapcache_merge_server_conf main_server a_vhost)) r')
       = Some (AliasEntry "/maps" "/etc/mapcache/vhost-maps.xml").
Proof.
  eassert (Hrun : mapcache_hook_fixups (Some a_vhost) a_fresh_request
                  = Some (OK, _)) by (vm_compute; reflexivity).
  eexists. split.
  - exact (proj1 (vhost_aliases_shadow_base main_server a_vhost a_fresh_request)
                 _ Hrun).
  - vm_compute; reflexivity.
Defined.

End FixupHookRuns.

(** ** Apache module: the service URL of a capabilities request *)

Section CapabilitiesUrl.
Import ModMapcache ModMapcacheHooks HookNotions.

Lemma strstr_head haystack :
  forall c needle e,
    strstr haystack (String c needle) = Some e ->
    nth_error (list_ascii_of_string haystack) e = Some c.
Proof.
  induction haystack as [|h rest IH]; intros c needle e; cbn [strstr].
  - cbn [String.prefix]. discriminate.
  - destruct (String.prefix (String c needle) (String h rest)) eqn:Hp.
    + intros [= <-]. cbn [String.prefix] in Hp.
      destruct (ascii_dec c h) as [->|]; [reflexivity | discriminate].
    + destruct (strstr rest (String c needle)) as [e'|] eqn:Hrest;
        [|discriminate].
      intros [= <-]. cbn [list_ascii_of_string nth_error].
      exact (IH _ _ _ Hrest).
Qed.

Lemma leading_slashes_spec l :
  exists tail,
    l = repeat "/"%char (leading_slashes l) ++ tail
    /\ match tail with
       | [] => True
       | c :: _ => is_slash c = false
       end.
Proof.
  induction l as [|c rest (tail & Hrest & Htail)]; cbn [leading_slashes].
  - exists []. split; [reflexivity | exact I].
  - destruct (is_slash c) eqn:Hc.
    + exists tail. split; [|exact Htail].
      cbn [repeat app]. rewrite <- Hrest.
      unfold is_slash in Hc. apply Ascii.eqb_eq in Hc. now subst c.
    + exists (c :: rest). split; [reflexivity | exact Hc].
Qed.

Lemma string_of_list_ascii_snoc2 stem c d :
  string_of_list_ascii (stem ++ [c; d])
  = (string_of_list_ascii stem ++ String c (String d EmptyString))%string.
Proof.
  induction stem as [|a stem IH]; [reflexivity|].
  cbn [app string_of_list_ascii]. now rewrite IH.
Qed.

Lemma string_of_list_ascii_append a b :
  string_of_list_ascii (a ++ b)
  = (string_of_list_ascii a ++ string_of_list_ascii b)%string.
Proof.
  induction a as [|c a IH]; [reflexivity|].
  cbn [app string_of_list_ascii]. now rewrite IH.
Qed.

Lemma rev_repeat_same (x : ascii) n : rev (repeat x n) = repeat x n.
Proof.
  induction n as [|n IH]; [reflexivity|].
  cbn [repeat rev]. rewrite IH. symmetry. apply repeat_cons.
Qed.

(** The characters kept when the path info was found at index [e]
    behind [back] slashes. *)
Lemma single_slash_prefix (chars : list ascii) (e : nat) :
  nth_error chars e = Some "/"%char ->
  leading_slashes (rev (firstn e chars)) <> e ->
  exists stem c,
    firstn (e - leading_slashes (rev (firstn e chars)) + 1) chars
    = stem ++ [c; "/"%char]
    /\ is_slash c = false.
Proof.
  intros Hnth Hback.
  set (back := leading_slashes (rev (firstn e chars))) in *.
  assert (He : (e < length chars)%nat) by (apply nth_error_Some; congruence).
  destruct (nth_error_split chars e Hnth) as (pre & post & Hchars & Hpre).
  assert (Hfirst : firstn e chars = pre).
  { rewrite Hchars, <- Hpre. rewrite firstn_app, Nat.sub_diag, firstn_all.
    cbn [firstn]. now rewrite app_nil_r. }
  destruct (leading_slashes_spec (rev (firstn e chars))) as (tail & Hrev & Htail).
  fold back in Hrev. rewrite Hfirst in Hrev.
  assert (Hlen : length (rev pre) = (back + length tail)%nat).
  { rewrite Hrev at 1. now rewrite length_app, repeat_length. }
  rewrite length_rev in Hlen.
  destruct tail as [|c tail'].
  { cbn in Hlen. lia. }
  assert (Hpre' : pre = rev tail' ++ [c] ++ repeat "/"%char back).
  { rewrite <- (rev_involutive pre), Hrev, rev_app_distr, rev_repeat_same.
    cbn [rev]. rewrite <- app_assoc. reflexivity. }
  exists (rev tail'), c. split; [|exact Htail].
  cbn [length] in Hlen.
  replace (e - back + 1)%nat with (length (rev tail' ++ [c]) + 1)%nat
    by (rewrite length_app, length_rev; cbn [length]; lia).
  rewrite Hchars, Hpre'.
  replace ((rev tail' ++ [c] ++ repeat "/"%char back) ++ "/"%char :: post)
    with ((rev tail' ++ [c]) ++ (repeat "/"%char back ++ "/"%char :: post))
    by (rewrite <- !app_assoc; reflexivity).
  rewrite firstn_app.
  replace (length (rev tail' ++ [c]) + 1 - length (rev tail' ++ [c]))%nat
    with 1%nat by lia.
  rewrite firstn_all2 by lia.
  rewrite <- app_assoc. f_equal. cbn [app]. f_equal.
  destruct back; reflexivity.
Qed.

(** X18.  The URL of a capabilities request, after the path info was
    removed from it: when the path info starts with a slash and is more
    than that slash, the URL handed on is either the URL as it was (the
    path info does not occur in it), or a beginning of it that ends
    with exactly one slash. *)
Theorem capabilities_url_ends_with_one_slash :
  forall url path_info url',
    starts_with_slash path_info = true ->
    path_info <> "/"%string ->
    remove_path_info url path_info = Some url' ->
    (strstr url path_info = None /\ url' = url)
    \/ (exists stem c rest,
           url' = (stem ++ String c "/")%string
           /\ is_slash c = false
           /\ url = (url' ++ rest)%string).
Proof.
  intros url path_info url' Hslash Hmore. unfold remove_path_info.
  destruct path_info as [|p0 path_rest]; [discriminate|].
  cbn [starts_with_slash] in Hslash.
  unfold is_slash in Hslash. apply Ascii.eqb_eq in Hslash. subst p0.
  cbn [Libc.at_end negb andb].
  destruct (String.eqb (String "/" path_rest) "/") eqn:Heq.
  { apply String.eqb_eq in Heq. contradiction. }
  cbn [negb].
  destruct (strstr url (String "/" path_rest)) as [e|] eqn:Hfound.
  2:{ intros [= <-]. left. split; reflexivity. }
  rewrite (strstr_head _ _ _ _ Hfound). change (is_slash "/") with true.
  cbn match.
  destruct (leading_slashes (rev (firstn e (list_ascii_of_string url))) =? e)%nat
    eqn:Hback; [discriminate|].
  apply Nat.eqb_neq in Hback.
  intros [= <-]. right.
  destruct (single_slash_prefix _ _ (strstr_head _ _ _ _ Hfound) Hback)
    as (stem & c & Hkeep & Hc).
  exists (string_of_list_ascii stem), c,
    (string_of_list_ascii
       (skipn (e - leading_slashes (rev (firstn e (list_ascii_of_string url)))
               + 1) (list_ascii_of_string url))).
  split; [|split; [exact Hc|]].
  - rewrite Hkeep. apply string_of_list_ascii_snoc2.
  - rewrite <- string_of_list_ascii_append, firstn_skipn.
    symmetry. apply string_of_list_ascii_of_string.
Qed.

End CapabilitiesUrl.

Section CapabilitiesUrlRuns.
Import ModMapcache ModMapcacheHooks HookNotions.

(** X18 on a URL with a doubled slash before the path info. *)
Lemma capabilities_url_ends_with_one_slash_witness :
  remove_path_info "http://host/maps//wmts/1.0.0/WMTSCapabilities.xml"
                   "//wmts/1.0.0/WMTSCapabilities.xml"
  = Some "http://host/maps/"%string
  /\ exists stem c rest,
       "http://host/maps/"%string = (stem ++ String c "/")%string
       /\ is_slash c = false
       /\ "http://host/maps//wmts/1.0.0/WMTSCapabilities.xml"%string
          = ("http://host/maps/" ++ rest)%string.
Proof.
  assert (Hrun : remove_path_info
                   "http://host/maps//wmts/1.0.0/WMTSCapabilities.xml"
                   "//wmts/1.0.0/WMTSCapabilities.xml"
                 = Some "http://host/maps/"%string) by (vm_compute; reflexivity).
  split; [exact Hrun|].
  destruct (capabilities_url_ends_with_one_slash
              "http://host/maps//wmts/1.0.0/WMTSCapabilities.xml"
              "//wmts/1.0.0/WMTSCapabilities.xml" _ eq_refl
              ltac:(discriminate) Hrun) as [(Hnone & _) | Hone].
  - vm_compute in Hnone. discriminate Hnone.
  - exact Hone.
Defined.

End CapabilitiesUrlRuns.

(** ** Apache module: connection pools of a child process *)

Section ChildInitFacts.
Import Ctx ModMapcache ModMapcacheHooks.
Context {W pool : Type} `{PoolEnv W pool}.

Lemma child_init_aliases_shared cfg server_hostname entries (p : pool) (w : W) :
  exists logged,
    child_init_aliases cfg server_hostname entries (Some p) w
    = (List.map (fun e => (e, Some p)) entries, logged, w).
Proof.
  induction entries as [|e rest [logged IH]]; cbn [child_init_aliases List.map].
  - exists []. reflexivity.
  - rewrite IH. eexists. reflexivity.
Qed.

(** X19.  With [MapCacheConnectionPoolSharing] on, the child process
    creates one connection pool per server, with the four pool
    parameters of the server configuration, and every alias of the
    server gets that pool: the creation is called once, for the first
    alias.  With the sharing off, the second alias gets the pool of a
    second creation. *)
Theorem shared_pool_is_created_once :
  forall cfg server_hostname (w : W) rv cp (w1 : W),
    mapcache_connection_pool_create_custom
      (cp_min cfg) (cp_smax cfg) (cp_hmax cfg) (cp_ttl cfg) w = (rv, cp, w1) ->
    aliases cfg <> [] ->
    (cp_sharing cfg <> 0 ->
     forall p, cp = Some p ->
       exists logged,
         child_init_server cfg server_hostname w
         = (List.map (fun e => (e, Some p)) (aliases cfg), logged, w1))
    /\ (cp_sharing cfg = 0 ->
        forall first second rest rv2 cp2 (w2 : W),
          aliases cfg = first :: second :: rest ->
          mapcache_connection_pool_create_custom
            (cp_min cfg) (cp_smax cfg) (cp_hmax cfg) (cp_ttl cfg) w1
          = (rv2, cp2, w2) ->
          exists given logged w',
            child_init_server cfg server_hostname w
            = ((first, cp) :: (second, cp2) :: given, logged, w')).
Proof.
  intros cfg server_hostname w rv cp w1 Hcreate Hne.
  unfold child_init_server. split.
  - intros Hsharing p ->.
    destruct (aliases cfg) as [|first rest]; [contradiction|].
    cbn [child_init_aliases List.map]. rewrite Hcreate.
    apply Z.eqb_neq in Hsharing. rewrite Hsharing.
    destruct (child_init_aliases_shared cfg server_hostname rest p w1)
      as [logged ->].
    eexists. reflexivity.
  - intros Hsharing first second rest rv2 cp2 w2 -> Hcreate2.
    cbn [child_init_aliases]. rewrite Hcreate.
    apply Z.eqb_eq in Hsharing. rewrite Hsharing, Hcreate2.
    destruct (child_init_aliases cfg server_hostname rest None w2)
      as [[given logged] w'].
    do 3 eexists. reflexivity.
Qed.

End ChildInitFacts.

Section ChildInitRuns.
Import Ctx ModMapcache ModMapcacheHooks HookScenario.

(** X19 on a server with two aliases and the sharing on. *)
Lemma shared_pool_is_created_once_witness :
  exists logged,
    child_init_server a_sharing_server "tiles.example.org" 0%nat
    = ([(AliasEntry "/tiles" "/etc/mapcache/tiles.xml", Some 0%nat);
        (AliasEntry "/maps" "/etc/mapcache/maps.xml", Some 0%nat)],
       logged, 1%nat).
Proof.
  refine (proj1 (shared_pool_is_created_once a_sharing_server
                   "tiles.example.org" 0%nat 0 (Some 0%nat) 1%nat eq_refl _)
                _ 0%nat eq_refl); discriminate.
Defined.

End ChildInitRuns.

(** ** Riak backend: retries and outcomes *)

Section RiakOutcomes.
Import Ctx Tile Riak Notions.
Context {W client : Type} `{RiakEnv W client} `{ResultCodes}.

(** Two result codes that the interface keeps apart are not equal. *)
Ltac codes_differ :=
  solve [ exfalso;
    match goal with
    | E : MAPCACHE_SUCCESS = MAPCACHE_CACHE_MISS |- _ =>
        exact (success_is_not_miss E)
    | E : MAPCACHE_CACHE_MISS = MAPCACHE_SUCCESS |- _ =>
        exact (success_is_not_miss (eq_sym E))
    | E : MAPCACHE_SUCCESS = MAPCACHE_FAILURE |- _ =>
        exact (success_is_not_failure E)
    | E : MAPCACHE_FAILURE = MAPCACHE_SUCCESS |- _ =>
        exact (success_is_not_failure (eq_sym E))
    | E : MAPCACHE_CACHE_MISS = MAPCACHE_FAILURE |- _ =>
        exact (miss_is_not_failure E)
    | E : MAPCACHE_FAILURE = MAPCACHE_CACHE_MISS |- _ =>
        exact (miss_is_not_failure (eq_sym E))
    | E : MAPCACHE_TRUE = MAPCACHE_FALSE |- _ =>
        exact (true_is_not_false E)
    | E : MAPCACHE_FALSE = MAPCACHE_TRUE |- _ =>
        exact (true_is_not_false (eq_sym E))
    end ].

(** The warnings of the request loop: one for each request that failed,
    and no more than [retries + 1] of them. *)
Lemma riak_retry_warnings {X : Type} (n : nat) :
  forall (op : W -> Z * X * W) retry_message (cl : client) retries
         connect_error ctx w,
    let run := riak_retry n op retry_message cl retries connect_error ctx w in
    exists warnings,
      logged (snd (fst run)) = logged ctx ++ warnings
      /\ Z.of_nat (length warnings) <= Z.max 1 (retries + 1)
      /\ Forall (fun entry => fst entry = MAPCACHE_WARN) warnings
      /\ (warnings = [] -> fst (fst (fst (fst run))) = RIACK_SUCCESS).
Proof.
  induction n as [|n IH];
    intros op retry_message cl retries connect_error ctx w; cbn zeta;
    cbn [riak_retry]; destruct (op w) as [[error obj] v];
    destruct (negb (error =? RIACK_SUCCESS)) eqn:Herror.
  - pose proof (riak_reconnect_loop_le (Z.to_nat retries) cl retries v) as Hle.
    destruct (riak_reconnect_loop (Z.to_nat retries) cl retries v)
      as [[ce rt] v'].
    apply negb_true_iff, Z.eqb_neq in Herror.
    exists [(MAPCACHE_WARN, retry_message (4 - retries) error)].
    destruct (0 <=? rt - 1); cbn [fst snd logged log length];
      (split; [reflexivity|]); (split; [lia|]);
      (split; [repeat constructor | discriminate]).
  - apply negb_false_iff, Z.eqb_eq in Herror. exists [].
    cbn [fst snd length]. split; [now rewrite app_nil_r|]. split; [lia|].
    split; [constructor | intros _; exact Herror].
  - pose proof (riak_reconnect_loop_le (Z.to_nat retries) cl retries v) as Hle.
    destruct (riak_reconnect_loop (Z.to_nat retries) cl retries v)
      as [[ce rt] v']. cbn [fst snd] in Hle.
    apply negb_true_iff, Z.eqb_neq in Herror.
    destruct (0 <=? rt - 1) eqn:Hmore.
    + apply Z.leb_le in Hmore.
      destruct (IH op retry_message cl (rt - 1) ce
                   (log MAPCACHE_WARN (retry_message (4 - retries) error) ctx)
                   v') as (warnings & Hlog & Hlen & Hall & Hiff).
      exists ((MAPCACHE_WARN, retry_message (4 - retries) error) :: warnings).
      split; [rewrite Hlog; cbn [logged log]; now rewrite <- app_assoc|].
      split; [cbn [length]; lia|].
      split; [constructor; [reflexivity | exact Hall] | discriminate].
    + exists [(MAPCACHE_WARN, retry_message (4 - retries) error)].
      cbn [fst snd logged log length].
      split; [reflexivity|]. split; [lia|].
      split; [repeat constructor | discriminate].
  - apply negb_false_iff, Z.eqb_eq in Herror. exists [].
    cbn [fst snd length]. split; [now rewrite app_nil_r|]. split; [lia|].
    split; [constructor | intros _; exact Herror].
Qed.

(** X20.  The retry loop through which the riak operations send their
    request, run with [retries = 3] as they run it: whatever the
    request and the reconnections answer, the loop adds to the log
    warnings only, at most four of them; it never touches the error
    slot; and when it logged nothing the request succeeded. *)
Theorem riak_request_fails_at_most_four_times :
  forall (X : Type) (op : W -> Z * X * W) retry_message (cl : client) ctx w,
    let run := riak_retry3 op retry_message cl ctx w in
    exists warnings,
      logged (snd (fst run)) = logged ctx ++ warnings
      /\ (length warnings <= 4)%nat
      /\ Forall (fun entry => fst entry = MAPCACHE_WARN) warnings
      /\ err (snd (fst run)) = err ctx
      /\ (warnings = [] -> fst (fst (fst (fst run))) = RIACK_SUCCESS).
Proof.
  intros X op retry_message cl ctx w run. subst run. unfold riak_retry3.
  destruct (riak_retry_warnings (Z.to_nat (3 + 1)) op retry_message cl 3
              RIACK_SUCCESS ctx w) as (warnings & Hlog & Hlen & Hall & Hok).
  exists warnings. split; [exact Hlog|]. split; [lia|].
  split; [exact Hall|]. split; [apply riak_retry_err | exact Hok].
Qed.

(** The results of the request loop do not depend on the wording of
    the warnings nor on the context. *)
Lemma riak_retry_same_results {X : Type} (n : nat) :
  forall (op : W -> Z * X * W) message1 message2 (cl : client) retries
         connect_error ctx1 ctx2 w,
    (let '(error, connect_error, obj, _, v) :=
       riak_retry n op message1 cl retries connect_error ctx1 w in
     (error, connect_error, obj, v))
    = (let '(error, connect_error, obj, _, v) :=
         riak_retry n op message2 cl retries connect_error ctx2 w in
       (error, connect_error, obj, v)).
Proof.
  induction n as [|n IH];
    intros op message1 message2 cl retries connect_error ctx1 ctx2 w;
    cbn [riak_retry]; destruct (op w) as [[error obj] v];
    destruct (negb (error =? RIACK_SUCCESS)); try reflexivity;
    destruct (riak_reconnect_loop (Z.to_nat retries) cl retries v)
      as [[ce rt] v'];
    destruct (0 <=? rt - 1); try reflexivity.
  apply IH.
Qed.

Lemma riak_names_error cache tile ctx ctx' :
  riak_names cache tile ctx = inl ctx' -> GC_HAS_ERROR ctx' = true.
Proof.
  unfold riak_names.
  destruct (mapcache_util_get_tile_key ctx tile (key_template cache)
                                       key_sanitized_chars "#") as [ctx1 key].
  destruct (GC_HAS_ERROR ctx1) eqn:E1; [intros [= <-]; exact E1|].
  destruct (string_from_template ctx1 tile (bucket_template cache))
    as [ctx2 bucket].
  destruct (GC_HAS_ERROR ctx2) eqn:E2; [intros [= <-]; exact E2|].
  destruct (bucket_type_template cache) as [t|]; [|discriminate].
  destruct (string_from_template ctx2 tile t) as [ctx3 bucket_type].
  destruct (GC_HAS_ERROR ctx3) eqn:E3; [intros [= <-]; exact E3 | discriminate].
Qed.

Lemma riak_get_fill_keeps c tile ctx :
  tile_id (fst (riak_get_fill c tile ctx)) = tile_id tile
  /\ raw_image (fst (riak_get_fill c tile ctx)) = raw_image tile.
Proof.
  unfold riak_get_fill.
  destruct (is_blank_sentinel c).
  - destruct (mapcache_empty_png_decode ctx
                (tile_sx (grid (set_encoded_data (Some []) tile)))
                (tile_sy (grid (set_encoded_data (Some []) tile)))
                (data c) (nodata (set_encoded_data (Some []) tile)))
      as [[cx buf] is_empty].
    destruct (negb (last_modified_present c =? 0)
              && negb (last_modified_usecs_present c =? 0));
      [|destruct (negb (last_modified_present c =? 0))];
      split; reflexivity.
  - destruct (negb (last_modified_present c =? 0)
              && negb (last_modified_usecs_present c =? 0));
      [|destruct (negb (last_modified_present c =? 0))];
      split; reflexivity.
Qed.

(** X21.  A riak read that returns gives [MAPCACHE_SUCCESS],
    [MAPCACHE_CACHE_MISS] or [MAPCACHE_FAILURE].  Unless it is
    [MAPCACHE_SUCCESS] the tile is left exactly as it was; a
    [MAPCACHE_FAILURE] always comes with an error in the context; and a
    [MAPCACHE_SUCCESS] changes the encoded data, the modification time
    and the nodata flag only, never the identity of the tile nor its raw
    image. *)
Theorem riak_get_outcomes :
  forall cache tile ctx (w : W) ret tile' ctx' w',
    _mapcache_cache_riak_get cache tile ctx w = Some (ret, tile', ctx', w') ->
    (ret = MAPCACHE_SUCCESS \/ ret = MAPCACHE_CACHE_MISS
     \/ ret = MAPCACHE_FAILURE)
    /\ (ret <> MAPCACHE_SUCCESS -> tile' = tile)
    /\ (ret = MAPCACHE_FAILURE -> GC_HAS_ERROR ctx' = true)
    /\ tile_id tile' = tile_id tile
    /\ raw_image tile' = raw_image tile.
Proof.
  intros cache tile ctx w ret tile' ctx' w'. unfold _mapcache_cache_riak_get.
  destruct (riak_names cache tile ctx)
    as [ctx0 | [[[ctx1 key] bucket] pbucket_type]] eqn:Hnames.
  { intros [= <- <- <- <-]. apply riak_names_error in Hnames.
    repeat split; auto. }
  destruct (_riak_get_connection ctx1 cache w) as [[ctx2 pc] w2].
  destruct (GC_HAS_ERROR ctx2) eqn:Herr.
  { intros [= <- <- <- <-]. repeat split; auto. }
  destruct pc as [pc|]; [|discriminate].
  destruct (riak_retry3
              (riack_get_ext (connection pc) bucket key (get_properties cache)
                             pbucket_type)
              (get_retry_message key cache) (connection pc) ctx2 w2)
    as [[[[error connect_error] obj] ctx3] w3].
  destruct (negb (error =? RIACK_SUCCESS)).
  { destruct (riak_drop_connection connect_error ctx3 pc w3) as [ctx4 w4].
    intros [= <- <- <- <-]. repeat split; auto. }
  destruct obj as [obj|]; [|discriminate].
  destruct (content obj) as [|c others].
  { destruct (mapcache_connection_pool_release_connection ctx3 pc w3)
      as [ctx4 w4].
    intros [= <- <- <- <-].
    repeat split; auto; intros Hret; codes_differ. }
  destruct (data_len c =? 0).
  { destruct (mapcache_connection_pool_release_connection ctx3 pc w3)
      as [ctx4 w4].
    intros [= <- <- <- <-].
    repeat split; auto; intros Hret; codes_differ. }
  pose proof (riak_get_fill_keeps c tile ctx3) as [Hid Hraw].
  destruct (riak_get_fill c tile ctx3) as [tile1 ctx4].
  destruct (mapcache_connection_pool_release_connection ctx4 pc w3)
    as [ctx5 w5].
  intros [= <- <- <- <-]. cbn [fst] in Hid, Hraw.
  repeat split; auto; intros Hret; try codes_differ.
  contradiction Hret. reflexivity.
Qed.

(** X22.  On the same tile, context and world, [has_tile] and the read
    agree: both are defined or both are not, [has_tile] answers
    [MAPCACHE_TRUE] or [MAPCACHE_FALSE], and it answers [MAPCACHE_TRUE]
    exactly when the read returns [MAPCACHE_SUCCESS]. *)
Theorem riak_has_tile_agrees_with_get :
  forall cache tile ctx (w : W),
    match _mapcache_cache_riak_has_tile cache tile ctx w,
          _mapcache_cache_riak_get cache tile ctx w with
    | Some (r, _, _), Some (ret, _, _, _) =>
        (r = MAPCACHE_TRUE \/ r = MAPCACHE_FALSE)
        /\ (r = MAPCACHE_TRUE <-> ret = MAPCACHE_SUCCESS)
    | None, None => True
    | _, _ => False
    end.
Proof.
  intros cache tile ctx w.
  unfold _mapcache_cache_riak_has_tile, _mapcache_cache_riak_get.
  destruct (riak_names cache tile ctx)
    as [ctx0 | [[[ctx1 key] bucket] pbucket_type]].
  { split; [right; reflexivity|]. split; intros E; codes_differ. }
  destruct (_riak_get_connection ctx1 cache w) as [[ctx2 pc] w2].
  destruct (GC_HAS_ERROR ctx2).
  { split; [right; reflexivity|]. split; intros E; codes_differ. }
  destruct pc as [pc|]; [|exact I].
  pose proof (riak_retry_same_results (Z.to_nat (3 + 1))
                (riack_get_ext (connection pc) bucket key (get_properties cache)
                               pbucket_type)
                (has_tile_retry_message key cache) (get_retry_message key cache)
                (connection pc) 3 RIACK_SUCCESS ctx2 ctx2 w2) as Hsame.
  unfold riak_retry3.
  destruct (riak_retry (Z.to_nat (3 + 1))
              (riack_get_ext (connection pc) bucket key (get_properties cache)
                             pbucket_type)
              (has_tile_retry_message key cache) (connection pc) 3
              RIACK_SUCCESS ctx2 w2)
    as [[[[error connect_error] obj] ctx3] w3].
  destruct (riak_retry (Z.to_nat (3 + 1))
              (riack_get_ext (connection pc) bucket key (get_properties cache)
                             pbucket_type)
              (get_retry_message key cache) (connection pc) 3
              RIACK_SUCCESS ctx2 w2)
    as [[[[error' connect_error'] obj'] ctx3'] w3'].
  injection Hsame as <- <- <- <-.
  destruct (negb (error =? RIACK_SUCCESS)).
  { destruct (riak_drop_connection connect_error ctx3 pc w3) as [ctx4 w4].
    destruct (riak_drop_connection connect_error ctx3' pc w3) as [ctx4' w4'].
    split; [right; reflexivity|]. split; intros E; codes_differ. }
  destruct obj as [obj|]; [|exact I].
  unfold no_content.
  destruct (content obj) as [|c others].
  { destruct (mapcache_connection_pool_release_connection ctx3 pc w3)
      as [ctx4 w4].
    destruct (mapcache_connection_pool_release_connection ctx3' pc w3)
      as [ctx4' w4'].
    split; [right; reflexivity|]. split; intros E; codes_differ. }
  destruct (data_len c =? 0).
  { destruct (mapcache_connection_pool_release_connection ctx3 pc w3)
      as [ctx4 w4].
    destruct (mapcache_connection_pool_release_connection ctx3' pc w3)
      as [ctx4' w4'].
    split; [right; reflexivity|]. split; intros E; codes_differ. }
  destruct (mapcache_connection_pool_release_connection ctx3 pc w3)
    as [ctx4 w4].
  destruct (riak_get_fill c tile ctx3') as [tile1 ctx4'].
  destruct (mapcache_connection_pool_release_connection ctx4' pc w3)
    as [ctx5 w5].
  split; [left; reflexivity|]. split; reflexivity.
Qed.

End RiakOutcomes.

Section RiakRoundTrip.
Import Ctx Tile Riak Notions.
Context {W client : Type} `{RiakEnv W client} `{ResultCodes}.

(** X23.  A riak cache without blank detection and a tile that carries
    encoded data [buf].  When the names are computed and a connection is
    obtained without error, the set hands to the put request an object
    whose single content is exactly [buf], with the mime type of the
    tileset format as content type, or else the type sniffed from the
    data; the tile is not changed.  A read whose request returns an
    object with that data, not taken for a blank tile, returns
    [MAPCACHE_SUCCESS] with exactly [buf] as encoded data, the nodata
    flag as it was, and the modification time of the object when it has
    one. *)
Theorem riak_regular_tile_round_trip :
  forall cache tile ctx (w : W) ctx1 key bucket pbucket_type buf ctx2 pc w2
         tile_r ctx_r (w_r : W) ctx4 key_r bucket_r pbucket_type_r ctx5 pc_r w5
         connect_error obj c others ctx6 w6,
    (* the set *)
    riak_names cache tile ctx = inr (ctx1, key, bucket, pbucket_type) ->
    detect_blank cache = 0 ->
    encoded_data tile = Some buf ->
    _riak_get_connection ctx1 cache w = (ctx2, Some pc, w2) ->
    GC_HAS_ERROR ctx2 = false ->
    (* the read of what was stored *)
    riak_names cache tile_r ctx_r = inr (ctx4, key_r, bucket_r, pbucket_type_r) ->
    _riak_get_connection ctx4 cache w_r = (ctx5, Some pc_r, w5) ->
    GC_HAS_ERROR ctx5 = false ->
    riak_retry3
      (riack_get_ext (connection pc_r) bucket_r key_r (get_properties cache)
                     pbucket_type_r)
      (get_retry_message key_r cache) (connection pc_r) ctx5 w5
    = (RIACK_SUCCESS, connect_error, Some obj, ctx6, w6) ->
    content obj = c :: others ->
    data c = buf ->
    buf <> [] ->
    is_blank_sentinel c = false ->
    let content_type :=
      match match format (tileset tile) with
            | Some f => mime_type f
            | None => None
            end with
      | Some t => Some t
      | None =>
          match mapcache_imageio_header_sniff ctx1 (Some buf) with
          | GC_PNG => Some "image/png"%string
          | GC_JPEG => Some "image/jpeg"%string
          | GC_UNKNOWN => None
          end
      end in
    let stored :=
      RiackObject bucket key 0 [RiackContent buf content_type 0 0 0 0] in
    _mapcache_cache_riak_set cache tile ctx w
    = Some (riak_set_put cache tile ctx2 w2 pc stored pbucket_type
                         (put_properties cache))
    /\ fst (fst (riak_set_put cache tile ctx2 w2 pc stored pbucket_type
                              (put_properties cache))) = tile
    /\ exists tile' ctx' w',
        _mapcache_cache_riak_get cache tile_r ctx_r w_r
        = Some (MAPCACHE_SUCCESS, tile', ctx', w')
        /\ encoded_data tile' = Some buf
        /\ nodata tile' = nodata tile_r
        /\ mtime tile'
           = (if negb (last_modified_present c =? 0)
              then apr_time_make (last_modified c)
                     (if negb (last_modified_usecs_present c =? 0)
                      then last_modified_usecs c else 0)
              else mtime tile_r)
        /\ tile_id tile' = tile_id tile_r.
Proof.
  intros cache tile ctx w ctx1 key bucket pbucket_type buf ctx2 pc w2
         tile_r ctx_r w_r ctx4 key_r bucket_r pbucket_type_r ctx5 pc_r w5
         connect_error obj c others ctx6 w6
         Hnames Hdetect Hdata Hconn Hclean
         Hnames_r Hconn_r Hclean_r Hloop Hcontent Hbytes Hsome Hregular
         content_type stored.
  split; [|split].
  - unfold _mapcache_cache_riak_set, riak_set_prepare.
    rewrite Hnames. unfold riak_detect_blank.
    apply Z.eqb_eq in Hdetect. rewrite Hdetect. cbn [negb].
    rewrite Hdata. cbn beta iota zeta. rewrite Hconn, Hclean, Hdata.
    reflexivity.
  - unfold riak_set_put.
    destruct (riak_retry3 _ _ _ ctx2 w2) as [[[[e ce] u] cx] v].
    destruct (riak_drop_connection ce cx pc v) as [cy v'].
    destruct (negb (e =? RIACK_SUCCESS)); reflexivity.
  - unfold _mapcache_cache_riak_get.
    rewrite Hnames_r, Hconn_r, Hclean_r, Hloop, Z.eqb_refl. cbn [negb].
    rewrite Hcontent.
    assert (Hlen : (data_len c =? 0) = false).
    { unfold data_len. rewrite Hbytes. destruct buf; [contradiction|].
      reflexivity. }
    rewrite Hlen. unfold riak_get_fill. rewrite Hregular, Hbytes.
    cbn beta iota zeta.
    destruct (negb (last_modified_present c =? 0)) eqn:Hpresent;
      destruct (negb (last_modified_usecs_present c =? 0)) eqn:Husecs;
      cbn [andb]; cbn beta iota zeta;
      destruct (mapcache_connection_pool_release_connection ctx6 pc_r w6)
        as [cy v];
      do 3 eexists; (split; [reflexivity|]); repeat split; reflexivity.
Qed.

End RiakRoundTrip.

Section RiakOutcomeRuns.
Import Ctx Tile Riak Notions Sim Scenario RiakScenario.

(** X21 on a stored object without data, read after one failed
    request: a miss, and the tile is as it was. *)
Lemma riak_get_outcomes_witness :
  exists ret tile' ctx' w',
    _mapcache_cache_riak_get a_riak_cache a_tile new_context hollow_riak_world
    = Some (ret, tile', ctx', w')
    /\ ret = MAPCACHE_CACHE_MISS
    /\ tile' = a_tile.
Proof.
  eassert (Hrun : _mapcache_cache_riak_get a_riak_cache a_tile new_context
                    hollow_riak_world = Some (_, _, _, _))
    by (vm_compute; reflexivity).
  destruct (riak_get_outcomes _ _ _ _ _ _ _ _ Hrun) as (_ & Hsame & _).
  do 4 eexists. split; [exact Hrun|]. split; [reflexivity|].
  apply Hsame. discriminate.
Defined.

(** X23 for a tile of four bytes. *)
Lemma riak_regular_tile_round_trip_witness :
  exists tile1 ctx1 tile2 ctx2 w2,
    _mapcache_cache_riak_set a_plain_riak_cache an_encoded_tile new_context
                             empty_riak_world
    = Some (tile1, ctx1, stored_tile_world)
    /\ _mapcache_cache_riak_get a_plain_riak_cache a_tile new_context
                                stored_tile_world
       = Some (MAPCACHE_SUCCESS, tile2, ctx2, w2)
    /\ encoded_data tile2 = Some a_tile_bytes.
Proof.
  destruct (riak_regular_tile_round_trip
              a_plain_riak_cache an_encoded_tile new_context empty_riak_world
              new_context (sim_tile_key a_tile) "tiles"%string None
              a_tile_bytes new_context (PooledConnection tt) empty_riak_world
              a_tile new_context stored_tile_world
              new_context (sim_tile_key a_tile) "tiles"%string None
              new_context (PooledConnection tt) stored_tile_world
              sim_riack_success
              (RiackObject "tiles" (sim_tile_key a_tile) 0 [a_stored_content])
              a_stored_content [] new_context stored_tile_world)
    as (Hset & _ & tile2 & ctx2 & w2 & Hget & Hdata & _);
    try reflexivity; try discriminate.
  eexists _, _, tile2, ctx2, w2. split; [|split].
  - rewrite Hset. vm_compute. reflexivity.
  - exact Hget.
  - exact Hdata.
Defined.

End RiakOutcomeRuns.

(** ** Riak backend: configuration and connections *)

Section RiakConfigFacts.
Import Ctx Riak Ezxml Libc RiakConfig.
Context `{LibC}.

(** The optional tags keep the server, the bucket and the quorums, and
    add an error only for a session timeout that is not positive. *)
Lemma riak_parse_options_keeps node cur_node dcache ctx dcache' ctx' :
  riak_parse_options node cur_node dcache ctx = (dcache', ctx') ->
  GC_HAS_ERROR ctx' = false ->
  ctx' = ctx
  /\ host dcache' = host dcache /\ port dcache' = port dcache
  /\ bucket_template dcache' = bucket_template dcache
  /\ cache_r dcache' = cache_r dcache /\ cache_w dcache' = cache_w dcache
  /\ user dcache' = match text_of (ezxml_child cur_node "user") with
                    | Some t => Some t
                    | None => user dcache
                    end
  /\ (forall t, text_of (ezxml_child cur_node "session_timeout") = Some t ->
        session_timeout dcache' = atoi t /\ 0 < atoi t).
Proof.
  unfold riak_parse_options, set_if_text.
  destruct (text_of (ezxml_child cur_node "key"));
    destruct (text_of (ezxml_child cur_node "bucket_type"));
    destruct (text_of (ezxml_child cur_node "user"));
    destruct (text_of (ezxml_child cur_node "password"));
    destruct (text_of (ezxml_child cur_node "ca_file"));
    destruct (text_of (ezxml_child cur_node "cert_file"));
    destruct (text_of (ezxml_child cur_node "key_file"));
    destruct (text_of (ezxml_child cur_node "ciphers"));
    (destruct (text_of (ezxml_child cur_node "session_timeout")) as [t|];
     [cbn [session_timeout set_session_timeout];
      destruct (atoi t <=? 0) eqn:Hpos|]);
    destruct (ezxml_child cur_node "keep_alive");
    (destruct (text_of (ezxml_child node "detect_blank")) as [b|];
     [destruct (ModMapcache.strcasecmp_eq b "true")|]);
    intros [= <- <-] Herr;
    try (discriminate Herr);
    (split; [reflexivity|]); repeat (split; [reflexivity|]);
    intros t' [= <-]; try (apply Z.leb_gt in Hpos); split;
    solve [reflexivity | lia].
Qed.

(** X24.  A riak cache configuration that is read without error has
    exactly one [<server>] tag; the host and the bucket template of the
    cache are the texts of its [<host>] and [<bucket>] tags, which are not
    empty, and the port is what [atoi] reads from the text of [<port>],
    with no check of its range.  An [r] or [w] attribute of [<bucket>] is
    a positive number and is the quorum that the read or write
    properties of the cache ask for. *)
Theorem riak_configured_cache :
  forall node dcache ctx dcache' ctx',
    _mapcache_cache_riak_configuration_parse_xml node dcache ctx
    = (dcache', ctx') ->
    GC_HAS_ERROR ctx' = false ->
    ctx' = ctx
    /\ exists server xbucket port_txt,
         ezxml_children node "server" = [server]
         /\ ezxml_child server "bucket" = Some xbucket
         /\ host dcache' = text_of (ezxml_child server "host")
         /\ host dcache' <> None
         /\ text_of (ezxml_child server "port") = Some port_txt
         /\ port dcache' = atoi port_txt
         /\ bucket_template dcache' = txt xbucket
         /\ bucket_template dcache' <> EmptyString
         /\ (forall r, ezxml_attr xbucket "r" = Some r ->
               0 < atoi r /\ get_properties dcache' = GetProps 1 (atoi r))
         /\ (ezxml_attr xbucket "r" = None -> cache_r dcache' = cache_r dcache)
         /\ (forall w, ezxml_attr xbucket "w" = Some w ->
               0 < atoi w
               /\ put_properties dcache' = PutProps 1 (atoi w) 1 (atoi w))
         /\ (ezxml_attr xbucket "w" = None -> cache_w dcache' = cache_w dcache).
Proof.
  intros node dcache ctx dcache' ctx' Hrun Herr.
  unfold _mapcache_cache_riak_configuration_parse_xml in Hrun.
  unfold ezxml_child at 1 in Hrun.
  destruct (ezxml_children node "server") as [|server [|second rest]] eqn:Hs;
    cbn [hd_error] in Hrun.
  - injection Hrun as <- <-. discriminate Herr.
  - change (Z.of_nat (length [server]) =? 0) with false in Hrun.
    change (1 <? Z.of_nat (length [server])) with false in Hrun.
    cbv iota in Hrun.
    destruct (text_of (ezxml_child server "host")) as [xhost|] eqn:Hhost;
      [|injection Hrun as <- <-; discriminate Herr].
    destruct (text_of (ezxml_child server "port")) as [xport|] eqn:Hport;
      [|injection Hrun as <- <-; discriminate Herr].
    destruct (ezxml_child server "bucket") as [xbucket|] eqn:Hbucket;
      [|injection Hrun as <- <-; discriminate Herr].
    destruct (text_of (Some xbucket)) as [btxt|] eqn:Hbtxt;
      [|injection Hrun as <- <-; discriminate Herr].
    assert (Hb : btxt = txt xbucket /\ btxt <> EmptyString).
    { cbn [text_of] in Hbtxt. destruct (txt xbucket) eqn:Ht.
      - discriminate Hbtxt.
      - cbn in Hbtxt. injection Hbtxt as <-. split; [reflexivity | discriminate]. }
    destruct Hb as [Hb1 Hb2].
    unfold riak_parse_quorums in Hrun.
    split;
      [|exists server, xbucket, xport;
        split; [reflexivity|]; split; [exact Hbucket|];
        rewrite Hhost, Hport].
    + destruct (ezxml_attr xbucket "r") as [r|];
        [cbn [cache_r set_r] in Hrun; destruct (atoi r <=? 0);
         [injection Hrun as <- <-; discriminate Herr|]|];
        (destruct (ezxml_attr xbucket "w") as [w|];
         [cbn [cache_w set_w] in Hrun; destruct (atoi w <=? 0);
          [injection Hrun as <- <-; discriminate Herr|]|]);
        exact (proj1 (riak_parse_options_keeps _ _ _ _ _ _ Hrun Herr)).
    + destruct (ezxml_attr xbucket "r") as [r|];
        [cbn [cache_r set_r] in Hrun; destruct (atoi r <=? 0) eqn:Hrpos;
         [injection Hrun as <- <-; discriminate Herr|];
         apply Z.leb_gt in Hrpos|];
        (destruct (ezxml_attr xbucket "w") as [w|];
         [cbn [cache_w set_w] in Hrun; destruct (atoi w <=? 0) eqn:Hwpos;
          [injection Hrun as <- <-; discriminate Herr|];
          apply Z.leb_gt in Hwpos|]);
        destruct (riak_parse_options_keeps _ _ _ _ _ _ Hrun Herr)
          as (Hctx & Hh & Hp & Hbt & Hcr & Hcw & _);
        cbn in Hh, Hp, Hbt, Hcr, Hcw;
        unfold get_properties, put_properties; rewrite Hh, Hp, Hbt, Hcr, Hcw;
        repeat match goal with
               | |- _ /\ _ => split
               | |- Some _ <> None => discriminate
               | |- forall _, Some _ = Some _ -> _ => intros ? [= <-]
               | |- forall _, None = Some _ -> _ => intros ? [=]
               | |- None = None -> _ => intros _
               | |- Some _ = None -> _ => intros [=]
               | |- 0 < _ => assumption
               | |- (if 0 <? ?x then _ else _) = _ =>
                   replace (0 <? x) with true
                     by (symmetry; apply Z.ltb_lt; assumption)
               | |- _ = _ => first [reflexivity | congruence]
               | |- _ <> EmptyString => congruence
               end.
  - exfalso.
    replace (Z.of_nat (length (server :: second :: rest)))
      with (2 + Z.of_nat (length rest)) in Hrun by (cbn [length]; lia).
    replace (2 + Z.of_nat (length rest) =? 0) with false in Hrun
      by (symmetry; apply Z.eqb_neq; lia).
    replace (1 <? 2 + Z.of_nat (length rest)) with true in Hrun
      by (symmetry; apply Z.ltb_lt; lia).
    injection Hrun as <- <-. discriminate Herr.
Qed.

End RiakConfigFacts.

Section RiakConnections.
Import Ctx Riak.
Context {W client : Type} `{RiakEnv W client} `{ResultCodes}.

(** X25.  The connection constructor hands over a client only after
    that client was created, has connected to the host and port of the
    cache with timeouts of 2000 ms, has started TLS and authenticated
    when riack has its security options ([RIACK_HAVE_SECURITY] is
    defined) and the cache has a user, and has answered a ping, each
    with [RIACK_SUCCESS] and in that order; the context is then as it
    was.  Without the security options neither TLS nor authentication
    is attempted, also for a cache that has a user.  On every failure
    there is no client and the context has error 500; a client that had
    been created is freed last. *)
Theorem riak_connection_is_checked :
  forall cache ctx w ctx' cl w',
    mapcache_riak_connection_constructor cache ctx w = (ctx', cl, w') ->
    match cl with
    | Some c =>
        ctx' = ctx
        /\ exists w0 w1 w2,
             riack_new_client w = (Some c, w0)
             /\ riack_connect c (host cache) (port cache)
                              (ConnOptions 2000 2000 (keep_alive cache)) w0
                = (RIACK_SUCCESS, w1)
             /\ match (if RIACK_HAVE_SECURITY then user cache else None) with
                | Some _ =>
                    exists wt,
                      riack_start_tls c
                        (SecOptions (ca_file cache) (key_file cache)
                                    (cert_file cache) (ciphers cache)
                                    (session_timeout cache)) w1
                      = (RIACK_SUCCESS, wt)
                      /\ riack_auth c (user cache) (password cache) wt
                         = (RIACK_SUCCESS, w2)
                | None => w2 = w1
                end
             /\ riack_ping c w2 = (RIACK_SUCCESS, w')
    | None =>
        (exists m, ctx' = set_error 500 m ctx)
        /\ forall c w0, riack_new_client w = (Some c, w0) ->
                        exists w1, w' = riack_free c w1
    end.
Proof.
  intros cache ctx w ctx' cl w'.
  unfold mapcache_riak_connection_constructor.
  destruct (riack_new_client w) as [[c|] w0].
  2:{ intros [= <- <- <-]. split; [eexists; reflexivity|].
      intros c w1 [=]. }
  destruct (riack_connect c (host cache) (port cache)
              (ConnOptions 2000 2000 (keep_alive cache)) w0) as [rc w1]
    eqn:Hconnect.
  destruct (negb (rc =? RIACK_SUCCESS)) eqn:Hrc.
  { intros [= <- <- <-]. split; [eexists; reflexivity|].
    intros c' w2 [= <- <-]. eexists; reflexivity. }
  apply negb_false_iff, Z.eqb_eq in Hrc. subst rc.
  destruct (if RIACK_HAVE_SECURITY then user cache else None) as [u|] eqn:Huser.
  - destruct (riack_start_tls c
                (SecOptions (ca_file cache) (key_file cache) (cert_file cache)
                            (ciphers cache) (session_timeout cache)) w1)
      as [rt w2] eqn:Htls.
    destruct (negb (rt =? RIACK_SUCCESS)) eqn:Hrt.
    { cbn [negb]. intros [= <- <- <-]. split; [eexists; reflexivity|].
      intros c' w3 [= <- <-]. eexists; reflexivity. }
    destruct (riack_auth c (user cache) (password cache) w2) as [ra w3] eqn:Hauth.
    destruct (negb (ra =? RIACK_SUCCESS)) eqn:Hra.
    { cbn [negb]. intros [= <- <- <-]. split; [eexists; reflexivity|].
      intros c' w4 [= <- <-]. eexists; reflexivity. }
    cbn [negb]. destruct (riack_ping c w3) as [rp w4] eqn:Hping.
    destruct (negb (rp =? RIACK_SUCCESS)) eqn:Hrp.
    { intros [= <- <- <-]. split; [eexists; reflexivity|].
      intros c' w5 [= <- <-]. eexists; reflexivity. }
    intros [= <- <- <-].
    apply negb_false_iff, Z.eqb_eq in Hrp, Hra, Hrt. subst rp ra rt.
    split; [reflexivity|]. exists w0, w1, w3.
    split; [reflexivity|]. split; [exact Hconnect|].
    split; [|exact Hping]. exists w2. split; [exact Htls | exact Hauth].
  - cbn [negb]. destruct (riack_ping c w1) as [rp w4] eqn:Hping.
    destruct (negb (rp =? RIACK_SUCCESS)) eqn:Hrp.
    { intros [= <- <- <-]. split; [eexists; reflexivity|].
      intros c' w5 [= <- <-]. eexists; reflexivity. }
    intros [= <- <- <-].
    apply negb_false_iff, Z.eqb_eq in Hrp. subst rp.
    split; [reflexivity|]. exists w0, w1, w1.
    split; [reflexivity|]. split; [exact Hconnect|].
    split; [reflexivity | exact Hping].
Qed.

End RiakConnections.

Section RiakConfigRuns.
Import Ctx Riak Ezxml Libc RiakConfig SimLibc Sim Scenario RiakScenario
       RiakConfigScenario.

(** The riak document is read without error: host [riak1], port 8087,
    bucket [tiles], reads with a quorum of 2, and blank detection,
    whose value is compared without regard to case. *)
Lemma riak_configured_cache_witness :
  exists dcache',
    _mapcache_cache_riak_configuration_parse_xml a_riak_doc a_new_riak_cache
                                                 new_context
    = (dcache', new_context)
    /\ host dcache' = Some "riak1"%string /\ port dcache' = 8087
    /\ bucket_template dcache' = "tiles"%string
    /\ get_properties dcache' = GetProps 1 2
    /\ put_properties dcache' = PutProps 0 0 0 0
    /\ detect_blank dcache' = 1.
Proof.
  pose (parsed := fst (_mapcache_cache_riak_configuration_parse_xml
                         a_riak_doc a_new_riak_cache new_context)).
  assert (Hrun : _mapcache_cache_riak_configuration_parse_xml
                   a_riak_doc a_new_riak_cache new_context
                 = (parsed, new_context)) by (vm_compute; reflexivity).
  exists parsed. split; [exact Hrun|].
  destruct (@riak_configured_cache sim_libc _ _ _ _ _ Hrun eq_refl)
    as (_ & server & xbucket & port_txt & Hs & Hb & Hhost & _ & Hport & Hp
        & Hbt & _ & Hr & _ & _ & Hw).
  injection Hs as <-. injection Hb as <-. injection Hport as <-.
  split; [exact Hhost|]. split; [exact Hp|]. split; [exact Hbt|].
  split; [exact (proj2 (Hr "2"%string eq_refl))|].
  split; [|reflexivity].
  unfold put_properties. rewrite (Hw eq_refl). reflexivity.
Defined.

(** A server that cannot be reached gives no client and error 500. *)
Lemma riak_connection_is_checked_witness :
  exists m,
    mapcache_riak_connection_constructor a_riak_cache new_context
                                         unreachable_riak_world
    = (set_error 500 m new_context, None, unreachable_riak_world).
Proof.
  pose (failed := set_error 500 (Msg "failed to riack_connect()" [])
                           new_context).
  assert (Hrun : mapcache_riak_connection_constructor a_riak_cache new_context
                                                      unreachable_riak_world
                 = (failed, None, unreachable_riak_world)) by reflexivity.
  destruct (riak_connection_is_checked _ _ _ _ _ _ Hrun) as [[m Hm] _].
  exists m. rewrite <- Hm. exact Hrun.
Defined.

End RiakConfigRuns.
